(* ===== verification/_CoqProject ===== *)
-Q . S2P
Prelude.v
RustInt.v
Soroban.v
RefHost.v
Vesting.v
Timelock.v
Policy.v
SessionPolicy.v
RecipientPolicy.v
ParameterScoped.v
Oracle.v
MultiToken.v
Policies.v
WrapperPolicies.v
Order.v
Factory.v
SmartAccount.v
Verifiers.v
Authorisation.v
RefSystem.v
EndToEnd.v
Payments.v
FeeForwarder.v
System.v
Satellites.v
