(* ===== verification/Prelude.v ===== *)
(** * Latch contracts: a verification development

    The Soroban contracts of the Latch wallet, modelled from their Rust sources
    under src/ and proved correct.  This header documents the whole
    development; it is also the prelude (outcomes, the state-and-error monad,
    vectors, sums, and the tactics the other files use).

    ** The system

    A user owns a _smart account_ (latch-smart-account), deployed at a
    deterministic address by the _factory_ (account-factory).  The account
    authorises an operation when the signers of a context rule authenticate,
    which it checks through stateless _verifier_ contracts (latch-verifiers),
    and when the _policies_ attached to the rule (policies/) accept it: each
    policy is a contract with the entry points install, uninstall and enforce,
    keyed by (account, rule).  The account also deploys satellites, of which the
    repository ships two _templates_: a vesting schedule and a timelock vault.
    A fee forwarder sponsors transactions.  The contracts share no state; they
    interact by calls, authorisation and the policy and verifier interfaces.

    ** How code corresponds to the model

    An entry point [fn f(e: &Env, ...) -> T] is a definition [f : ... -> M (Env
    K V Ev) Err T]: [Env] is the record of Soroban.v (the contract's storage
    with its TTLs, the ledger, the events, and an opaque [World] for everything
    else), [Err] the contract's error enum, and a run either returns a value and
    a state or stops with [ContractError err] ([panic_with_error!]), [Panic] (a
    Rust panic: [unwrap] on [None], overflow under overflow-checks) or
    [HostError] (the host or a callee traps).  The host rolls back a failing
    transaction, so failures carry no state.  [if c { panic_with_error!(..) }]
    is [throw_if c ..], [unwrap_or_else(|| panic_with_error!(..))] is
    [unwrap_or_throw], in the order of the source.  Machine integers are [Z]
    with the overflow behaviour of each operator written out (RustInt.v).  The
    SDK, the host, other contracts and the OpenZeppelin crates are not in the
    repository: what the code uses of them are fields of classes ([Host],
    [TokenClient], [PriceCodec], [FactoryHost], [AccountLib], [ForwarderLib],
    [SimpleThreshold], [WeightedThreshold], [SpendingLimit], [Crypto]; for the
    composition [Authorisation], [PolicyContract], [System], [Deployment]), and
    the documented behaviour a theorem relies on is a separate class of laws.
    RefHost.v, RefSystem.v and the ends of the component files give concrete
    instances of all of them; the witnesses of the properties run the contracts
    there.

    ** The files

    - Prelude: outcomes, the monad and its inversion tactics, [inv_run] for runs
      that succeed and [inv_trap] for runs that fail.
    - RustInt: u32, u64, u128 and i128 arithmetic, bytes.
    - Soroban: the host classes, the environment, storage, TTLs, events,
      authorisation, cross-contract calls; RefHost: the executable host.
    - Vesting (templates/vesting-schedule/src/lib.rs): the contract with its
      128-bit arithmetic. [vesting_no_dust]: over any run from deployment the
      claims pay exactly the vested amount and exactly the total in the end;
      [vesting_solvent]: once funded it can always pay, and does;
      [compute_vested_spec], [mul_div_u128_exact]: no overflow panic, exact
      closed form; [claim_spec], [constructor_spec]: every branch.
    - Timelock, Module Vault (templates/timelock-vault/src/lib.rs).
      [vault_locked]: no balance leaves before the unlock ledger, whoever calls
      what; [vault_releases]: it holds at least its deposits less its
      withdrawals, and afterwards the owner can withdraw all of that;
      [vault_kept_alive]: the TTL argument of bump_ttl; [withdraw_spec].
    - Policy: the policy trait as a class, its laws (frame, installation
      registry, authorisation) and their consequences for any run; policies as
      machines on a view of each entry ([PolicyMachine]); entries that uses keep
      live ([PolicyTtl]).  Policies: the four policies with code of their own
      keep that contract ([policies_keep_registry]), their stored data is well
      typed ([policies_data_well_typed]), and their entries stay live while used
      ([policies_stay_live]).
    - SessionPolicy, Module Session (policies/session-policy/src).
      [session_confined]: a session key only ever calls the installed functions.
    - RecipientPolicy, Module Recipient (policies/recipient-allowlist-policy/
      src/lib.rs). [recipient_allowlist_refines]: the stored lists are the map
      the successful calls describe.
    - ParameterScoped, Module ParamScoped (policies/parameter-scoped-policy/
      src). [parameter_pinned]: every call let through is to a configured
      function and satisfies every condition installed for it.
    - Oracle and MultiToken (policies/multi-token-spending-limit-policy/src/
      oracle.rs and lib.rs). [rolling_limit]: over any run, no window of the
      period ever spends more than the limit; [cleanup_window]: the eviction
      loop is the filter on the window; [enforce_decision]: the decision is
      exact; [to_usd_exact], [fetch_price_fails_closed], [divisors_bounded].
    - WrapperPolicies, Modules Threshold, Weighted and Spending
      (policies/threshold-policy, weighted-threshold-policy and
      spending-limit-policy, src/lib.rs): the contracts around stellar-accounts
      policy modules. [threshold_run], [weighted_run], [spending_run]: over any
      run they report and enforce what their calls configured, and the signer
      set divergence their documentation warns of.
    - Order: total orders and sorted insertion; Factory, Module Factory
      (account-factory/contracts/factory-contract/src/lib.rs).
      [canonicalize_spec], [normalize_spec], [account_order_independent],
      [account_salt_commits] (the salt commits to the account up to a SHA-256
      collision), [create_account_spec], [create_account_idempotent],
      [factory_configured], [factory_terminates].
    - SmartAccount, Module Account (latch-smart-account/src/lib.rs).
      [registry_refines_list]: the registry of deployed contracts is the list
      of deployments; [deploy_contract_spec]; [account_gated].
    - FeeForwarder, Module Forwarder (fee-forwarder/src/lib.rs).
      [forwarder_permissioned]: from construction on, only holders of the
      executor role forward and only holders of the manager role administer, a
      role being what the constructor granted until AccessControl changes it.
    - Verifiers, a Module per contract (latch-verifiers/*/src/lib.rs and
      demo/modified-ed25519-verifier/src/lib.rs): each verifier on every branch,
      the hexadecimal encoder, and the verifier interface.
    - Authorisation: histories of the whole system, in which accounts authorise
      transactions by [Account.check_auth] and any other transaction happens in
      between; the library's check, as documented, hands each context to the
      policies of the rule it names; a history of the system is, for each policy
      contract, a run of Policy.v ([run_policy]).  RefSystem: an executable
      ledger and library with those laws, over any of the policies.
    - EndToEnd: what an account authorises under a rule with a policy, whatever
      the order and number of contexts and transactions. [session_key_confined]:
      a session key stays on its functions, its contract, its expiry and its
      signers; [account_budget]: what is authorised stays within the limit in
      every window.  Payments: [payments_confined]: transfers go to the
      recipients on the list in force; [arguments_confined]: calls satisfy the
      conditions configured for them.
    - System: the components composed. [created_account_guarded]: from
      create_account through the account's constructor to the threshold policy,
      the account gets the rule and the threshold that were asked for, enforced
      over any later run; [multisig_needs_threshold]: whatever it authorises
      under that rule was approved by that many of the signers asked for, each
      by its verifier; [factory_keys_suit_verifiers]: the keys the factory
      accepts against the verifiers that read them.
    - Satellites: the templates as an account deploys them.
      [deployed_vault_locked]: a vault is recorded and locked from its first
      ledger; [deployed_schedule_pays]: a schedule is recorded and pays exactly
      what the constructor's arguments say.

    Every enforce, claim, withdraw, deploy and create entry point has its
    functional theorem with the documented error of each branch.  For the four
    policies with code of their own and for create_account it is exhaustive: a
    success is characterised by an [enforce_outcome] ([created]) and a failure,
    error by error in the code's order, by an inductive [enforce_refused]
    ([create_refused]), both up to equivalence: [session_enforce_spec],
    [recipient_enforce_spec], [parameter_enforce_spec],
    [multi_token_enforce_spec], [create_account_spec].  The theorems about runs
    are proved by induction on runs in which calls of any kind, time and changes
    of the rest of the world interleave.

    ** Fuel and bounds

    The source's loops are structural recursions over vectors, except the
    index loop of canonicalize_signers: [Factory.insert_loop] has one more unit
    of fuel than the vector has positions, and [insert_loop_run] proves it never
    runs out ([factory_terminates]: it is a well-founded loop, and more fuel changes
    nothing).  Ledger numbers, periods and counters are assumed in the range of
    their Rust types where a theorem needs it ([is_u32] and the like).

    ** What is not modelled

    The stellar-accounts policy modules behind the threshold, weighted-threshold
    and spending-limit policies, the account's do_check_auth, the methods of its
    SmartAccount and ExecutionEntryPoint traits and those of the forwarder's
    AccessControl trait (all defaults of library crates) are outside the
    repository: each is a call of a class ([Account.trait_call],
    [Forwarder.access]), whose documented behaviour the laws state.  The dummy
    contracts are test stubs.  Arguments are values of their Rust types, the
    elements of vectors and maps included: the SDK converts an element when it
    is read, and its iterators panic on an element of another type
    ([params.conditions.iter()], [allowed_tokens.iter()], the signers of a
    request), a trap that this development does not show.  Archival of expired
    entries is visible as the stored last live ledger, not as the disappearance
    of entries; resource limits and fees are not modelled. *)
From stdpp Require Export base list numbers option gmap strings sorting.
From Stdlib Require Export ZArith Lia.

(** ** Outcomes of a contract call *)

(** How an invocation can stop without returning: a contract error raised by
    [panic_with_error!], a plain Rust panic ([unwrap] on [None], an arithmetic
    overflow under [overflow-checks], ...), or a failing host function (missing
    authorisation, a trapping cross-contract call, a rejected signature).  The
    host rolls the transaction back in all three cases, so no state is kept. *)
Inductive trap (E : Type) : Type :=
  | ContractError (e : E)
  | Panic
  | HostError.
Arguments ContractError {E} e.
Arguments Panic {E}.
Arguments HostError {E}.

Inductive result (E A : Type) : Type :=
  | Ok (a : A)
  | Err (t : trap E).
Arguments Ok {E A} a.
Arguments Err {E A} t.

(** The state and the value of a successful run, for concrete executions. *)
Definition final {E A S} (r : result E (A * S)) (default : S) : S :=
  match r with Ok (_, s) => s | Err _ => default end.
Definition value {E A S} (r : result E (A * S)) (default : A) : A :=
  match r with Ok (a, _) => a | Err _ => default end.

Definition is_Ok {E A} (r : result E A) : Prop :=
  match r with Ok _ => True | Err _ => False end.

(** ** The state-and-error monad in which entry points are written *)

Definition M (S E A : Type) : Type := S → result E (A * S).

Section monad.
Context {S E : Type}.

#[global] Instance M_ret : MRet (M S E) := λ A a s, Ok (a, s).
#[global] Instance M_bind : MBind (M S E) := λ A B k m s,
  match m s with
  | Ok (a, s') => k a s'
  | Err t => Err t
  end.

(** [panic_with_error!(e, err)] *)
Definition throw {A} (e : E) : M S E A := λ _, Err (ContractError e).
(** A Rust panic: [unwrap()] on [None], checked arithmetic, ... *)
Definition panic {A} : M S E A := λ _, Err Panic.
(** [if c { panic_with_error!(e, err) }] *)
Definition throw_if (c : bool) (e : E) : M S E unit :=
  λ s, if c then Err (ContractError e) else Ok (tt, s).
(** [o.unwrap_or_else(|| panic_with_error!(e, err))] *)
Definition unwrap_or_throw {A} (o : option A) (e : E) : M S E A :=
  λ s, match o with Some a => Ok (a, s) | None => Err (ContractError e) end.
(** [o.unwrap()], and arithmetic that panics when it overflows *)
Definition unwrap {A} (o : option A) : M S E A :=
  λ s, match o with Some a => Ok (a, s) | None => Err Panic end.

Definition read {A} (f : S → A) : M S E A := λ s, Ok (f s, s).
Definition modify (f : S → S) : M S E unit := λ s, Ok (tt, f s).

Lemma bind_Ok {A B} (m : M S E A) (k : A → M S E B) s b s' :
  (m ≫= k) s = Ok (b, s') ↔ ∃ a s1, m s = Ok (a, s1) ∧ k a s1 = Ok (b, s').
Proof.
  unfold mbind, M_bind. split.
  - destruct (m s) as [[a s1]|t] eqn:Hm; [|done]. eauto.
  - intros (a & s1 & -> & Hk). done.
Qed.

Lemma bind_run {A B} (m : M S E A) (k : A → M S E B) s a s1 :
  m s = Ok (a, s1) → (m ≫= k) s = k a s1.
Proof. unfold mbind, M_bind. by intros ->. Qed.

Lemma bind_do {B} (m : M S E unit) (k : unit → M S E B) s s1 :
  m s = Ok (tt, s1) → (m ≫= k) s = k tt s1.
Proof. apply bind_run. Qed.

Lemma bind_Err {A B} (m : M S E A) (k : A → M S E B) s t :
  m s = Err t → (m ≫= k) s = Err t.
Proof. unfold mbind, M_bind. by intros ->. Qed.

Lemma ret_Ok {A} (a b : A) (s s' : S) :
  (mret a : M S E A) s = Ok (b, s') ↔ b = a ∧ s' = s.
Proof. unfold mret, M_ret. naive_solver. Qed.

Lemma throw_Ok {A} (e : E) (s : S) (r : A * S) : throw e s = Ok r ↔ False.
Proof. unfold throw. naive_solver. Qed.

Lemma panic_Ok {A} (s : S) (r : A * S) : (panic : M S E A) s = Ok r ↔ False.
Proof. unfold panic. naive_solver. Qed.

Lemma throw_if_Ok (c : bool) (e : E) (s s' : S) (u : unit) :
  throw_if c e s = Ok (u, s') ↔ c = false ∧ s' = s.
Proof. unfold throw_if. destruct u, c; naive_solver. Qed.

Lemma unwrap_or_throw_Ok {A} (o : option A) (e : E) (s s' : S) (a : A) :
  unwrap_or_throw o e s = Ok (a, s') ↔ o = Some a ∧ s' = s.
Proof. unfold unwrap_or_throw. destruct o; naive_solver. Qed.

Lemma unwrap_Ok {A} (o : option A) (s s' : S) (a : A) :
  (unwrap o : M S E A) s = Ok (a, s') ↔ o = Some a ∧ s' = s.
Proof. unfold unwrap. destruct o; naive_solver. Qed.

Lemma read_Ok {A} (f : S → A) (s s' : S) (a : A) :
  (read f : M S E A) s = Ok (a, s') ↔ a = f s ∧ s' = s.
Proof. unfold read. naive_solver. Qed.

Lemma modify_Ok (f : S → S) (s s' : S) (u : unit) :
  (modify f : M S E unit) s = Ok (u, s') ↔ s' = f s.
Proof. unfold modify. destruct u. naive_solver. Qed.

(** A failing run: which step failed, and how. *)
Lemma bind_Err_iff {A B} (m : M S E A) (k : A → M S E B) s t :
  (m ≫= k) s = Err t ↔ m s = Err t ∨ ∃ a s1, m s = Ok (a, s1) ∧ k a s1 = Err t.
Proof.
  unfold mbind, M_bind. destruct (m s) as [[a s1]|t']; [|naive_solver].
  split; [eauto|]. by intros [?|(? & ? & [= <- <-] & Hk)].
Qed.

Lemma ret_Err {A} (a : A) (s : S) t : (mret a : M S E A) s = Err t ↔ False.
Proof. unfold mret, M_ret. naive_solver. Qed.

Lemma throw_if_Err (c : bool) (e : E) (s : S) t :
  throw_if c e s = Err t ↔ c = true ∧ t = ContractError e.
Proof. unfold throw_if. destruct c; naive_solver. Qed.

Lemma unwrap_or_throw_Err {A} (o : option A) (e : E) (s : S) t :
  unwrap_or_throw o e s = Err t ↔ o = None ∧ t = ContractError e.
Proof. unfold unwrap_or_throw. destruct o; naive_solver. Qed.

Lemma unwrap_Err {A} (o : option A) (s : S) t :
  (unwrap o : M S E A) s = Err t ↔ o = None ∧ t = Panic.
Proof. unfold unwrap. destruct o; naive_solver. Qed.
End monad.

#[global] Typeclasses Opaque M.
Arguments throw {S E A} e _ /.
Arguments panic {S E A} _ /.
Arguments throw_if {S E} c e _ : simpl never.
Arguments unwrap_or_throw {S E A} o e _ : simpl never.
Arguments unwrap {S E A} o _ : simpl never.
Arguments read {S E A} f _ : simpl never.
Arguments modify {S E} f _ : simpl never.

(** ** Vectors *)

(** [vec.len()] and [vec.is_empty()]. *)
Definition zlen {A} (l : list A) : Z := Z.of_nat (length l).
Definition is_empty {A} (l : list A) : bool := match l with [] => true | _ => false end.

Lemma is_empty_false {A} (l : list A) : is_empty l = false ↔ l ≠ [].
Proof. by destruct l. Qed.
Lemma is_empty_true {A} (l : list A) : is_empty l = true ↔ l = [].
Proof. by destruct l. Qed.
Lemma zlen_nonneg {A} (l : list A) : (0 ≤ zlen l)%Z.
Proof. unfold zlen. lia. Qed.

(** The equations that turn "this run succeeded with ..." into facts about its
    steps; each component adds its own primitives. *)
Create Rewrite HintDb runs.
#[export] Hint Rewrite @ret_Ok @throw_Ok @panic_Ok @throw_if_Ok @unwrap_or_throw_Ok
  @unwrap_Ok @read_Ok @modify_Ok : runs.

(** The head constant of an application. *)
Ltac get_head t := lazymatch t with ?f _ => get_head f | _ => t end.

(** [inv_run H] takes a hypothesis [H : m s = Ok (a, s')] apart into the facts
    that made every step of [m] succeed. *)
Ltac inv_run_step :=
  match goal with
  | H : (_ ≫= _) _ = Ok _ |- _ => apply bind_Ok in H as (? & ? & ? & ?)
  | H : _ ∧ _ |- _ => destruct H
  | H : ∃ _, _ |- _ => destruct H
  | H : False |- _ => destruct H
  | H : Ok _ = Ok _ |- _ => injection H as H; subst
  | H : Err _ = Ok _ |- _ => discriminate H
  | H : (match ?x with _ => _ end) _ = Ok _ |- _ => destruct x eqn:?
  | H : _ _ = Ok _ |- _ => progress (autorewrite with runs in H)
  | H : _ <$> _ = Some _ |- _ => apply fmap_Some in H as (? & ? & ?)
  | H1 : ?o = Some _, H2 : match ?o with Some _ => _ | None => _ end |- _ => rewrite H1 in H2
  | H : bool_decide (is_Some _) = false |- _ =>
      apply bool_decide_eq_false in H; apply eq_None_not_Some in H
  | H : bool_decide _ = false |- _ => apply bool_decide_eq_false in H
  | H : bool_decide _ = true |- _ => apply bool_decide_eq_true in H
  | H : negb _ = false |- _ => apply negb_false_iff in H
  | H : is_empty _ = false |- _ => apply is_empty_false in H
  | H : _ || _ = false |- _ => apply orb_false_iff in H
  | H : (_ <=? _)%Z = false |- _ => apply Z.leb_gt in H
  | H : (_ <? _)%Z = false |- _ => apply Z.ltb_ge in H
  | H : ?x = ?y |- _ => is_var x; subst x
  | H : ?x = ?y |- _ => is_var y; subst y
  end.
Ltac inv_run := repeat inv_run_step.

(** [inv_trap] takes a hypothesis [H : m s = Err t] apart into a case per step of
    [m] that can fail, with what made the steps before it succeed. *)
Create Rewrite HintDb traps.
#[export] Hint Rewrite @ret_Err @throw_if_Err @unwrap_or_throw_Err @unwrap_Err : traps.
Ltac inv_trap_step :=
  match goal with
  | H : (_ ≫= _) _ = Err _ |- _ => apply bind_Err_iff in H as [?|(? & ? & ? & ?)]
  | H : Ok _ = Err _ |- _ => discriminate H
  | H : Err _ = Err _ |- _ => injection H as H; subst
  | H : (match ?x with _ => _ end) _ = Err _ |- _ => destruct x eqn:?
  | H : _ _ = Err _ |- _ => progress (autorewrite with traps in H)
  | H : _ <$> _ = None |- _ => apply fmap_None in H
  | H : is_empty _ = true |- _ => apply is_empty_true in H
  | H : negb _ = true |- _ => apply negb_true_iff in H
  | H : (_ <? _)%Z = true |- _ => apply Z.ltb_lt in H
  | H : (_ <=? _)%Z = true |- _ => apply Z.leb_le in H
  | _ => inv_run_step
  end.
Ltac inv_trap := repeat inv_trap_step.

(** [exec_monad] runs a goal forward: every monadic combinator and primitive is
    unfolded as far as the hypotheses determine it. [Soroban.exec] adds the
    host primitives. *)
Ltac exec_monad :=
  unfold mbind, M_bind, mret, M_ret, throw_if, unwrap, unwrap_or_throw, throw,
    panic, read, modify; simpl.

(** *** Runs that cannot panic

    [panics_only P m]: a Rust panic of [m] (a failed [unwrap], an overflow, or
    the fuel of a modelled loop running out) implies [P]; [no_panic m]: there is
    none, so [m] returns, or fails with a contract error or in the host. *)
Definition panics_only {S E A} (P : Prop) (m : M S E A) : Prop := ∀ s, m s = Err Panic → P.
Abbreviation no_panic := (panics_only False).

Section panics.
Context {S E : Type} (P : Prop).

Lemma panics_bind {A B} (m : M S E A) (k : A → M S E B) :
  panics_only P m → (∀ a, panics_only P (k a)) → panics_only P (m ≫= k).
Proof.
  intros Hm Hk s. unfold mbind, M_bind. pose proof (Hm s) as Hp.
  destruct (m s) as [[a s']|t]; [apply Hk|]. intros [= ->]. by apply Hp.
Qed.
Lemma panics_ret {A} (a : A) : panics_only P (mret a : M S E A).
Proof. by intros s. Qed.
Lemma panics_throw {A} (e : E) : panics_only P (throw e : M S E A).
Proof. by intros s. Qed.
Lemma panics_throw_if (c : bool) (e : E) : panics_only P (throw_if c e : M S E unit).
Proof. intros s. unfold throw_if. by destruct c. Qed.
Lemma panics_unwrap_or_throw {A} (o : option A) (e : E) :
  panics_only P (unwrap_or_throw o e : M S E A).
Proof. intros s. unfold unwrap_or_throw. by destruct o. Qed.
Lemma panics_read {A} (f : S → A) : panics_only P (read f : M S E A).
Proof. by intros s. Qed.
Lemma panics_modify (f : S → S) : panics_only P (modify f : M S E unit).
Proof. by intros s. Qed.
End panics.
Create HintDb panics.
#[export] Hint Resolve panics_ret panics_throw panics_throw_if
  panics_unwrap_or_throw panics_read panics_modify : panics.

(** Follows the structure of an entry point down to its primitives. *)
Ltac solve_panics :=
  repeat first
    [ solve [auto with panics]
    | apply panics_bind; [|intros ?]
    | match goal with |- panics_only _ (match ?x with _ => _ end) => destruct x eqn:? end
    | progress cbv zeta ].

(** Forward steps: the head of the run is known to return a value, or unit. *)
Tactic Notation "step_get" "by" tactic3(tac) := erewrite bind_run; [|by tac].
Tactic Notation "step_do" "by" tactic3(tac) := erewrite bind_do; [|by tac].

(** Concrete executions: an equation between closed terms, checked by running
    both sides; and closed integer comparisons. *)
Ltac by_run := lazymatch goal with |- _ = ?b => vm_cast_no_check (eq_refl b) end.
Ltac by_cmp := repeat split; vm_compute; first [reflexivity | discriminate].

(** A run that succeeds ends in its own value and final state: checking this
    needs neither of them in normal form. *)
Definition succeeds {E A} (r : result E A) : bool :=
  match r with Ok _ => true | Err _ => false end.
Lemma ok_value {E A S} (r : result E (A * S)) a s :
  succeeds r = true → r = Ok (value r a, final r s).
Proof. by destruct r as [[]|]. Qed.
Lemma ok_final {E S} (r : result E (unit * S)) s :
  succeeds r = true → r = Ok (tt, final r s).
Proof. by destruct r as [[[]]|]. Qed.

(** ** Sums of integers *)

Definition sumZ (l : list Z) : Z := foldr Z.add 0%Z l.

Lemma sumZ_app l1 l2 : sumZ (l1 ++ l2) = (sumZ l1 + sumZ l2)%Z.
Proof. induction l1 as [|z l1 IH]; simpl; [done|]. rewrite IH. lia. Qed.

Lemma sumZ_singleton z : sumZ [z] = z.
Proof. simpl. lia. Qed.

Lemma sumZ_nonneg l : Forall (λ z, 0 ≤ z)%Z l → (0 ≤ sumZ l)%Z.
Proof. induction 1; simpl; lia. Qed.

Create Rewrite HintDb sums.
#[export] Hint Rewrite sumZ_app sumZ_singleton : sums.


(** ** Lists *)

(** What is related to a list has a part related to each part of it. *)
Lemma sublist_Forall2 {A B} (R : A → B → Prop) l1 l2 k2 :
  l1 `sublist_of` l2 → Forall2 R l2 k2 → ∃ k1, k1 `sublist_of` k2 ∧ Forall2 R l1 k1.
Proof.
  intros Hl. revert k2. induction Hl as [|x l1 l2 _ IH|x l1 l2 _ IH]; intros k2 Hk.
  - exists []. split; [apply sublist_nil_l|constructor].
  - apply Forall2_cons_inv_l in Hk as (y & k & Hxy & Hk & ->).
    destruct (IH k Hk) as (k1 & Hs & Hr). exists (y :: k1).
    split; [by apply sublist_skip|by constructor].
  - apply Forall2_cons_inv_l in Hk as (y & k & _ & Hk & ->).
    destruct (IH k Hk) as (k1 & Hs & Hr). exists k1. split; [by apply sublist_cons|done].
Qed.
