(* ===== verification/RustInt.v ===== *)
(** * Machine integers

    Rust's fixed-width integers as [Z], each operation with the overflow
    behaviour the source relies on: [checked_*] and [saturating_*] methods,
    [as] casts, and the plain operators, which panic on overflow because the
    release profile sets [overflow-checks = true] (Cargo.toml). A panicking
    operator returns [None]. *)
From S2P Require Import Prelude.
Local Open Scope Z_scope.

Definition u8_max : Z := 2 ^ 8 - 1.
Definition u32_max : Z := 2 ^ 32 - 1.
Definition u64_max : Z := 2 ^ 64 - 1.
Definition u128_max : Z := 2 ^ 128 - 1.
Definition i128_min : Z := - 2 ^ 127.
Definition i128_max : Z := 2 ^ 127 - 1.

Definition is_u8 (z : Z) : Prop := 0 ≤ z ≤ u8_max.
Definition is_u32 (z : Z) : Prop := 0 ≤ z ≤ u32_max.
Definition is_u64 (z : Z) : Prop := 0 ≤ z ≤ u64_max.
Definition is_u128 (z : Z) : Prop := 0 ≤ z ≤ u128_max.
Definition is_i128 (z : Z) : Prop := i128_min ≤ z ≤ i128_max.

(** A result kept only when it lies in the type's range. *)
Definition in_range (lo hi z : Z) : option Z :=
  if (lo <=? z) && (z <=? hi) then Some z else None.
(** A result clamped to the type's range. *)
Definition clamp (lo hi z : Z) : Z := Z.max lo (Z.min hi z).

(** *** Operators that panic on overflow *)
Definition u32_sub (a b : Z) : option Z := in_range 0 u32_max (a - b).
Definition u128_add (a b : Z) : option Z := in_range 0 u128_max (a + b).
Definition u128_mul (a b : Z) : option Z := in_range 0 u128_max (a * b).
Definition u128_div (a b : Z) : option Z := if b =? 0 then None else Some (a / b).
Definition u128_rem (a b : Z) : option Z := if b =? 0 then None else Some (a mod b).
Definition u64_mul (a b : Z) : option Z := in_range 0 u64_max (a * b).

(** *** Shifts: only the shift amount is checked, the lost bits are dropped. *)
Definition u128_shl (a n : Z) : Z := Z.shiftl a n mod 2 ^ 128.
Definition u128_shr (a n : Z) : Z := Z.shiftr a n.

(** *** [as] casts *)
Definition as_u64 (z : Z) : Z := z mod 2 ^ 64.
Definition as_u128 (z : Z) : Z := z mod 2 ^ 128.
Definition as_i128 (z : Z) : Z := (z + 2 ^ 127) mod 2 ^ 128 - 2 ^ 127.

(** *** Checked and saturating methods *)
Definition u32_checked_add (a b : Z) : option Z := in_range 0 u32_max (a + b).
Definition u32_saturating_sub (a b : Z) : Z := clamp 0 u32_max (a - b).
Definition u64_saturating_sub (a b : Z) : Z := clamp 0 u64_max (a - b).
Definition u128_checked_mul (a b : Z) : option Z := in_range 0 u128_max (a * b).
Definition i128_checked_add (a b : Z) : option Z := in_range i128_min i128_max (a + b).
Definition i128_checked_mul (a b : Z) : option Z := in_range i128_min i128_max (a * b).
Definition i128_checked_div (a b : Z) : option Z :=
  if b =? 0 then None else in_range i128_min i128_max (Z.quot a b).
Definition i128_checked_pow (a : Z) (n : Z) : option Z :=
  in_range i128_min i128_max (a ^ n).
Definition i128_saturating_add (a b : Z) : Z := clamp i128_min i128_max (a + b).
Definition i128_saturating_sub (a b : Z) : Z := clamp i128_min i128_max (a - b).

(** Unfold the ranges, leaving powers of two as numerals, then [lia]. *)
Ltac unfold_ranges :=
  unfold is_u8, is_u32, is_u64, is_u128, is_i128, clamp,
    u8_max, u32_max, u64_max, u128_max, i128_min, i128_max in *;
  change (2 ^ 8) with 256 in *;
  change (2 ^ 32) with 4294967296 in *;
  change (2 ^ 64) with 18446744073709551616 in *;
  change (2 ^ 127) with 170141183460469231731687303715884105728 in *;
  change (2 ^ 128) with 340282366920938463463374607431768211456 in *.
Ltac ranges := unfold_ranges; lia.

Lemma in_range_Some lo hi z r : in_range lo hi z = Some r ↔ r = z ∧ lo ≤ z ≤ hi.
Proof.
  unfold in_range. destruct (Z.leb_spec lo z), (Z.leb_spec z hi); simpl;
    (split; [intros; simplify_eq; lia | intros [-> ?]; first [done | exfalso; lia]]).
Qed.

Lemma in_range_None lo hi z : in_range lo hi z = None ↔ ¬ (lo ≤ z ≤ hi).
Proof.
  unfold in_range. destruct (Z.leb_spec lo z), (Z.leb_spec z hi); simpl;
    (split; [intros; simplify_eq; lia | intros; first [done | exfalso; lia]]).
Qed.

Lemma in_range_in lo hi z : lo ≤ z ≤ hi → in_range lo hi z = Some z.
Proof. intros. by apply in_range_Some. Qed.

Lemma clamp_in lo hi z : lo ≤ z ≤ hi → clamp lo hi z = z.
Proof. unfold clamp. lia. Qed.

Lemma u32_sub_ok a b : is_u32 a → 0 ≤ b ≤ a → u32_sub a b = Some (a - b).
Proof. intros. apply in_range_in. ranges. Qed.

Lemma as_u64_id z : is_u64 z → as_u64 z = z.
Proof. intros. unfold as_u64. apply Z.mod_small. ranges. Qed.

Lemma as_u128_id z : is_u128 z → as_u128 z = z.
Proof. intros. unfold as_u128. apply Z.mod_small. ranges. Qed.

Lemma as_i128_id z : is_i128 z → as_i128 z = z.
Proof. intros. unfold as_i128. rewrite Z.mod_small; ranges. Qed.

Lemma u128_shl_small a n : 0 ≤ n → 0 ≤ a → a * 2 ^ n ≤ u128_max → u128_shl a n = a * 2 ^ n.
Proof.
  intros Hn Ha Hb. unfold u128_shl. rewrite Z.shiftl_mul_pow2 by done.
  apply Z.mod_small. split; [nia|]. ranges.
Qed.

Lemma u128_div_pos a b : 0 < b → u128_div a b = Some (a / b).
Proof. intros. unfold u128_div. by rewrite (proj2 (Z.eqb_neq b 0)) by lia. Qed.

Lemma u128_rem_pos a b : 0 < b → u128_rem a b = Some (a mod b).
Proof. intros. unfold u128_rem. by rewrite (proj2 (Z.eqb_neq b 0)) by lia. Qed.

(** *** Bytes *)

Abbreviation byte := Byte.byte.

#[global] Instance byte_eq_dec : EqDecision byte := Byte.byte_eq_dec.
#[global] Program Instance byte_countable : Countable byte :=
  inj_countable Byte.to_N Byte.of_N _.
Next Obligation. apply Byte.of_to_N. Qed.

(** [z as u8] *)
Definition byte_of_Z (z : Z) : byte :=
  default Byte.x00 (Byte.of_N (Z.to_N (z mod 256))).
Definition Z_of_byte (b : byte) : Z := Z.of_N (Byte.to_N b).

Lemma Z_of_byte_bound b : 0 ≤ Z_of_byte b < 256.
Proof. destruct b; by vm_compute. Qed.

Lemma Z_of_byte_of_Z z : Z_of_byte (byte_of_Z z) = z mod 256.
Proof.
  unfold byte_of_Z, Z_of_byte.
  assert (0 ≤ z mod 256 < 256) as Hb by (apply Z.mod_pos_bound; lia).
  pose proof (Byte.to_of_N_option_map (Z.to_N (z mod 256))) as Hm.
  rewrite (proj2 (N.leb_le _ _)) in Hm by lia.
  destruct (Byte.of_N _) as [b|] eqn:Hof; [|done]. simpl in *. injection Hm as Hm.
  rewrite Hm. lia.
Qed.

Lemma byte_of_Z_of_byte b : byte_of_Z (Z_of_byte b) = b.
Proof.
  unfold byte_of_Z, Z_of_byte. pose proof (Z_of_byte_bound b) as Hb. unfold Z_of_byte in Hb.
  rewrite Z.mod_small by done. by rewrite N2Z.id, Byte.of_to_N.
Qed.

Lemma Z_of_byte_inj b1 b2 : Z_of_byte b1 = Z_of_byte b2 → b1 = b2.
Proof. intros H. by rewrite <- (byte_of_Z_of_byte b1), H, byte_of_Z_of_byte. Qed.

(** [u32::to_be_bytes] *)
Definition u32_to_be_bytes (n : Z) : list byte :=
  [byte_of_Z (Z.shiftr n 24); byte_of_Z (Z.shiftr n 16);
   byte_of_Z (Z.shiftr n 8); byte_of_Z n].

Lemma u32_to_be_bytes_inj a b :
  is_u32 a → is_u32 b → u32_to_be_bytes a = u32_to_be_bytes b → a = b.
Proof.
  intros Ha Hb [= H3 H2 H1 H0].
  apply (f_equal Z_of_byte) in H0, H1, H2, H3.
  rewrite !Z_of_byte_of_Z, ?Z.shiftr_div_pow2 in * by lia.
  change (2 ^ 24) with (256 * 65536) in *. change (2 ^ 16) with 65536 in *.
  change (2 ^ 8) with 256 in *. unfold_ranges.
  pose proof (Z.div_mod a 256). pose proof (Z.div_mod b 256).
  Z.div_mod_to_equations. lia.
Qed.
