(* ===== verification/Soroban.v ===== *)
(** * The Soroban host, as the contracts see it

    What the contracts use of [soroban-sdk] and of other contracts.  The SDK,
    the host and the contracts called are not part of the repository, so
    everything that decides something (authorisation, TTL arithmetic,
    conversions of host values, token transfers) is a field of a class, with
    the documented behaviour the theorems rely on in a separate class of laws.
    A contract's own storage is the finite map the SDK documents it to be; it
    is changed by the executing contract only, since the host refuses
    re-entrant calls. *)
From S2P Require Import Prelude RustInt.
Local Open Scope Z_scope.

(** Function names and other symbols. *)
Abbreviation Symbol := string.
(** [soroban_sdk::Bytes] and [BytesN<n>]: byte strings. *)
Abbreviation Bytes := (list byte).

Class Host := {
  (** Addresses are opaque; the SDK gives them equality. *)
  Address : Type;
  #[global] Address_eq_dec :: EqDecision Address;
  #[global] Address_countable :: Countable Address;
  (** [soroban_sdk::Val] and the conversions [TryFromVal] the contracts use. *)
  Val : Type;
  val_to_u32 : Val → option Z;
  val_to_i32 : Val → option Z;
  val_to_u64 : Val → option Z;
  val_to_i64 : Val → option Z;
  val_to_u128 : Val → option Z;
  val_to_i128 : Val → option Z;
  val_to_symbol : Val → option Symbol;
  val_to_address : Val → option Address;
  (** Everything on the ledger and in the transaction outside the executing
      contract's own storage: other contracts, authorisation entries, nonces. *)
  World : Type;
  (** [require_auth self a w]: while contract [self] executes, the host checks
      that [a] authorised this call, consuming the authorisation and running a
      contract account's [__check_auth]; [None] when it does not succeed. *)
  host_require_auth : Address → Address → World → option World;
  (** [extend_ttl seq live threshold extend_to]: the new last live ledger of an
      entry that was live until [live]; [None] when the host refuses. *)
  host_extend_ttl : Z → Z → Z → Z → option Z;
  (** The last live ledger of an entry created at a ledger. *)
  host_new_live_until : Z → Z;
  (** [e.invoke_contract]: executing contract, callee, function, arguments. *)
  host_invoke : Address → Address → Symbol → list Val → World → option (Val * World);
}.

(** The integer conversions return values of their type. *)
Class ValLaws `{Host} : Prop := {
  val_to_i128_range v z : val_to_i128 v = Some z → is_i128 z;
  val_to_u32_range v z : val_to_u32 v = Some z → is_u32 z;
}.

(** Documented behaviour of [extend_ttl]: when the remaining TTL is below
    [threshold] it becomes [extend_to], otherwise it stays, so nothing shortens
    it and at least [threshold] ledgers remain; a live entry can be extended up
    to the network's maximum. *)
Class TtlLaws `{Host} (max_ttl : Z) : Prop := {
  extend_ttl_live seq live threshold extend_to :
    seq ≤ live → 0 ≤ threshold ≤ extend_to → extend_to ≤ max_ttl →
    is_Some (host_extend_ttl seq live threshold extend_to);
  extend_ttl_result seq live threshold extend_to live' :
    0 ≤ threshold ≤ extend_to → extend_to ≤ max_ttl →
    host_extend_ttl seq live threshold extend_to = Some live' →
    live ≤ live' ∧ seq + threshold ≤ live';
}.

(** [soroban_sdk::token::Client]: calls of a SEP-41 token by the executing
    contract (its first argument); [None] when the token traps. *)
Class TokenClient `{Host} := {
  token_transfer : Address → Address → Address → Address → Z → World → option World;
  token_balance : Address → Address → Address → World → option (Z * World);
}.

(** SEP-41: [balance_of token holder w] is the ledger's balance.  A transfer
    moves a non-negative amount and nothing else, and no authorisation check
    made while a contract executes spends that contract's own tokens. *)
Class TokenLaws `{TokenClient} (balance_of : Address → Address → World → Z) : Prop := {
  transfer_amount s t from to amount w w' :
    token_transfer s t from to amount w = Some w' → 0 ≤ amount;
  transfer_balance s t from to amount w w' t' a :
    token_transfer s t from to amount w = Some w' →
    balance_of t' a w' = balance_of t' a w
      + (if decide (t' = t ∧ a = to) then amount else 0)
      - (if decide (t' = t ∧ a = from) then amount else 0);
  require_auth_balance s a w w' t :
    host_require_auth s a w = Some w' → balance_of t s w ≤ balance_of t s w';
  token_balance_value s t a w b w' :
    token_balance s t a w = Some (b, w') → b = balance_of t a w ∧
      ∀ t' a', balance_of t' a' w' = balance_of t' a' w;
}.

(** SEP-41: a transfer of its own tokens by the executing contract fails only
    when it lacks them or the token refuses the payment (a frozen account, a
    missing trustline): [accepts token to w] says it does not. *)
Class TokenPays `{TokenClient} (balance_of : Address → Address → World → Z)
    (accepts : Address → Address → World → Prop) : Prop :=
  holder_pays s t to amount w :
    0 ≤ amount ≤ balance_of t s w → accepts t to w →
    is_Some (token_transfer s t s to amount w).

(** Nothing was taken from the tokens of [a]: what the rest of the world does to
    a contract that is not executing. *)
Definition spares `{Host} (balance_of : Address → Address → World → Z) (a : Address)
    (w w' : World) : Prop :=
  ∀ t, balance_of t a w ≤ balance_of t a w'.

(** ** The environment of one executing contract *)

Record Env `{Host} (K V Ev : Type) `{Countable K} := mkEnv {
  self : Address;              (* e.current_contract_address() *)
  sequence : Z;                (* e.ledger().sequence(), u32 *)
  timestamp : Z;               (* e.ledger().timestamp(), u64 *)
  persistent : gmap K V;       (* e.storage().persistent() *)
  live_until : gmap K Z;       (* last live ledger of each persistent entry *)
  inst : gmap K V;             (* e.storage().instance() *)
  inst_live_until : Z;
  events : list Ev;            (* events published, newest last *)
  world : World;
}.
Arguments mkEnv {_ K V Ev _ _}.
Arguments self {_ K V Ev _ _} _.
Arguments sequence {_ K V Ev _ _} _.
Arguments timestamp {_ K V Ev _ _} _.
Arguments persistent {_ K V Ev _ _} _.
Arguments live_until {_ K V Ev _ _} _.
Arguments inst {_ K V Ev _ _} _.
Arguments inst_live_until {_ K V Ev _ _} _.
Arguments events {_ K V Ev _ _} _.
Arguments world {_ K V Ev _ _} _.

Section env.
Context `{Host} {K V Ev : Type} `{Countable K} {E : Type}.
Implicit Types e : Env K V Ev.
Abbreviation MM := (M (Env K V Ev) E).

Definition set_persistent (p : gmap K V) (l : gmap K Z) e : Env K V Ev :=
  mkEnv (self e) (sequence e) (timestamp e) p l (inst e) (inst_live_until e)
    (events e) (world e).
Definition set_inst (i : gmap K V) e : Env K V Ev :=
  mkEnv (self e) (sequence e) (timestamp e) (persistent e) (live_until e) i
    (inst_live_until e) (events e) (world e).
Definition set_inst_live (l : Z) e : Env K V Ev :=
  mkEnv (self e) (sequence e) (timestamp e) (persistent e) (live_until e) (inst e)
    l (events e) (world e).
Definition set_events (evs : list Ev) e : Env K V Ev :=
  mkEnv (self e) (sequence e) (timestamp e) (persistent e) (live_until e) (inst e)
    (inst_live_until e) evs (world e).
Definition set_world (w : World) e : Env K V Ev :=
  mkEnv (self e) (sequence e) (timestamp e) (persistent e) (live_until e) (inst e)
    (inst_live_until e) (events e) w.
(** Another ledger: the clock and the rest of the world have moved on. *)
Definition set_ledger (seq time : Z) (w : World) e : Env K V Ev :=
  mkEnv (self e) seq time (persistent e) (live_until e) (inst e)
    (inst_live_until e) (events e) w.

(** *** Persistent storage *)
Definition persistent_get (k : K) : MM (option V) := read (λ e, persistent e !! k).
Definition persistent_has (k : K) : MM bool :=
  read (λ e, bool_decide (is_Some (persistent e !! k))).
Definition store (k : K) (v : V) e : Env K V Ev :=
  set_persistent (<[k := v]> (persistent e))
    (match live_until e !! k with
     | Some _ => live_until e
     | None => <[k := host_new_live_until (sequence e)]> (live_until e)
     end) e.
Definition unstore (k : K) e : Env K V Ev :=
  set_persistent (delete k (persistent e)) (delete k (live_until e)) e.
Definition persistent_set (k : K) (v : V) : MM unit := modify (store k v).
Definition persistent_remove (k : K) : MM unit := modify (unstore k).
(** Fails on a missing entry. *)
Definition persistent_extend_ttl (k : K) (threshold extend_to : Z) : MM unit := λ e,
  match live_until e !! k with
  | Some live =>
      match host_extend_ttl (sequence e) live threshold extend_to with
      | Some live' =>
          Ok (tt, set_persistent (persistent e) (<[k := live']> (live_until e)) e)
      | None => Err HostError
      end
  | None => Err HostError
  end.

(** [e.storage().persistent().get(&key).inspect(|_| ... extend_ttl(...))]: the
    TTL is extended when there is an entry. *)
Definition persistent_get_extend (k : K) (threshold extend_to : Z) : MM (option V) :=
  o ← persistent_get k;
  match o with
  | Some _ => persistent_extend_ttl k threshold extend_to
  | None => mret tt
  end ;;
  mret o.

(** *** Instance storage *)
Definition instance_get (k : K) : MM (option V) := read (λ e, inst e !! k).
Definition instance_has (k : K) : MM bool :=
  read (λ e, bool_decide (is_Some (inst e !! k))).
Definition instance_set (k : K) (v : V) : MM unit :=
  modify (λ e, set_inst (<[k := v]> (inst e)) e).
Definition instance_extend_ttl (threshold extend_to : Z) : MM unit := λ e,
  match host_extend_ttl (sequence e) (inst_live_until e) threshold extend_to with
  | Some live' => Ok (tt, set_inst_live live' e)
  | None => Err HostError
  end.

(** *** Events, ledger, authorisation, calls *)
Definition publish (ev : Ev) : MM unit :=
  modify (λ e, set_events (events e ++ [ev]) e).
Definition ledger_sequence : MM Z := read sequence.
Definition ledger_timestamp : MM Z := read timestamp.
Definition current_contract_address : MM Address := read self.

(** A call into the rest of the world; [None] is a trap of the callee. *)
Definition invoke {A} (f : World → option (A * World)) : MM A := λ e,
  match f (world e) with
  | Some (a, w) => Ok (a, set_world w e)
  | None => Err HostError
  end.
Definition require_auth (a : Address) : MM unit := λ e,
  match host_require_auth (self e) a (world e) with
  | Some w => Ok (tt, set_world w e)
  | None => Err HostError
  end.

Definition transfer `{!TokenClient} (token from to : Address) (amount : Z) : MM unit := λ e,
  match token_transfer (self e) token from to amount (world e) with
  | Some w => Ok (tt, set_world w e)
  | None => Err HostError
  end.

(** [auth_ok e a]: the host accepts [a]'s authorisation at this point. *)
Definition auth_ok e (a : Address) : Prop :=
  is_Some (host_require_auth (self e) a (world e)).

(** Each primitive succeeds exactly as its [read] or [modify] does. *)
#[local] Ltac prim := lazymatch goal with |- ?m _ = _ ↔ _ =>
  let h := get_head m in unfold h; rewrite ?read_Ok, ?modify_Ok end.

Lemma persistent_get_Ok k e o e' :
  persistent_get k e = Ok (o, e') ↔ o = persistent e !! k ∧ e' = e.
Proof. by prim. Qed.
Lemma persistent_has_Ok k e b e' :
  persistent_has k e = Ok (b, e') ↔
  b = bool_decide (is_Some (persistent e !! k)) ∧ e' = e.
Proof. by prim. Qed.
Lemma persistent_set_Ok k v e u e' :
  persistent_set k v e = Ok (u, e') ↔
  e' = store k v e.
Proof. by prim. Qed.
Lemma persistent_remove_Ok k e u e' :
  persistent_remove k e = Ok (u, e') ↔
  e' = unstore k e.
Proof. by prim. Qed.
Lemma persistent_extend_ttl_Ok k th ext e u e' :
  persistent_extend_ttl k th ext e = Ok (u, e') ↔
  ∃ live live', live_until e !! k = Some live
    ∧ host_extend_ttl (sequence e) live th ext = Some live'
    ∧ e' = set_persistent (persistent e) (<[k := live']> (live_until e)) e.
Proof.
  unfold persistent_extend_ttl. destruct u.
  destruct (live_until e !! k) as [live|]; [|naive_solver].
  destruct (host_extend_ttl _ live _ _) eqn:?; naive_solver.
Qed.
(** The TTL of [k] can be extended, to [live']. *)
Definition ttl_extends e (k : K) (threshold extend_to live' : Z) : Prop :=
  ∃ live, live_until e !! k = Some live
    ∧ host_extend_ttl (sequence e) live threshold extend_to = Some live'.
(** The state after extending it. *)
Definition touched (k : K) (live' : Z) e : Env K V Ev :=
  set_persistent (persistent e) (<[k := live']> (live_until e)) e.

Lemma persistent_get_extend_Some k th ext e v live' :
  persistent e !! k = Some v → ttl_extends e k th ext live' →
  persistent_get_extend k th ext e = Ok (Some v, touched k live' e).
Proof.
  intros Hv (live & Hl & Hx). unfold persistent_get_extend.
  step_get by apply persistent_get_Ok.
  step_do by (apply persistent_extend_ttl_Ok; eauto). done.
Qed.
Lemma persistent_get_extend_None k th ext e :
  persistent e !! k = None →
  persistent_get_extend k th ext e = Ok (None, e).
Proof.
  intros Hv. unfold persistent_get_extend. by step_get by apply persistent_get_Ok.
Qed.
(** The host refuses the extension: the entry has no live ledger, or the host
    has an objection of its own. *)
Lemma persistent_get_extend_refused k th ext e v :
  persistent e !! k = Some v → (∀ live', ¬ ttl_extends e k th ext live') →
  persistent_get_extend k th ext e = Err HostError.
Proof.
  intros Hv Hno. unfold persistent_get_extend.
  step_get by (apply persistent_get_Ok; eauto). rewrite Hv. apply bind_Err.
  unfold persistent_extend_ttl. destruct (live_until e !! k) as [live|] eqn:Hl; [|done].
  destruct (host_extend_ttl _ _ _ _) as [live'|] eqn:Hx; [|done].
  destruct (Hno live'). by exists live.
Qed.
#[local] Hint Rewrite @persistent_get_Ok @persistent_extend_ttl_Ok : runs.
Lemma persistent_get_extend_Ok k th ext e o e' :
  persistent_get_extend k th ext e = Ok (o, e') ↔
  o = persistent e !! k ∧
  match o with
  | Some _ => ∃ live', ttl_extends e k th ext live' ∧ e' = touched k live' e
  | None => e' = e
  end.
Proof.
  split.
  - unfold persistent_get_extend, ttl_extends, touched. intros. inv_run;
      match goal with Hp : _ = persistent _ !! _ |- _ => rewrite <- Hp end; by eauto 10.
  - intros [-> Ho]. destruct (persistent e !! k) as [v|] eqn:Hv.
    + destruct Ho as (live' & Hx & ->). by apply persistent_get_extend_Some.
    + subst. by apply persistent_get_extend_None.
Qed.

Lemma instance_get_Ok k e o e' :
  instance_get k e = Ok (o, e') ↔ o = inst e !! k ∧ e' = e.
Proof. by prim. Qed.
Lemma instance_has_Ok k e b e' :
  instance_has k e = Ok (b, e') ↔
  b = bool_decide (is_Some (inst e !! k)) ∧ e' = e.
Proof. by prim. Qed.
Lemma instance_set_Ok k v e u e' :
  instance_set k v e = Ok (u, e') ↔ e' = set_inst (<[k := v]> (inst e)) e.
Proof. by prim. Qed.
Lemma instance_extend_ttl_Ok th ext e u e' :
  instance_extend_ttl th ext e = Ok (u, e') ↔
  ∃ live', host_extend_ttl (sequence e) (inst_live_until e) th ext = Some live'
    ∧ e' = set_inst_live live' e.
Proof.
  unfold instance_extend_ttl. destruct u.
  destruct (host_extend_ttl _ _ _ _) eqn:?; naive_solver.
Qed.
Lemma publish_Ok ev e u e' :
  publish ev e = Ok (u, e') ↔ e' = set_events (events e ++ [ev]) e.
Proof. by prim. Qed.
Lemma ledger_sequence_Ok e n e' :
  ledger_sequence e = Ok (n, e') ↔ n = sequence e ∧ e' = e.
Proof. by prim. Qed.
Lemma ledger_timestamp_Ok e n e' :
  ledger_timestamp e = Ok (n, e') ↔ n = timestamp e ∧ e' = e.
Proof. by prim. Qed.
Lemma current_contract_address_Ok e a e' :
  current_contract_address e = Ok (a, e') ↔ a = self e ∧ e' = e.
Proof. by prim. Qed.
Lemma invoke_Ok {A} (f : World → option (A * World)) e a e' :
  invoke f e = Ok (a, e') ↔ ∃ w, f (world e) = Some (a, w) ∧ e' = set_world w e.
Proof. unfold invoke. destruct (f (world e)) as [[??]|] eqn:?; naive_solver. Qed.
Lemma require_auth_Ok a e u e' :
  require_auth a e = Ok (u, e') ↔
  ∃ w, host_require_auth (self e) a (world e) = Some w ∧ e' = set_world w e.
Proof.
  unfold require_auth. destruct u.
  destruct (host_require_auth _ a _) eqn:?; naive_solver.
Qed.
Lemma transfer_Ok `{!TokenClient} token from to amount e u e' :
  transfer token from to amount e = Ok (u, e') ↔
  ∃ w, token_transfer (self e) token from to amount (world e) = Some w
       ∧ e' = set_world w e.
Proof.
  unfold transfer. destruct u.
  destruct (token_transfer _ _ _ _ _ _) eqn:?; naive_solver.
Qed.

(** What the host refuses. *)
Lemma not_auth_ok e a : ¬ auth_ok e a ↔ host_require_auth (self e) a (world e) = None.
Proof. unfold auth_ok. by rewrite eq_None_not_Some. Qed.
Lemma require_auth_Err a e t : require_auth a e = Err t ↔ ¬ auth_ok e a ∧ t = HostError.
Proof.
  rewrite not_auth_ok. unfold require_auth.
  destruct (host_require_auth _ a _) eqn:?; naive_solver.
Qed.
Lemma persistent_get_extend_Err k th ext e t :
  persistent_get_extend k th ext e = Err t ↔
  ∃ v, persistent e !! k = Some v ∧ (∀ live', ¬ ttl_extends e k th ext live') ∧ t = HostError.
Proof.
  split; [|intros (v & Hv & Hno & ->); by apply (persistent_get_extend_refused k th ext e v)].
  intros Hf. destruct (persistent e !! k) as [v|] eqn:Hv;
    [|by rewrite persistent_get_extend_None in Hf].
  assert (∀ live', ¬ ttl_extends e k th ext live') as Hno.
  { intros live' Hx. by rewrite (persistent_get_extend_Some k th ext e v live') in Hf. }
  rewrite (persistent_get_extend_refused _ _ _ _ _ Hv Hno) in Hf. injection Hf as <-. eauto.
Qed.
Lemma invoke_Err {A} (f : World → option (A * World)) e t :
  invoke f e = Err t ↔ f (world e) = None ∧ t = HostError.
Proof. unfold invoke. destruct (f (world e)) as [[??]|] eqn:?; naive_solver. Qed.
Lemma instance_extend_ttl_Err th ext e t :
  instance_extend_ttl th ext e = Err t ↔
  host_extend_ttl (sequence e) (inst_live_until e) th ext = None ∧ t = HostError.
Proof. unfold instance_extend_ttl. destruct (host_extend_ttl _ _ _ _); naive_solver. Qed.
Lemma instance_get_Err k e t : instance_get k e = Err t ↔ False.
Proof. done. Qed.
Lemma publish_Err ev e t : publish ev e = Err t ↔ False.
Proof. done. Qed.
Lemma persistent_set_Err k v e t : persistent_set k v e = Err t ↔ False.
Proof. done. Qed.
Lemma ledger_sequence_Err e t : ledger_sequence e = Err t ↔ False.
Proof. done. Qed.
Lemma ledger_timestamp_Err e t : ledger_timestamp e = Err t ↔ False.
Proof. done. Qed.
Lemma current_contract_address_Err e t : current_contract_address e = Err t ↔ False.
Proof. done. Qed.

(** None of the host's primitives panics: what they refuse is a host error. *)
Section panics.
Context (P : Prop).

Lemma panics_persistent_extend_ttl k th ext :
  panics_only P (persistent_extend_ttl k th ext : MM unit).
Proof. intros e. unfold persistent_extend_ttl. by repeat case_match. Qed.
Lemma panics_instance_extend_ttl th ext : panics_only P (instance_extend_ttl th ext : MM unit).
Proof. intros e. unfold instance_extend_ttl. by repeat case_match. Qed.
Lemma panics_invoke {A} (f : World → option (A * World)) : panics_only P (invoke f : MM A).
Proof. intros e. unfold invoke. by repeat case_match. Qed.
Lemma panics_require_auth a : panics_only P (require_auth a : MM unit).
Proof. intros e. unfold require_auth. by repeat case_match. Qed.
End panics.
End env.
#[export] Hint Rewrite
  @persistent_get_Ok @persistent_has_Ok @persistent_set_Ok @persistent_remove_Ok
  @persistent_extend_ttl_Ok @persistent_get_extend_Ok @instance_get_Ok @instance_has_Ok @instance_set_Ok
  @instance_extend_ttl_Ok @publish_Ok @ledger_sequence_Ok @ledger_timestamp_Ok
  @current_contract_address_Ok @invoke_Ok @require_auth_Ok @transfer_Ok : runs.
#[export] Hint Rewrite
  @require_auth_Err @persistent_get_extend_Err @instance_extend_ttl_Err @instance_get_Err
  @invoke_Err @publish_Err @persistent_set_Err
  @ledger_sequence_Err @ledger_timestamp_Err @current_contract_address_Err : traps.
#[export] Hint Resolve panics_persistent_extend_ttl panics_instance_extend_ttl panics_invoke
  panics_require_auth : panics.
(** The primitives that are a plain read or update of the environment. *)
#[export] Hint Extern 2 (panics_only _ ?m) =>
  let h := get_head m in unfold h; first [apply panics_read | apply panics_modify] : panics.

Arguments persistent_get : simpl never.
Arguments persistent_has : simpl never.
Arguments persistent_set : simpl never.
Arguments persistent_remove : simpl never.
Arguments persistent_extend_ttl : simpl never.
Arguments persistent_get_extend : simpl never.
Arguments instance_get : simpl never.
Arguments instance_has : simpl never.
Arguments instance_set : simpl never.
Arguments instance_extend_ttl : simpl never.
Arguments publish : simpl never.
Arguments ledger_sequence : simpl never.
Arguments ledger_timestamp : simpl never.
Arguments current_contract_address : simpl never.
Arguments invoke : simpl never.
Arguments require_auth : simpl never.
Arguments transfer : simpl never.
Arguments auth_ok : simpl never.

(** Runs a call on a concrete or symbolic state as far as it is determined. *)
Ltac exec :=
  exec_monad;
  unfold persistent_get, persistent_has, persistent_set, persistent_remove,
    persistent_extend_ttl, instance_get, instance_has, instance_set,
    instance_extend_ttl, publish, ledger_sequence, ledger_timestamp,
    current_contract_address, invoke, require_auth, transfer;
  exec_monad.
