(* ===== verification/RefHost.v ===== *)
(** * A reference host

    A small executable host that satisfies every law the theorems assume: the
    counterpart of the SDK's test environment.  Addresses are numbers, an
    authorisation is a membership test, tokens and price feeds are tables.  The
    witnesses of the properties run the contracts on it. *)
From S2P Require Import Prelude RustInt Soroban.
Local Open Scope Z_scope.

(** Host values: tagged, as the SDK's [Val]. *)
Inductive RVal :=
  | RU32 (z : Z) | RI32 (z : Z) | RU64 (z : Z) | RI64 (z : Z)
  | RU128 (z : Z) | RI128 (z : Z)
  | RSymbol (s : Symbol) | RAddress (a : N)
  | RPrice (p : option (Z * Z)) | RVoid.

(** The rest of the ledger, and room for what a scenario adds to it. *)
Record RWorldOf (St : Type) := mkRWorld {
  r_auth : list N;                      (* addresses that authorise the calls *)
  r_balances : gmap (N * N) Z;          (* (token, holder) *)
  r_decimals : gmap N Z;                (* decimals() of tokens and oracles *)
  r_prices : gmap N (option (Z * Z));   (* lastprice() of each asset *)
  r_code : gmap N Bytes;                (* executables *)
  r_roles : list (N * N * Symbol);      (* (contract, account, role) *)
  r_store : St;
}.
Arguments mkRWorld {St}.
Arguments r_auth {St} _.
Arguments r_balances {St} _.
Arguments r_decimals {St} _.
Arguments r_prices {St} _.
Arguments r_code {St} _.
Arguments r_roles {St} _.
Arguments r_store {St} _.

Section store.
Context {St : Type}.
Implicit Types w : RWorldOf St.

Definition r_lookup_balance w (t a : N) : Z := default 0 (r_balances w !! (t, a)).
Definition r_set_auth (l : list N) w : RWorldOf St :=
  mkRWorld l (r_balances w) (r_decimals w) (r_prices w) (r_code w) (r_roles w) (r_store w).
Definition r_set_balances (b : gmap (N * N) Z) w : RWorldOf St :=
  mkRWorld (r_auth w) b (r_decimals w) (r_prices w) (r_code w) (r_roles w) (r_store w).
Definition r_set_code (c : gmap N Bytes) w : RWorldOf St :=
  mkRWorld (r_auth w) (r_balances w) (r_decimals w) (r_prices w) c (r_roles w) (r_store w).
Definition r_set_roles (l : list (N * N * Symbol)) w : RWorldOf St :=
  mkRWorld (r_auth w) (r_balances w) (r_decimals w) (r_prices w) (r_code w) l (r_store w).
Definition r_set_store (x : St) w : RWorldOf St :=
  mkRWorld (r_auth w) (r_balances w) (r_decimals w) (r_prices w) (r_code w) (r_roles w) x.

(** A new instance, at an address that has none. *)
Definition r_create_instance (a : N) (wasm : Bytes) w : option (RWorldOf St) :=
  match r_code w !! a with
  | Some _ => None
  | None => Some (r_set_code (<[a := wasm]> (r_code w)) w)
  end.

Definition in_type (lo hi z : Z) : option Z := in_range lo hi z.

Definition r_extend_ttl (seq live threshold extend_to : Z) : option Z :=
  if live <? seq then None
  else if live - seq <? threshold then Some (Z.max live (seq + extend_to))
  else Some live.

Definition r_invoke (_self callee : N) (fn : Symbol) (args : list RVal) w :
    option (RVal * RWorldOf St) :=
  if decide (fn = "decimals"%string) then
    d ← r_decimals w !! callee; Some (RU32 d, w)
  else if decide (fn = "lastprice"%string) then
    match args with
    | RAddress asset :: _ => Some (RPrice (mjoin (r_prices w !! asset)), w)
    | _ => None
    end
  else None.

Definition store_host : Host := {|
  Address := N;
  Val := RVal;
  val_to_u32 v := match v with RU32 z => in_type 0 u32_max z | _ => None end;
  val_to_i32 v := match v with RI32 z => Some z | _ => None end;
  val_to_u64 v := match v with RU64 z => Some z | _ => None end;
  val_to_i64 v := match v with RI64 z => Some z | _ => None end;
  val_to_u128 v := match v with RU128 z => Some z | _ => None end;
  val_to_i128 v := match v with RI128 z => in_type i128_min i128_max z | _ => None end;
  val_to_symbol v := match v with RSymbol s => Some s | _ => None end;
  val_to_address v := match v with RAddress a => Some a | _ => None end;
  World := RWorldOf St;
  host_require_auth _ a w := if decide (a ∈ r_auth w) then Some w else None;
  host_extend_ttl := r_extend_ttl;
  host_new_live_until seq := seq + 4095;
  host_invoke := r_invoke;
|}.

Lemma store_val_laws : ValLaws (H := store_host).
Proof.
  split; intros [] ?; simpl; try done; unfold in_type; rewrite in_range_Some;
    intros [-> ?]; done.
Qed.

Lemma store_ttl_laws (max_ttl : Z) : TtlLaws (H := store_host) max_ttl.
Proof.
  split; simpl; unfold r_extend_ttl.
  - intros seq live th ext Hlive _ _. rewrite (proj2 (Z.ltb_ge _ _)) by lia.
    destruct (Z.ltb_spec (live - seq) th); eauto.
  - intros seq live th ext live' Hth _.
    destruct (Z.ltb_spec live seq); [done|].
    destruct (Z.ltb_spec (live - seq) th); intros [= <-]; lia.
Qed.

(** A token ledger: transfers need a non-negative amount the sender owns. *)
Definition r_credit (t a : N) (z : Z) w : RWorldOf St :=
  r_set_balances (<[(t, a) := r_lookup_balance w t a + z]> (r_balances w)) w.
Definition r_transfer (t from to : N) (amount : Z) w : option (RWorldOf St) :=
  if (0 <=? amount) && (amount <=? r_lookup_balance w t from) then
    Some (r_credit t to amount (r_credit t from (- amount) w))
  else None.

Definition store_token : TokenClient (H := store_host) :=
  Build_TokenClient store_host (λ _, r_transfer)
    (λ _ (t a : N) w, Some (r_lookup_balance w t a, w)).

Definition ref_balance_of (t a : N) w : Z := r_lookup_balance w t a.

Lemma r_credit_lookup w t a z t' a' :
  r_lookup_balance (r_credit t a z w) t' a'
  = r_lookup_balance w t' a' + (if decide (t' = t ∧ a' = a) then z else 0).
Proof.
  unfold r_credit, r_lookup_balance. simpl. rewrite lookup_insert.
  repeat case_decide; destruct_and?; simplify_eq/=; try lia; exfalso; naive_solver.
Qed.

Lemma store_token_laws : TokenLaws (H := store_host) (H0 := store_token) ref_balance_of.
Proof.
  split.
  - intros s t from to amount w w'. simpl. unfold r_transfer.
    destruct (Z.leb_spec 0 amount); naive_solver.
  - intros s t from to amount w w' t' a Ht. change (r_transfer t from to amount w = Some w') in Ht.
    revert Ht. unfold r_transfer, ref_balance_of.
    destruct (Z.leb_spec 0 amount), (Z.leb_spec amount (r_lookup_balance w t from));
      simpl; intros [= <-].
    rewrite !r_credit_lookup. repeat case_decide; lia.
  - intros s a w w' t. simpl. case_decide; naive_solver.
  - intros s t a w b w'. simpl. naive_solver.
Qed.
Lemma store_token_pays :
  TokenPays (H := store_host) (H0 := store_token) ref_balance_of (λ _ _ _, True).
Proof.
  intros s t to amount w [H1 H2] _. simpl. unfold r_transfer, ref_balance_of in *.
  rewrite (proj2 (Z.leb_le _ _) H1), (proj2 (Z.leb_le _ _) H2). eauto.
Qed.
End store.
Arguments store_host : clear implicits.

(** The host of most witnesses: nothing added. *)
Abbreviation RWorld := (RWorldOf unit).
Definition ref_host : Host := Eval cbv beta delta [store_host] in store_host unit.
#[export] Existing Instance ref_host.
#[export] Instance ref_val_laws : ValLaws (H := ref_host) := store_val_laws.
#[export] Instance ref_ttl_laws (max_ttl : Z) : TtlLaws (H := ref_host) max_ttl :=
  store_ttl_laws max_ttl.
#[export] Instance ref_token : TokenClient (H := ref_host) := store_token.
#[export] Instance ref_token_laws : TokenLaws (H := ref_host) ref_balance_of := store_token_laws.
#[export] Instance ref_token_pays : TokenPays (H := ref_host) ref_balance_of (λ _ _ _, True) :=
  store_token_pays.

(** A world with the given authorisations and balances and nothing else. *)
Definition ref_world (auth : list N) (balances : gmap (N * N) Z) : RWorld :=
  mkRWorld auth balances ∅ ∅ ∅ [] tt.

(** A freshly deployed contract with empty storage. *)
Definition ref_env {K V Ev} `{Countable K} (me : N) (seq time : Z) (w : RWorld) : Env K V Ev :=
  mkEnv (H := ref_host) me seq time ∅ ∅ ∅ (seq + 4095) [] w.
