(* ===== verification/Vesting.v ===== *)
(** * Vesting schedule (templates/vesting-schedule/src/lib.rs)

    The contract that releases a fixed token amount linearly between two
    ledgers, with an optional cliff: the wide multiply-divide, the vested
    amount at a ledger, the constructor, [claim] and the views, and runs of the
    contract over time. *)
From S2P Require Import Prelude RustInt Soroban RefHost.
Local Open Scope Z_scope.

(** ** Arithmetic *)

Definition DAY_IN_LEDGERS : Z := 17280.
Definition INSTANCE_EXTEND_AMOUNT : Z := 30 * DAY_IN_LEDGERS.
Definition INSTANCE_TTL_THRESHOLD : Z := INSTANCE_EXTEND_AMOUNT - DAY_IN_LEDGERS.

(** [mul_div_u128(total: u128, elapsed: u64, duration: u64) -> u128]; [None]
    when an operator panics. *)
Definition mul_div_u128 (total elapsed duration : Z) : option Z :=
  let elapsed := as_u128 elapsed in
  let duration := as_u128 duration in
  match u128_checked_mul total elapsed with
  | Some prod => u128_div prod duration
  | None =>
      let hi := as_u64 (u128_shr total 64) in
      let lo := as_u64 total in
      hi_prod ← u128_mul hi elapsed;
      lo_prod ← u128_mul lo elapsed;
      hi_div ← u128_div hi_prod duration;
      hi_rem ← u128_rem hi_prod duration;
      lo_sum ← u128_add (u128_shl hi_rem 64) lo_prod;
      lo_div ← u128_div lo_sum duration;
      u128_add (u128_shl hi_div 64) lo_div
  end.

(** [compute_vested]; the two early returns, then the linear part. *)
Definition compute_vested (total_amount start_ledger : Z) (cliff_ledger : option Z)
    (end_ledger current_ledger : Z) : option Z :=
  if current_ledger <? start_ledger then Some 0
  else if match cliff_ledger with Some cliff => current_ledger <? cliff | None => false end
  then Some 0
  else if end_ledger <=? current_ledger then Some total_amount
  else
    elapsed ← u32_sub current_ledger start_ledger;
    duration ← u32_sub end_ledger start_ledger;
    as_i128 <$> mul_div_u128 (as_u128 total_amount) elapsed duration.

(** *** The high and low words recombine to the exact quotient. *)

Lemma split_div hi lo el d :
  0 < d →
  (hi * 2 ^ 64 + lo) * el / d
  = (hi * el / d) * 2 ^ 64 + ((hi * el) mod d * 2 ^ 64 + lo * el) / d.
Proof.
  intros Hd. rewrite <- Z.div_add_l by lia. f_equal.
  pose proof (Z.div_mod (hi * el) d). nia.
Qed.

Lemma mul_div_bound total el d :
  0 ≤ total → 0 ≤ el ≤ d → 0 < d → 0 ≤ total * el / d ≤ total.
Proof.
  intros. split; [apply Z.div_pos; nia|].
  apply Z.div_le_upper_bound; nia.
Qed.

Lemma high_word total : is_u128 total → 0 ≤ total / 2 ^ 64 < 2 ^ 64.
Proof.
  intros. split; [apply Z.div_pos; ranges|]. apply Z.div_lt_upper_bound; ranges.
Qed.

(** The 128-bit path, when the plain product overflows. *)
Lemma mul_div_wide total el d :
  is_u128 total → 0 ≤ el ≤ d → 0 < d ≤ 2 ^ 63 →
  u128_checked_mul total el = None →
  mul_div_u128 total el d = Some (total * el / d).
Proof.
  intros Ht Hel Hd Hov.
  assert (is_u128 el ∧ is_u128 d) as [Hel' Hd'].
  { change (2 ^ 63) with 9223372036854775808 in Hd. ranges. }
  unfold mul_div_u128. rewrite !as_u128_id by done. rewrite Hov.
  unfold u128_shr, as_u64. rewrite Z.shiftr_div_pow2 by lia.
  pose proof (high_word total Ht) as Hhi. rewrite (Z.mod_small (total / _)) by done.
  pose proof (Z.mod_pos_bound total (2 ^ 64) ltac:(lia)) as Hlo.
  pose proof (split_div (total / 2 ^ 64) (total mod 2 ^ 64) el d ltac:(lia)) as Hsplit.
  assert ((total / 2 ^ 64) * 2 ^ 64 + total mod 2 ^ 64 = total) as Hdec.
  { pose proof (Z.div_mod total (2 ^ 64)). lia. }
  rewrite Hdec in Hsplit.
  set (hi := total / 2 ^ 64) in *. set (lo := total mod 2 ^ 64) in *.
  pose proof (mul_div_bound total el d ltac:(ranges) Hel ltac:(lia)) as Htot.
  pose proof (mul_div_bound hi el d ltac:(lia) Hel ltac:(lia)) as Hq.
  pose proof (Z.mod_pos_bound (hi * el) d ltac:(lia)) as Hr.
  change (2 ^ 63) with 9223372036854775808 in *. unfold_ranges.
  assert (hi * el ≤ 18446744073709551615 * 9223372036854775808) by nia.
  assert (lo * el ≤ 18446744073709551615 * 9223372036854775808) by nia.
  unfold u128_mul. rewrite !in_range_in by (unfold_ranges; nia). simpl.
  rewrite u128_div_pos, u128_rem_pos by lia. simpl.
  rewrite (u128_shl_small (_ mod _)) by (unfold_ranges; lia).
  unfold u128_add. rewrite in_range_in by (unfold_ranges; nia). simpl.
  rewrite u128_div_pos by lia. simpl.
  rewrite u128_shl_small by (unfold_ranges; lia).
  change (2 ^ 64) with 18446744073709551616 in *.
  rewrite <- Hsplit. apply in_range_in. unfold_ranges. lia.
Qed.

(** ** Storage, errors and events *)

Inductive DataKey := Schedule.
#[export] Instance DataKey_eq_dec : EqDecision DataKey.
Proof. solve_decision. Defined.
#[export] Program Instance DataKey_countable : Countable DataKey :=
  inj_countable' (λ _, tt) (λ _, Schedule) _.
Next Obligation. by intros []. Qed.

Inductive VestingScheduleError :=
  | AlreadyInitialized | InvalidAmount | InvalidLedgerRange | InvalidCliffLedger
  | NotInitialized.

Section contract.
Context `{TokenClient}.

Record ScheduleData := mkSchedule {
  owner : Address;
  token : Address;
  total_amount : Z;
  start_ledger : Z;
  cliff_ledger : option Z;
  end_ledger : Z;
  claimed_amount : Z;
}.

Definition set_claimed (n : Z) (s : ScheduleData) : ScheduleData :=
  mkSchedule (owner s) (token s) (total_amount s) (start_ledger s)
    (cliff_ledger s) (end_ledger s) n.

Inductive VestingEvent :=
  | ScheduleCreated (owner token : Address) (total_amount start_ledger : Z)
      (cliff_ledger : option Z) (end_ledger : Z)
  | Claimed (owner to : Address) (amount ledger : Z).

Abbreviation VEnv := (Env DataKey ScheduleData VestingEvent).
Abbreviation VM := (M VEnv VestingScheduleError).

Definition emit_schedule_created (owner token : Address) (total_amount start_ledger : Z)
    (cliff_ledger : option Z) (end_ledger : Z) : VM unit :=
  publish (ScheduleCreated owner token total_amount start_ledger cliff_ledger end_ledger).
Definition emit_claimed (owner to : Address) (amount ledger : Z) : VM unit :=
  publish (Claimed owner to amount ledger).

Definition extend_instance_ttl : VM unit :=
  instance_extend_ttl INSTANCE_TTL_THRESHOLD INSTANCE_EXTEND_AMOUNT.

Definition get_schedule_data : VM ScheduleData :=
  o ← instance_get Schedule;
  unwrap_or_throw o NotInitialized.

(** ** Entry points *)

Definition constructor (owner token : Address) (total_amount start_ledger : Z)
    (cliff_ledger : option Z) (end_ledger : Z) : VM unit :=
  has ← instance_has Schedule;
  throw_if has AlreadyInitialized ;;
  throw_if (total_amount <=? 0) InvalidAmount ;;
  throw_if (end_ledger <=? start_ledger) InvalidLedgerRange ;;
  throw_if (match cliff_ledger with
            | Some cliff => (cliff <? start_ledger) || (end_ledger <? cliff)
            | None => false
            end) InvalidCliffLedger ;;
  instance_set Schedule
    (mkSchedule owner token total_amount start_ledger cliff_ledger end_ledger 0) ;;
  extend_instance_ttl ;;
  emit_schedule_created owner token total_amount start_ledger cliff_ledger end_ledger.

(** [compute_vested] on a stored schedule. *)
Definition schedule_vested (s : ScheduleData) (ledger : Z) : option Z :=
  compute_vested (total_amount s) (start_ledger s) (cliff_ledger s) (end_ledger s) ledger.

Definition claim (to : Address) : VM Z :=
  extend_instance_ttl ;;
  schedule ← get_schedule_data;
  require_auth (owner schedule) ;;
  current_ledger ← ledger_sequence;
  vested ← unwrap (schedule_vested schedule current_ledger);
  let claimable := i128_saturating_sub vested (claimed_amount schedule) in
  if 0 <? claimable then
    let schedule' := set_claimed
      (default (total_amount schedule)
         (i128_checked_add (claimed_amount schedule) claimable)) schedule in
    instance_set Schedule schedule' ;;
    vault ← current_contract_address;
    transfer (token schedule') vault to claimable ;;
    emit_claimed (owner schedule') to claimable current_ledger ;;
    mret claimable
  else mret claimable.

Definition get_schedule : VM ScheduleData :=
  extend_instance_ttl ;; get_schedule_data.
Definition vested_amount : VM Z :=
  extend_instance_ttl ;;
  schedule ← get_schedule_data;
  ledger ← ledger_sequence;
  unwrap (schedule_vested schedule ledger).
Definition claimable_amount : VM Z :=
  extend_instance_ttl ;;
  schedule ← get_schedule_data;
  ledger ← ledger_sequence;
  vested ← unwrap (schedule_vested schedule ledger);
  mret (i128_saturating_sub vested (claimed_amount schedule)).
Definition get_claimed_amount : VM Z :=
  extend_instance_ttl ;;
  schedule ← get_schedule_data;
  mret (claimed_amount schedule).
Definition get_owner : VM Address :=
  extend_instance_ttl ;;
  schedule ← get_schedule_data;
  mret (owner schedule).
Definition get_token : VM Address :=
  extend_instance_ttl ;;
  schedule ← get_schedule_data;
  mret (token schedule).
End contract.

(** ** Specification *)

Definition before_cliff (cliff : option Z) (ledger : Z) : Prop :=
  match cliff with Some c => ledger < c | None => False end.
#[export] Instance before_cliff_dec cliff ledger : Decision (before_cliff cliff ledger).
Proof. destruct cliff; simpl; apply _. Defined.

(** The documented closed form, over unbounded integers. *)
Definition vested_spec (total start : Z) (cliff : option Z) (last ledger : Z) : Z :=
  if decide (ledger < start ∨ before_cliff cliff ledger) then 0
  else if decide (last ≤ ledger) then total
  else total * (ledger - start) / (last - start).

(** What the constructor demands of a schedule. *)
Definition valid_schedule (total start : Z) (cliff : option Z) (last : Z) : Prop :=
  0 < total ≤ i128_max ∧ is_u32 start ∧ is_u32 last ∧ start < last ∧
  match cliff with Some c => start ≤ c ≤ last | None => True end.
#[export] Instance valid_schedule_dec total start cliff last :
  Decision (valid_schedule total start cliff last).
Proof. unfold valid_schedule, is_u32. destruct cliff; apply _. Defined.

Lemma cliff_lt_spec (cliff : option Z) ledger :
  (match cliff with Some c => ledger <? c | None => false end) = true
  ↔ before_cliff cliff ledger.
Proof. destruct cliff as [c|]; simpl; [apply Z.ltb_lt|done]. Qed.

Lemma compute_vested_correct total start cliff last ledger :
  valid_schedule total start cliff last → is_u32 ledger →
  compute_vested total start cliff last ledger
  = Some (vested_spec total start cliff last ledger).
Proof.
  intros (Htot & Hs & Hl & Hlt & _) Hled. unfold compute_vested, vested_spec.
  destruct (Z.ltb_spec ledger start) as [?|Hge].
  { rewrite decide_True by auto. done. }
  destruct (match cliff with Some _ => _ | None => _ end) eqn:Hc.
  { apply cliff_lt_spec in Hc. rewrite decide_True by auto. done. }
  rewrite (decide_False (P := _ ∨ _)).
  2: { intros [?|Hc']; [lia|]. apply cliff_lt_spec in Hc'. congruence. }
  destruct (Z.leb_spec last ledger) as [?|Hlast].
  { by rewrite decide_True. }
  rewrite decide_False by lia.
  rewrite !u32_sub_ok by ranges. simpl.
  rewrite as_u128_id by ranges.
  assert (mul_div_u128 total (ledger - start) (last - start)
          = Some (total * (ledger - start) / (last - start))) as ->.
  { destruct (u128_checked_mul total (ledger - start)) as [p|] eqn:Hm.
    - unfold mul_div_u128. rewrite !as_u128_id by ranges. rewrite Hm.
      apply in_range_Some in Hm as [-> ?]. apply u128_div_pos. lia.
    - apply mul_div_wide; [ranges|lia| |done].
      change (2 ^ 63) with 9223372036854775808. ranges. }
  simpl. f_equal. apply as_i128_id.
  pose proof (mul_div_bound total (ledger - start) (last - start)). ranges.
Qed.

Lemma vested_spec_bounds total start cliff last ledger :
  valid_schedule total start cliff last →
  0 ≤ vested_spec total start cliff last ledger ≤ total.
Proof.
  intros (Htot & Hs & Hl & Hlt & _). unfold vested_spec.
  repeat case_decide; [lia..|].
  pose proof (mul_div_bound total (ledger - start) (last - start)). lia.
Qed.

Lemma vested_spec_mono total start cliff last l1 l2 :
  valid_schedule total start cliff last → l1 ≤ l2 →
  vested_spec total start cliff last l1 ≤ vested_spec total start cliff last l2.
Proof.
  intros Hv Hle. pose proof (vested_spec_bounds total start cliff last l1 Hv) as Hb1.
  pose proof (vested_spec_bounds total start cliff last l2 Hv) as Hb2.
  destruct Hv as (Htot & Hs & Hl & Hlt & _). revert Hb1 Hb2.
  unfold vested_spec. intros Hb1 Hb2.
  destruct (decide (l1 < start ∨ _)) as [?|H1]; [lia|].
  destruct (decide (l2 < start ∨ _)) as [H2|H2].
  { exfalso. apply H1. destruct H2; [left; lia|]. right. destruct cliff; simpl in *; lia. }
  do 2 case_decide; try lia.
  apply Z.div_le_mono; nia.
Qed.

Lemma vested_spec_end total start cliff last ledger :
  valid_schedule total start cliff last → last ≤ ledger →
  vested_spec total start cliff last ledger = total.
Proof.
  intros (_ & _ & _ & Hlt & Hc) Hle. unfold vested_spec.
  rewrite decide_False, decide_True; [done..|].
  destruct cliff; simpl; lia.
Qed.

Section proofs.
Context `{TokenClient}.
Abbreviation VEnv := (Env DataKey ScheduleData VestingEvent).
Implicit Types (e : VEnv) (s : ScheduleData).

Definition stored e : option ScheduleData := inst e !! Schedule.
(** The vested amount a schedule promises at a ledger. *)
Definition vested_at s (ledger : Z) : Z :=
  vested_spec (total_amount s) (start_ledger s) (cliff_ledger s) (end_ledger s) ledger.
Definition wf_schedule s : Prop :=
  valid_schedule (total_amount s) (start_ledger s) (cliff_ledger s) (end_ledger s)
  ∧ 0 ≤ claimed_amount s ≤ total_amount s.

Lemma schedule_vested_correct s ledger :
  wf_schedule s → is_u32 ledger →
  schedule_vested s ledger = Some (vested_at s ledger).
Proof. intros [? _] ?. by apply compute_vested_correct. Qed.

Lemma wf_claimable s ledger :
  wf_schedule s →
  i128_saturating_sub (vested_at s ledger) (claimed_amount s)
    = vested_at s ledger - claimed_amount s
  ∧ is_i128 (claimed_amount s + (vested_at s ledger - claimed_amount s)).
Proof.
  intros [Hv Hc]. pose proof (vested_spec_bounds _ _ _ _ ledger Hv) as Hb.
  fold (vested_at s ledger) in Hb. destruct Hv as (Htot & _).
  split; [apply clamp_in|]; ranges.
Qed.

(** The state a successful paying claim leaves. *)
Definition after_claim (to : Address) (r : Z) (w : World) s e : VEnv :=
  set_events (events e ++ [Claimed (owner s) to r (sequence e)])
    (set_world w (set_inst (<[Schedule := set_claimed (claimed_amount s + r) s]> (inst e)) e)).

(** The steps of [claim]: what it checks, what it transfers, what it leaves. *)
Definition claim_outcome (to : Address) s e (r : Z) (e' : VEnv) : Prop :=
  ∃ live w,
    host_extend_ttl (sequence e) (inst_live_until e)
      INSTANCE_TTL_THRESHOLD INSTANCE_EXTEND_AMOUNT = Some live
    ∧ host_require_auth (self e) (owner s) (world e) = Some w
    ∧ r = vested_at s (sequence e) - claimed_amount s
    ∧ ((r ≤ 0 ∧ e' = set_world w (set_inst_live live e))
       ∨ (0 < r ∧ ∃ w', token_transfer (self e) (token s) (self e) to r w = Some w'
            ∧ e' = after_claim to r w' s (set_inst_live live e))).

Lemma claim_runs to s e r e' :
  stored e = Some s → wf_schedule s → is_u32 (sequence e) →
  claim to e = Ok (r, e') ↔ claim_outcome to s e r e'.
Proof.
  intros Hs Hwf Hseq. unfold stored in Hs.
  destruct (wf_claimable s (sequence e) Hwf) as [Hsat Hadd].
  pose proof (schedule_vested_correct s _ Hwf Hseq) as Hv.
  unfold claim, extend_instance_ttl, get_schedule_data, emit_claimed, claim_outcome.
  exec. destruct (host_extend_ttl _ _ _ _) as [live|]; [|naive_solver]. simpl.
  rewrite Hs. simpl.
  destruct (host_require_auth _ _ _) as [w|]; [|naive_solver]. simpl.
  rewrite Hv, Hsat. simpl.
  destruct (Z.ltb_spec 0 (vested_at s (sequence e) - claimed_amount s)) as [?|?]; simpl.
  - destruct (token_transfer _ _ _ _ _ _) as [w'|] eqn:Ht; [|naive_solver lia].
    unfold after_claim, i128_checked_add. rewrite in_range_in by done. simpl.
    split; [intros [= <- <-]|intros (? & ? & [= <-] & [= <-] & -> & [[? ?]|(_ & w2 & ? & ->)])].
    + eexists live, w. do 3 (split; [done|]). right. eauto.
    + lia.
    + naive_solver.
  - split; [intros [= <- <-]|intros (? & ? & [= <-] & [= <-] & -> & [[_ ->]|[? _]])].
    + eexists live, w. do 3 (split; [done|]). by left.
    + done.
    + lia.
Qed.

(** ** The constructor *)

Definition after_constructor (s : ScheduleData) (live : Z) e : VEnv :=
  set_events (events e ++ [ScheduleCreated (owner s) (token s) (total_amount s)
                             (start_ledger s) (cliff_ledger s) (end_ledger s)])
    (set_inst_live live (set_inst (<[Schedule := s]> (inst e)) e)).

Lemma cliff_range_spec (cliff : option Z) start last :
  (match cliff with Some c => (c <? start) || (last <? c) | None => false end) = false
  ↔ match cliff with Some c => start ≤ c ≤ last | None => True end.
Proof. destruct cliff; [|done]. rewrite orb_false_iff, !Z.ltb_ge. lia. Qed.

Lemma constructor_runs o t total start cliff last e e' :
  is_u32 start → is_u32 last → total ≤ i128_max →
  constructor o t total start cliff last e = Ok (tt, e') ↔
  stored e = None ∧ valid_schedule total start cliff last
  ∧ ∃ live, host_extend_ttl (sequence e) (inst_live_until e)
              INSTANCE_TTL_THRESHOLD INSTANCE_EXTEND_AMOUNT = Some live
            ∧ e' = after_constructor (mkSchedule o t total start cliff last 0) live e.
Proof.
  intros Hs Hl Ht.
  unfold constructor, extend_instance_ttl, emit_schedule_created, valid_schedule, stored.
  split.
  - intros Hc. inv_run.
    match goal with Hb : match cliff with _ => _ end = false |- _ =>
      apply cliff_range_spec in Hb end.
    split_and!; try done; eauto.
  - intros (Hn & (Hpos & _ & _ & Hlt & Hcl) & live & Hlive & ->). exec.
    rewrite Hn. simpl. rewrite (proj2 (Z.leb_gt _ _)) by lia. simpl.
    rewrite (proj2 (Z.leb_gt last _)) by lia. simpl.
    rewrite (proj2 (cliff_range_spec _ _ _) Hcl). simpl. by rewrite Hlive.
Qed.

(** ** Runs: claims, views and the passing of time *)

(** [run rely e0 ps e]: from [e0] the contract reached [e], the successful claims
    on the way having returned [ps].  Between calls the ledger advances and
    the rest of the world changes, as far as [rely] allows. *)
Inductive run (rely : VEnv → World → Prop) (e0 : VEnv) : list Z → VEnv → Prop :=
  | run_start : run rely e0 [] e0
  | run_claim ps e to r e' :
      run rely e0 ps e → claim to e = Ok (r, e') → run rely e0 (ps ++ [r]) e'
  | run_get_schedule ps e s e' :
      run rely e0 ps e → get_schedule e = Ok (s, e') → run rely e0 ps e'
  | run_vested_amount ps e z e' :
      run rely e0 ps e → vested_amount e = Ok (z, e') → run rely e0 ps e'
  | run_claimable_amount ps e z e' :
      run rely e0 ps e → claimable_amount e = Ok (z, e') → run rely e0 ps e'
  | run_claimed_amount ps e z e' :
      run rely e0 ps e → get_claimed_amount e = Ok (z, e') → run rely e0 ps e'
  | run_owner ps e a e' :
      run rely e0 ps e → get_owner e = Ok (a, e') → run rely e0 ps e'
  | run_token ps e a e' :
      run rely e0 ps e → get_token e = Ok (a, e') → run rely e0 ps e'
  | run_time ps e seq time w :
      run rely e0 ps e → sequence e ≤ seq → is_u32 seq → rely e w →
      run rely e0 ps (set_ledger seq time w e).

Definition anything : VEnv → World → Prop := λ _ _, True.

(** The invariant of a run: the schedule is the constructed one except for
    [claimed_amount], which is what was paid and never exceeds what vested. *)
Definition run_inv (s0 : ScheduleData) (ps : list Z) e : Prop :=
  stored e = Some (set_claimed (sumZ ps) s0)
  ∧ wf_schedule (set_claimed (sumZ ps) s0)
  ∧ is_u32 (sequence e)
  ∧ sumZ ps ≤ vested_at s0 (sequence e)
  ∧ Forall (λ r, 0 ≤ r) ps.

(** A view extends the TTL of the instance and nothing else. *)
Lemma view_inv s0 ps e live :
  run_inv s0 ps e → run_inv s0 ps (set_inst_live live e).
Proof. done. Qed.

Ltac view := unfold get_schedule, vested_amount, claimable_amount,
  get_claimed_amount, get_owner, get_token, extend_instance_ttl, get_schedule_data in *;
  inv_run; by apply view_inv.

Lemma claim_inv s0 ps e to r e' :
  run_inv s0 ps e → claim to e = Ok (r, e') → run_inv s0 (ps ++ [r]) e'.
Proof.
  intros (Hs & Hwf & Hseq & Hle & Hps) Hc.
  apply (claim_runs _ _ _ _ _ Hs Hwf Hseq) in Hc as (live & w & _ & _ & Hr & Hout).
  change (vested_at (set_claimed _ s0) _) with (vested_at s0 (sequence e)) in Hr.
  simpl in Hr. unfold run_inv. autorewrite with sums.
  pose proof (vested_spec_bounds _ _ _ _ (sequence e) (proj1 Hwf)) as Hb.
  change (0 ≤ vested_at s0 (sequence e) ≤ total_amount s0) in Hb.
  destruct Hwf as [Hv Hcl]. simpl in Hcl.
  destruct Hout as [[? ->]|(? & w' & _ & ->)]; unfold stored; simpl.
  - replace r with 0 by lia. rewrite Z.add_0_r.
    split_and!; try done. by apply Forall_app_2; repeat constructor.
  - rewrite lookup_insert_eq.
    split_and!; try done; [split; [apply Hv|simpl; lia]|lia|].
    apply Forall_app_2; [done|]. repeat constructor. lia.
Qed.

Lemma run_invariant rely s0 ps0 e0 ps e :
  run_inv s0 ps0 e0 → run rely e0 ps e → run_inv s0 (ps0 ++ ps) e.
Proof.
  intros Hstart Hrun. induction Hrun as [| ps e to r e' _ IH Hc | | | | | | |
    ps e seq time w _ IH Hle Hu _];
    [by rewrite app_nil_r|rewrite app_assoc; by eapply claim_inv|view..|].
  destruct IH as (? & Hwf & ? & ? & ?). split_and!; try done.
  simpl. pose proof (vested_spec_mono _ _ _ _ (sequence e) seq (proj1 Hwf) Hle) as Hm.
  change (vested_at s0 (sequence e) ≤ vested_at s0 seq) in Hm. lia.
Qed.

Lemma constructor_frame o t total start cliff last e0 e1 :
  constructor o t total start cliff last e0 = Ok (tt, e1) →
  self e1 = self e0 ∧ sequence e1 = sequence e0.
Proof. unfold constructor, extend_instance_ttl, emit_schedule_created. intros. by inv_run. Qed.

(** A successful constructor establishes the invariant. *)
Lemma constructed_inv o t total start cliff last e0 e1 :
  constructor o t total start cliff last e0 = Ok (tt, e1) →
  is_u32 start → is_u32 last → total ≤ i128_max → is_u32 (sequence e1) →
  valid_schedule total start cliff last
  ∧ run_inv (mkSchedule o t total start cliff last 0) [] e1.
Proof.
  intros Hc Hs Hl Ht Hseq.
  apply (constructor_runs _ _ _ _ _ _ _ _ Hs Hl Ht) in Hc as (_ & Hv & live & _ & ->).
  split; [done|]. split_and!; try done.
  - apply lookup_insert_eq.
  - split; simpl; [done|unfold valid_schedule in Hv; lia].
  - by apply vested_spec_bounds.
Qed.

(** In a state of the invariant the payments are within what has vested, and the
    next claim completes them to it: to the total, once the schedule has ended. *)
Lemma run_pays s0 ps e :
  run_inv s0 ps e →
  Forall (λ r, 0 ≤ r) ps
  ∧ sumZ ps ≤ vested_at s0 (sequence e) ≤ total_amount s0
  ∧ stored e = Some (set_claimed (sumZ ps) s0)
  ∧ ∀ to r e', claim to e = Ok (r, e') →
      sumZ (ps ++ [r]) = vested_at s0 (sequence e)
      ∧ (end_ledger s0 ≤ sequence e → sumZ (ps ++ [r]) = total_amount s0).
Proof.
  intros (Hst & Hwf & Hu & Hle & Hps). pose proof (proj1 Hwf) as Hv.
  pose proof (vested_spec_bounds _ _ _ _ (sequence e) Hv) as Hb.
  split_and!; try done; [apply Hb|]. intros to r e' Hcl.
  apply (claim_runs _ _ _ _ _ Hst Hwf Hu) in Hcl as (live & w & _ & _ & Hr & _).
  change (r = vested_at s0 (sequence e) - sumZ ps) in Hr.
  autorewrite with sums. rewrite Hr. split; [lia|].
  intros Hend. unfold vested_at in *. simpl. rewrite vested_spec_end by done. simpl. lia.
Qed.

(** *** Solvency: what the contract holds covers what it still owes *)

Section solvency.
Context (balance_of : Address → Address → World → Z) `{!TokenLaws balance_of}.

Definition holds e (t : Address) : Z := balance_of t (self e) (world e).
(** Nobody else spends the contract's tokens: that needs its authorisation. *)
Definition spared e (w : World) : Prop := spares balance_of (self e) (world e) w.

Lemma claim_balance s0 ps e to r e' t :
  run_inv s0 ps e → claim to e = Ok (r, e') →
  self e' = self e ∧ holds e t ≤ holds e' t + r.
Proof.
  intros (Hs & Hwf & Hseq & Hle & _) Hc.
  apply (claim_runs _ _ _ _ _ Hs Hwf Hseq) in Hc as (live & w & _ & Ha & Hr & Hout).
  change (r = vested_at s0 (sequence e) - sumZ ps) in Hr.
  pose proof (require_auth_balance _ _ _ _ t Ha) as Hw.
  destruct Hout as [[? ->]|(? & w' & Ht & ->)]; (split; [done|]); unfold holds; simpl in *; [lia|].
  rewrite (transfer_balance _ _ _ _ _ _ _ t (self e) Ht). repeat case_decide; lia.
Qed.

Lemma run_solvent s0 ps0 e0 ps e t :
  run_inv s0 ps0 e0 → run spared e0 ps e →
  self e = self e0 ∧ holds e0 t ≤ holds e t + sumZ ps.
Proof.
  intros Hinv Hrun. induction Hrun as [| ps e to r e' Hrun IH Hc | | | | | | |
    ps e seq time w _ IH _ _ Hw]; [by rewrite Z.add_0_r| | | | | | | |].
  2-7: unfold get_schedule, vested_amount, claimable_amount, get_claimed_amount, get_owner,
    get_token, extend_instance_ttl, get_schedule_data in *; by inv_run.
  - pose proof (run_invariant _ _ _ _ _ _ Hinv Hrun) as Hi.
    destruct (claim_balance _ _ _ _ _ _ t Hi Hc) as [Hself Hb]. autorewrite with sums.
    destruct IH. split; [congruence|lia].
  - destruct IH as [Hself Hb]. split; [done|]. unfold holds in *. simpl.
    pose proof (Hw t). unfold holds in *. lia.
Qed.

(** A solvent contract pays: a claim succeeds with all that is claimable. *)
Lemma solvent_claim (accepts : Address → Address → World → Prop) `{!TokenPays balance_of accepts}
    s0 ps e live to w :
  run_inv s0 ps e → total_amount s0 ≤ sumZ ps + holds e (token s0) →
  host_extend_ttl (sequence e) (inst_live_until e) INSTANCE_TTL_THRESHOLD INSTANCE_EXTEND_AMOUNT
    = Some live →
  host_require_auth (self e) (owner s0) (world e) = Some w → accepts (token s0) to w →
  let r := vested_at s0 (sequence e) - sumZ ps in
  ∃ e', claim to e = Ok (r, e')
    ∧ (to ≠ self e → balance_of (token s0) to (world e') = balance_of (token s0) to w + r).
Proof.
  intros Hinv Hsolv Hlive Ha Hto r. pose proof Hinv as (Hs & Hwf & Hseq & Hle & _).
  destruct (run_pays _ _ _ Hinv) as (_ & [_ Hv] & _).
  pose proof (require_auth_balance _ _ _ _ (token s0) Ha) as Hw. unfold holds in Hsolv.
  destruct (decide (r ≤ 0)) as [Hr|Hr].
  - exists (set_world w (set_inst_live live e)). split.
    + apply (claim_runs _ _ _ _ _ Hs Hwf Hseq). exists live, w. by split_and!; try left.
    + intros _. simpl. lia.
  - destruct (holder_pays (self e) (token s0) to r w) as [w' Ht]; [lia|done|].
    eexists. split.
    + apply (claim_runs _ _ _ _ _ Hs Hwf Hseq). exists live, w. split_and!; [done..|].
      right. split; [lia|]. by exists w'.
    + intros Hne. simpl. rewrite (transfer_balance _ _ _ _ _ _ _ (token s0) to Ht).
      rewrite decide_True by done. rewrite decide_False by naive_solver. lia.
Qed.
End solvency.
End proofs.

(** ** The properties *)

Section theorems.
Context `{TokenClient}.
Abbreviation VEnv := (Env DataKey ScheduleData VestingEvent).
Implicit Types (e : VEnv) (s : ScheduleData).

(** C1: from deployment on, the successful claims together pay exactly what
    has vested at the ledger of the last one, whatever their number and
    timing: never more than the vested amount, never more than the total, and
    exactly the total (no dust) once the end ledger is reached. The rest of
    the schedule never changes. *)
Theorem vesting_no_dust o t total start cliff last e0 e1 ps e2 :
  constructor o t total start cliff last e0 = Ok (tt, e1) →
  total ≤ i128_max → is_u32 start → is_u32 last → is_u32 (sequence e1) →
  run anything e1 ps e2 →
  Forall (λ r, 0 ≤ r) ps
  ∧ sumZ ps ≤ vested_spec total start cliff last (sequence e2) ≤ total
  ∧ stored e2 = Some (mkSchedule o t total start cliff last (sumZ ps))
  ∧ ∀ to r e3, claim to e2 = Ok (r, e3) →
      sumZ (ps ++ [r]) = vested_spec total start cliff last (sequence e2)
      ∧ (last ≤ sequence e2 → sumZ (ps ++ [r]) = total).
Proof.
  intros Hc Ht Hs Hl Hseq Hrun.
  destruct (constructed_inv _ _ _ _ _ _ _ _ Hc Hs Hl Ht Hseq) as [Hv Hinv].
  exact (run_pays _ _ _ (run_invariant _ _ [] _ _ _ Hinv Hrun)).
Qed.

(** C4: a funded schedule always pays. Once the contract holds what the schedule
    still owes, however it came by it, and as long as nobody spends its tokens
    without its authorisation, it holds it for ever after; and while its instance
    is live, a claim its owner authorises, to any recipient the token accepts,
    succeeds at any ledger and moves to the recipient exactly what has vested and
    was not claimed: once the schedule has ended, everything that is left. *)
Theorem vesting_solvent (balance_of : Address → Address → World → Z)
    (accepts : Address → Address → World → Prop) (max_ttl : Z)
    `{!TokenLaws balance_of} `{!TokenPays balance_of accepts} `{!TtlLaws max_ttl}
    o t total start cliff last e0 e1 ps1 ef ps2 e :
  constructor o t total start cliff last e0 = Ok (tt, e1) →
  total ≤ i128_max → is_u32 start → is_u32 last → is_u32 (sequence e1) →
  run anything e1 ps1 ef → total ≤ sumZ ps1 + holds balance_of ef t →
  run (spared balance_of) ef ps2 e →
  total ≤ sumZ (ps1 ++ ps2) + holds balance_of e t
  ∧ ∀ to w,
      INSTANCE_EXTEND_AMOUNT ≤ max_ttl → sequence e ≤ inst_live_until e →
      host_require_auth (self e) o (world e) = Some w → accepts t to w →
      let r := vested_spec total start cliff last (sequence e) - sumZ (ps1 ++ ps2) in
      ∃ e', claim to e = Ok (r, e')
        ∧ (last ≤ sequence e → r = total - sumZ (ps1 ++ ps2))
        ∧ (to ≠ self e → balance_of t to (world e') = balance_of t to w + r).
Proof.
  intros Hc Ht Hs Hl Hseq Hrun1 Hfund Hrun2.
  destruct (constructed_inv _ _ _ _ _ _ _ _ Hc Hs Hl Ht Hseq) as [Hv Hinv].
  pose proof (run_invariant _ _ [] _ _ _ Hinv Hrun1) as Hinv1.
  pose proof (run_invariant _ _ _ _ _ _ Hinv1 Hrun2) as Hinv2.
  destruct (run_solvent balance_of _ _ _ _ _ t Hinv1 Hrun2) as [_ Hb].
  assert (total ≤ sumZ (ps1 ++ ps2) + holds balance_of e t) as Hsolv
    by (autorewrite with sums; lia).
  split; [exact Hsolv|]. intros to w Hmax Hlive Ha Hto r.
  destruct (extend_ttl_live (sequence e) (inst_live_until e) INSTANCE_TTL_THRESHOLD
    INSTANCE_EXTEND_AMOUNT Hlive ltac:(by_cmp) Hmax) as [live Hx].
  destruct (solvent_claim balance_of accepts _ _ e live to w Hinv2 Hsolv Hx Ha Hto) as (e' & Hcl & Hpay).
  exists e'. split; [exact Hcl|]. split; [|exact Hpay].
  intros Hend. subst r. by rewrite vested_spec_end.
Qed.

(** C27: what [claim] does on an initialised schedule, on every branch. It
    succeeds exactly when the TTL extension and the owner's authorisation are
    granted and, if something is claimable, the token accepts the transfer
    from the contract to the recipient; it returns vested minus claimed, and
    records the payment and its event only when that is positive. Without a
    schedule it fails with [NotInitialized], without the owner's authorisation
    with a host error. *)
Theorem claim_spec to e s :
  wf_schedule s → is_u32 (sequence e) →
  (stored e = Some s → ∀ r e', claim to e = Ok (r, e') ↔ claim_outcome to s e r e')
  ∧ (∀ live, host_extend_ttl (sequence e) (inst_live_until e)
               INSTANCE_TTL_THRESHOLD INSTANCE_EXTEND_AMOUNT = Some live →
      (stored e = None → claim to e = Err (ContractError NotInitialized))
      ∧ (stored e = Some s → host_require_auth (self e) (owner s) (world e) = None →
         claim to e = Err HostError)).
Proof.
  intros Hwf Hseq. split.
  { intros Hs r e'. by apply claim_runs. }
  intros live Hlive. unfold stored, claim, extend_instance_ttl, get_schedule_data.
  split.
  - intros Hs. exec. rewrite Hlive. simpl. by rewrite Hs.
  - intros Hs Ha. exec. rewrite Hlive. simpl. rewrite Hs. simpl. by rewrite Ha.
Qed.

(** C31: [compute_vested] never panics on a schedule the constructor accepts,
    equals the documented closed form over unbounded integers, stays within
    [0 .. total_amount] and never decreases as the ledger advances. *)
Theorem compute_vested_spec total start cliff last l1 l2 :
  valid_schedule total start cliff last → is_u32 l1 → is_u32 l2 → l1 ≤ l2 →
  ∃ v1 v2,
    compute_vested total start cliff last l1 = Some v1
    ∧ compute_vested total start cliff last l2 = Some v2
    ∧ v1 = vested_spec total start cliff last l1
    ∧ 0 ≤ v1 ≤ v2 ∧ v2 ≤ total.
Proof.
  intros Hv H1 H2 Hle. rewrite !compute_vested_correct by done.
  eexists _, _. do 3 (split; [done|]).
  pose proof (vested_spec_bounds _ _ _ _ l1 Hv).
  pose proof (vested_spec_bounds _ _ _ _ l2 Hv).
  pose proof (vested_spec_mono _ _ _ _ l1 l2 Hv Hle). lia.
Qed.

(** C40: the wide multiply-divide returns the exact floor of
    [total * elapsed / duration] for every 128-bit total, on the fast path
    and on the split path alike, without panicking, as long as
    [elapsed <= duration <= 2^63]. *)
Theorem mul_div_u128_exact total elapsed duration :
  is_u128 total → 0 ≤ elapsed ≤ duration → 0 < duration ≤ 2 ^ 63 →
  mul_div_u128 total elapsed duration = Some (total * elapsed / duration).
Proof.
  intros Ht Hel Hd. destruct (u128_checked_mul total elapsed) as [p|] eqn:Hm.
  - unfold mul_div_u128. change (2 ^ 63) with 9223372036854775808 in Hd.
    rewrite !as_u128_id by ranges. rewrite Hm.
    apply in_range_Some in Hm as [-> ?]. apply u128_div_pos. lia.
  - by apply mul_div_wide.
Qed.

(** The constructor accepts exactly the valid schedules on an
    uninitialised contract, and reports the documented error for the first
    condition that fails. *)
Theorem constructor_spec o t total start cliff last e live :
  is_u32 start → is_u32 last → total ≤ i128_max →
  host_extend_ttl (sequence e) (inst_live_until e)
    INSTANCE_TTL_THRESHOLD INSTANCE_EXTEND_AMOUNT = Some live →
  constructor o t total start cliff last e =
    match stored e with
    | Some _ => Err (ContractError AlreadyInitialized)
    | None =>
        if decide (total ≤ 0) then Err (ContractError InvalidAmount)
        else if decide (last ≤ start) then Err (ContractError InvalidLedgerRange)
        else if decide (valid_schedule total start cliff last) then
          Ok (tt, after_constructor (mkSchedule o t total start cliff last 0) live e)
        else Err (ContractError InvalidCliffLedger)
    end.
Proof.
  intros Hs Hl Ht Hlive. unfold stored.
  destruct (inst e !! Schedule) as [s|] eqn:Hst.
  { unfold constructor. exec. by rewrite Hst. }
  case_decide.
  { unfold constructor. exec. rewrite Hst. simpl. by rewrite (proj2 (Z.leb_le _ _)). }
  case_decide.
  { unfold constructor. exec. rewrite Hst. simpl. rewrite (proj2 (Z.leb_gt _ _)) by lia.
    simpl. by rewrite (proj2 (Z.leb_le _ _)). }
  case_decide as Hv.
  { apply constructor_runs; eauto. }
  unfold constructor. exec. rewrite Hst. simpl.
  rewrite (proj2 (Z.leb_gt _ _)) by lia. simpl.
  rewrite (proj2 (Z.leb_gt last start)) by lia. simpl.
  destruct (match cliff with Some _ => _ | None => _ end) eqn:Hc; [done|].
  exfalso. apply Hv. apply cliff_range_spec in Hc. unfold valid_schedule. auto with lia.
Qed.
End theorems.

(** ** Witnesses: a schedule of 1000 tokens over ledgers 100..200, cliff at 150 *)

Definition test_env0 : Env (H := ref_host) DataKey ScheduleData VestingEvent :=
  ref_env 9%N 90 0 (ref_world [1%N] {[ (7%N, 9%N) := 1000 ]}).

Definition test_env1 : Env (H := ref_host) DataKey ScheduleData VestingEvent :=
  final (constructor 1%N 7%N 1000 100 (Some 150) 200 test_env0) test_env0.
(** Ledger 175: three quarters vested, and claimed by the owner. *)
Definition test_env2 := final (claim 2%N (set_ledger 175 0 (world test_env1) test_env1)) test_env1.
(** Ledger 260: past the end. *)
Definition test_env3 := set_ledger 260 0 (world test_env2) test_env2.

Lemma vesting_no_dust_witness :
  value (claim 2%N (set_ledger 175 0 (world test_env1) test_env1)) 0 = 750
  ∧ ∀ to r e3, claim to test_env3 = Ok (r, e3) → sumZ ([750] ++ [r]) = 1000.
Proof.
  split; [by_run|]. intros to r e3 Hc.
  assert (run (H := ref_host) anything test_env1 [750] test_env3) as Hrun.
  { apply run_time; [|by_cmp..|done].
    apply (run_claim _ _ [] (set_ledger 175 0 (world test_env1) test_env1) 2%N); [|by_run].
    apply run_time; [apply run_start|by_cmp..|done]. }
  refine (proj2 (proj2 (proj2 (proj2 (vesting_no_dust 1%N 7%N 1000 100 (Some 150) 200
    test_env0 test_env1 [750] test_env3 _ _ _ _ _ Hrun))) to r e3 Hc) _); [by_run|by_cmp..].
Defined.

(** Funded from the start: at ledger 260, after the claim of 750, the rest. *)
Lemma vesting_solvent_witness :
  ∃ e', claim (3%N : Address (Host := ref_host)) test_env3 = Ok (250, e')
    ∧ ref_balance_of 7%N 3%N (world e') = 250.
Proof.
  assert (run (H := ref_host) (spared ref_balance_of) test_env1 [750] test_env3) as Hrun.
  { apply run_time; [|by_cmp..|intros t; reflexivity].
    apply (run_claim _ _ [] (set_ledger 175 0 (world test_env1) test_env1) 2%N); [|by_run].
    apply run_time; [apply run_start|by_cmp..|intros t; reflexivity]. }
  destruct (vesting_solvent (H := ref_host) ref_balance_of (λ _ _ _, True) 518400 1%N 7%N 1000 100
    (Some 150) 200 test_env0 test_env1 [] test_env1 [750] test_env3 ltac:(by_run) ltac:(by_cmp)
    ltac:(by_cmp) ltac:(by_cmp) ltac:(by_cmp) (run_start _ _) ltac:(by_cmp) Hrun) as [_ Hpay].
  destruct (Hpay 3%N (world test_env3) ltac:(by_cmp) ltac:(by_cmp) ltac:(by_run) I) as (e' & Hc & _ & Hb).
  exists e'. split; [exact Hc|]. etrans; [apply Hb; vm_compute; discriminate|]. by_run.
Defined.

Definition test_schedule : ScheduleData (H := ref_host) :=
  mkSchedule (H := ref_host) 1%N 7%N 1000 100 (Some 150) 200 750.
Lemma test_schedule_wf : wf_schedule test_schedule.
Proof. repeat split; by_cmp. Qed.

Lemma claim_spec_witness :
  claim_outcome (H := ref_host) 2%N test_schedule test_env3 250 (final (claim 2%N test_env3) test_env3)
  ∧ claim 2%N test_env0 = Err (ContractError NotInitialized).
Proof.
  split.
  - apply (proj1 (claim_spec (H := ref_host) 2%N test_env3 _ test_schedule_wf ltac:(by_cmp))); by_run.
  - apply (proj2 (claim_spec (H := ref_host) 2%N test_env0 _ test_schedule_wf ltac:(by_cmp)) 518490); by_run.
Defined.

Lemma compute_vested_spec_witness :
  ∃ v1 v2, compute_vested i128_max 100 None 4000000000 2000000000 = Some v1
    ∧ compute_vested i128_max 100 None 4000000000 3999999999 = Some v2 ∧ 0 ≤ v1 ≤ v2.
Proof.
  destruct (compute_vested_spec i128_max 100 None 4000000000 2000000000 3999999999)
    as (v1 & v2 & ? & ? & _ & ? & _); [by_cmp..|]. eauto.
Defined.

(** The largest total takes the split path. *)
Lemma mul_div_u128_exact_witness :
  u128_checked_mul u128_max 4294967294 = None
  ∧ mul_div_u128 u128_max 4294967294 4294967295
    = Some (u128_max * 4294967294 / 4294967295).
Proof. split; [by_run|]. apply mul_div_u128_exact; by_cmp. Defined.

Lemma constructor_spec_witness :
  constructor (H := ref_host) 1%N 7%N 1000 100 (Some 250) 200 test_env0
  = Err (ContractError InvalidCliffLedger).
Proof.
  rewrite (constructor_spec (H := ref_host) 1%N 7%N 1000 100 (Some 250) 200 test_env0 518490);
    [by_run|by_cmp|by_cmp|by_cmp|by_run].
Defined.
