(* ===== verification/Timelock.v ===== *)
(** * Timelock vault (templates/timelock-vault/src/lib.rs)

    A contract that holds tokens until a ledger fixed at construction and then
    pays them out on the owner's authorisation: the constructor, [bump_ttl],
    [deposit], [withdraw] and the queries, with the TTL of its two persistent
    entries; runs of the vault over time. *)
From S2P Require Import Prelude RustInt Soroban RefHost.
Local Open Scope Z_scope.

Module Vault.

(** ** Storage, errors and events *)

Inductive DataKey := Owner | UnlockLedger.
#[export] Instance DataKey_eq_dec : EqDecision DataKey.
Proof. solve_decision. Defined.
#[export] Program Instance DataKey_countable : Countable DataKey :=
  inj_countable' (λ k, match k with Owner => true | UnlockLedger => false end)
    (λ b, if b : bool then Owner else UnlockLedger) _.
Next Obligation. by intros []. Qed.

Inductive VaultError := StillLocked | InvalidUnlockLedger.

Definition DAY_IN_LEDGERS : Z := 17280.
Definition EXTEND_AMOUNT : Z := 120 * DAY_IN_LEDGERS.
Definition TTL_THRESHOLD : Z := EXTEND_AMOUNT - DAY_IN_LEDGERS.

Section contract.
Context `{TokenClient}.

(** The two kinds of values the vault stores. *)
Inductive VaultVal :=
  | AddressVal (a : Address)
  | U32Val (n : Z).

Inductive VaultEvent :=
  | Deposited (token from : Address) (amount : Z)
  | Withdrawn (token to : Address) (amount : Z).

Abbreviation VEnv := (Env DataKey VaultVal VaultEvent).
Abbreviation VM := (M VEnv VaultError).

(** [e.storage().persistent().get(&key).unwrap()] at type [Address] and [u32];
    a missing value and a value of the other type both panic. *)
Definition as_address (v : VaultVal) : option Address :=
  match v with AddressVal a => Some a | U32Val _ => None end.
Definition as_u32 (v : VaultVal) : option Z :=
  match v with U32Val n => Some n | AddressVal _ => None end.
Definition get_address (k : DataKey) : VM Address :=
  o ← persistent_get k; unwrap (o ≫= as_address).
Definition get_u32 (k : DataKey) : VM Z :=
  o ← persistent_get k; unwrap (o ≫= as_u32).

Definition extend_state_ttl : VM unit :=
  persistent_extend_ttl Owner TTL_THRESHOLD EXTEND_AMOUNT ;;
  persistent_extend_ttl UnlockLedger TTL_THRESHOLD EXTEND_AMOUNT.

(** ** Entry points *)

Definition constructor (owner : Address) (unlock_ledger : Z) : VM unit :=
  seq ← ledger_sequence;
  throw_if (unlock_ledger <=? seq) InvalidUnlockLedger ;;
  persistent_set Owner (AddressVal owner) ;;
  persistent_set UnlockLedger (U32Val unlock_ledger) ;;
  extend_state_ttl.

Definition bump_ttl : VM unit := extend_state_ttl.

Definition deposit (from token : Address) (amount : Z) : VM unit :=
  require_auth from ;;
  vault_addr ← current_contract_address;
  transfer token from vault_addr amount ;;
  extend_state_ttl ;;
  publish (Deposited token from amount).

Definition withdraw (token : Address) (amount : Z) (to : Address) : VM unit :=
  owner ← get_address Owner;
  require_auth owner ;;
  unlock_ledger ← get_u32 UnlockLedger;
  seq ← ledger_sequence;
  throw_if (seq <? unlock_ledger) StillLocked ;;
  vault_addr ← current_contract_address;
  transfer token vault_addr to amount ;;
  extend_state_ttl ;;
  publish (Withdrawn token to amount).

Definition get_owner : VM Address := get_address Owner.
Definition get_unlock_ledger : VM Z := get_u32 UnlockLedger.
Definition get_balance (token : Address) : VM Z :=
  me ← current_contract_address;
  invoke (token_balance me token me).
End contract.

(** ** Runs of a vault *)

Section runs.
Context `{TokenClient} (balance_of : Address → Address → World → Z).
Abbreviation VEnv := (Env DataKey VaultVal VaultEvent).
Abbreviation VM := (M VEnv VaultError).
Implicit Types e : VEnv.

(** Every entry point but the constructor. *)
Inductive call :=
  | CBumpTtl
  | CDeposit (from token : Address) (amount : Z)
  | CWithdraw (token : Address) (amount : Z) (to : Address)
  | CGetOwner
  | CGetUnlockLedger
  | CGetBalance (token : Address).

Definition run_call (c : call) : VM unit :=
  match c with
  | CBumpTtl => bump_ttl
  | CDeposit from token amount => deposit from token amount
  | CWithdraw token amount to => withdraw token amount to
  | CGetOwner => get_owner ;; mret tt
  | CGetUnlockLedger => get_unlock_ledger ;; mret tt
  | CGetBalance token => get_balance token ;; mret tt
  end.

Definition config e : option Address * option Z :=
  (persistent e !! Owner ≫= as_address, persistent e !! UnlockLedger ≫= as_u32).

(** Between calls the ledger advances and other transactions change the world;
    none of them spends the vault's tokens, which needs the vault's own
    authorisation. *)
Inductive step : VEnv → VEnv → Prop :=
  | step_call c e e' : run_call c e = Ok (tt, e') → step e e'
  | step_time e seq time w :
      sequence e ≤ seq →
      (∀ t, balance_of t (self e) (world e) ≤ balance_of t (self e) w) →
      step e (set_ledger seq time w e).
Abbreviation run := (rtc step).

(** ** What each piece does *)

Definition extended (l1 l2 : Z) e : VEnv :=
  set_persistent (persistent e) (<[UnlockLedger := l2]> (<[Owner := l1]> (live_until e))) e.

(** Both entries are stored with a TTL the host extends to [l1] and [l2]. *)
Definition extension e (l1 l2 : Z) : Prop :=
  ∃ a b, live_until e !! Owner = Some a ∧ live_until e !! UnlockLedger = Some b
    ∧ host_extend_ttl (sequence e) a TTL_THRESHOLD EXTEND_AMOUNT = Some l1
    ∧ host_extend_ttl (sequence e) b TTL_THRESHOLD EXTEND_AMOUNT = Some l2.

Lemma extend_state_runs e u e' :
  extend_state_ttl e = Ok (u, e') ↔ ∃ l1 l2, extension e l1 l2 ∧ e' = extended l1 l2 e.
Proof.
  unfold extend_state_ttl, extension, extended. split.
  - intros Hr. inv_run. simpl in *. rewrite lookup_insert_ne in * by done. by eauto 10.
  - intros (l1 & l2 & (a & b & Ha & Hb & H1 & H2) & ->). destruct u. exec.
    rewrite Ha, H1. simpl. rewrite lookup_insert_ne by done. by rewrite Hb, H2.
Qed.

Lemma get_address_Ok k e a e' :
  get_address k e = Ok (a, e') ↔ persistent e !! k ≫= as_address = Some a ∧ e' = e.
Proof.
  unfold get_address. split; [intros; inv_run; done|].
  intros ?. step_get by apply persistent_get_Ok. by apply unwrap_Ok.
Qed.
Lemma get_u32_Ok k e n e' :
  get_u32 k e = Ok (n, e') ↔ persistent e !! k ≫= as_u32 = Some n ∧ e' = e.
Proof.
  unfold get_u32. split; [intros; inv_run; done|].
  intros ?. step_get by apply persistent_get_Ok. by apply unwrap_Ok.
Qed.
Hint Rewrite @get_address_Ok @get_u32_Ok @extend_state_runs : runs.

(** The checks and effects of a withdrawal by owner [o] at or after [u]. *)
Definition withdraw_outcome (o : Address) (u : Z) t amount to e e' : Prop :=
  u ≤ sequence e ∧ ∃ w1 w2 l1 l2,
    host_require_auth (self e) o (world e) = Some w1
    ∧ token_transfer (self e) t (self e) to amount w1 = Some w2
    ∧ extension e l1 l2
    ∧ e' = set_events (events e ++ [Withdrawn t to amount]) (extended l1 l2 (set_world w2 e)).

Lemma withdraw_runs o u t amount to e e' :
  config e = (Some o, Some u) →
  withdraw t amount to e = Ok (tt, e') ↔ withdraw_outcome o u t amount to e e'.
Proof.
  unfold config. intros [= Ho Hu]. unfold withdraw, withdraw_outcome. split.
  - intros Hr. inv_run. simpl in *. simplify_eq. split; [done|].
    unfold extension in *. eexists _, _, _, _. split_and!; try done; eauto.
  - intros (Hle & w1 & w2 & l1 & l2 & Ha & Ht & Hx & ->).
    step_get by apply get_address_Ok.
    step_do by (apply require_auth_Ok; eauto).
    step_get by apply get_u32_Ok.
    step_get by apply ledger_sequence_Ok.
    step_do by (apply throw_if_Ok; split; [apply Z.ltb_ge|]).
    step_get by apply current_contract_address_Ok.
    step_do by (apply transfer_Ok; eauto).
    step_do by (apply extend_state_runs; eauto).
    by apply publish_Ok.
Qed.

Lemma run_call_frame c e e' :
  run_call c e = Ok (tt, e') →
  self e' = self e ∧ sequence e' = sequence e ∧ persistent e' = persistent e.
Proof.
  destruct c; simpl;
    unfold bump_ttl, deposit, withdraw, get_owner, get_unlock_ledger, get_balance;
    intros; inv_run; done.
Qed.

Lemma run_frame e0 e :
  run e0 e → self e = self e0 ∧ sequence e0 ≤ sequence e ∧ persistent e = persistent e0.
Proof.
  induction 1 as [|e0 e1 e2 Hstep _ (Hs & Hq & Hp)]; [done|].
  destruct Hstep as [c e e' Hc|e seq time w Hle _].
  - apply run_call_frame in Hc as (? & ? & ?). split_and!; [congruence|lia|congruence].
  - simpl in *. split_and!; [congruence|lia|congruence].
Qed.

Section balances.
Context `{!TokenLaws balance_of}.

Lemma deposit_balance from token amount e e' t :
  deposit from token amount e = Ok (tt, e') →
  balance_of t (self e) (world e) ≤ balance_of t (self e) (world e').
Proof.
  unfold deposit. intros. inv_run. simpl in *.
  repeat match goal with
  | Ha : host_require_auth _ _ _ = Some _ |- _ => apply (require_auth_balance _ _ _ _ t) in Ha
  | Ht : token_transfer _ _ _ _ _ _ = Some _ |- _ =>
      pose proof (transfer_amount _ _ _ _ _ _ _ Ht);
      apply (transfer_balance _ _ _ _ _ _ _ t (self e)) in Ht
  end.
  repeat case_decide; naive_solver lia.
Qed.

Lemma locked_call c o u e e' t :
  config e = (Some o, Some u) → sequence e < u → run_call c e = Ok (tt, e') →
  balance_of t (self e) (world e) ≤ balance_of t (self e) (world e').
Proof.
  intros Hcfg Hlt. destruct c; simpl.
  - unfold bump_ttl. intros. inv_run. done.
  - apply deposit_balance.
  - intros Hw. apply (withdraw_runs _ _ _ _ _ _ _ Hcfg) in Hw as [? _]. lia.
  - unfold get_owner. intros. inv_run. done.
  - unfold get_unlock_ledger. intros. inv_run. done.
  - unfold get_balance. intros. inv_run. simpl.
    match goal with Hb : token_balance _ _ _ _ = Some _ |- _ =>
      apply token_balance_value in Hb as [_ Hb]; rewrite Hb end. done.
Qed.

Lemma locked_run o u e0 e t :
  config e0 = (Some o, Some u) → run e0 e → sequence e < u →
  balance_of t (self e0) (world e0) ≤ balance_of t (self e0) (world e).
Proof.
  intros Hcfg Hrun Hlt. induction Hrun as [|e0 e1 e2 Hstep Hrun IH]; [done|].
  pose proof (run_frame _ _ Hrun) as (_ & Hq & _).
  destruct Hstep as [c e e' Hc|e seq time w Hle Hbal].
  - pose proof (run_call_frame _ _ _ Hc) as (Hs & Hseq & Hp).
    transitivity (balance_of t (self e) (world e')).
    + by eapply locked_call; [done|lia|].
    + rewrite <- Hs. apply IH; [|done]. unfold config in *. by rewrite Hp.
  - transitivity (balance_of t (self e) w); [apply Hbal|]. by apply IH.
Qed.

(** *** What the vault holds of its deposits *)

(** What a call adds to the vault's balance of [t]. (A payment of the vault to
    itself moves nothing.) *)
Definition net (me t : Address) (c : call) : Z :=
  match c with
  | CDeposit from token amount => if decide (token = t ∧ from ≠ me) then amount else 0
  | CWithdraw token amount to => if decide (token = t ∧ to ≠ me) then - amount else 0
  | _ => 0
  end.

(** A history of the vault: the calls that succeeded, while others pass time. *)
Inductive history (e0 : VEnv) : list call → VEnv → Prop :=
  | history_start : history e0 [] e0
  | history_call cs e c e' :
      history e0 cs e → run_call c e = Ok (tt, e') → history e0 (cs ++ [c]) e'
  | history_time cs e seq time w :
      history e0 cs e → sequence e ≤ seq → spares balance_of (self e) (world e) w →
      history e0 cs (set_ledger seq time w e).

Lemma history_frame e0 cs e :
  history e0 cs e → self e = self e0 ∧ persistent e = persistent e0.
Proof.
  induction 1 as [|cs e c e' _ [Hs Hp] Hc|cs e seq time w _ [Hs Hp] _ _]; [done| |done].
  apply run_call_frame in Hc as (? & _ & ?). split; congruence.
Qed.

Lemma call_balance o u c e e' t :
  config e = (Some o, Some u) → run_call c e = Ok (tt, e') →
  balance_of t (self e) (world e) + net (self e) t c ≤ balance_of t (self e) (world e').
Proof.
  intros Hcfg. destruct c as [|from token amount|token amount to| | |token]; simpl; intros Hc.
  - unfold bump_ttl in Hc. inv_run. simpl. lia.
  - unfold deposit in Hc. inv_run. simpl in *.
    match goal with Ha : host_require_auth _ _ _ = Some _, Ht : token_transfer _ _ _ _ _ _ = Some _ |- _ =>
      apply (require_auth_balance _ _ _ _ t) in Ha;
      rewrite (transfer_balance _ _ _ _ _ _ _ t (self e) Ht) end.
    repeat case_decide; naive_solver lia.
  - apply (withdraw_runs _ _ _ _ _ _ _ Hcfg) in Hc as (_ & w1 & w2 & l1 & l2 & Ha & Ht & _ & ->).
    apply (require_auth_balance _ _ _ _ t) in Ha. simpl.
    rewrite (transfer_balance _ _ _ _ _ _ _ t (self e) Ht). repeat case_decide; naive_solver lia.
  - unfold get_owner in Hc. inv_run. simpl. lia.
  - unfold get_unlock_ledger in Hc. inv_run. simpl. lia.
  - unfold get_balance in Hc. inv_run. simpl.
    match goal with Hb : token_balance _ _ _ _ = Some _ |- _ =>
      apply token_balance_value in Hb as [_ Hb]; rewrite Hb end. lia.
Qed.

Lemma history_balance o u e0 cs e t :
  config e0 = (Some o, Some u) → history e0 cs e →
  balance_of t (self e0) (world e0) + sumZ (net (self e0) t <$> cs)
    ≤ balance_of t (self e0) (world e).
Proof.
  intros Hcfg Hrun. induction Hrun as [|cs e c e' Hrun IH Hc|cs e seq time w Hrun IH _ Hw].
  - simpl. lia.
  - destruct (history_frame _ _ _ Hrun) as [Hs Hp].
    assert (config e = (Some o, Some u)) as Hcfg' by (unfold config in *; by rewrite Hp).
    pose proof (call_balance _ _ _ _ _ t Hcfg' Hc) as Hb. rewrite Hs in Hb.
    rewrite fmap_app. autorewrite with sums. simpl. lia.
  - destruct (history_frame _ _ _ Hrun) as [Hs _]. pose proof (Hw t). rewrite Hs in *. simpl. lia.
Qed.
End balances.

(** ** The constructor *)

Lemma constructor_config o u e e' :
  constructor o u e = Ok (tt, e') →
  sequence e < u ∧ config e' = (Some o, Some u) ∧ self e' = self e
  ∧ sequence e' = sequence e
  ∧ ∃ l1 l2, live_until e' !! Owner = Some l1 ∧ live_until e' !! UnlockLedger = Some l2
      ∧ ∃ a b, host_extend_ttl (sequence e) a TTL_THRESHOLD EXTEND_AMOUNT = Some l1
            ∧ host_extend_ttl (sequence e) b TTL_THRESHOLD EXTEND_AMOUNT = Some l2.
Proof.
  unfold constructor. intros. inv_run. unfold extension, extended, config in *. simpl in *.
  split_and!; try done.
  - by rewrite lookup_insert_ne, !lookup_insert_eq by done.
  - destruct_and?. inv_run. rewrite lookup_insert_ne, !lookup_insert_eq by done. eauto 10.
Qed.

(** No entry point extends the TTL of the contract's own instance: keeping the
    two entries alive does not keep the instance alive. *)
Lemma instance_never_extended e e' :
  run e e' → inst_live_until e' = inst_live_until e.
Proof.
  induction 1 as [e|e e1 e2 Hs _ IH]; [done|]. rewrite IH. clear IH.
  destruct Hs as [c e e' Hc|]; [|done].
  destruct c; simpl in Hc; unfold bump_ttl, deposit, withdraw, get_owner, get_unlock_ledger,
    get_balance, extended in Hc; by inv_run.
Qed.

(** ** Keeping a vault alive *)

(** [kept e last]: the vault was built, and from then on [bump_ttl] or
    [deposit] ran again and again, each no more than [TTL_THRESHOLD] ledgers
    after the one before; [last] is the ledger of the latest. *)
Inductive kept : VEnv → Z → Prop :=
  | kept_new o u e e' :
      constructor o u e = Ok (tt, e') → kept e' (sequence e')
  | kept_bump e last seq time w e' :
      kept e last → sequence e ≤ seq ≤ last + TTL_THRESHOLD →
      bump_ttl (set_ledger seq time w e) = Ok (tt, e') → kept e' seq
  | kept_deposit e last seq time w from token amount e' :
      kept e last → sequence e ≤ seq ≤ last + TTL_THRESHOLD →
      deposit from token amount (set_ledger seq time w e) = Ok (tt, e') → kept e' seq.

(** Both entries stay live for [TTL_THRESHOLD] ledgers after ledger [last]. *)
Definition live_through e (n : Z) : Prop :=
  ∃ l1 l2, live_until e !! Owner = Some l1 ∧ live_until e !! UnlockLedger = Some l2
    ∧ n ≤ l1 ∧ n ≤ l2.

Section ttl.
Context (max_ttl : Z) `{!TtlLaws max_ttl} (Hmax : EXTEND_AMOUNT ≤ max_ttl).

Lemma extended_ttl seq l l' :
  host_extend_ttl seq l TTL_THRESHOLD EXTEND_AMOUNT = Some l' → seq + TTL_THRESHOLD ≤ l'.
Proof. intros Hx. apply (extend_ttl_result _ _ _ _ _) in Hx; [lia| |done]. by_cmp. Qed.

Lemma extension_live e l1 l2 :
  extension e l1 l2 → live_through (extended l1 l2 e) (sequence e + TTL_THRESHOLD).
Proof.
  intros (a & b & _ & _ & Hx1%extended_ttl & Hx2%extended_ttl). exists l1, l2.
  unfold extended; simpl. by rewrite lookup_insert_ne, !lookup_insert_eq.
Qed.

Lemma live_extension e :
  live_through e (sequence e) → ∃ l1 l2, extension e l1 l2.
Proof.
  intros (a & b & Ha & Hb & ? & ?).
  assert (0 ≤ TTL_THRESHOLD ≤ EXTEND_AMOUNT) as Hth by by_cmp.
  destruct (extend_ttl_live (sequence e) a _ _ ltac:(done) Hth Hmax) as [l1 Hl1].
  destruct (extend_ttl_live (sequence e) b _ _ ltac:(done) Hth Hmax) as [l2 Hl2].
  exists l1, l2, a, b. done.
Qed.

Lemma kept_live e last :
  kept e last → live_through e (last + TTL_THRESHOLD) ∧ sequence e = last.
Proof.
  intros Hk. induction Hk as [o u e e' Hc|e last seq time w e' _ _ _ Hb
    |e last seq time w from token amount e' _ _ _ Hd].
  - apply constructor_config in Hc as (_ & _ & _ & Hs & l1 & l2 & Hl1 & Hl2 & a & b & Ha & Hb).
    split; [|done]. exists l1, l2. rewrite Hs.
    apply extended_ttl in Ha, Hb. done.
  - unfold bump_ttl in Hb. apply extend_state_runs in Hb as (l1 & l2 & Hx & ->).
    split; [by apply extension_live in Hx|done].
  - unfold deposit in Hd. inv_run. simpl in *. split; [|done].
    match goal with Hx : extension _ _ _ |- _ => by apply extension_live in Hx end.
Qed.

Lemma kept_config e last : kept e last → ∃ o u, config e = (Some o, Some u).
Proof.
  intros Hk. induction Hk as [o u e e' Hc|e last seq time w e' _ (o & u & Hcfg) _ Hb
    |e last seq time w from token amount e' _ (o & u & Hcfg) _ Hd].
  - apply constructor_config in Hc as (_ & ? & _). eauto.
  - apply (run_call_frame CBumpTtl) in Hb as (_ & _ & Hp). exists o, u.
    unfold config in *. by rewrite Hp.
  - apply (run_call_frame (CDeposit _ _ _)) in Hd as (_ & _ & Hp). exists o, u.
    unfold config in *. by rewrite Hp.
Qed.

(** At any ledger of the window after a refresh the state can be refreshed. *)
Lemma kept_extension e last seq time w :
  kept e last → seq ≤ last + TTL_THRESHOLD →
  ∃ l1 l2, extension (set_ledger seq time w e) l1 l2.
Proof.
  intros [(a & b & ? & ? & ? & ?) _]%kept_live Hle.
  apply live_extension. exists a, b. simpl. split_and!; [done..|lia|lia].
Qed.
End ttl.
End runs.

(** ** The properties *)

Section theorems.
Context `{TokenClient} (balance_of : Address → Address → World → Z) `{!TokenLaws balance_of}.
Context (max_ttl : Z) `{!TtlLaws max_ttl}.
Abbreviation VEnv := (Env DataKey VaultVal VaultEvent).
Implicit Types e : VEnv.

(** C3: from construction until the unlock ledger, whatever is called on the
    vault in whatever order, no token balance of the vault ever decreases, no
    withdrawal succeeds (even with the owner's authorisation), and the owner
    and unlock ledger stay what the constructor stored. *)
Theorem vault_locked o u e0 e1 e2 :
  constructor o u e0 = Ok (tt, e1) →
  rtc (step balance_of) e1 e2 →
  config e2 = (Some o, Some u)
  ∧ (sequence e2 < u →
      (∀ t, balance_of t (self e1) (world e1) ≤ balance_of t (self e1) (world e2))
      ∧ ∀ t amount to e', withdraw t amount to e2 ≠ Ok (tt, e')).
Proof.
  intros (_ & Hcfg & _)%constructor_config Hrun.
  assert (config e2 = (Some o, Some u)) as Hcfg2.
  { pose proof (run_frame _ _ _ Hrun) as (_ & _ & Hp). unfold config in *. by rewrite Hp. }
  split; [done|]. intros Hlt. split.
  - intros t. by eapply locked_run.
  - intros t amount to e' Hw. apply (withdraw_runs _ _ _ _ _ _ _ Hcfg2) in Hw as [? _]. lia.
Qed.

(** C32: [withdraw] on a constructed vault. It pays exactly when both gates are
    open: the owner authorised the call, the ledger is at or past the unlock
    ledger, and the token and the TTL extension accept. The owner gate comes
    first: an unauthorised call fails with a host error at any ledger, an
    authorised one before the unlock ledger with [StillLocked]. *)
Theorem withdraw_spec o u t amount to e :
  config e = (Some o, Some u) →
  (∀ e', withdraw t amount to e = Ok (tt, e') ↔ withdraw_outcome o u t amount to e e')
  ∧ (host_require_auth (self e) o (world e) = None →
     withdraw t amount to e = Err HostError)
  ∧ (auth_ok e o → sequence e < u →
     withdraw t amount to e = Err (ContractError StillLocked)).
Proof.
  intros Hcfg. split; [by intros; apply withdraw_runs|]. unfold config in Hcfg.
  injection Hcfg as Ho Hu. unfold withdraw. split.
  - intros Ha. step_get by apply get_address_Ok. apply bind_Err.
    unfold require_auth. by rewrite Ha.
  - intros [w Ha] Hlt. step_get by apply get_address_Ok.
    step_do by (apply require_auth_Ok; eauto).
    step_get by apply get_u32_Ok. step_get by apply ledger_sequence_Ok.
    apply bind_Err. unfold throw_if. simpl. by rewrite (proj2 (Z.ltb_lt _ _)).
Qed.

(** C33: keep-alive. If, after construction, [bump_ttl] or [deposit] runs again
    at least once per [TTL_THRESHOLD] ledgers (119 days; not the full
    [EXTEND_AMOUNT], because an entry with more than the threshold left is not
    extended), the vault's state is always live: at every ledger up to
    [TTL_THRESHOLD] past the latest refresh another refresh succeeds, and so
    does a withdrawal the owner authorises at or past the unlock ledger. The
    contract's own instance has a TTL apart, see [instance_never_extended]. *)
Theorem vault_kept_alive e last seq time w :
  EXTEND_AMOUNT ≤ max_ttl →
  kept e last → sequence e ≤ seq ≤ last + TTL_THRESHOLD →
  let e1 := set_ledger seq time w e in
  live_through e seq
  ∧ is_Ok (bump_ttl e1)
  ∧ ∃ o u, config e = (Some o, Some u)
    ∧ ∀ t amount to w1 w2,
        u ≤ seq → host_require_auth (self e) o w = Some w1 →
        token_transfer (self e) t (self e) to amount w1 = Some w2 →
        is_Ok (withdraw t amount to e1).
Proof.
  intros Hmax Hk [Hge Hle] e1.
  destruct (kept_extension max_ttl Hmax e last seq time w Hk Hle) as (l1 & l2 & Hx).
  pose proof (kept_live max_ttl Hmax e last Hk) as [(a & b & ? & ? & ? & ?) _].
  destruct (kept_config e last Hk) as (o & u & Hcfg).
  split_and!.
  - exists a, b. split_and!; [done..|lia|lia].
  - unfold bump_ttl. by rewrite (proj2 (extend_state_runs e1 tt _)
      (ex_intro _ l1 (ex_intro _ l2 (conj Hx eq_refl)))).
  - exists o, u. split; [done|]. intros t amount to w1 w2 Hu Ha Ht.
    assert (config e1 = (Some o, Some u)) as Hcfg1 by done.
    erewrite (proj2 (withdraw_runs o u t amount to e1 _ Hcfg1)); [done|].
    split; [done|]. exists w1, w2, l1, l2. done.
Qed.

(** C5: a vault gives everything back. From construction on, whatever is called
    and however the world changes without spending the vault's tokens, the vault
    holds at least what it started with and was deposited, less what was
    withdrawn; and at or past the unlock ledger, while its two entries are live,
    every withdrawal of at most that amount which the owner authorises, to a
    recipient the token accepts, succeeds and pays the recipient exactly that. *)
Theorem vault_releases (accepts : Address → Address → World → Prop)
    `{!TokenPays balance_of accepts} o u e0 e1 cs e t :
  constructor o u e0 = Ok (tt, e1) → history balance_of e1 cs e →
  let kept := balance_of t (self e1) (world e1) + sumZ (net (self e1) t <$> cs) in
  kept ≤ balance_of t (self e) (world e)
  ∧ ∀ amount to w,
      EXTEND_AMOUNT ≤ max_ttl → u ≤ sequence e → live_through e (sequence e) →
      host_require_auth (self e) o (world e) = Some w → accepts t to w → 0 ≤ amount ≤ kept →
      ∃ e', withdraw t amount to e = Ok (tt, e')
        ∧ (to ≠ self e → balance_of t to (world e') = balance_of t to w + amount).
Proof.
  intros (_ & Hcfg & _)%constructor_config Hrun kept.
  destruct (history_frame _ _ _ _ Hrun) as [Hs Hp].
  assert (kept ≤ balance_of t (self e) (world e)) as Hb
    by (rewrite Hs; by eapply history_balance).
  split; [exact Hb|]. intros amount to w Hmax Hu Hlive Ha Hto Hamount.
  pose proof (require_auth_balance _ _ _ _ t Ha) as Hw.
  destruct (holder_pays (self e) t to amount w) as [w2 Ht]; [lia|done|].
  destruct (live_extension max_ttl Hmax e Hlive) as (l1 & l2 & Hx).
  assert (config e = (Some o, Some u)) as Hcfg' by (unfold config in *; by rewrite Hp).
  eexists. split.
  - apply (withdraw_runs o u t amount to e _ Hcfg'). split; [done|]. by exists w, w2, l1, l2.
  - intros Hne. simpl. rewrite (transfer_balance _ _ _ _ _ _ _ t to Ht).
    rewrite decide_True by done. rewrite decide_False by naive_solver. lia.
Qed.
End theorems.

(** ** Witnesses: a vault of 500 tokens locked from ledger 10 to 1000 *)

Definition test_env0 : Env (H := ref_host) DataKey VaultVal VaultEvent :=
  ref_env 9%N 10 0 (ref_world [1%N; 2%N] {[ (7%N, 9%N) := 500; (7%N, 2%N) := 50 ]}).
Definition test_env1 := final (constructor (1%N : Address (Host := ref_host)) 1000 test_env0) test_env0.
(** Someone deposits 50 tokens, and the ledger advances to 999. *)
Definition test_env2 := final (deposit (2%N : Address (Host := ref_host)) 7%N 50 test_env1) test_env1.
Definition test_env3 := set_ledger 999 0 (world test_env2) test_env2.
Definition test_env4 := set_ledger 1000 0 (world test_env2) test_env2.

Lemma vault_locked_witness :
  ref_balance_of 7%N 9%N (world test_env3) = 550
  ∧ 500 ≤ ref_balance_of 7%N 9%N (world test_env3)
  ∧ ∀ e', withdraw (7%N : Address (Host := ref_host)) 1 1%N test_env3 ≠ Ok (tt, e').
Proof.
  assert (rtc (step ref_balance_of) test_env1 test_env3) as Hrun.
  { eapply rtc_l; [apply (step_call _ (CDeposit (H := ref_host) 2%N 7%N 50) test_env1 test_env2); by_run|].
    apply rtc_once, step_time; [by_cmp|reflexivity]. }
  pose proof (vault_locked ref_balance_of 1%N 1000 test_env0 test_env1 test_env3
    ltac:(by_run) Hrun) as [_ Hlock].
  specialize (Hlock ltac:(by_cmp)) as [Hbal Hw].
  split; [by_run|]. split; [exact (Hbal 7%N)|]. intros e'. apply Hw.
Defined.

Lemma withdraw_spec_witness :
  withdraw_outcome (1%N : Address (Host := ref_host)) 1000 7%N 550 2%N test_env4
    (final (withdraw (7%N : Address (Host := ref_host)) 550 2%N test_env4) test_env4)
  ∧ withdraw (7%N : Address (Host := ref_host)) 550 2%N test_env3
    = Err (ContractError StillLocked).
Proof.
  split.
  - apply (withdraw_spec (H := ref_host) 1%N 1000 7%N 550 2%N test_env4); by_run.
  - apply (withdraw_spec (H := ref_host) 1%N 1000 7%N 550 2%N test_env3); [by_run| |by_cmp].
    exists (world test_env3). by_run.
Defined.

Lemma vault_kept_alive_witness :
  is_Ok (bump_ttl (set_ledger 2000000 0 (world test_env1) test_env1)).
Proof.
  refine (proj1 (proj2 (vault_kept_alive 3110400 test_env1 10 2000000 0 (world test_env1) _ _ _)));
    [by_cmp| |by_cmp].
  apply (kept_new (H := ref_host) 1%N 1000 test_env0 test_env1). by_run.
Defined.

(** At ledger 1000 all 550 tokens, the deposit included, go where the owner says. *)
Lemma vault_releases_witness :
  ∃ e', withdraw (7%N : Address (Host := ref_host)) 550 3%N test_env4 = Ok (tt, e')
    ∧ ref_balance_of 7%N 3%N (world e') = 550.
Proof.
  assert (history (H := ref_host) ref_balance_of test_env1
    [CDeposit (H := ref_host) 2%N 7%N 50] test_env4) as Hrun.
  { apply history_time; [|by_cmp|intros t; reflexivity].
    apply (history_call _ _ [] test_env1 (CDeposit (H := ref_host) 2%N 7%N 50)); [apply history_start|by_run]. }
  destruct (vault_releases (H := ref_host) ref_balance_of 3110400 (λ _ _ _, True) 1%N 1000 test_env0
    test_env1 _ test_env4 7%N ltac:(by_run) Hrun) as [_ Hpay].
  destruct (Hpay 550 3%N (world test_env4) ltac:(by_cmp) ltac:(by_cmp)) as (e' & Hw & Hb);
    [|by_run|done|by_cmp|].
  - exists 2073610, 2073610. split_and!; [by_run|by_run|by_cmp|by_cmp].
  - exists e'. split; [exact Hw|]. exact (Hb ltac:(done)).
Defined.
End Vault.
