(* ===== verification/Policy.v ===== *)
(** * The policy interface

    The types every policy contract receives from the smart account, the
    [Policy] trait as a class, the laws an installation registry must satisfy,
    and the consequences for any client: a policy's storage refines an abstract
    registry of installed (account, rule) pairs, calls for one pair never touch
    another, and an entry changes only with its account's authorisation.  Each
    policy file gives an instance and discharges the laws.  What three of the
    policies check before they look at a call is stated once ([entered],
    [entry_refused], [entry_Err]).  Two further interfaces follow: policies as
    machines on a view of each entry, whose runs are folds over their history,
    and policies whose uses keep entries live. *)
From S2P Require Import Prelude RustInt Soroban.
From stdpp Require Import relations.
Local Open Scope Z_scope.

Section types.
Context `{Host}.

(** [stellar_accounts::smart_account::Signer] *)
Inductive Signer :=
  | Delegated (address : Address)
  | External (verifier : Address) (key_data : Bytes).

(** [soroban_sdk::auth::Context]: what the account is asked to authorise. The
    payloads of the deployment contexts are never read by a policy. *)
Record ContractContext := mkContractContext {
  ctx_contract : Address;
  fn_name : Symbol;
  args : list Val;
}.
Inductive Context :=
  | ContractCtx (c : ContractContext)
  | CreateContractHostFnCtx
  | CreateContractWithCtorHostFnCtx.

(** The context-rule fields the policies read: the id, the context type and,
    for the threshold policies, the rule's signers. *)
Inductive ContextRuleType :=
  | DefaultRule
  | CallContract (contract : Address)
  | CreateContract (wasm_hash : Bytes).
Record ContextRule := mkContextRule {
  rule_id : Z;
  context_type : ContextRuleType;
  rule_signers : list Signer;
}.

#[export] Instance Signer_eq_dec : EqDecision Signer.
Proof. solve_decision. Defined.
#[export] Program Instance Signer_countable : Countable Signer :=
  inj_countable' (λ s, match s with Delegated a => inl a | External v d => inr (v, d) end)
    (λ p, match p with inl a => Delegated a | inr (v, d) => External v d end) _.
Next Obligation. by intros []. Qed.

(** [matches!(rule.context_type, ContextRuleType::CallContract(_))] *)
Definition is_call_contract (t : ContextRuleType) : bool :=
  match t with CallContract _ => true | _ => false end.

(** Every policy keys its storage by [AccountContext(smart_account, rule_id)]. *)
Inductive StorageKey := AccountContext (smart_account : Address) (context_rule_id : Z).

#[export] Instance StorageKey_eq_dec : EqDecision StorageKey.
Proof. solve_decision. Defined.
#[export] Program Instance StorageKey_countable : Countable StorageKey :=
  inj_countable' (λ k, match k with AccountContext a i => (a, i) end)
    (λ p, AccountContext p.1 p.2) _.
Next Obligation. by intros []. Qed.

Definition key_account (k : StorageKey) : Address :=
  match k with AccountContext a _ => a end.
Definition rule_key (rule : ContextRule) (account : Address) : StorageKey :=
  AccountContext account (rule_id rule).
End types.

(** ** How enforcement begins

    The session, recipient and parameter policies enter [enforce] in the same
    way: the account authorises, some signer authenticated, and the rule's entry
    is read, which extends its TTL. *)
Section entry.
Context `{Host} {Data Event Failure : Type}.
Implicit Types e : Env StorageKey Data Event.
Context (threshold extend_to : Z) (unauthenticated not_installed : Failure).
Context (signers : list Signer) (key : StorageKey).

(** The entry was read: [d] is what it holds, [w] the world after the account's
    authorisation, [live'] the entry's new last live ledger. *)
Definition entered e (d : Data) (w : World) (live' : Z) : Prop :=
  host_require_auth (self e) (key_account key) (world e) = Some w
  ∧ signers ≠ [] ∧ persistent e !! key = Some d
  ∧ ttl_extends e key threshold extend_to live'.

(** Why it could not be, first reason first. *)
Inductive entry_refused e : trap Failure → Prop :=
  | entry_unauthorised :
      ¬ auth_ok e (key_account key) → entry_refused e HostError
  | entry_unauthenticated :
      auth_ok e (key_account key) → signers = [] →
      entry_refused e (ContractError unauthenticated)
  | entry_not_installed :
      auth_ok e (key_account key) → signers ≠ [] → persistent e !! key = None →
      entry_refused e (ContractError not_installed)
  | entry_not_extended d :
      auth_ok e (key_account key) → signers ≠ [] → persistent e !! key = Some d →
      (∀ live', ¬ ttl_extends e key threshold extend_to live') →
      entry_refused e HostError.

(** A failing run either did not get past the entry or failed in what follows. *)
Lemma entry_Err {A} (f : Data → A) (k : A → M (Env StorageKey Data Event) Failure unit) e t :
  (require_auth (key_account key) ;;
   throw_if (is_empty signers) unauthenticated ;;
   a ← (o ← persistent_get_extend key threshold extend_to;
        unwrap_or_throw (f <$> o) not_installed);
   k a) e = Err t ↔
  entry_refused e t
  ∨ ∃ d w live', entered e d w live' ∧ k (f d) (touched key live' (set_world w e)) = Err t.
Proof.
  split.
  - intros Hf. inv_trap; simpl in *;
      try (left; by econstructor; first [eassumption | eexists; eassumption]).
    right. eexists _, _, _. by split_and!.
  - intros [Hr|(d & w & live' & (Ha & Hs & Hd & Hx) & Hk)].
    + destruct Hr as [Ha|[w Ha] Hs|[w Ha] Hs Hn|d [w Ha] Hs Hd Hno];
        [by apply bind_Err, require_auth_Err|step_do by (apply require_auth_Ok; eauto)..].
      1: { apply bind_Err, throw_if_Err. by rewrite Hs. }
      all: step_do by (apply throw_if_Ok; split; [by apply is_empty_false|]); apply bind_Err.
      * by step_get by (apply persistent_get_extend_None).
      * apply bind_Err, persistent_get_extend_Err. eauto.
    + step_do by (apply require_auth_Ok; eauto).
      step_do by (apply throw_if_Ok; split; [by apply is_empty_false|]).
      erewrite bind_run; [exact Hk|]. by step_get by (apply persistent_get_extend_Some; eauto).
Qed.
End entry.

(** ** The trait and its laws *)

(** [trait Policy], with the contract's further entry points as [Other]. *)
Class Policy `{Host} (Data Event Failure : Type) := {
  AccountParams : Type;
  install : AccountParams → ContextRule → Address → M (Env StorageKey Data Event) Failure unit;
  uninstall : ContextRule → Address → M (Env StorageKey Data Event) Failure unit;
  enforce : Context → list Signer → ContextRule → Address →
    M (Env StorageKey Data Event) Failure unit;
  Other : Type;
  other_key : Other → StorageKey;
  run_other : Other → M (Env StorageKey Data Event) Failure unit;
}.

Section interface.
Context `{Policy Data Event Failure}.
Abbreviation PEnv := (Env StorageKey Data Event).
Implicit Types e : PEnv.

Inductive call :=
  | CInstall (params : AccountParams) (rule : ContextRule) (account : Address)
  | CUninstall (rule : ContextRule) (account : Address)
  | CEnforce (context : Context) (signers : list Signer) (rule : ContextRule)
      (account : Address)
  | COther (o : Other).

Definition call_key (c : call) : StorageKey :=
  match c with
  | CInstall _ rule account | CUninstall rule account | CEnforce _ _ rule account =>
      rule_key rule account
  | COther o => other_key o
  end.

Definition run_call (c : call) : M PEnv Failure unit :=
  match c with
  | CInstall params rule account => install params rule account
  | CUninstall rule account => uninstall rule account
  | CEnforce context signers rule account => enforce context signers rule account
  | COther o => run_other o
  end.

(** What a call does to the set of installed keys. *)
Definition registry_effect (c : call) (before after : option Data) : Prop :=
  match c with
  | CInstall _ _ _ => before = None ∧ is_Some after
  | CUninstall _ _ => is_Some before ∧ after = None
  | CEnforce _ _ _ _ | COther _ => is_Some before ∧ is_Some after
  end.

Class PolicyLaws : Prop := {
  law_frame c e e' :
    run_call c e = Ok (tt, e') →
    self e' = self e ∧ sequence e' = sequence e
    ∧ ∀ k, k ≠ call_key c → persistent e' !! k = persistent e !! k;
  law_effect c e e' :
    run_call c e = Ok (tt, e') →
    registry_effect c (persistent e !! call_key c) (persistent e' !! call_key c);
  law_authorised c e e' :
    run_call c e = Ok (tt, e') →
    persistent e' !! call_key c ≠ persistent e !! call_key c →
    auth_ok e (key_account (call_key c));
}.
End interface.
Arguments PolicyLaws {_} Data Event Failure {_}.
Arguments call {_} Data Event Failure {_}.

(** Closes the case of a law once the run of the call has been inverted: what
    remains are lookups in updated maps and the authorisation. *)
Ltac policy_law :=
  simpl in *; unfold touched, store, unstore, auth_ok in *; simpl in *;
  repeat match goal with
  | H : _ <$> ?o = Some _ |- _ => destruct o eqn:?; simplify_eq/=
  | H : bool_decide (is_Some _) = _ |- _ => revert H; case_bool_decide; intros; simplify_eq
  end;
  split_and?; intros;
  simplify_map_eq;
  try (by eauto); try congruence; try (by rewrite lookup_insert_ne by congruence);
  try (by rewrite lookup_delete_ne by congruence).

(** ** The abstract registry *)

Section registry.
Context `{Host}.

(** What a policy promises about installations, without its data. *)
Inductive registry_op :=
  | RInstall (k : StorageKey)
  | RUninstall (k : StorageKey)
  | RUse (k : StorageKey).

Inductive registry_step : gset StorageKey → registry_op → gset StorageKey → Prop :=
  | registry_install s k : k ∉ s → registry_step s (RInstall k) ({[k]} ∪ s)
  | registry_uninstall s k : k ∈ s → registry_step s (RUninstall k) (s ∖ {[k]})
  | registry_use s k : k ∈ s → registry_step s (RUse k) s.

Inductive registry_run : gset StorageKey → list registry_op → gset StorageKey → Prop :=
  | registry_nil s : registry_run s [] s
  | registry_snoc s1 ops s2 o s3 :
      registry_run s1 ops s2 → registry_step s2 o s3 → registry_run s1 (ops ++ [o]) s3.
End registry.

(** ** Consequences for every client of the interface *)

Section clients.
Context `{Policy Data Event Failure} `{!PolicyLaws Data Event Failure}.
Abbreviation PEnv := (Env StorageKey Data Event).
Implicit Types e : PEnv.

Definition abstract_op (c : call Data Event Failure) : registry_op :=
  match c with
  | CInstall _ _ _ => RInstall (call_key c)
  | CUninstall _ _ => RUninstall (call_key c)
  | CEnforce _ _ _ _ | COther _ => RUse (call_key c)
  end.

(** [policy_run e0 cs e]: the calls [cs] succeeded one after the other between
    [e0] and [e]; between them the ledger and the world change at will, and the
    events, which belong to a transaction, are whatever the current one emitted. *)
Inductive policy_run (e0 : PEnv) : list (call Data Event Failure) → PEnv → Prop :=
  | policy_start : policy_run e0 [] e0
  | policy_call cs e c e' :
      policy_run e0 cs e → run_call c e = Ok (tt, e') → policy_run e0 (cs ++ [c]) e'
  | policy_time cs e seq time w evs :
      policy_run e0 cs e → sequence e ≤ seq →
      policy_run e0 cs (set_events evs (set_ledger seq time w e)).

Lemma policy_run_trans e0 cs1 e1 cs2 e2 :
  policy_run e0 cs1 e1 → policy_run e1 cs2 e2 → policy_run e0 (cs1 ++ cs2) e2.
Proof.
  intros H1. induction 1 as [|cs e c e' _ IH Hc|cs e seq time w evs _ IH Hle].
  - by rewrite app_nil_r.
  - rewrite app_assoc. by econstructor.
  - by constructor.
Qed.
Lemma policy_run_sequence e0 cs e : policy_run e0 cs e → sequence e0 ≤ sequence e.
Proof.
  induction 1 as [|cs e c e' _ IH Hc|cs e seq time w evs _ IH Hle]; [done| |simpl; lia].
  by apply law_frame in Hc as (_ & -> & _).
Qed.

Definition installed e : gset StorageKey := dom (persistent e).

Lemma call_refines c e e' :
  run_call c e = Ok (tt, e') → registry_step (installed e) (abstract_op c) (installed e').
Proof.
  intros Hc. pose proof (law_frame _ _ _ Hc) as (_ & _ & Hf).
  pose proof (law_effect _ _ _ Hc) as Hx. set (k := call_key c) in *.
  assert (∀ k', k' ∈ installed e' ↔ if decide (k' = k) then is_Some (persistent e' !! k)
                                    else k' ∈ installed e) as Hdom.
  { intros k'. unfold installed. rewrite !elem_of_dom.
    case_decide; [by subst|by rewrite elem_of_dom, Hf]. }
  assert (k ∈ installed e ↔ is_Some (persistent e !! k)) as Hk by apply elem_of_dom.
  assert (∀ s, (∀ k', k' ∈ installed e' ↔ k' ∈ s) → installed e' = s) as Heq.
  { intros s Hs. by apply set_eq. }
  destruct c; simpl in Hx; destruct Hx as [Hb Ha]; unfold abstract_op; fold k.
  - rewrite (Heq ({[k]} ∪ installed e)).
    + constructor. rewrite Hk, Hb. by intros [].
    + intros k'. rewrite Hdom, elem_of_union, elem_of_singleton. case_decide; tauto.
  - rewrite (Heq (installed e ∖ {[k]})); [constructor; by apply Hk|].
    intros k'. rewrite Hdom, Ha, elem_of_difference, elem_of_singleton.
    case_decide; [|tauto]. split; [by intros []|tauto].
  - rewrite (Heq (installed e)); [constructor; by apply Hk|].
    intros k'. rewrite Hdom. case_decide; subst; tauto.
  - rewrite (Heq (installed e)); [constructor; by apply Hk|].
    intros k'. rewrite Hdom. case_decide; subst; tauto.
Qed.

(** The storage of a policy refines the abstract registry. *)
Lemma run_refines e0 cs e :
  policy_run e0 cs e → registry_run (installed e0) (abstract_op <$> cs) (installed e).
Proof.
  induction 1 as [|cs e c e' _ IH Hc|]; [constructor| |done].
  rewrite fmap_app. econstructor; [done|]. by apply call_refines.
Qed.

(** Calls for other keys leave an entry alone. *)
Lemma run_isolated e0 cs e k :
  policy_run e0 cs e → Forall (λ c, call_key c ≠ k) cs →
  persistent e !! k = persistent e0 !! k.
Proof.
  induction 1 as [|cs e c e' _ IH Hc|cs e seq time w evs _ IH _]; [done| |done].
  intros [Hcs Hk]%Forall_app. rewrite Forall_singleton in Hk.
  pose proof (law_frame _ _ _ Hc) as (_ & _ & Hf). rewrite Hf by congruence. auto.
Qed.

(** An invariant of the stored data that every call preserves on its own key
    holds of all entries along a run. *)
Lemma run_stored (P : Data → Prop) e0 cs e :
  (∀ c e e' d, run_call c e = Ok (tt, e') →
     (∀ d0, persistent e !! call_key c = Some d0 → P d0) →
     persistent e' !! call_key c = Some d → P d) →
  policy_run e0 cs e →
  map_Forall (λ _, P) (persistent e0) → map_Forall (λ _, P) (persistent e).
Proof.
  intros Hpres Hrun H0'. induction Hrun as [|cs e c e' _ IH Hc|]; [done| |done].
  intros k d Hd. pose proof (law_frame _ _ _ Hc) as (_ & _ & Hf).
  destruct (decide (k = call_key c)) as [->|Hk].
  - eapply Hpres; [done| |done]. intros d0. apply IH.
  - rewrite Hf in Hd by done. by apply (IH k).
Qed.

(** An entry that uses do not change stays until it is uninstalled. *)
Lemma run_constant e0 cs e k d :
  (∀ c e e', run_call c e = Ok (tt, e') → abstract_op c = RUse (call_key c) →
     persistent e' !! call_key c = persistent e !! call_key c) →
  policy_run e0 cs e →
  Forall (λ c, abstract_op c ≠ RUninstall k) cs →
  persistent e0 !! k = Some d → persistent e !! k = Some d.
Proof.
  intros Huse Hrun Hcs Hd. induction Hrun as [|cs e c e' _ IH Hc|cs e seq time w evs _ IH _]; [done| |by apply IH].
  apply Forall_app in Hcs as [Hcs Hcu]. rewrite Forall_singleton in Hcu.
  specialize (IH Hcs). pose proof (law_frame _ _ _ Hc) as (_ & _ & Hf).
  destruct (decide (k = call_key c)) as [->|Hk]; [|by rewrite Hf].
  pose proof (law_effect _ _ _ Hc) as Hx. rewrite IH in Hx.
  destruct c; simpl in Hx; try (rewrite <- IH; by apply (Huse _ _ _ Hc)).
  by destruct Hx.
Qed.
End clients.

(** ** Policies as machines on a view of each entry *)

(** A policy whose successful calls act on some view of the entry of their key
    as [next] says, when [guard] allows it. *)
Class PolicyMachine `{Policy Data Event Failure} {View : Type} (view : Data → View)
    (guard : call Data Event Failure → option View → Prop)
    (next : call Data Event Failure → option View → option View) : Prop := {
  machine_frame c (e e' : Env StorageKey Data Event) k :
    run_call c e = Ok (tt, e') → k ≠ call_key c →
    persistent e' !! k = persistent e !! k;
  machine_step c (e e' : Env StorageKey Data Event) :
    run_call c e = Ok (tt, e') →
    guard c (view <$> persistent e !! call_key c)
    ∧ view <$> persistent e' !! call_key c = next c (view <$> persistent e !! call_key c);
}.

Section machines.
Context `{Policy Data Event Failure} {View : Type} (view : Data → View)
  (guard : call Data Event Failure → option View → Prop)
  (next : call Data Event Failure → option View → option View)
  `{!PolicyMachine view guard next}.
Abbreviation PEnv := (Env StorageKey Data Event).
Implicit Types e : PEnv.

(** What the calls [cs] make of the view [v0] of key [k], and what they make of
    it when nothing was stored before. *)
Definition history_from (v0 : option View) (k : StorageKey)
    (cs : list (call Data Event Failure)) : option View :=
  foldl (λ v c, if decide (call_key c = k) then next c v else v) v0 cs.
Definition history (k : StorageKey) (cs : list (call Data Event Failure)) : option View :=
  history_from None k cs.

Lemma history_snoc v0 k cs c :
  history_from v0 k (cs ++ [c])
  = if decide (call_key c = k) then next c (history_from v0 k cs) else history_from v0 k cs.
Proof. unfold history_from. by rewrite foldl_snoc. Qed.

Lemma run_history_from e0 cs e k :
  policy_run e0 cs e →
  view <$> persistent e !! k = history_from (view <$> persistent e0 !! k) k cs.
Proof.
  induction 1 as [|cs e c e' _ IH Hc|cs e seq time w evs _ IH _]; [done| |done].
  rewrite history_snoc. case_decide as Hk.
  - subst k. rewrite <- IH. by apply machine_step.
  - rewrite <- IH. f_equal. by apply (machine_frame c e e' k Hc).
Qed.
Lemma run_history e0 cs e k :
  persistent e0 = ∅ → policy_run e0 cs e → view <$> persistent e !! k = history k cs.
Proof. intros He0 Hrun. by rewrite (run_history_from e0 cs e k Hrun), He0. Qed.

(** Every call of the run was guarded by what the calls before it made. *)
Lemma run_guarded_from e0 cs e pre c post :
  policy_run e0 cs e → cs = pre ++ c :: post →
  guard c (history_from (view <$> persistent e0 !! call_key c) (call_key c) pre).
Proof.
  intros Hrun. revert pre c post.
  induction Hrun as [|cs e d e' Hrun IH Hd|cs e seq time w evs _ IH _]; intros pre c post Hcs.
  - by destruct pre.
  - destruct post as [|x post _] using rev_ind.
    + apply app_inj_tail in Hcs as [-> ->].
      rewrite <- (run_history_from _ _ _ _ Hrun). exact (proj1 (machine_step c e e' Hd)).
    + rewrite app_comm_cons, app_assoc in Hcs. apply app_inj_tail in Hcs as [-> _]. by eapply IH.
  - by eapply IH.
Qed.
Lemma run_guarded e0 cs e pre c post :
  persistent e0 = ∅ → policy_run e0 cs e → cs = pre ++ c :: post →
  guard c (history (call_key c) pre).
Proof.
  intros He0 Hrun Hcs. pose proof (run_guarded_from e0 cs e pre c post Hrun Hcs) as Hg.
  by rewrite He0 in Hg.
Qed.

(** A view that no call of its key changes stays. *)
Lemma history_constant v0 k cs :
  Forall (λ c, call_key c = k → next c v0 = v0) cs → history_from v0 k cs = v0.
Proof.
  unfold history_from. induction cs as [|c cs IH] using rev_ind; [done|].
  intros [Hcs Hc]%Forall_app. rewrite Forall_singleton in Hc. rewrite foldl_snoc, IH by done.
  case_decide; auto.
Qed.
End machines.

(** ** Executing a list of calls *)

Section execution.
Context `{Policy Data Event Failure}.

Fixpoint run_calls (cs : list (call Data Event Failure)) :
    M (Env StorageKey Data Event) Failure unit :=
  match cs with
  | [] => mret tt
  | c :: cs => run_call c ;; run_calls cs
  end.

Lemma run_calls_from e0 pre cs e e' :
  policy_run e0 pre e → run_calls cs e = Ok (tt, e') → policy_run e0 (pre ++ cs) e'.
Proof.
  revert pre e. induction cs as [|c cs IH]; simpl; intros pre e Hrun Hc.
  - apply ret_Ok in Hc as [_ ->]. by rewrite app_nil_r.
  - apply bind_Ok in Hc as ([] & e1 & Hc & Hcs).
    rewrite cons_middle, app_assoc. eapply IH; [|exact Hcs]. by econstructor.
Qed.

Lemma run_calls_run cs e e' : run_calls cs e = Ok (tt, e') → policy_run e cs e'.
Proof. exact (run_calls_from e [] cs e e' (policy_start e)). Qed.
End execution.

(** ** Entries in use stay live *)

(** A policy whose uses (enforcement, and the entry points [refreshing] selects)
    extend the TTL of their entry to at least [threshold] ledgers, and no call
    but an uninstallation shortens one. *)
Class PolicyTtl `{Policy Data Event Failure} (refreshing : Other → bool)
    (threshold extend_to : Z) : Prop := {
  ttl_bounds : 0 ≤ threshold ≤ extend_to;
  ttl_kept max_ttl `{!TtlLaws max_ttl} c (e e' : Env StorageKey Data Event) k live :
    extend_to ≤ max_ttl → run_call c e = Ok (tt, e') →
    match c with CUninstall _ _ => call_key c ≠ k | _ => True end →
    live_until e !! k = Some live → ∃ live', live_until e' !! k = Some live' ∧ live ≤ live';
  ttl_refreshed max_ttl `{!TtlLaws max_ttl} c (e e' : Env StorageKey Data Event) :
    extend_to ≤ max_ttl → run_call c e = Ok (tt, e') →
    match c with CEnforce _ _ _ _ => True | COther o => refreshing o = true | _ => False end →
    ∃ live, live_until e' !! call_key c = Some live ∧ sequence e + threshold ≤ live;
}.

(** Closes a TTL law once the run has been inverted. *)
Ltac ttl_law :=
  simpl in *; unfold touched, store, unstore, ttl_extends in *; simpl in *;
  repeat match goal with
  | H : ∃ _, _ |- _ => destruct H
  | H : _ ∧ _ |- _ => destruct H
  | H : host_extend_ttl _ _ _ _ = Some _ |- _ =>
      apply extend_ttl_result in H; [|done..]
  | |- context [<[?k1 := _]> _ !! ?k2] =>
      destruct (decide (k1 = k2)); [subst|]; simplify_map_eq
  | |- context [delete ?k1 _ !! ?k2] => rewrite lookup_delete_ne by done
  | |- context [match live_until ?e !! ?k with _ => _ end] => destruct (live_until e !! k) eqn:?
  end; simplify_eq; eauto with lia.

Section live.
Context `{Policy Data Event Failure} (refreshing : Other → bool) (threshold extend_to : Z)
  `{!PolicyTtl refreshing threshold extend_to}.
Abbreviation PEnv := (Env StorageKey Data Event).
Implicit Types e : PEnv.

Definition refreshes (c : call Data Event Failure) : Prop :=
  match c with CEnforce _ _ _ _ => True | COther o => refreshing o = true | _ => False end.

Lemma run_ttl_kept max_ttl `{!TtlLaws max_ttl} e0 cs e k live :
  extend_to ≤ max_ttl → policy_run e0 cs e → Forall (λ c, abstract_op c ≠ RUninstall k) cs →
  live_until e0 !! k = Some live → ∃ live', live_until e !! k = Some live' ∧ live ≤ live'.
Proof.
  intros Hmax Hrun. induction Hrun as [|cs e c e' _ IH Hc|cs e seq time w evs _ IH _];
    [intros _ Hl; exists live; split; [done|lia]| |done].
  intros [Hcs Hu]%Forall_app Hl. rewrite Forall_singleton in Hu.
  destruct (IH Hcs Hl) as (l1 & Hl1 & Hle).
  destruct (ttl_kept max_ttl c e e' k l1 Hmax Hc) as (l2 & Hl2 & Hle2); [|done|].
  - destruct c; try done. intros Hk. apply Hu. by rewrite <- Hk.
  - exists l2. split; [done|lia].
Qed.

(** From a use on, until it is uninstalled, an entry is live for [threshold]
    ledgers, and its TTL can be extended at any of them. *)
Lemma run_stays_live max_ttl `{!TtlLaws max_ttl} c e0 e1 cs e2 :
  extend_to ≤ max_ttl → run_call c e0 = Ok (tt, e1) → refreshes c →
  policy_run e1 cs e2 → Forall (λ c', abstract_op c' ≠ RUninstall (call_key c)) cs →
  sequence e2 ≤ sequence e0 + threshold →
  ∃ live live', live_until e2 !! call_key c = Some live ∧ sequence e2 ≤ live
    ∧ ttl_extends e2 (call_key c) threshold extend_to live'.
Proof.
  intros Hmax Hc Hr Hrun Hcs Hseq. pose proof ttl_bounds.
  destruct (ttl_refreshed max_ttl c e0 e1 Hmax Hc Hr) as (l1 & Hl1 & Hle1).
  destruct (run_ttl_kept max_ttl e1 cs e2 _ l1 Hmax Hrun Hcs Hl1) as (l2 & Hl2 & Hle2).
  destruct (extend_ttl_live (sequence e2) l2 threshold extend_to) as [l3 Hl3]; [lia|done|done|].
  exists l2, l3. split_and!; [done|lia|]. by exists l2.
Qed.
End live.
