(* ===== verification/SessionPolicy.v ===== *)
(** * Session policy (policies/session-policy/src)

    The method allowlist behind session keys: [allowlist.rs]'s install,
    enforce, uninstall and get_allowed_fns, and the [Policy] instance of
    lib.rs. *)
From S2P Require Import Prelude RustInt Soroban RefHost Policy.
Local Open Scope Z_scope.

Module Session.

(** ** Data, errors, constants and events *)

Record SessionAccountParams := { param_allowed_fns : list Symbol }.
Record SessionData := { allowed_fns : list Symbol }.

Inductive SessionError :=
  | SmartAccountNotInstalled | OnlyCallContractAllowed | InvalidAllowedFns
  | MethodNotAllowed | AlreadyInstalled.

Definition DAY_IN_LEDGERS : Z := 17280.
Definition SESSION_EXTEND_AMOUNT : Z := 30 * DAY_IN_LEDGERS.
Definition SESSION_TTL_THRESHOLD : Z := SESSION_EXTEND_AMOUNT - DAY_IN_LEDGERS.
Definition MAX_ALLOWED_FNS : Z := 10.

Section contract.
Context `{Host}.

Inductive SessionEvent :=
  | SessionEnforced (smart_account : Address) (context_rule_id : Z) (fn : Symbol)
  | SessionInstalled (smart_account : Address) (context_rule_id : Z) (fns : list Symbol)
  | SessionUninstalled (smart_account : Address) (context_rule_id : Z).

Abbreviation SEnv := (Env StorageKey SessionData SessionEvent).
Abbreviation SM := (M SEnv SessionError).

Definition get_allowed_fns (context_rule_id : Z) (smart_account : Address) : SM (list Symbol) :=
  o ← persistent_get_extend (AccountContext smart_account context_rule_id)
        SESSION_TTL_THRESHOLD SESSION_EXTEND_AMOUNT;
  unwrap_or_throw (allowed_fns <$> o) SmartAccountNotInstalled.

Definition enforce (context : Context) (authenticated_signers : list Signer)
    (context_rule : ContextRule) (smart_account : Address) : SM unit :=
  require_auth smart_account ;;
  throw_if (is_empty authenticated_signers) MethodNotAllowed ;;
  allowed ← get_allowed_fns (rule_id context_rule) smart_account;
  match context with
  | ContractCtx c =>
      throw_if (negb (bool_decide (fn_name c ∈ allowed))) MethodNotAllowed ;;
      publish (SessionEnforced smart_account (rule_id context_rule) (fn_name c))
  | _ => throw MethodNotAllowed
  end.

Definition install (params : SessionAccountParams) (context_rule : ContextRule)
    (smart_account : Address) : SM unit :=
  require_auth smart_account ;;
  throw_if (negb (is_call_contract (context_type context_rule))) OnlyCallContractAllowed ;;
  throw_if (is_empty (param_allowed_fns params)
            || (MAX_ALLOWED_FNS <? zlen (param_allowed_fns params))) InvalidAllowedFns ;;
  let key := AccountContext smart_account (rule_id context_rule) in
  has ← persistent_has key;
  throw_if has AlreadyInstalled ;;
  persistent_set key {| allowed_fns := param_allowed_fns params |} ;;
  publish (SessionInstalled smart_account (rule_id context_rule) (param_allowed_fns params)).

Definition uninstall (context_rule : ContextRule) (smart_account : Address) : SM unit :=
  require_auth smart_account ;;
  let key := AccountContext smart_account (rule_id context_rule) in
  has ← persistent_has key;
  throw_if (negb has) SmartAccountNotInstalled ;;
  persistent_remove key ;;
  publish (SessionUninstalled smart_account (rule_id context_rule)).

(** [impl Policy for SessionPolicy], with the view of lib.rs. *)
#[export] Instance SessionPolicy : Policy SessionData SessionEvent SessionError := {|
  Policy.AccountParams := SessionAccountParams;
  Policy.install := install;
  Policy.uninstall := uninstall;
  Policy.enforce := enforce;
  Policy.Other := Z * Address;
  Policy.other_key := λ q, AccountContext q.2 q.1;
  Policy.run_other := λ q, get_allowed_fns q.1 q.2 ;; mret tt;
|}.
End contract.

(** ** The interface laws *)

Section laws.
Context `{Host}.
Abbreviation SEnv := (Env StorageKey SessionData SessionEvent).
Implicit Types e : SEnv.

#[export] Instance session_laws : PolicyLaws SessionData SessionEvent SessionError.
Proof.
  split; intros [p r a|r a|ctx sg r a|[i a]] e e'; simpl;
    unfold install, uninstall, enforce, get_allowed_fns, rule_key; intros; inv_run; policy_law.
Qed.

(** *** What enforcement checks and leaves behind *)

Definition enforce_outcome (context : Context) (signers : list Signer) (rule : ContextRule)
    (account : Address) e e' : Prop :=
  ∃ c d w live',
    host_require_auth (self e) account (world e) = Some w
    ∧ signers ≠ []
    ∧ persistent e !! AccountContext account (rule_id rule) = Some d
    ∧ context = ContractCtx c
    ∧ fn_name c ∈ allowed_fns d
    ∧ ttl_extends e (AccountContext account (rule_id rule))
        SESSION_TTL_THRESHOLD SESSION_EXTEND_AMOUNT live'
    ∧ e' = set_events (events e ++ [SessionEnforced account (rule_id rule) (fn_name c)])
             (touched (AccountContext account (rule_id rule)) live' (set_world w e)).

Lemma get_allowed_fns_runs i a e d live' :
  persistent e !! AccountContext a i = Some d →
  ttl_extends e (AccountContext a i) SESSION_TTL_THRESHOLD SESSION_EXTEND_AMOUNT live' →
  get_allowed_fns i a e = Ok (allowed_fns d, touched (AccountContext a i) live' e).
Proof.
  intros Hd Hx. unfold get_allowed_fns.
  by step_get by (apply persistent_get_extend_Some; eauto).
Qed.

Lemma session_enforce_runs context signers rule account e e' :
  enforce context signers rule account e = Ok (tt, e') ↔
  enforce_outcome context signers rule account e e'.
Proof.
  unfold enforce_outcome. split.
  - unfold enforce, get_allowed_fns. intros. inv_run.
    simpl in *. simplify_eq. by eauto 15.
  - intros (c & d & w & live' & Ha & Hs & Hd & -> & Hin & Hx & ->). unfold enforce.
    step_do by (apply require_auth_Ok; eauto).
    step_do by (apply throw_if_Ok; split; [by apply is_empty_false|]).
    step_get by (apply get_allowed_fns_runs).
    step_do by (apply throw_if_Ok; split; [by rewrite bool_decide_true|]).
    by apply publish_Ok.
Qed.

(** Why a call is refused: the rule's entry could not be read, or the context is
    not a call of a function of the list. *)
Abbreviation session_entered := (entered SESSION_TTL_THRESHOLD SESSION_EXTEND_AMOUNT).
Inductive enforce_refused (context : Context) (signers : list Signer) (key : StorageKey) e :
    trap SessionError → Prop :=
  | refused_entry t :
      entry_refused SESSION_TTL_THRESHOLD SESSION_EXTEND_AMOUNT
        MethodNotAllowed SmartAccountNotInstalled signers key e t →
      enforce_refused context signers key e t
  | refused_function d w live' :
      session_entered signers key e d w live' →
      (∀ c, context = ContractCtx c → fn_name c ∉ allowed_fns d) →
      enforce_refused context signers key e (ContractError MethodNotAllowed).

Lemma session_enforce_fails context signers rule account e t :
  enforce context signers rule account e = Err t ↔
  enforce_refused context signers (rule_key rule account) e t.
Proof.
  pose proof (entry_Err (Event := SessionEvent) SESSION_TTL_THRESHOLD SESSION_EXTEND_AMOUNT
    MethodNotAllowed SmartAccountNotInstalled signers (rule_key rule account) allowed_fns) as Hentry.
  unfold enforce, get_allowed_fns, rule_key in *. simpl in Hentry. rewrite Hentry. split.
  - intros [?|(d & w & live' & He & Hk)]; [by constructor|].
    destruct context as [c| |]; [|injection Hk as <-; by eapply refused_function..].
    inv_trap. eapply refused_function; [done|]. by intros ? [= <-].
  - intros [t' Ht|d w live' He Hc]; [by left|right; exists d, w, live'; split; [done|]].
    destruct context as [c| |]; [|done..]. apply bind_Err, throw_if_Err.
    by rewrite bool_decide_false by by apply Hc.
Qed.

Definition valid_params (p : SessionAccountParams) : Prop :=
  param_allowed_fns p ≠ [] ∧ zlen (param_allowed_fns p) ≤ MAX_ALLOWED_FNS.

#[export] Instance valid_params_dec p : Decision (valid_params p).
Proof. unfold valid_params. apply _. Defined.

Lemma session_invalid_params {A} p (x y : A) :
  (if is_empty (param_allowed_fns p) || (MAX_ALLOWED_FNS <? zlen (param_allowed_fns p))
   then y else x) = if decide (valid_params p) then x else y.
Proof.
  unfold valid_params. case_decide as Hp.
  - destruct Hp as [He%is_empty_false Hl%Z.ltb_ge]. by rewrite He, Hl.
  - destruct (_ || _) eqn:Ho; [done|]. exfalso. apply Hp.
    apply orb_false_iff in Ho as [He%is_empty_false Hl%Z.ltb_ge]. done.
Qed.

Lemma session_install_runs p rule account e e' :
  install p rule account e = Ok (tt, e') →
  valid_params p ∧ is_call_contract (context_type rule) = true
  ∧ persistent e !! AccountContext account (rule_id rule) = None
  ∧ persistent e' = <[AccountContext account (rule_id rule)
                       := {| allowed_fns := param_allowed_fns p |}]> (persistent e).
Proof. unfold install, valid_params. intros. inv_run. done. Qed.

Lemma session_uses_preserve c e e' :
  run_call c e = Ok (tt, e') →
  abstract_op (Data := SessionData) (Event := SessionEvent) (Failure := SessionError) c
    = RUse (call_key c) →
  persistent e' !! call_key c = persistent e !! call_key c.
Proof.
  destruct c as [p r a|r a|ctx sg r a|[i a]]; simpl; try done;
    unfold enforce, get_allowed_fns; intros; inv_run; done.
Qed.

(** *** The policy as a machine on the allowlist *)

Abbreviation scall := (call SessionData SessionEvent SessionError).
Definition next (c : scall) (v : option (list Symbol)) : option (list Symbol) :=
  match c with
  | CInstall p _ _ => Some (param_allowed_fns p)
  | CUninstall _ _ => None
  | CEnforce _ _ _ _ | COther _ => v
  end.
Definition guard (c : scall) (v : option (list Symbol)) : Prop :=
  match c with
  | CInstall p rule _ => v = None ∧ is_call_contract (context_type rule) = true ∧ valid_params p
  | CEnforce context signers _ _ =>
      signers ≠ [] ∧ ∃ l c, v = Some l ∧ context = ContractCtx c ∧ fn_name c ∈ l
  | CUninstall _ _ | COther _ => is_Some v
  end.

#[export] Instance session_machine : PolicyMachine allowed_fns guard next.
Proof.
  split; [intros c e e' k Hc; by apply law_frame in Hc as (_ & _ & Hf); apply Hf|].
  intros [p r a|r a|ctx sg r a|[i a]] e e' Hc; simpl.
  - apply session_install_runs in Hc as (? & ? & Hn & ->). simpl in *. unfold rule_key.
    by rewrite Hn, lookup_insert_eq.
  - apply law_effect in Hc as [Hs Hn]. simpl in *. by rewrite Hn, fmap_is_Some.
  - apply session_enforce_runs in Hc as (c & d & w & l & _ & Hs & Hd & -> & Hin & _ & ->).
    unfold rule_key. simpl. rewrite Hd. eauto 10.
  - pose proof (session_uses_preserve _ _ _ Hc eq_refl) as Hp. simpl in Hp. rewrite Hp.
    apply law_effect in Hc as [Hs _]. simpl in Hs. by rewrite fmap_is_Some.
Qed.

(** Until its removal, the entry is the list of the installation. *)
Lemma allowlist_kept p rule account e0 e1 cs e2 :
  install p rule account e0 = Ok (tt, e1) → policy_run e1 cs e2 →
  Forall (λ c, abstract_op c ≠ RUninstall (AccountContext account (rule_id rule))) cs →
  valid_params p ∧ persistent e2 !! AccountContext account (rule_id rule)
                   = Some {| allowed_fns := param_allowed_fns p |}.
Proof.
  intros (Hp & _ & _ & He1)%session_install_runs Hrun Hcs. split; [done|].
  eapply run_constant; [apply session_uses_preserve|done|done|]. rewrite He1. apply lookup_insert_eq.
Qed.

(** ** The properties *)

(** Session-key enforcement, on every branch. The policy lets a call
    through exactly when the account authorised it, some signer authenticated,
    the policy is installed for the rule and its entry's TTL can be extended,
    the context is a contract call and its function is on the stored allowlist;
    it then only extends the TTL and emits the event. It fails with [t] exactly
    when [enforce_refused] gives [t] as the first reason in the code's order. *)
Theorem session_enforce_spec context signers rule account e :
  (∀ e', enforce context signers rule account e = Ok (tt, e')
         ↔ enforce_outcome context signers rule account e e')
  ∧ (∀ t, enforce context signers rule account e = Err t
          ↔ enforce_refused context signers (rule_key rule account) e t).
Proof. split; intros; [apply session_enforce_runs|apply session_enforce_fails]. Qed.

(** C12: a session key stays confined to the allowlist of its installation: from
    the install on, through any calls for any accounts and rules in any order,
    until this rule's policy is uninstalled, every call the policy lets through
    for this account and rule is a contract call to a function of that list,
    which has between one and [MAX_ALLOWED_FNS] entries. *)
Theorem session_confined p rule account e0 e1 cs e2 context signers e3 :
  install p rule account e0 = Ok (tt, e1) →
  policy_run e1 cs e2 →
  Forall (λ c, abstract_op c ≠ RUninstall (AccountContext account (rule_id rule))) cs →
  enforce context signers rule account e2 = Ok (tt, e3) →
  valid_params p ∧ ∃ c, context = ContractCtx c ∧ fn_name c ∈ param_allowed_fns p.
Proof.
  intros Hin Hrun Hcs Hen. destruct (allowlist_kept _ _ _ _ _ _ _ Hin Hrun Hcs) as [Hp Hd].
  apply session_enforce_runs in Hen as (c & d & w & live' & _ & _ & Hd' & -> & Hf & _).
  rewrite Hd in Hd'. injection Hd' as <-. eauto.
Qed.

(** Installation. With the account's authorisation, [install] reports the
    first failing condition (a rule that is not [CallContract], an empty or
    oversized list, an existing installation) with its documented error;
    otherwise it stores exactly the given list under the account and rule and
    emits the event. Uninstalling removes that entry, and fails when there is
    none. *)
Theorem session_install_spec p rule account e w :
  let key := AccountContext account (rule_id rule) in
  host_require_auth (self e) account (world e) = Some w →
  install p rule account e =
    (if negb (is_call_contract (context_type rule)) then
       Err (ContractError OnlyCallContractAllowed)
     else if decide (valid_params p) then
       match persistent e !! key with
       | Some _ => Err (ContractError AlreadyInstalled)
       | None =>
           Ok (tt, set_events (events e ++ [SessionInstalled account (rule_id rule) (param_allowed_fns p)])
                     (store key {| allowed_fns := param_allowed_fns p |} (set_world w e)))
       end
     else Err (ContractError InvalidAllowedFns))
  ∧ uninstall rule account e =
    match persistent e !! key with
    | None => Err (ContractError SmartAccountNotInstalled)
    | Some _ => Ok (tt, set_events (events e ++ [SessionUninstalled account (rule_id rule)])
                          (unstore key (set_world w e)))
    end.
Proof.
  intros key Ha. unfold install, uninstall. split.
  - step_do by (apply require_auth_Ok; eauto). exec.
    destruct (is_call_contract _); [simpl|done].
    rewrite <- session_invalid_params. destruct (_ || _); [done|]. simpl.
    fold key. by destruct (persistent e !! key).
  - step_do by (apply require_auth_Ok; eauto). exec. fold key.
    by destruct (persistent e !! key).
Qed.
End laws.

(** ** Witnesses: account 1, rule 3, functions "swap" and "claim" *)

Definition test_env0 : Env (H := ref_host) StorageKey SessionData SessionEvent :=
  ref_env 9%N 50 0 (ref_world [1%N] ∅).
Definition test_params := {| param_allowed_fns := ["swap"; "claim"]%string |}.
Definition test_rule : ContextRule (H := ref_host) := mkContextRule (H := ref_host) 3 (CallContract (H := ref_host) 5%N) [].
Definition test_ctx (fn : Symbol) : Context (H := ref_host) :=
  ContractCtx (H := ref_host) (mkContractContext (H := ref_host) 5%N fn []).
Definition test_signers : list (Signer (H := ref_host)) := [Delegated (H := ref_host) 2%N].
Definition test_env1 := final (install (H := ref_host) test_params test_rule 1%N test_env0) test_env0.

Lemma session_enforce_spec_witness :
  enforce_outcome (H := ref_host) (test_ctx "swap") test_signers test_rule 1%N test_env1
    (final (enforce (H := ref_host) (test_ctx "swap") test_signers test_rule 1%N test_env1) test_env1)
  ∧ enforce (H := ref_host) (test_ctx "swap") [] test_rule 1%N test_env1
    = Err (ContractError MethodNotAllowed)
  ∧ enforce (H := ref_host) (test_ctx "mint") test_signers test_rule 1%N test_env1
    = Err (ContractError MethodNotAllowed).
Proof.
  split_and!.
  - apply (proj1 (session_enforce_spec (H := ref_host) (test_ctx "swap") test_signers test_rule
      1%N test_env1)). by_run.
  - apply (session_enforce_spec (H := ref_host) (test_ctx "swap") [] test_rule 1%N test_env1).
    constructor. apply entry_unauthenticated; [|done]. exists (world test_env1). by_run.
  - apply (session_enforce_spec (H := ref_host) (test_ctx "mint") test_signers test_rule 1%N test_env1).
    eapply (refused_function (H := ref_host)) with (d := {| allowed_fns := ["swap"; "claim"]%string |})
      (w := world test_env1) (live' := 518450).
    + split_and!; [by_run|discriminate|by_run|]. eexists. split; vm_compute; reflexivity.
    + intros c [= <-]. apply (bool_decide_eq_false_1 (fn_name (H := ref_host) _ ∈ _)). by_run.
Defined.

Lemma session_install_spec_witness :
  install (H := ref_host) {| param_allowed_fns := [] |} test_rule 1%N test_env0
    = Err (ContractError InvalidAllowedFns)
  ∧ is_Ok (install (H := ref_host) test_params test_rule 1%N test_env0)
  ∧ is_Ok (uninstall (H := ref_host) test_rule 1%N test_env1).
Proof.
  rewrite (proj1 (session_install_spec (H := ref_host) {| param_allowed_fns := [] |} test_rule 1%N test_env0
    (world test_env0) ltac:(by_run))).
  rewrite (proj1 (session_install_spec (H := ref_host) test_params test_rule 1%N test_env0
    (world test_env0) ltac:(by_run))).
  rewrite (proj2 (session_install_spec (H := ref_host) test_params test_rule 1%N test_env1
    (world test_env1) ltac:(by_run))).
  split; [by_run|]. split; vm_compute; exact I.
Defined.

Lemma session_confined_witness :
  enforce (H := ref_host) (test_ctx "swap") test_signers test_rule 1%N test_env1
    = Ok (tt, final (enforce (H := ref_host) (test_ctx "swap") test_signers test_rule 1%N test_env1) test_env1)
  ∧ ∃ c, test_ctx "swap" = ContractCtx c ∧ fn_name c ∈ ["swap"; "claim"]%string.
Proof.
  split; [by_run|].
  refine (proj2 (session_confined (H := ref_host) test_params test_rule 1%N test_env0 test_env1 []
    test_env1 (test_ctx "swap") test_signers
    (final (enforce (H := ref_host) (test_ctx "swap") test_signers test_rule 1%N test_env1) test_env1)
    _ _ _ _)).
  - by_run.
  - constructor.
  - constructor.
  - by_run.
Defined.
End Session.
