(* ===== verification/RecipientPolicy.v ===== *)
(** * Recipient allowlist policy (policies/recipient-allowlist-policy/src/lib.rs)

    Restricts a rule's transfers to a list of recipients that the account may
    replace after installation: install, enforce, uninstall,
    get_allowed_recipients and set_allowed_recipients. *)
From S2P Require Import Prelude RustInt Soroban RefHost Policy.
Local Open Scope Z_scope.

Module Recipient.

(** ** Data, errors, constants and events *)

Inductive RecipientError :=
  | SmartAccountNotInstalled | OnlyCallContractAllowed | InvalidAllowedRecipients
  | RecipientNotAllowed | AlreadyInstalled | InvalidTransferArgs.

Definition DAY_IN_LEDGERS : Z := 17280.
Definition RECIPIENT_EXTEND_AMOUNT : Z := 30 * DAY_IN_LEDGERS.
Definition RECIPIENT_TTL_THRESHOLD : Z := RECIPIENT_EXTEND_AMOUNT - DAY_IN_LEDGERS.
Definition MAX_ALLOWED_RECIPIENTS : Z := 10.

Section contract.
Context `{Host}.

Record RecipientAccountParams := { param_allowed_recipients : list Address }.
Record RecipientData := mkRecipientData { allowed_recipients : list Address }.

Inductive RecipientEvent :=
  | RecipientEnforced (smart_account : Address) (context_rule_id : Z) (recipient : Address)
  | RecipientInstalled (smart_account : Address) (context_rule_id : Z)
      (allowed_recipients : list Address)
  | RecipientUninstalled (smart_account : Address) (context_rule_id : Z).

Abbreviation REnv := (Env StorageKey RecipientData RecipientEvent).
Abbreviation RM := (M REnv RecipientError).

Definition emit_recipient_enforced (smart_account : Address) (context_rule_id : Z)
    (recipient : Address) : RM unit :=
  publish (RecipientEnforced smart_account context_rule_id recipient).
Definition emit_recipient_installed (smart_account : Address) (context_rule_id : Z)
    (allowed : list Address) : RM unit :=
  publish (RecipientInstalled smart_account context_rule_id allowed).
Definition emit_recipient_uninstalled (smart_account : Address) (context_rule_id : Z) : RM unit :=
  publish (RecipientUninstalled smart_account context_rule_id).

(** [v.is_empty() || v.len() > MAX_ALLOWED_RECIPIENTS] *)
Definition bad_list (l : list Address) : bool :=
  is_empty l || (MAX_ALLOWED_RECIPIENTS <? zlen l).

Definition get_allowed_recipients (context_rule_id : Z) (smart_account : Address) :
    RM (list Address) :=
  o ← persistent_get_extend (AccountContext smart_account context_rule_id)
        RECIPIENT_TTL_THRESHOLD RECIPIENT_EXTEND_AMOUNT;
  unwrap_or_throw (allowed_recipients <$> o) SmartAccountNotInstalled.

Definition enforce (context : Context) (authenticated_signers : list Signer)
    (context_rule : ContextRule) (smart_account : Address) : RM unit :=
  require_auth smart_account ;;
  throw_if (is_empty authenticated_signers) RecipientNotAllowed ;;
  allowed ← get_allowed_recipients (rule_id context_rule) smart_account;
  match context with
  | ContractCtx c =>
      throw_if (negb (bool_decide (fn_name c = "transfer"%string))) RecipientNotAllowed ;;
      to_val ← unwrap_or_throw (args c !! 1%nat) InvalidTransferArgs;
      recipient ← unwrap_or_throw (val_to_address to_val) InvalidTransferArgs;
      throw_if (negb (bool_decide (recipient ∈ allowed))) RecipientNotAllowed ;;
      emit_recipient_enforced smart_account (rule_id context_rule) recipient
  | _ => throw RecipientNotAllowed
  end.

Definition install (params : RecipientAccountParams) (context_rule : ContextRule)
    (smart_account : Address) : RM unit :=
  require_auth smart_account ;;
  throw_if (negb (is_call_contract (context_type context_rule))) OnlyCallContractAllowed ;;
  throw_if (bad_list (param_allowed_recipients params)) InvalidAllowedRecipients ;;
  let key := AccountContext smart_account (rule_id context_rule) in
  has ← persistent_has key;
  throw_if has AlreadyInstalled ;;
  persistent_set key (mkRecipientData (param_allowed_recipients params)) ;;
  emit_recipient_installed smart_account (rule_id context_rule)
    (param_allowed_recipients params).

Definition uninstall (context_rule : ContextRule) (smart_account : Address) : RM unit :=
  require_auth smart_account ;;
  let key := AccountContext smart_account (rule_id context_rule) in
  has ← persistent_has key;
  throw_if (negb has) SmartAccountNotInstalled ;;
  persistent_remove key ;;
  emit_recipient_uninstalled smart_account (rule_id context_rule).

Definition set_allowed_recipients (new_recipients : list Address) (context_rule_id : Z)
    (smart_account : Address) : RM unit :=
  require_auth smart_account ;;
  throw_if (bad_list new_recipients) InvalidAllowedRecipients ;;
  let key := AccountContext smart_account context_rule_id in
  has ← persistent_has key;
  throw_if (negb has) SmartAccountNotInstalled ;;
  persistent_set key (mkRecipientData new_recipients).

(** The entry points outside the trait. *)
Inductive recipient_call :=
  | CGetAllowed (context_rule_id : Z) (smart_account : Address)
  | CSetAllowed (recipients : list Address) (context_rule_id : Z) (smart_account : Address).

#[export] Instance RecipientPolicy : Policy RecipientData RecipientEvent RecipientError := {|
  Policy.AccountParams := RecipientAccountParams;
  Policy.install := install;
  Policy.uninstall := uninstall;
  Policy.enforce := enforce;
  Policy.Other := recipient_call;
  Policy.other_key := λ c,
    match c with CGetAllowed i a | CSetAllowed _ i a => AccountContext a i end;
  Policy.run_other := λ c,
    match c with
    | CGetAllowed i a => get_allowed_recipients i a ;; mret tt
    | CSetAllowed l i a => set_allowed_recipients l i a
    end;
|}.
End contract.

(** ** The interface laws *)

Section laws.
Context `{Host}.
Abbreviation REnv := (Env StorageKey RecipientData RecipientEvent).
Implicit Types e : REnv.

#[export] Instance recipient_laws : PolicyLaws RecipientData RecipientEvent RecipientError.
Proof.
  split; intros [p r a|r a|ctx sg r a|[i a|l i a]] e e'; simpl;
    unfold install, uninstall, enforce, set_allowed_recipients, get_allowed_recipients,
      emit_recipient_installed, emit_recipient_uninstalled, emit_recipient_enforced, rule_key;
    intros; inv_run; policy_law.
Qed.

(** *** What enforcement checks and leaves behind *)

Definition enforce_outcome (context : Context) (signers : list Signer) (rule : ContextRule)
    (account : Address) e e' : Prop :=
  ∃ c v recipient d w live',
    host_require_auth (self e) account (world e) = Some w
    ∧ signers ≠ []
    ∧ persistent e !! AccountContext account (rule_id rule) = Some d
    ∧ context = ContractCtx c ∧ fn_name c = "transfer"%string
    ∧ args c !! 1%nat = Some v ∧ val_to_address v = Some recipient
    ∧ recipient ∈ allowed_recipients d
    ∧ ttl_extends e (AccountContext account (rule_id rule))
        RECIPIENT_TTL_THRESHOLD RECIPIENT_EXTEND_AMOUNT live'
    ∧ e' = set_events (events e ++ [RecipientEnforced account (rule_id rule) recipient])
             (touched (AccountContext account (rule_id rule)) live' (set_world w e)).

Lemma get_allowed_recipients_runs i a e d live' :
  persistent e !! AccountContext a i = Some d →
  ttl_extends e (AccountContext a i) RECIPIENT_TTL_THRESHOLD RECIPIENT_EXTEND_AMOUNT live' →
  get_allowed_recipients i a e
  = Ok (allowed_recipients d, touched (AccountContext a i) live' e).
Proof.
  intros Hd Hx. unfold get_allowed_recipients.
  by step_get by (apply persistent_get_extend_Some; eauto).
Qed.

Lemma recipient_enforce_runs context signers rule account e e' :
  enforce context signers rule account e = Ok (tt, e') ↔
  enforce_outcome context signers rule account e e'.
Proof.
  unfold enforce_outcome. split.
  - unfold enforce, get_allowed_recipients, emit_recipient_enforced. intros. inv_run.
    simpl in *. simplify_eq. by eauto 20.
  - intros (c & v & rc & d & w & live' & Ha & Hs & Hd & -> & Hfn & Harg & Hv & Hin & Hx & ->).
    unfold enforce. step_do by (apply require_auth_Ok; eauto).
    step_do by (apply throw_if_Ok; split; [by apply is_empty_false|]).
    step_get by (apply get_allowed_recipients_runs).
    step_do by (apply throw_if_Ok; split; [by rewrite bool_decide_true|]).
    step_get by (apply unwrap_or_throw_Ok; split; [exact Harg|]).
    step_get by (apply unwrap_or_throw_Ok; split; [exact Hv|]).
    step_do by (apply throw_if_Ok; split; [by rewrite bool_decide_true|]).
    by apply publish_Ok.
Qed.

(** Why a call is refused: the rule's entry could not be read; the context is not
    a [transfer]; its second argument is missing or not an address; or that
    address is not on the list. *)
Abbreviation recipient_entered := (entered RECIPIENT_TTL_THRESHOLD RECIPIENT_EXTEND_AMOUNT).
Inductive enforce_refused (context : Context) (signers : list Signer) (key : StorageKey) e :
    trap RecipientError → Prop :=
  | refused_entry t :
      entry_refused RECIPIENT_TTL_THRESHOLD RECIPIENT_EXTEND_AMOUNT
        RecipientNotAllowed SmartAccountNotInstalled signers key e t →
      enforce_refused context signers key e t
  | refused_function d w live' :
      recipient_entered signers key e d w live' →
      (∀ c, context = ContractCtx c → fn_name c ≠ "transfer"%string) →
      enforce_refused context signers key e (ContractError RecipientNotAllowed)
  | refused_argument c d w live' :
      recipient_entered signers key e d w live' →
      context = ContractCtx c → fn_name c = "transfer"%string →
      args c !! 1%nat ≫= val_to_address = None →
      enforce_refused context signers key e (ContractError InvalidTransferArgs)
  | refused_recipient c d w live' recipient :
      recipient_entered signers key e d w live' →
      context = ContractCtx c → fn_name c = "transfer"%string →
      args c !! 1%nat ≫= val_to_address = Some recipient → recipient ∉ allowed_recipients d →
      enforce_refused context signers key e (ContractError RecipientNotAllowed).

Lemma recipient_enforce_fails context signers rule account e t :
  enforce context signers rule account e = Err t ↔
  enforce_refused context signers (rule_key rule account) e t.
Proof.
  pose proof (entry_Err (Event := RecipientEvent) RECIPIENT_TTL_THRESHOLD RECIPIENT_EXTEND_AMOUNT
    RecipientNotAllowed SmartAccountNotInstalled signers (rule_key rule account)
    allowed_recipients) as Hentry.
  unfold enforce, get_allowed_recipients, rule_key in *. simpl in Hentry. rewrite Hentry. split.
  - intros [?|(d & w & live' & He & Hk)]; [by constructor|].
    destruct context as [c| |]; [|injection Hk as <-; by eapply refused_function..].
    unfold emit_recipient_enforced in Hk. inv_trap.
    + eapply refused_function; [done|]. by intros ? [= <-].
    + eapply refused_argument; [done..|]. match goal with Ha : args _ !! _ = None |- _ => by rewrite Ha end.
    + eapply refused_argument; [done..|]. match goal with Ha : args _ !! _ = Some _ |- _ => by rewrite Ha end.
    + eapply refused_recipient; [done..| |done].
      match goal with Ha : args _ !! _ = Some _ |- _ => by rewrite Ha end.
  - intros [t' Ht|d w live' He Hc|c d w live' He -> Hfn Hv|c d w live' rc He -> Hfn Hv Hin];
      [by left|right; exists d, w, live'; (split; [done|])..].
    + destruct context as [c| |]; [|done..]. apply bind_Err, throw_if_Err.
      by rewrite bool_decide_false by by apply Hc.
    + step_do by (apply throw_if_Ok; by rewrite bool_decide_true).
      destruct (args c !! 1%nat) as [v|] eqn:Ha; [|by apply bind_Err, unwrap_or_throw_Err].
      step_get by (apply unwrap_or_throw_Ok; split; [reflexivity|]).
      by apply bind_Err, unwrap_or_throw_Err.
    + apply bind_Some in Hv as (v & Ha & Hv).
      step_do by (apply throw_if_Ok; by rewrite bool_decide_true).
      step_get by (apply unwrap_or_throw_Ok; split; [exact Ha|]).
      step_get by (apply unwrap_or_throw_Ok; split; [exact Hv|]).
      apply bind_Err, throw_if_Err. by rewrite bool_decide_false.
Qed.

Definition valid_list (l : list Address) : Prop :=
  l ≠ [] ∧ zlen l ≤ MAX_ALLOWED_RECIPIENTS.

Lemma bad_list_false l : bad_list l = false ↔ valid_list l.
Proof. unfold bad_list, valid_list. by rewrite orb_false_iff, is_empty_false, Z.ltb_ge. Qed.
Lemma bad_list_true l : bad_list l = true ↔ ¬ valid_list l.
Proof. rewrite <- bad_list_false. by destruct (bad_list l). Qed.

(** *** The policy as a machine on the allowlist *)

Abbreviation rcall := (call RecipientData RecipientEvent RecipientError).
Definition next (c : rcall) (v : option (list Address)) : option (list Address) :=
  match c with
  | CInstall p _ _ => Some (param_allowed_recipients p)
  | CUninstall _ _ => None
  | COther (CSetAllowed l _ _) => Some l
  | CEnforce _ _ _ _ | COther (CGetAllowed _ _) => v
  end.
(** [l] allows the context: a transfer to one of its recipients. *)
Definition pays_allowed (l : list Address) (context : Context) : Prop :=
  ∃ c v recipient, context = ContractCtx c ∧ fn_name c = "transfer"%string
    ∧ args c !! 1%nat = Some v ∧ val_to_address v = Some recipient ∧ recipient ∈ l.
Definition guard (c : rcall) (v : option (list Address)) : Prop :=
  match c with
  | CInstall p _ _ => v = None ∧ valid_list (param_allowed_recipients p)
  | CEnforce context signers _ _ => signers ≠ [] ∧ ∃ l, v = Some l ∧ pays_allowed l context
  | COther (CSetAllowed l _ _) => is_Some v ∧ valid_list l
  | CUninstall _ _ | COther (CGetAllowed _ _) => is_Some v
  end.

#[export] Instance recipient_machine : PolicyMachine allowed_recipients guard next.
Proof.
  split; [intros c e e' k Hc; by apply law_frame in Hc as (_ & _ & Hf); apply Hf|].
  intros [p r a|r a|ctx sg r a|[i a|l i a]] e e' Hc; simpl in *.
  3: { apply recipient_enforce_runs in Hc
         as (c & v & rc & d & w & l & _ & Hs & Hd & -> & Hfn & Harg & Hv & Hin & _ & ->).
       unfold rule_key, pays_allowed. simpl. rewrite Hd. eauto 20. }
  all: unfold install, uninstall, set_allowed_recipients, get_allowed_recipients,
      emit_recipient_installed, emit_recipient_uninstalled, rule_key in *;
    inv_run; policy_law; by rewrite ?fmap_is_Some, <- ?bad_list_false.
Qed.

(** ** The abstract allowlists *)

(** What the successful calls so far say each allowlist is. *)
Definition allowlist_step (m : gmap StorageKey (list Address))
    (c : call RecipientData RecipientEvent RecipientError) : gmap StorageKey (list Address) :=
  match c with
  | CInstall p _ _ => <[call_key c := param_allowed_recipients p]> m
  | CUninstall _ _ => delete (call_key c) m
  | COther (CSetAllowed l _ _) => <[call_key c := l]> m
  | CEnforce _ _ _ _ | COther (CGetAllowed _ _) => m
  end.
Definition allowlists (cs : list (call RecipientData RecipientEvent RecipientError)) :
    gmap StorageKey (list Address) :=
  foldl allowlist_step ∅ cs.

Lemma call_allowlist c e e' :
  run_call c e = Ok (tt, e') →
  allowed_recipients <$> persistent e'
  = allowlist_step (allowed_recipients <$> persistent e) c.
Proof.
  destruct c as [p r a|r a|ctx sg r a|[i a|l i a]]; simpl;
    unfold install, uninstall, enforce, set_allowed_recipients, get_allowed_recipients,
      emit_recipient_installed, emit_recipient_uninstalled, emit_recipient_enforced, rule_key;
    intros; inv_run; unfold store, unstore, touched; simpl;
    rewrite ?fmap_insert, ?fmap_delete; done.
Qed.

Lemma call_valid c e e' d :
  run_call c e = Ok (tt, e') →
  (∀ d0, persistent e !! call_key c = Some d0 → valid_list (allowed_recipients d0)) →
  persistent e' !! call_key c = Some d → valid_list (allowed_recipients d).
Proof.
  destruct c as [p r a|r a|ctx sg r a|[i a|l i a]]; simpl;
    unfold install, uninstall, enforce, set_allowed_recipients, get_allowed_recipients,
      emit_recipient_installed, emit_recipient_uninstalled, emit_recipient_enforced, rule_key;
    intros; inv_run; unfold store, unstore, touched in *; simplify_map_eq/=;
    try (by apply bad_list_false); eauto.
Qed.

Lemma run_allowlists e0 cs e :
  policy_run e0 cs e → persistent e0 = ∅ →
  allowed_recipients <$> persistent e = allowlists cs.
Proof.
  intros Hrun He0. induction Hrun as [|cs e c e' _ IH Hc|cs e seq time w evs _ IH _].
  - by rewrite He0, fmap_empty.
  - unfold allowlists in *. rewrite foldl_snoc, <- IH. by apply call_allowlist.
  - exact IH.
Qed.

(** ** The properties *)

(** C38: recipient enforcement, on every branch. A call passes exactly when the
    account authorised it, some signer authenticated, the policy is installed for
    the rule and its entry's TTL can be extended, and it is a [transfer] whose
    second argument is an address of the stored allowlist; it fails with [t]
    exactly when [enforce_refused] gives [t] as the first reason in the code's
    order. *)
Theorem recipient_enforce_spec context signers rule account e :
  (∀ e', enforce context signers rule account e = Ok (tt, e')
         ↔ enforce_outcome context signers rule account e e')
  ∧ (∀ t, enforce context signers rule account e = Err t
          ↔ enforce_refused context signers (rule_key rule account) e t).
Proof. split; intros; [apply recipient_enforce_runs|apply recipient_enforce_fails]. Qed.

(** C18: the storage refines a map of allowlists determined by the history of
    successful calls (install and set_allowed_recipients replace a list,
    uninstall drops it, nothing else changes one): after any run from empty
    storage the stored lists are exactly that map, every one of them has
    between one and [MAX_ALLOWED_RECIPIENTS] entries, and a transfer the policy
    lets through goes to a recipient on the list last set for its account and
    rule. *)
Theorem recipient_allowlist_refines e0 cs e :
  persistent e0 = ∅ → policy_run e0 cs e →
  allowed_recipients <$> persistent e = allowlists cs
  ∧ map_Forall (λ _, valid_list) (allowlists cs)
  ∧ ∀ context signers rule account e',
      enforce context signers rule account e = Ok (tt, e') →
      ∃ c v recipient l,
        context = ContractCtx c ∧ fn_name c = "transfer"%string
        ∧ args c !! 1%nat = Some v ∧ val_to_address v = Some recipient
        ∧ allowlists cs !! AccountContext account (rule_id rule) = Some l
        ∧ recipient ∈ l.
Proof.
  intros He0 Hrun. pose proof (run_allowlists _ _ _ Hrun He0) as Hl.
  split; [done|]. split.
  - rewrite <- Hl. apply map_Forall_fmap.
    apply (run_stored (λ d, valid_list (allowed_recipients d)) e0 cs); [apply call_valid|done|].
    rewrite He0. apply map_Forall_empty.
  - intros context signers rule account e' Hen. apply recipient_enforce_runs in Hen
      as (c & v & rc & d & w & live' & _ & _ & Hd & -> & Hfn & Harg & Hv & Hin & _).
    exists c, v, rc, (allowed_recipients d). rewrite <- Hl, lookup_fmap, Hd. done.
Qed.
End laws.

(** ** Witnesses: account 1, rule 3, recipients 20 and 21, later 22 alone *)

Definition test_env0 : Env (H := ref_host) StorageKey RecipientData RecipientEvent :=
  ref_env 9%N 50 0 (ref_world [1%N] ∅).
Definition test_rule : ContextRule (H := ref_host) :=
  mkContextRule (H := ref_host) 3 (CallContract (H := ref_host) 5%N) [].
Definition test_ctx (to : N) : Context (H := ref_host) :=
  ContractCtx (H := ref_host) (mkContractContext (H := ref_host) 5%N "transfer"
    [RAddress 1; RAddress to; RI128 7]).
Definition test_signers : list (Signer (H := ref_host)) := [Delegated (H := ref_host) 2%N].
Definition test_params : RecipientAccountParams (H := ref_host) :=
  Build_RecipientAccountParams (H := ref_host) [20%N; 21%N].
Definition test_env1 :=
  final (install (H := ref_host) test_params test_rule 1%N test_env0)
    test_env0.
Definition test_env2 :=
  final (set_allowed_recipients (H := ref_host) [22%N] 3 1%N test_env1) test_env1.

Lemma recipient_enforce_spec_witness :
  enforce_outcome (H := ref_host) (test_ctx 21%N) test_signers test_rule 1%N test_env1
    (final (enforce (H := ref_host) (test_ctx 21%N) test_signers test_rule 1%N test_env1) test_env1)
  ∧ enforce (H := ref_host) (test_ctx 21%N) [] test_rule 1%N test_env1
    = Err (ContractError RecipientNotAllowed)
  ∧ enforce (H := ref_host) (test_ctx 22%N) test_signers test_rule 1%N test_env1
    = Err (ContractError RecipientNotAllowed).
Proof.
  split_and!.
  - apply (proj1 (recipient_enforce_spec (H := ref_host) (test_ctx 21%N) test_signers test_rule
      1%N test_env1)). by_run.
  - apply (recipient_enforce_spec (H := ref_host) (test_ctx 21%N) [] test_rule 1%N test_env1).
    constructor. apply entry_unauthenticated; [|done]. exists (world test_env1). by_run.
  - apply (recipient_enforce_spec (H := ref_host) (test_ctx 22%N) test_signers test_rule 1%N test_env1).
    eapply (refused_recipient (H := ref_host)) with (d := mkRecipientData (H := ref_host) [20%N; 21%N])
      (w := world test_env1) (live' := 518450) (recipient := 22%N); [|reflexivity..|].
    + split_and!; [by_run|discriminate|by_run|]. eexists. split; vm_compute; reflexivity.
    + apply (bool_decide_eq_false_1 ((22%N : Address (Host := ref_host)) ∈ _)). by_run.
Defined.

Definition test_calls : list (call (H := ref_host) RecipientData RecipientEvent RecipientError) :=
  [CInstall (H := ref_host) (H0 := RecipientPolicy) test_params test_rule 1%N;
   COther (H := ref_host) (H0 := RecipientPolicy) (CSetAllowed (H := ref_host) [22%N] 3 1%N)].

Lemma recipient_allowlist_refines_witness :
  allowed_recipients (H := ref_host) <$> persistent test_env2
    = {[ AccountContext (H := ref_host) 1%N 3 := [22%N] ]}.
Proof.
  rewrite (proj1 (recipient_allowlist_refines (H := ref_host) test_env0 test_calls test_env2
     ltac:(by_run)
     ltac:(apply (policy_call _ [_] test_env1); [apply (policy_call _ [] test_env0);
       [constructor|by_run]|by_run]))).
  by_run.
Defined.
End Recipient.
