(* ===== verification/ParameterScoped.v ===== *)
(** * Parameter-scoped policy (policies/parameter-scoped-policy/src)

    Conditions on the arguments of each allowed function: [conditions.rs]'s
    comparison functions, enforce, install, uninstall and get_conditions, and
    the [Policy] instance of lib.rs. *)
From S2P Require Import Prelude RustInt Soroban RefHost Policy.
Local Open Scope Z_scope.

Module ParamScoped.

(** ** Data, errors, constants and events *)

Inductive Operator := Eq | Neq | Gt | Gte | Lt | Lte.

Inductive ParameterScopedError :=
  | SmartAccountNotInstalled | OnlyCallContractAllowed | InvalidConditions
  | MethodNotAllowed | ConditionFailed | AlreadyInstalled | ArgumentIndexOutOfBounds.

Definition DAY_IN_LEDGERS : Z := 17280.
Definition PARAMETER_SCOPED_EXTEND_AMOUNT : Z := 30 * DAY_IN_LEDGERS.
Definition PARAMETER_SCOPED_TTL_THRESHOLD : Z :=
  PARAMETER_SCOPED_EXTEND_AMOUNT - DAY_IN_LEDGERS.
Definition MAX_FNS : Z := 10.
Definition MAX_CONDITIONS_PER_FN : Z := 5.

Section contract.
Context `{Host}.

Inductive ExpectedValue :=
  | U32 (n : Z) | I32 (n : Z) | U64 (n : Z) | I64 (n : Z) | U128 (n : Z) | I128 (n : Z)
  | Sym (s : Symbol) | Addr (a : Address).

Record Condition := mkCondition {
  arg_index : Z;
  operator : Operator;
  expected_value : ExpectedValue;
}.

Record ParameterScopedAccountParams := { param_conditions : gmap Symbol (list Condition) }.
Record ParameterScopedData := mkData { conditions : gmap Symbol (list Condition) }.

Inductive ConditionsEvent :=
  | ConditionsEnforced (smart_account : Address) (context_rule_id : Z) (fn : Symbol)
  | ConditionsInstalled (smart_account : Address) (context_rule_id : Z)
  | ConditionsUninstalled (smart_account : Address) (context_rule_id : Z).

Abbreviation PEnv := (Env StorageKey ParameterScopedData ConditionsEvent).
Abbreviation PM := (M PEnv ParameterScopedError).

Definition emit_conditions_enforced (smart_account : Address) (context_rule_id : Z)
    (fn : Symbol) : PM unit :=
  publish (ConditionsEnforced smart_account context_rule_id fn).
Definition emit_conditions_installed (smart_account : Address) (context_rule_id : Z) : PM unit :=
  publish (ConditionsInstalled smart_account context_rule_id).
Definition emit_conditions_uninstalled (smart_account : Address) (context_rule_id : Z) : PM unit :=
  publish (ConditionsUninstalled smart_account context_rule_id).

Definition get_conditions (context_rule_id : Z) (smart_account : Address) :
    PM (gmap Symbol (list Condition)) :=
  o ← persistent_get_extend (AccountContext smart_account context_rule_id)
        PARAMETER_SCOPED_TTL_THRESHOLD PARAMETER_SCOPED_EXTEND_AMOUNT;
  unwrap_or_throw (conditions <$> o) SmartAccountNotInstalled.

(** ** Comparing one argument *)

(** [compare_ord::<T>] at an integer type, given by its conversion. *)
Definition compare_ord (try_into_val : Val → option Z) (actual_arg : Val) (expected : Z)
    (op : Operator) : bool :=
  match try_into_val actual_arg with
  | None => false
  | Some actual =>
      match op with
      | Eq => actual =? expected
      | Neq => negb (actual =? expected)
      | Gt => expected <? actual
      | Gte => expected <=? actual
      | Lt => actual <? expected
      | Lte => actual <=? expected
      end
  end.

(** [compare_eq::<T>] *)
Definition compare_eq {T} `{EqDecision T} (try_into_val : Val → option T) (actual_arg : Val)
    (expected : T) (op : Operator) : bool :=
  match try_into_val actual_arg with
  | None => false
  | Some actual =>
      match op with
      | Eq => bool_decide (actual = expected)
      | Neq => negb (bool_decide (actual = expected))
      | _ => false
      end
  end.

(** The dispatch on [cond.expected_value] inside [enforce]. *)
Definition condition_passed (cond : Condition) (actual_arg : Val) : bool :=
  match expected_value cond with
  | U32 expected => compare_ord val_to_u32 actual_arg expected (operator cond)
  | I32 expected => compare_ord val_to_i32 actual_arg expected (operator cond)
  | U64 expected => compare_ord val_to_u64 actual_arg expected (operator cond)
  | I64 expected => compare_ord val_to_i64 actual_arg expected (operator cond)
  | U128 expected => compare_ord val_to_u128 actual_arg expected (operator cond)
  | I128 expected => compare_ord val_to_i128 actual_arg expected (operator cond)
  | Sym expected => compare_eq val_to_symbol actual_arg expected (operator cond)
  | Addr expected => compare_eq val_to_address actual_arg expected (operator cond)
  end.

(** [for cond in fn_conditions.into_iter() { ... }] *)
Fixpoint check_conditions (call_args : list Val) (conds : list Condition) : PM unit :=
  match conds with
  | [] => mret tt
  | cond :: rest =>
      actual_arg ← unwrap_or_throw (call_args !! Z.to_nat (arg_index cond))
                     ArgumentIndexOutOfBounds;
      throw_if (negb (condition_passed cond actual_arg)) ConditionFailed ;;
      check_conditions call_args rest
  end.

(** ** Entry points *)

Definition enforce (context : Context) (authenticated_signers : list Signer)
    (context_rule : ContextRule) (smart_account : Address) : PM unit :=
  require_auth smart_account ;;
  throw_if (is_empty authenticated_signers) MethodNotAllowed ;;
  configured_fns ← get_conditions (rule_id context_rule) smart_account;
  match context with
  | ContractCtx c =>
      fn_conditions ← unwrap_or_throw (configured_fns !! fn_name c) MethodNotAllowed;
      check_conditions (args c) fn_conditions ;;
      emit_conditions_enforced smart_account (rule_id context_rule) (fn_name c)
  | _ => throw MethodNotAllowed
  end.

(** The operator check of [install]: symbols and addresses take [Eq] and [Neq] only. *)
Definition operator_allowed (cond : Condition) : bool :=
  match expected_value cond, operator cond with
  | (Sym _ | Addr _), (Eq | Neq) => true
  | (Sym _ | Addr _), _ => false
  | _, _ => true
  end.
Fixpoint validate_operators (conds : list Condition) : PM unit :=
  match conds with
  | [] => mret tt
  | cond :: rest =>
      throw_if (negb (operator_allowed cond)) InvalidConditions ;;
      validate_operators rest
  end.
(** [for (_, fn_conditions) in params.conditions.iter() { ... }] *)
Fixpoint validate_fns (fns : list (Symbol * list Condition)) : PM unit :=
  match fns with
  | [] => mret tt
  | (_, fn_conditions) :: rest =>
      throw_if (is_empty fn_conditions || (MAX_CONDITIONS_PER_FN <? zlen fn_conditions))
        InvalidConditions ;;
      validate_operators fn_conditions ;;
      validate_fns rest
  end.

Definition install (params : ParameterScopedAccountParams) (context_rule : ContextRule)
    (smart_account : Address) : PM unit :=
  require_auth smart_account ;;
  throw_if (negb (is_call_contract (context_type context_rule))) OnlyCallContractAllowed ;;
  let fns := map_to_list (param_conditions params) in
  throw_if (is_empty fns || (MAX_FNS <? zlen fns)) InvalidConditions ;;
  validate_fns fns ;;
  let key := AccountContext smart_account (rule_id context_rule) in
  has ← persistent_has key;
  throw_if has AlreadyInstalled ;;
  persistent_set key (mkData (param_conditions params)) ;;
  emit_conditions_installed smart_account (rule_id context_rule).

Definition uninstall (context_rule : ContextRule) (smart_account : Address) : PM unit :=
  require_auth smart_account ;;
  let key := AccountContext smart_account (rule_id context_rule) in
  has ← persistent_has key;
  throw_if (negb has) SmartAccountNotInstalled ;;
  persistent_remove key ;;
  emit_conditions_uninstalled smart_account (rule_id context_rule).

#[export] Instance ParameterScopedPolicy :
    Policy ParameterScopedData ConditionsEvent ParameterScopedError := {|
  Policy.AccountParams := ParameterScopedAccountParams;
  Policy.install := install;
  Policy.uninstall := uninstall;
  Policy.enforce := enforce;
  Policy.Other := Z * Address;
  Policy.other_key := λ q, AccountContext q.2 q.1;
  Policy.run_other := λ q, get_conditions q.1 q.2 ;; mret tt;
|}.
End contract.

(** ** What a condition means *)

Section meaning.
Context `{Host}.
Abbreviation PEnv := (Env StorageKey ParameterScopedData ConditionsEvent).
Implicit Types e : PEnv.

Definition order_holds (op : Operator) (actual expected : Z) : Prop :=
  match op with
  | Eq => actual = expected
  | Neq => actual ≠ expected
  | Gt => expected < actual
  | Gte => expected ≤ actual
  | Lt => actual < expected
  | Lte => actual ≤ expected
  end.
Definition equality_holds {T} (op : Operator) (actual expected : T) : Prop :=
  match op with Eq => actual = expected | Neq => actual ≠ expected | _ => False end.

(** The argument has the type of the expected value and relates to it. *)
Definition argument_satisfies (cond : Condition) (v : Val) : Prop :=
  let numeric conv n := ∃ a, conv v = Some a ∧ order_holds (operator cond) a n in
  match expected_value cond with
  | U32 n => numeric val_to_u32 n
  | I32 n => numeric val_to_i32 n
  | U64 n => numeric val_to_u64 n
  | I64 n => numeric val_to_i64 n
  | U128 n => numeric val_to_u128 n
  | I128 n => numeric val_to_i128 n
  | Sym s => ∃ a, val_to_symbol v = Some a ∧ equality_holds (operator cond) a s
  | Addr x => ∃ a, val_to_address v = Some a ∧ equality_holds (operator cond) a x
  end.
Definition holds (call_args : list Val) (cond : Condition) : Prop :=
  ∃ v, call_args !! Z.to_nat (arg_index cond) = Some v ∧ argument_satisfies cond v.

Lemma compare_ord_true conv v n op :
  compare_ord conv v n op = true ↔ ∃ a, conv v = Some a ∧ order_holds op a n.
Proof.
  unfold compare_ord. destruct (conv v) as [a|]; [|naive_solver].
  destruct op; simpl; rewrite ?negb_true_iff, ?Z.eqb_eq, ?Z.eqb_neq, ?Z.ltb_lt, ?Z.leb_le;
    naive_solver.
Qed.
Lemma compare_eq_true {T} `{EqDecision T} (conv : Val → option T) v n op :
  compare_eq conv v n op = true ↔ ∃ a, conv v = Some a ∧ equality_holds op a n.
Proof.
  unfold compare_eq. destruct (conv v) as [a|]; [|naive_solver].
  destruct op; simpl; rewrite ?negb_true_iff, ?bool_decide_eq_true, ?bool_decide_eq_false;
    naive_solver.
Qed.
Lemma condition_passed_true cond v :
  condition_passed cond v = true ↔ argument_satisfies cond v.
Proof.
  unfold condition_passed, argument_satisfies.
  destruct (expected_value cond); rewrite ?compare_ord_true, ?compare_eq_true; done.
Qed.

Lemma check_conditions_Ok call_args conds e u e' :
  check_conditions call_args conds e = Ok (u, e') ↔ Forall (holds call_args) conds ∧ e' = e.
Proof.
  destruct u. induction conds as [|cond conds IH]; simpl.
  { rewrite ret_Ok. naive_solver. }
  rewrite Forall_cons. split.
  - intros. inv_run.
    match goal with Hc : check_conditions _ _ _ = Ok _ |- _ => apply IH in Hc as [? ->] end.
    split; [|done]. split; [|done]. eexists. split; [done|]. by apply condition_passed_true.
  - intros [[(v & Hv & Hs%condition_passed_true) Hcs] ->].
    step_get by (apply unwrap_or_throw_Ok; split; [exact Hv|]).
    step_do by (apply throw_if_Ok; split; [by rewrite Hs|]). by apply IH.
Qed.

(** The error is that of the first condition that does not hold. *)
Lemma check_conditions_Err call_args conds e t :
  check_conditions call_args conds e = Err t ↔
  ∃ pre cond post, conds = pre ++ cond :: post ∧ Forall (holds call_args) pre
    ∧ (call_args !! Z.to_nat (arg_index cond) = None ∧ t = ContractError ArgumentIndexOutOfBounds
       ∨ ∃ v, call_args !! Z.to_nat (arg_index cond) = Some v ∧ ¬ argument_satisfies cond v
           ∧ t = ContractError ConditionFailed).
Proof.
  split.
  - revert e. induction conds as [|c conds IH]; simpl; intros e Hf; [done|]. inv_trap.
    + exists [], c, conds. eauto.
    + exists [], c, conds. split_and!; [done..|]. right. eexists. split_and!; [done| |done].
      intros Hs%condition_passed_true. congruence.
    + match goal with Hf : check_conditions _ _ _ = _ |- _ =>
        apply IH in Hf as (pre & cond & post & -> & Hpre & Hc) end.
      exists (c :: pre), cond, post. split_and!; [done| |done]. constructor; [|done].
      eexists. split; [done|]. by apply condition_passed_true.
  - intros (pre & cond & post & -> & Hpre & Hc).
    induction Hpre as [|c pre (v & Hv & Hs%condition_passed_true) _ IH]; simpl.
    + destruct Hc as [[Hv ->]|(v & Hv & Hn & ->)]; [by apply bind_Err, unwrap_or_throw_Err|].
      step_get by (apply unwrap_or_throw_Ok; split; [exact Hv|]).
      apply bind_Err, throw_if_Err. split; [|done]. apply negb_true_iff.
      destruct (condition_passed cond v) eqn:Hp; [|done]. by apply condition_passed_true in Hp.
    + step_get by (apply unwrap_or_throw_Ok; split; [exact Hv|]).
      step_do by (apply throw_if_Ok; by rewrite Hs). exact IH.
Qed.

(** ** What installation accepts *)

Definition valid_fn_conditions (conds : list Condition) : Prop :=
  conds ≠ [] ∧ zlen conds ≤ MAX_CONDITIONS_PER_FN
  ∧ Forall (λ c, operator_allowed c = true) conds.
Definition valid_conditions (m : gmap Symbol (list Condition)) : Prop :=
  m ≠ ∅ ∧ Z.of_nat (size m) ≤ MAX_FNS ∧ map_Forall (λ _, valid_fn_conditions) m.

Lemma validate_operators_Ok conds e u e' :
  validate_operators conds e = Ok (u, e') ↔
  Forall (λ c, operator_allowed c = true) conds ∧ e' = e.
Proof.
  destruct u. induction conds as [|c conds IH]; simpl.
  { rewrite ret_Ok. naive_solver. }
  rewrite Forall_cons, bind_Ok. setoid_rewrite throw_if_Ok.
  setoid_rewrite negb_false_iff. naive_solver.
Qed.
Lemma validate_fns_Ok fns e u e' :
  validate_fns fns e = Ok (u, e') ↔
  Forall (λ p, valid_fn_conditions p.2) fns ∧ e' = e.
Proof.
  destruct u. induction fns as [|[f conds] fns IH]; simpl.
  { rewrite ret_Ok. naive_solver. }
  rewrite Forall_cons. unfold valid_fn_conditions at 1. simpl. split.
  - intros. inv_run.
    match goal with Hc : validate_operators _ _ = Ok _ |- _ =>
      apply validate_operators_Ok in Hc as [? ->] end.
    match goal with Hc : validate_fns _ _ = Ok _ |- _ => apply IH in Hc as [? ->] end. done.
  - intros [[(Hn & Hl & Ho) Hf] ->].
    step_do by (apply throw_if_Ok; split; [apply orb_false_iff; split;
      [by apply is_empty_false|by apply Z.ltb_ge]|]).
    step_do by (by apply validate_operators_Ok). by apply IH.
Qed.

(** A validation loop fails with [InvalidConditions] and nothing else. *)
Lemma validate_operators_Err conds e :
  ¬ Forall (λ c, operator_allowed c = true) conds →
  validate_operators conds e = Err (ContractError InvalidConditions).
Proof.
  induction conds as [|c conds IH]; simpl; [by intros []|]. rewrite Forall_cons. intros Hn.
  unfold throw_if. exec. destruct (operator_allowed c); [|done]. simpl. apply IH. tauto.
Qed.
Lemma validate_fns_Err fns e :
  ¬ Forall (λ p, valid_fn_conditions p.2) fns →
  validate_fns fns e = Err (ContractError InvalidConditions).
Proof.
  induction fns as [|[f conds] fns IH]; simpl; [by intros []|]. rewrite Forall_cons. intros Hn.
  destruct (is_empty conds || _) eqn:Hb; [by apply bind_Err|].
  step_do by (by apply throw_if_Ok). apply orb_false_iff in Hb as [He Hl].
  apply is_empty_false in He. apply Z.ltb_ge in Hl.
  destruct (decide (Forall (λ c, operator_allowed c = true) conds)) as [Ho|Ho].
  - step_do by (by apply validate_operators_Ok). apply IH. intros Hf. by apply Hn.
  - apply bind_Err. by apply validate_operators_Err.
Qed.

Lemma valid_conditions_list m :
  valid_conditions m ↔
  (is_empty (map_to_list m) || (MAX_FNS <? zlen (map_to_list m)) = false)
  ∧ Forall (λ p, valid_fn_conditions p.2) (map_to_list m).
Proof.
  unfold valid_conditions, zlen. rewrite orb_false_iff, is_empty_false, Z.ltb_ge.
  rewrite length_map_to_list, map_Forall_to_list.
  assert (map_to_list m ≠ [] ↔ m ≠ ∅) as ->.
  { split; intros Hn Hm; apply Hn; [by rewrite Hm, map_to_list_empty|by apply map_to_list_empty_iff]. }
  split; intros; destruct_and?; split_and!; try done;
    (eapply Forall_impl; [done|]; by intros []).
Qed.
End meaning.

(** ** The interface laws *)

Section laws.
Context `{Host}.
Abbreviation PEnv := (Env StorageKey ParameterScopedData ConditionsEvent).
Implicit Types e : PEnv.
Hint Rewrite @check_conditions_Ok @validate_fns_Ok : runs.

#[export] Instance parameter_scoped_laws :
  PolicyLaws ParameterScopedData ConditionsEvent ParameterScopedError.
Proof.
  split; intros [p r a|r a|ctx sg r a|[i a]] e e'; simpl;
    unfold install, uninstall, enforce, get_conditions, emit_conditions_installed,
      emit_conditions_uninstalled, emit_conditions_enforced, rule_key;
    intros; inv_run; policy_law.
Qed.

Lemma parameter_uses_preserve c e e' :
  run_call c e = Ok (tt, e') →
  abstract_op (Data := ParameterScopedData) (Event := ConditionsEvent)
    (Failure := ParameterScopedError) c = RUse (call_key c) →
  persistent e' !! call_key c = persistent e !! call_key c.
Proof.
  destruct c as [p r a|r a|ctx sg r a|[i a]]; simpl; try done;
    unfold enforce, get_conditions, emit_conditions_enforced; intros; inv_run; done.
Qed.

Definition enforce_outcome (context : Context) (signers : list Signer) (rule : ContextRule)
    (account : Address) e e' : Prop :=
  ∃ c d conds w live',
    host_require_auth (self e) account (world e) = Some w
    ∧ signers ≠ []
    ∧ persistent e !! AccountContext account (rule_id rule) = Some d
    ∧ context = ContractCtx c
    ∧ conditions d !! fn_name c = Some conds
    ∧ Forall (holds (args c)) conds
    ∧ ttl_extends e (AccountContext account (rule_id rule))
        PARAMETER_SCOPED_TTL_THRESHOLD PARAMETER_SCOPED_EXTEND_AMOUNT live'
    ∧ e' = set_events (events e ++ [ConditionsEnforced account (rule_id rule) (fn_name c)])
             (touched (AccountContext account (rule_id rule)) live' (set_world w e)).

Lemma get_conditions_runs i a e d live' :
  persistent e !! AccountContext a i = Some d →
  ttl_extends e (AccountContext a i)
    PARAMETER_SCOPED_TTL_THRESHOLD PARAMETER_SCOPED_EXTEND_AMOUNT live' →
  get_conditions i a e = Ok (conditions d, touched (AccountContext a i) live' e).
Proof.
  intros Hd Hx. unfold get_conditions.
  by step_get by (apply persistent_get_extend_Some; eauto).
Qed.

Lemma parameter_enforce_runs context signers rule account e e' :
  enforce context signers rule account e = Ok (tt, e') ↔
  enforce_outcome context signers rule account e e'.
Proof.
  unfold enforce_outcome. split.
  - unfold enforce, get_conditions, emit_conditions_enforced. intros. inv_run.
    simpl in *. by eauto 20.
  - intros (c & d & conds & w & live' & Ha & Hs & Hd & -> & Hfn & Hc & Hx & ->).
    unfold enforce. step_do by (apply require_auth_Ok; eauto).
    step_do by (apply throw_if_Ok; split; [by apply is_empty_false|]).
    step_get by (apply get_conditions_runs).
    step_get by (apply unwrap_or_throw_Ok; split; [exact Hfn|]).
    step_do by (by apply check_conditions_Ok). by apply publish_Ok.
Qed.

Abbreviation param_entered :=
  (entered PARAMETER_SCOPED_TTL_THRESHOLD PARAMETER_SCOPED_EXTEND_AMOUNT).

(** Why a call is refused: the rule's entry could not be read, or it was and the
    context is not a contract call, its function is not configured, or a
    condition, the first one in the configured order, does not hold. *)
Inductive enforce_refused (context : Context) (signers : list Signer) (key : StorageKey) e :
    trap ParameterScopedError → Prop :=
  | refused_entry t :
      entry_refused PARAMETER_SCOPED_TTL_THRESHOLD PARAMETER_SCOPED_EXTEND_AMOUNT
        MethodNotAllowed SmartAccountNotInstalled signers key e t →
      enforce_refused context signers key e t
  | refused_context d w live' :
      param_entered signers key e d w live' →
      (∀ c, context ≠ ContractCtx c) →
      enforce_refused context signers key e (ContractError MethodNotAllowed)
  | refused_function c d w live' :
      param_entered signers key e d w live' →
      context = ContractCtx c → conditions d !! fn_name c = None →
      enforce_refused context signers key e (ContractError MethodNotAllowed)
  | refused_argument c d w live' pre cond post :
      param_entered signers key e d w live' →
      context = ContractCtx c → conditions d !! fn_name c = Some (pre ++ cond :: post) →
      Forall (holds (args c)) pre → args c !! Z.to_nat (arg_index cond) = None →
      enforce_refused context signers key e (ContractError ArgumentIndexOutOfBounds)
  | refused_condition c d w live' pre cond post v :
      param_entered signers key e d w live' →
      context = ContractCtx c → conditions d !! fn_name c = Some (pre ++ cond :: post) →
      Forall (holds (args c)) pre → args c !! Z.to_nat (arg_index cond) = Some v →
      ¬ argument_satisfies cond v →
      enforce_refused context signers key e (ContractError ConditionFailed).

Lemma parameter_enforce_fails context signers rule account e t :
  enforce context signers rule account e = Err t ↔
  enforce_refused context signers (rule_key rule account) e t.
Proof.
  pose proof (entry_Err (Event := ConditionsEvent) PARAMETER_SCOPED_TTL_THRESHOLD PARAMETER_SCOPED_EXTEND_AMOUNT
    MethodNotAllowed SmartAccountNotInstalled signers (rule_key rule account) conditions) as Hentry.
  unfold enforce, get_conditions, rule_key in *. simpl in Hentry. rewrite Hentry. split.
  - intros [?|(d & w & live' & He & Hk)]; [by constructor|].
    destruct context as [c| |]; [|injection Hk as <-; by eapply refused_context..].
    unfold emit_conditions_enforced in Hk. inv_trap; [by eapply refused_function|].
    match goal with Hl : conditions d !! _ = Some _, Hf : check_conditions _ _ _ = Err t |- _ =>
      rename Hl into Hfn; apply check_conditions_Err in Hf
        as (pre & cond & post & -> & Hpre & [[Hv ->]|(v & Hv & Hc & ->)]) end;
      [by eapply refused_argument|by eapply refused_condition].
  - intros [t' Ht|d w live' He Hc|c d w live' He -> Hn|c d w live' pre cond post He -> Hfn Hpre Hv
           |c d w live' pre cond post v He -> Hfn Hpre Hv Hc]; [by left|right; exists d, w, live'..];
      (split; [done|]).
    + destruct context as [c| |]; [by destruct (Hc c)|done..].
    + apply bind_Err, unwrap_or_throw_Err. done.
    + step_get by (apply unwrap_or_throw_Ok; split; [exact Hfn|]).
      apply bind_Err, check_conditions_Err. eauto 10.
    + step_get by (apply unwrap_or_throw_Ok; split; [exact Hfn|]).
      apply bind_Err, check_conditions_Err. eauto 15.
Qed.

Lemma parameter_install_runs p rule account e e' :
  install p rule account e = Ok (tt, e') →
  valid_conditions (param_conditions p) ∧ is_call_contract (context_type rule) = true
  ∧ persistent e !! AccountContext account (rule_id rule) = None
  ∧ persistent e' = <[AccountContext account (rule_id rule)
                       := mkData (param_conditions p)]> (persistent e).
Proof.
  unfold install, emit_conditions_installed. rewrite valid_conditions_list.
  intros. inv_run. split_and!; try done.
  apply orb_false_iff. by rewrite is_empty_false, Z.ltb_ge.
Qed.

(** *** The policy as a machine on the conditions *)

Abbreviation pcall := (call ParameterScopedData ConditionsEvent ParameterScopedError).
Definition next (c : pcall) (v : option (gmap Symbol (list Condition))) :
    option (gmap Symbol (list Condition)) :=
  match c with
  | CInstall p _ _ => Some (param_conditions p)
  | CUninstall _ _ => None
  | CEnforce _ _ _ _ | COther _ => v
  end.
Definition guard (c : pcall) (v : option (gmap Symbol (list Condition))) : Prop :=
  match c with
  | CInstall p rule _ =>
      v = None ∧ is_call_contract (context_type rule) = true ∧ valid_conditions (param_conditions p)
  | CEnforce context signers _ _ =>
      signers ≠ [] ∧ ∃ m c conds, v = Some m ∧ context = ContractCtx c
        ∧ m !! fn_name c = Some conds ∧ Forall (holds (args c)) conds
  | CUninstall _ _ | COther _ => is_Some v
  end.

#[export] Instance parameter_machine : PolicyMachine conditions guard next.
Proof.
  split; [intros c e e' k Hc; by apply law_frame in Hc as (_ & _ & Hf); apply Hf|].
  intros [p r a|r a|ctx sg r a|[i a]] e e' Hc; simpl.
  - apply parameter_install_runs in Hc as (? & ? & Hn & ->). simpl in *. unfold rule_key.
    by rewrite Hn, lookup_insert_eq.
  - apply law_effect in Hc as [Hs Hn]. simpl in *. by rewrite Hn, fmap_is_Some.
  - apply parameter_enforce_runs in Hc as (c & d & l & w & live & _ & Hs & Hd & -> & Hin & Hh & _ & ->).
    unfold rule_key. simpl. rewrite Hd. eauto 10.
  - pose proof (parameter_uses_preserve _ _ _ Hc eq_refl) as Hp. simpl in Hp. rewrite Hp.
    apply law_effect in Hc as [Hs _]. simpl in Hs. by rewrite fmap_is_Some.
Qed.

Lemma confined p rule rule' account e0 e1 cs e2 context signers e3 :
  install p rule account e0 = Ok (tt, e1) →
  policy_run e1 cs e2 →
  Forall (λ c, abstract_op c ≠ RUninstall (AccountContext account (rule_id rule))) cs →
  enforce context signers rule' account e2 = Ok (tt, e3) → rule_id rule' = rule_id rule →
  signers ≠ [] ∧ ∃ c conds, context = ContractCtx c ∧ param_conditions p !! fn_name c = Some conds
    ∧ Forall (holds (args c)) conds.
Proof.
  intros (_ & _ & _ & He1)%parameter_install_runs Hrun Hcs Hen Hid.
  assert (persistent e2 !! AccountContext account (rule_id rule)
          = Some (mkData (param_conditions p))) as Hd.
  { eapply run_constant; [apply parameter_uses_preserve|done|done|]. rewrite He1. apply lookup_insert_eq. }
  apply parameter_enforce_runs in Hen as (c & d & conds & w & live' & _ & Hs & Hd' & -> & Hfn & Hc & _).
  rewrite Hid, Hd in Hd'. injection Hd' as <-. eauto 10.
Qed.

(** ** The properties *)

(** C36: enforcement of argument conditions, on every branch. A call passes
    exactly when the account authorised it, some signer authenticated, the
    policy is installed for the rule and its entry's TTL can be extended, and
    it is a contract call to a configured function all of whose conditions hold:
    the argument at the index exists, has the expected value's type and relates
    to it by the operator; the call then only extends the TTL and emits the
    event. It fails with [t] exactly when [enforce_refused] gives [t] as the
    first reason in the code's order. *)
Theorem parameter_enforce_spec context signers rule account e :
  (∀ e', enforce context signers rule account e = Ok (tt, e')
         ↔ enforce_outcome context signers rule account e e')
  ∧ (∀ t, enforce context signers rule account e = Err t
          ↔ enforce_refused context signers (rule_key rule account) e t).
Proof. split; intros; [apply parameter_enforce_runs|apply parameter_enforce_fails]. Qed.

(** C13: pinning. From an installation until the rule's policy is uninstalled,
    whatever calls are made for this or other accounts and rules, everything the
    policy lets through is a call of a function the installation configured,
    approved by some signer, and each condition configured for that function
    holds of it: in particular a parameter pinned with [Eq] to an address is
    that address, and one floored with [Gte] at an [i128] is at least that
    amount. *)
Theorem parameter_pinned p rule account e0 e1 cs e2 context signers e3 :
  install p rule account e0 = Ok (tt, e1) →
  policy_run e1 cs e2 →
  Forall (λ c, abstract_op c ≠ RUninstall (AccountContext account (rule_id rule))) cs →
  enforce context signers rule account e2 = Ok (tt, e3) →
  signers ≠ [] ∧ ∃ c conds, context = ContractCtx c ∧ param_conditions p !! fn_name c = Some conds
    ∧ (∀ i a, mkCondition i Eq (Addr a) ∈ conds →
         ∃ v, args c !! Z.to_nat i = Some v ∧ val_to_address v = Some a)
    ∧ (∀ i n, mkCondition i Gte (I128 n) ∈ conds →
         ∃ v x, args c !! Z.to_nat i = Some v ∧ val_to_i128 v = Some x ∧ n ≤ x)
    ∧ Forall (holds (args c)) conds.
Proof.
  intros Hi Hrun Hcs Hen.
  destruct (confined _ _ _ _ _ _ _ _ _ _ _ Hi Hrun Hcs Hen eq_refl)
    as (Hs & c & conds & -> & Hfn & Hall).
  split; [done|]. exists c, conds.
  pose proof (proj1 (list.Forall_forall _ _) Hall) as Hin. split_and!; [done|done| | |done].
  - intros i a (v & Hv & x & Hx & ->)%Hin. eauto.
  - intros i n (v & Hv & x & Hx & Hle)%Hin. eauto.
Qed.

(** Installation. With the account's authorisation and a [CallContract]
    rule, [install] stores exactly the given conditions when they are valid (one
    to [MAX_FNS] functions, each with one to [MAX_CONDITIONS_PER_FN] conditions,
    symbols and addresses compared by [Eq] or [Neq] only) and nothing is
    installed yet; invalid conditions fail with [InvalidConditions] before the
    storage is looked at. *)
Theorem parameter_install_spec p rule account e w :
  let key := AccountContext account (rule_id rule) in
  host_require_auth (self e) account (world e) = Some w →
  (is_call_contract (context_type rule) = false →
   install p rule account e = Err (ContractError OnlyCallContractAllowed))
  ∧ (is_call_contract (context_type rule) = true → ¬ valid_conditions (param_conditions p) →
     install p rule account e = Err (ContractError InvalidConditions))
  ∧ (is_call_contract (context_type rule) = true → valid_conditions (param_conditions p) →
     install p rule account e =
       match persistent e !! key with
       | Some _ => Err (ContractError AlreadyInstalled)
       | None => Ok (tt, set_events (events e ++ [ConditionsInstalled account (rule_id rule)])
                           (store key (mkData (param_conditions p)) (set_world w e)))
       end).
Proof.
  intros key Ha. unfold install.
  split_and!; intros Hc; step_do by (apply require_auth_Ok; eauto).
  - apply bind_Err. unfold throw_if. by rewrite Hc.
  - rewrite valid_conditions_list. intros Hv. step_do by (apply throw_if_Ok; by rewrite Hc).
    destruct (_ || _) eqn:Hb; [by apply bind_Err|].
    step_do by (by apply throw_if_Ok). apply bind_Err, validate_fns_Err. tauto.
  - rewrite valid_conditions_list. intros [Hb Hf].
    step_do by (apply throw_if_Ok; by rewrite Hc). step_do by (by apply throw_if_Ok).
    step_do by (by apply validate_fns_Ok). exec. fold key.
    by destruct (persistent e !! key).
Qed.
End laws.

(** ** Witnesses: "approve" with its spender pinned to address 30 and its
    amount floored at 100 *)

Definition test_env0 : Env (H := ref_host) StorageKey ParameterScopedData ConditionsEvent :=
  ref_env 9%N 50 0 (ref_world [1%N] ∅).
Definition test_rule : ContextRule (H := ref_host) :=
  mkContextRule (H := ref_host) 3 (CallContract (H := ref_host) 5%N) [].
Definition test_conditions : list (Condition (H := ref_host)) :=
  [mkCondition (H := ref_host) 1 Eq (Addr (H := ref_host) 30%N);
   mkCondition (H := ref_host) 2 Gte (I128 (H := ref_host) 100)].
Definition test_params : ParameterScopedAccountParams (H := ref_host) :=
  Build_ParameterScopedAccountParams (H := ref_host) {[ "approve"%string := test_conditions ]}.
Definition test_call (spender : N) (amount : Z) : ContractContext (H := ref_host) :=
  mkContractContext (H := ref_host) 5%N "approve" [RAddress 1; RAddress spender; RI128 amount].
Definition test_ctx (spender : N) (amount : Z) : Context (H := ref_host) :=
  ContractCtx (H := ref_host) (test_call spender amount).
Definition test_signers : list (Signer (H := ref_host)) := [Delegated (H := ref_host) 2%N].
Definition test_env1 := final (install (H := ref_host) test_params test_rule 1%N test_env0) test_env0.
Definition test_env2 := final (enforce (H := ref_host) (test_ctx 30%N 100) test_signers test_rule 1%N test_env1) test_env1.

Lemma parameter_enforce_spec_witness :
  enforce_outcome (H := ref_host) (test_ctx 30%N 100) test_signers test_rule 1%N test_env1 test_env2
  ∧ enforce (H := ref_host) (test_ctx 30%N 99) test_signers test_rule 1%N test_env1
    = Err (ContractError ConditionFailed).
Proof.
  split.
  - apply (proj1 (parameter_enforce_spec (H := ref_host) (test_ctx 30%N 100) test_signers
      test_rule 1%N test_env1)). by_run.
  - apply (proj2 (parameter_enforce_spec (H := ref_host) (test_ctx 30%N 99) test_signers
      test_rule 1%N test_env1)).
    eapply (refused_condition (H := ref_host)) with
      (pre := [mkCondition (H := ref_host) 1 Eq (Addr (H := ref_host) 30%N)])
      (cond := mkCondition (H := ref_host) 2 Gte (I128 (H := ref_host) 100)) (post := [])
      (d := mkData (H := ref_host) (param_conditions (H := ref_host) test_params))
      (w := world test_env1) (live' := 518450).
    + split_and!; [by_run|discriminate|by_run|]. eexists. split; vm_compute; reflexivity.
    + reflexivity.
    + by_run.
    + repeat constructor. eexists. split; [reflexivity|]. exists 30%N. done.
    + reflexivity.
    + intros (x & [= <-] & Hle). revert Hle. vm_compute. by intros [].
Defined.

Lemma parameter_pinned_witness :
  ∃ v, args (H := ref_host) (test_call 30%N 100) !! 1%nat = Some v ∧ val_to_address v = Some 30%N.
Proof.
  destruct (parameter_pinned (H := ref_host) test_params test_rule 1%N test_env0 test_env1 []
    test_env1 (test_ctx 30%N 100) test_signers test_env2)
    as (_ & c & conds & Hc & Hfn & Hpin & _).
  - by_run.
  - constructor.
  - constructor.
  - by_run.
  - injection Hc as <-. apply (Hpin 1 30%N).
    assert (Some test_conditions = Some conds) as [= <-].
    { rewrite <- Hfn. by_run. }
    constructor.
Defined.

Lemma parameter_install_spec_witness :
  install (H := ref_host) (Build_ParameterScopedAccountParams (H := ref_host) ∅) test_rule 1%N test_env0
    = Err (ContractError InvalidConditions).
Proof.
  refine (proj1 (proj2 (parameter_install_spec (H := ref_host) _ test_rule 1%N test_env0
    (world test_env0) _)) _ _); [by_run|by_run|]. intros [Hne _]. by apply Hne.
Defined.
End ParamScoped.
