(* ===== verification/Oracle.v ===== *)
(** * Price oracle (policies/multi-token-spending-limit-policy/src/oracle.rs)

    The SEP-40 calls of the multi-token policy: the base-10 divisors of the
    oracle and of the tokens, and the price of a token, each failing closed. *)
From S2P Require Import Prelude RustInt Soroban RefHost.
Local Open Scope Z_scope.

(** The policy's [Error] enum (lib.rs), shared by both modules of the crate. *)
Inductive MultiTokenError :=
  | InvalidContextRule | InvalidInstallParams | AlreadyInstalled | NotInstalled
  | TokenNotAllowed | InvalidTransferArgs | StaleOraclePrice | SpendingLimitExceeded
  | HistoryCapacityExceeded | InvalidOracleResponse | InvalidTokenResponse
  | AmountConversionOverflow.

Definition MAX_TOKEN_DECIMALS : Z := 20.
Definition MAX_ORACLE_DECIMALS : Z := 30.
Definition LASTPRICE_FN : Symbol := "lastprice"%string.
Definition DECIMALS_FN : Symbol := "decimals"%string.

Record PriceData := { price : Z; price_timestamp : Z }.

Inductive Asset `{Host} :=
  | Stellar (a : Address)
  | OtherAsset (s : Symbol).

(** The value conversions [#[contracttype]] derives for the wire types. *)
Class PriceCodec `{Host} := {
  asset_into_val : Asset → Val;
  val_to_price : Val → option (option PriceData);
}.
(** Decoded prices are an [i128] and a [u64]. *)
Class PriceLaws `{PriceCodec} : Prop := {
  val_to_price_range v p :
    val_to_price v = Some (Some p) → is_i128 (price p) ∧ is_u64 (price_timestamp p);
}.

Section oracle.
Context `{PriceCodec} `{Countable K} {V Ev : Type}.
Abbreviation OM := (M (Env K V Ev) MultiTokenError).
Implicit Types e : Env K V Ev.

(** [e.invoke_contract::<A>(...)]: the call, then the conversion of its result;
    a failing call and a result of another type both trap. *)
Definition invoke_typed {A} (try_from_val : Val → option A) (callee : Address) (fn : Symbol)
    (call_args : list Val) : OM A :=
  me ← current_contract_address;
  v ← invoke (host_invoke me callee fn call_args);
  unwrap (try_from_val v).

Definition fetch_usd_divisor (oracle_address : Address) : OM Z :=
  decimals ← invoke_typed val_to_u32 oracle_address DECIMALS_FN [];
  throw_if (MAX_ORACLE_DECIMALS <? decimals) InvalidOracleResponse ;;
  unwrap_or_throw (i128_checked_pow 10 decimals) InvalidOracleResponse.

Definition fetch_token_divisor (token : Address) : OM Z :=
  decimals ← invoke_typed val_to_u32 token DECIMALS_FN [];
  throw_if (MAX_TOKEN_DECIMALS <? decimals) InvalidTokenResponse ;;
  unwrap_or_throw (i128_checked_pow 10 decimals) InvalidTokenResponse.

Definition fetch_price (oracle_address token : Address) : OM PriceData :=
  reply ← invoke_typed val_to_price oracle_address LASTPRICE_FN [asset_into_val (Stellar token)];
  price_data ← unwrap_or_throw reply InvalidOracleResponse;
  now ← ledger_timestamp;
  throw_if ((price price_data <=? 0) || (now <? price_timestamp price_data))
    InvalidOracleResponse ;;
  mret price_data.

Lemma invoke_typed_Ok {A} (conv : Val → option A) callee fn call_args e a e' :
  invoke_typed conv callee fn call_args e = Ok (a, e') ↔
  ∃ v w, host_invoke (self e) callee fn call_args (world e) = Some (v, w)
    ∧ conv v = Some a ∧ e' = set_world w e.
Proof.
  unfold invoke_typed. split.
  - intros. inv_run. eauto.
  - intros (v & w & Hi & Hc & ->). step_get by apply current_contract_address_Ok.
    step_get by (apply invoke_Ok; eauto). by apply unwrap_Ok.
Qed.

(** A power of ten within the decimals bounds fits an [i128]. *)
Lemma checked_pow_10 d n :
  0 ≤ d ≤ MAX_ORACLE_DECIMALS → i128_checked_pow 10 d = Some n ↔ n = 10 ^ d.
Proof.
  intros Hd. unfold i128_checked_pow.
  assert (0 < 10 ^ d ≤ 10 ^ MAX_ORACLE_DECIMALS).
  { split; [apply Z.pow_pos_nonneg; lia|apply Z.pow_le_mono_r; lia]. }
  change (10 ^ MAX_ORACLE_DECIMALS) with 1000000000000000000000000000000 in *.
  rewrite in_range_in by ranges. naive_solver.
Qed.

Lemma fetch_usd_divisor_Ok `{!ValLaws} oracle e n e' :
  fetch_usd_divisor oracle e = Ok (n, e') ↔
  ∃ v w d, host_invoke (self e) oracle DECIMALS_FN [] (world e) = Some (v, w)
    ∧ val_to_u32 v = Some d ∧ d ≤ MAX_ORACLE_DECIMALS ∧ n = 10 ^ d ∧ e' = set_world w e.
Proof.
  unfold fetch_usd_divisor. split.
  - intros. inv_run. match goal with Hi : invoke_typed _ _ _ _ _ = _ |- _ =>
      apply invoke_typed_Ok in Hi as (v & w & Hi & Hc & ->) end.
    pose proof (val_to_u32_range _ _ Hc) as [? _].
    match goal with Hp : i128_checked_pow _ _ = _ |- _ => apply checked_pow_10 in Hp; [|done] end.
    by eauto 10.
  - intros (v & w & d & Hi & Hc & Hd & -> & ->). pose proof (val_to_u32_range _ _ Hc) as [? _].
    step_get by (apply invoke_typed_Ok; eauto).
    step_do by (apply throw_if_Ok; split; [by apply Z.ltb_ge|]).
    apply unwrap_or_throw_Ok. by rewrite checked_pow_10.
Qed.

Lemma fetch_token_divisor_Ok `{!ValLaws} token e n e' :
  fetch_token_divisor token e = Ok (n, e') ↔
  ∃ v w d, host_invoke (self e) token DECIMALS_FN [] (world e) = Some (v, w)
    ∧ val_to_u32 v = Some d ∧ d ≤ MAX_TOKEN_DECIMALS ∧ n = 10 ^ d ∧ e' = set_world w e.
Proof.
  unfold fetch_token_divisor. assert (MAX_TOKEN_DECIMALS ≤ MAX_ORACLE_DECIMALS) by by_cmp. split.
  - intros. inv_run. match goal with Hi : invoke_typed _ _ _ _ _ = _ |- _ =>
      apply invoke_typed_Ok in Hi as (v & w & Hi & Hc & ->) end.
    pose proof (val_to_u32_range _ _ Hc) as [? _].
    match goal with Hp : i128_checked_pow _ _ = _ |- _ => apply checked_pow_10 in Hp; [|lia] end.
    by eauto 10.
  - intros (v & w & d & Hi & Hc & Hd & -> & ->). pose proof (val_to_u32_range _ _ Hc) as [? _].
    step_get by (apply invoke_typed_Ok; eauto).
    step_do by (apply throw_if_Ok; split; [by apply Z.ltb_ge|]).
    apply unwrap_or_throw_Ok. by rewrite checked_pow_10 by lia.
Qed.

(** A token call that fails, or answers with something that is not a [u32],
    traps: it is not reported as [InvalidTokenResponse]. *)
Lemma fetch_token_divisor_traps token e :
  host_invoke (self e) token DECIMALS_FN [] (world e) = None →
  fetch_token_divisor token e = Err HostError.
Proof.
  intros Hi. apply bind_Err. unfold invoke_typed. step_get by apply current_contract_address_Ok.
  apply bind_Err. unfold invoke. by rewrite Hi.
Qed.

(** The oracle's answer for a token in a world. *)
Definition oracle_reply e (oracle token : Address) (p : option PriceData) (w : World) : Prop :=
  ∃ v, host_invoke (self e) oracle LASTPRICE_FN [asset_into_val (Stellar token)] (world e)
         = Some (v, w) ∧ val_to_price v = Some p.
(** A price the policy trusts at a timestamp, staleness aside. *)
Definition usable (now : Z) (p : PriceData) : Prop :=
  0 < price p ∧ price_timestamp p ≤ now.

Lemma fetch_price_Ok oracle token e p e' :
  fetch_price oracle token e = Ok (p, e') ↔
  ∃ w, oracle_reply e oracle token (Some p) w ∧ usable (timestamp e) p ∧ e' = set_world w e.
Proof.
  unfold fetch_price, oracle_reply, usable. split.
  - intros. inv_run. match goal with Hi : invoke_typed _ _ _ _ _ = _ |- _ =>
      apply invoke_typed_Ok in Hi as (v & w & Hi & Hc & ->) end. simpl in *. by eauto 10.
  - intros (w & (v & Hi & Hc) & [Hp Ht] & ->).
    step_get by (apply invoke_typed_Ok; eauto).
    step_get by (apply unwrap_or_throw_Ok; split; [reflexivity|]).
    step_get by apply ledger_timestamp_Ok.
    step_do by (apply throw_if_Ok; split; [apply orb_false_iff; split;
      [by apply Z.leb_gt|by apply Z.ltb_ge]|]). done.
Qed.

Lemma invoke_typed_Err {A} (conv : Val → option A) callee fn call_args e t :
  invoke_typed conv callee fn call_args e = Err t ↔
  host_invoke (self e) callee fn call_args (world e) = None ∧ t = HostError
  ∨ ∃ v w, host_invoke (self e) callee fn call_args (world e) = Some (v, w)
      ∧ conv v = None ∧ t = Panic.
Proof.
  unfold invoke_typed. split.
  - intros. inv_trap; eauto 10.
  - intros Hc. step_get by apply current_contract_address_Ok.
    destruct Hc as [[Hi ->]|(v & w & Hi & Hc & ->)]; [by apply bind_Err, invoke_Err|].
    step_get by (apply invoke_Ok; eauto). by apply unwrap_Err.
Qed.

(** Why there is no price: the call traps, it answers with a value of another
    type, or with no price, or with one that cannot be trusted. *)
Inductive price_refused e (oracle token : Address) : trap MultiTokenError → Prop :=
  | price_call_traps :
      host_invoke (self e) oracle LASTPRICE_FN [asset_into_val (Stellar token)] (world e) = None →
      price_refused e oracle token HostError
  | price_mistyped v w :
      host_invoke (self e) oracle LASTPRICE_FN [asset_into_val (Stellar token)] (world e)
        = Some (v, w) →
      val_to_price v = None → price_refused e oracle token Panic
  | price_unusable p w :
      oracle_reply e oracle token p w →
      match p with None => True | Some p => ¬ usable (timestamp e) p end →
      price_refused e oracle token (ContractError InvalidOracleResponse).

Lemma fetch_price_Err oracle token e t :
  fetch_price oracle token e = Err t ↔ price_refused e oracle token t.
Proof.
  unfold fetch_price. split.
  - intros Hf. apply bind_Err_iff in Hf as [Hf|(p & e1 & Hi & Hf)].
    { apply invoke_typed_Err in Hf as [[Hi ->]|(v & w & Hi & Hc & ->)]; by econstructor. }
    apply invoke_typed_Ok in Hi as (v & w & Hi & Hc & ->). inv_trap.
    + eapply price_unusable; [by exists v|done].
    + eapply price_unusable; [by exists v|]. intros [Hp Ht].
      match goal with Hb : _ || _ = true |- _ => apply orb_true_iff in Hb as
        [?%Z.leb_le|?%Z.ltb_lt]; simpl in *; lia end.
  - intros [Hi|v w Hi Hc|p w (v & Hi & Hc) Hp];
      [apply bind_Err, invoke_typed_Err; eauto 10..|step_get by (apply invoke_typed_Ok; eauto)].
    destruct p as [p|]; [|done].
    step_get by (apply unwrap_or_throw_Ok; split; [reflexivity|]).
    step_get by apply ledger_timestamp_Ok. apply bind_Err, throw_if_Err. split; [|done].
    apply not_false_iff_true. rewrite orb_false_iff, Z.leb_gt, Z.ltb_ge. exact Hp.
Qed.
End oracle.
#[export] Hint Rewrite @invoke_typed_Ok @fetch_price_Ok : runs.
#[export] Hint Rewrite @fetch_price_Err : traps.
Arguments invoke_typed : simpl never.
Arguments fetch_price : simpl never.

(** ** The properties *)

Section theorems.
Context `{PriceCodec} `{!ValLaws} `{Countable K} {V Ev : Type}.
Implicit Types e : Env K V Ev.

(** The price fails closed. [fetch_price] returns a price only if the
    oracle answered with one that is strictly positive and not from the future,
    and returns exactly that answer; no price, a non-positive price and a future
    timestamp all fail with [InvalidOracleResponse], and an oracle call that
    traps, or answers with a value of another type, makes the whole call trap. *)
Theorem fetch_price_fails_closed oracle token e :
  (∀ p e', fetch_price oracle token e = Ok (p, e') ↔
     ∃ w, oracle_reply e oracle token (Some p) w ∧ usable (timestamp e) p
          ∧ e' = set_world w e)
  ∧ (∀ t, fetch_price oracle token e = Err t ↔ price_refused e oracle token t).
Proof. split; intros; [apply fetch_price_Ok|apply fetch_price_Err]. Qed.

(** The cached divisors. Each is exactly ten to the reported decimals, at
    least one and within [i128], so the divisions of the conversion never
    divide by zero; decimals above the bounds (30 for the oracle, 20 for a
    token) are refused with the documented error, and the [checked_pow] never
    overflows below them. *)
Theorem divisors_bounded contract v d w e :
  host_invoke (self e) contract DECIMALS_FN [] (world e) = Some (v, w) →
  val_to_u32 v = Some d →
  fetch_usd_divisor contract e =
    (if decide (d ≤ MAX_ORACLE_DECIMALS) then Ok (10 ^ d, set_world w e)
     else Err (ContractError InvalidOracleResponse))
  ∧ fetch_token_divisor contract e =
    (if decide (d ≤ MAX_TOKEN_DECIMALS) then Ok (10 ^ d, set_world w e)
     else Err (ContractError InvalidTokenResponse))
  ∧ (d ≤ MAX_ORACLE_DECIMALS → 1 ≤ 10 ^ d ≤ i128_max).
Proof.
  intros Hi Hc. pose proof (val_to_u32_range _ _ Hc) as [Hd _]. split_and!.
  - case_decide; [apply fetch_usd_divisor_Ok; by eauto 10|]. unfold fetch_usd_divisor.
    step_get by (apply invoke_typed_Ok; eauto). apply bind_Err. unfold throw_if.
    by rewrite (proj2 (Z.ltb_lt _ _)) by lia.
  - case_decide; [apply fetch_token_divisor_Ok; by eauto 10|]. unfold fetch_token_divisor.
    step_get by (apply invoke_typed_Ok; eauto). apply bind_Err. unfold throw_if.
    by rewrite (proj2 (Z.ltb_lt _ _)) by lia.
  - intros Hle. pose proof (proj2 (checked_pow_10 d _ (conj Hd Hle)) eq_refl) as Hp.
    apply in_range_Some in Hp as [_ ?].
    pose proof (Z.pow_pos_nonneg 10 d ltac:(lia) Hd). lia.
Qed.
End theorems.

(** ** The reference host's oracle, and witnesses *)

Definition ref_asset_into_val (a : Asset (H := ref_host)) : RVal :=
  match a with Stellar x => RAddress x | OtherAsset s => RSymbol s end.
Definition ref_val_to_price (v : RVal) : option (option PriceData) :=
  match v with
  | RPrice None => Some None
  | RPrice (Some (p, t)) =>
      p ← in_range i128_min i128_max p;
      t ← in_range 0 u64_max t;
      Some (Some {| price := p; price_timestamp := t |})
  | _ => None
  end.
#[export] Instance ref_codec : PriceCodec (H := ref_host) :=
  Build_PriceCodec ref_host ref_asset_into_val ref_val_to_price.

#[export] Instance ref_price_laws : PriceLaws (H := ref_host).
Proof.
  split. intros [| | | | | | | | [[pr t]|] |] p; simpl; try done. intros Hp.
  apply bind_Some in Hp as (x & [-> ?]%in_range_Some & Hp).
  apply bind_Some in Hp as (y & [-> ?]%in_range_Some & [= <-]). done.
Qed.

(** Oracle 50 with 8 decimals prices token 60 (7 decimals) at $2.00 and token
    61 (24 decimals) at zero. *)
Definition test_world : RWorld :=
  {| r_auth := [1%N]; r_balances := ∅;
     r_decimals := {[ 50%N := 8; 60%N := 7; 61%N := 24 ]};
     r_prices := {[ 60%N := Some (200000000, 990); 61%N := Some (0, 990) ]};
     r_code := ∅; r_roles := []; r_store := tt |}.
Definition test_oracle_env : Env (H := ref_host) unit unit unit := ref_env 9%N 100 1000 test_world.

Lemma fetch_price_fails_closed_witness :
  fetch_price (H := ref_host) 50%N 61%N test_oracle_env = Err (ContractError InvalidOracleResponse).
Proof.
  apply (proj2 (fetch_price_fails_closed (H := ref_host) 50%N 61%N test_oracle_env)).
  eapply price_unusable with (p := Some {| price := 0; price_timestamp := 990 |}) (w := test_world).
  - exists (RPrice (Some (0, 990))). split; by_run.
  - intros [Hp _]. revert Hp. by vm_compute.
Defined.

Lemma divisors_bounded_witness :
  fetch_token_divisor (H := ref_host) 61%N test_oracle_env = Err (ContractError InvalidTokenResponse).
Proof.
  rewrite (proj1 (proj2 (divisors_bounded (H := ref_host) 61%N (RU32 24) 24 test_world
    test_oracle_env ltac:(by_run) ltac:(by_run)))). by_run.
Defined.
