(* ===== verification/MultiToken.v ===== *)
(** * Multi-token spending limit policy
      (policies/multi-token-spending-limit-policy/src/lib.rs)

    A rolling cap in US dollars over the transfers of several tokens, priced by
    an oracle: install, uninstall, enforce with its window eviction, and
    get_policy_data. *)
From S2P Require Import Prelude RustInt Soroban RefHost Policy Oracle.
Local Open Scope Z_scope.

Module MultiToken.

(** ** Constants, data and events *)

Definition DAY_IN_LEDGERS : Z := 17280.
Definition POLICY_EXTEND_AMOUNT : Z := 30 * DAY_IN_LEDGERS.
Definition POLICY_TTL_THRESHOLD : Z := POLICY_EXTEND_AMOUNT - DAY_IN_LEDGERS.
Definition MAX_HISTORY_ENTRIES : Z := 1000.
Definition MAX_STALENESS_LEDGERS : Z := 100.
Definition LEDGER_CLOSE_TIME_SECS : Z := 5.

Record SpendingEntry := mkEntry { amount_usd : Z; entry_ledger : Z }.

Section contract.
Context `{PriceCodec}.

Record MultiTokenSpendingLimitAccountParams := mkParams {
  param_spending_limit_usd : Z;
  param_period_ledgers : Z;
  param_oracle_address : Address;
  param_allowed_tokens : list Address;
}.

Record PolicyData := mkPolicyData {
  spending_limit_usd : Z;
  period_ledgers : Z;
  oracle_address : Address;
  usd_divisor : Z;
  allowed_tokens : list Address;
  token_divisors : list Z;
  spending_history : list SpendingEntry;
  cached_total_spent_usd : Z;
}.

(** The policy publishes no events. *)
Inductive NoEvent := .

Abbreviation MEnv := (Env StorageKey PolicyData NoEvent).
Abbreviation MM := (M MEnv MultiTokenError).

Definition set_spending (history : list SpendingEntry) (total : Z) (d : PolicyData) : PolicyData :=
  mkPolicyData (spending_limit_usd d) (period_ledgers d) (oracle_address d) (usd_divisor d)
    (allowed_tokens d) (token_divisors d) history total.

Definition get_policy_data (context_rule_id : Z) (smart_account : Address) : MM PolicyData :=
  o ← persistent_get_extend (AccountContext smart_account context_rule_id)
        POLICY_TTL_THRESHOLD POLICY_EXTEND_AMOUNT;
  unwrap_or_throw o NotInstalled.

(** The eviction loop: [while let Some(entry) = spending_history.get(0)]. *)
Fixpoint cleanup_loop (cutoff_ledger removed_total : Z) (spending_history : list SpendingEntry) :
    Z * list SpendingEntry :=
  match spending_history with
  | [] => (removed_total, [])
  | entry :: rest =>
      if entry_ledger entry <=? cutoff_ledger then
        cleanup_loop cutoff_ledger (i128_saturating_add removed_total (amount_usd entry)) rest
      else (removed_total, spending_history)
  end.
(** [cleanup_old_entries]: the removed total and the remaining history. *)
Definition cleanup_old_entries (spending_history : list SpendingEntry)
    (current_ledger period_ledgers : Z) : Z * list SpendingEntry :=
  let cutoff_ledger := u32_saturating_sub current_ledger period_ledgers in
  cleanup_loop cutoff_ledger 0 spending_history.

(** [vec.first_index_of(&x)] *)
Definition first_index_of (x : Address) (l : list Address) : option nat :=
  fst <$> list_find (λ y, y = x) l.

(** [for token in allowed_tokens { token_divisors.push_back(...) }] *)
Fixpoint fetch_token_divisors (tokens : list Address) : MM (list Z) :=
  match tokens with
  | [] => mret []
  | token :: rest =>
      d ← fetch_token_divisor token;
      ds ← fetch_token_divisors rest;
      mret (d :: ds)
  end.

(** ** Entry points *)

Definition install (install_params : MultiTokenSpendingLimitAccountParams)
    (context_rule : ContextRule) (smart_account : Address) : MM unit :=
  require_auth smart_account ;;
  throw_if (negb (is_call_contract (context_type context_rule))) InvalidContextRule ;;
  throw_if ((param_spending_limit_usd install_params <=? 0)
            || (param_period_ledgers install_params =? 0)
            || is_empty (param_allowed_tokens install_params)) InvalidInstallParams ;;
  let key := AccountContext smart_account (rule_id context_rule) in
  has ← persistent_has key;
  throw_if has AlreadyInstalled ;;
  divisor ← fetch_usd_divisor (param_oracle_address install_params);
  divisors ← fetch_token_divisors (param_allowed_tokens install_params);
  persistent_set key
    (mkPolicyData (param_spending_limit_usd install_params)
       (param_period_ledgers install_params) (param_oracle_address install_params)
       divisor (param_allowed_tokens install_params) divisors [] 0).

Definition uninstall (context_rule : ContextRule) (smart_account : Address) : MM unit :=
  require_auth smart_account ;;
  let key := AccountContext smart_account (rule_id context_rule) in
  has ← persistent_has key;
  throw_if (negb has) NotInstalled ;;
  persistent_remove key.

(** [amount.checked_mul(price).and_then(checked_div ...).and_then(checked_div ...)] *)
Definition to_usd (amount price usd_divisor token_divisor : Z) : option Z :=
  v ← i128_checked_mul amount price;
  v ← i128_checked_div v usd_divisor;
  i128_checked_div v token_divisor.

Definition enforce (context : Context) (_authenticated_signers : list Signer)
    (context_rule : ContextRule) (smart_account : Address) : MM unit :=
  require_auth smart_account ;;
  match context with
  | ContractCtx c =>
      throw_if (negb (bool_decide (fn_name c = "transfer"%string))) InvalidTransferArgs ;;
      amount_val ← unwrap_or_throw (args c !! 2%nat) InvalidTransferArgs;
      amount ← unwrap_or_throw (val_to_i128 amount_val) InvalidTransferArgs;
      throw_if (amount <? 0) InvalidTransferArgs ;;
      data ← get_policy_data (rule_id context_rule) smart_account;
      token_idx ← unwrap_or_throw (first_index_of (ctx_contract c) (allowed_tokens data))
                    TokenNotAllowed;
      token_divisor ← unwrap_or_throw (token_divisors data !! token_idx) TokenNotAllowed;
      price_data ← fetch_price (oracle_address data) (ctx_contract c);
      current_timestamp ← ledger_timestamp;
      current_ledger ← ledger_sequence;
      max_staleness_secs ← unwrap (u64_mul MAX_STALENESS_LEDGERS LEDGER_CLOSE_TIME_SECS);
      throw_if (max_staleness_secs
                <? u64_saturating_sub current_timestamp (price_timestamp price_data))
        StaleOraclePrice ;;
      amount_usd ← unwrap_or_throw
        (to_usd amount (price price_data) (usd_divisor data) token_divisor)
        AmountConversionOverflow;
      let '(removed_amount, history) :=
        cleanup_old_entries (spending_history data) current_ledger (period_ledgers data) in
      let cached := i128_saturating_sub (cached_total_spent_usd data) removed_amount in
      throw_if (spending_limit_usd data <? i128_saturating_add cached amount_usd)
        SpendingLimitExceeded ;;
      throw_if (MAX_HISTORY_ENTRIES <=? zlen history) HistoryCapacityExceeded ;;
      let data' := set_spending (history ++ [mkEntry amount_usd current_ledger])
                     (i128_saturating_add cached amount_usd) data in
      persistent_set (AccountContext smart_account (rule_id context_rule)) data'
  | _ => throw InvalidTransferArgs
  end.

#[export] Instance MultiTokenPolicy : Policy PolicyData NoEvent MultiTokenError := {|
  Policy.AccountParams := MultiTokenSpendingLimitAccountParams;
  Policy.install := install;
  Policy.uninstall := uninstall;
  Policy.enforce := enforce;
  Policy.Other := Z * Address;
  Policy.other_key := λ q, AccountContext q.2 q.1;
  Policy.run_other := λ q, get_policy_data q.1 q.2 ;; mret tt;
|}.
End contract.

(** ** Eviction *)

Definition total (h : list SpendingEntry) : Z := sumZ (amount_usd <$> h).

Lemma total_app h1 h2 : total (h1 ++ h2) = total h1 + total h2.
Proof. unfold total. by rewrite fmap_app, sumZ_app. Qed.

Lemma total_cons x h : total (x :: h) = amount_usd x + total h.
Proof. done. Qed.

(** Ledgers never decrease along a history. *)
Definition ordered (h : list SpendingEntry) : Prop :=
  StronglySorted (λ x y, entry_ledger x ≤ entry_ledger y) h.

Definition amounts_nonneg (h : list SpendingEntry) : Prop := Forall (λ x, 0 ≤ amount_usd x) h.

Lemma total_nonneg h : amounts_nonneg h → 0 ≤ total h.
Proof. intros Hh. apply sumZ_nonneg. by apply Forall_fmap. Qed.

(** The loop splits the history at the first entry inside the window. *)
Lemma cleanup_loop_spec cutoff removed h r h' :
  amounts_nonneg h → 0 ≤ removed → removed + total h ≤ i128_max →
  cleanup_loop cutoff removed h = (r, h') →
  ∃ old, h = old ++ h' ∧ r = removed + total old
    ∧ Forall (λ x, entry_ledger x ≤ cutoff) old
    ∧ match h' with [] => True | x :: _ => cutoff < entry_ledger x end.
Proof.
  revert removed. induction h as [|x h IH]; simpl; intros removed Hnn Hr Hmax.
  { intros [= <- <-]. exists []. unfold total. simpl. split_and!; [done|lia|constructor|done]. }
  apply Forall_cons in Hnn as [Hx Hnn]. pose proof (total_nonneg h Hnn).
  rewrite total_cons in Hmax.
  destruct (Z.leb_spec (entry_ledger x) cutoff) as [Hle|Hgt].
  - assert (i128_saturating_add removed (amount_usd x) = removed + amount_usd x) as ->.
    { apply clamp_in. ranges. }
    intros Hl. apply IH in Hl as (old & -> & -> & Hold & Hh); [|done|lia|lia].
    exists (x :: old). rewrite total_cons.
    split_and!; [done|lia|by constructor|done].
  - intros [= <- <-]. exists []. unfold total. simpl. split_and!; [done|lia|constructor|done].
Qed.

Lemma ordered_app h1 h2 : ordered (h1 ++ h2) → ordered h1 ∧ ordered h2.
Proof.
  unfold ordered. induction h1 as [|x h1 IH]; simpl; [split; [constructor|done]|].
  intros [Hs Hf]%StronglySorted_inv. apply Forall_app in Hf as [? ?]. apply IH in Hs as [? ?].
  split; [by constructor|done].
Qed.

Lemma ordered_snoc h x :
  ordered h → Forall (λ y, entry_ledger y ≤ entry_ledger x) h → ordered (h ++ [x]).
Proof.
  unfold ordered. induction h as [|y h IH]; simpl; intros Hs Hf; [by repeat constructor|].
  apply StronglySorted_inv in Hs as [Hs Hy]. apply Forall_cons in Hf as [? Hf].
  constructor; [by apply IH|]. apply Forall_app_2; [done|]. by repeat constructor.
Qed.

(** An ordered history whose head is inside the window is inside it entirely. *)
Lemma ordered_window cutoff h :
  ordered h → match h with [] => True | x :: _ => cutoff < entry_ledger x end →
  Forall (λ x, cutoff < entry_ledger x) h.
Proof.
  destruct h as [|x h]; [constructor|]. intros [_ Hf]%StronglySorted_inv Hx.
  constructor; [done|]. eapply Forall_impl; [exact Hf|]. simpl. lia.
Qed.

(** The rolling window of [period] ledgers ending at ledger [now]. *)
Definition cutoff (now period : Z) : Z := Z.max 0 (now - period).
Definition inside (now period : Z) (x : SpendingEntry) : Prop :=
  cutoff now period < entry_ledger x ≤ now.
#[export] Instance inside_dec now period x : Decision (inside now period x).
Proof. unfold inside. apply _. Defined.
Definition window (now period : Z) (h : list SpendingEntry) : list SpendingEntry :=
  filter (inside now period) h.

Lemma cutoff_saturating now period :
  is_u32 now → is_u32 period → u32_saturating_sub now period = cutoff now period.
Proof. unfold u32_saturating_sub, cutoff. ranges. Qed.

Lemma window_app now period h1 h2 :
  window now period (h1 ++ h2) = window now period h1 ++ window now period h2.
Proof. apply filter_app. Qed.

Lemma window_all now period h :
  Forall (λ x, cutoff now period < entry_ledger x) h → Forall (λ x, entry_ledger x ≤ now) h →
  window now period h = h.
Proof.
  intros Hc Hn. unfold window. induction Hc as [|x h Hx _ IH]; [done|].
  apply Forall_cons in Hn as [? ?]. rewrite filter_cons_True, IH; done.
Qed.

Lemma window_none now period h :
  Forall (λ x, entry_ledger x ≤ cutoff now period ∨ now < entry_ledger x) h →
  window now period h = [].
Proof.
  unfold window, inside. induction 1 as [|x h Hx _ IH]; [done|].
  simpl in Hx. rewrite filter_cons_False; [done|]. lia.
Qed.

Lemma amounts_nonneg_app h1 h2 :
  amounts_nonneg (h1 ++ h2) ↔ amounts_nonneg h1 ∧ amounts_nonneg h2.
Proof. apply Forall_app. Qed.

(** Moving the end of the window forward past every entry only drops some. *)
Lemma window_shrinks now now' period h :
  amounts_nonneg h → Forall (λ x, entry_ledger x ≤ now) h → now ≤ now' →
  total (window now' period h) ≤ total (window now period h).
Proof.
  intros Hnn Hle Hn. unfold window.
  induction Hnn as [|x h Hx _ IH]; [done|]. apply Forall_cons in Hle as [Hxn Hle].
  specialize (IH Hle). simpl in Hx, Hxn.
  rewrite !filter_cons. repeat case_decide; rewrite ?total_cons; try lia.
  unfold inside, cutoff in *. lia.
Qed.

Lemma window_total now period h : amounts_nonneg h → total (window now period h) ≤ total h.
Proof.
  unfold window. induction 1 as [|x h Hx Hh IH]; [done|]. rewrite filter_cons, total_cons.
  case_decide; rewrite ?total_cons; simpl in *; lia.
Qed.

Lemma cleanup_is_window h now period :
  is_u32 now → is_u32 period → ordered h → amounts_nonneg h → total h ≤ i128_max →
  Forall (λ x, entry_ledger x ≤ now) h →
  cleanup_old_entries h now period
  = (total h - total (window now period h), window now period h).
Proof.
  intros Hn Hp Ho Hnn Hmax Hle. unfold cleanup_old_entries.
  rewrite cutoff_saturating by done.
  destruct (cleanup_loop _ _ _) as [r h'] eqn:Hl.
  apply cleanup_loop_spec in Hl as (old & -> & -> & Hold & Hh); [|done|lia|lia].
  apply ordered_app in Ho as [_ Ho]. apply Forall_app in Hle as [_ Hle].
  rewrite window_app, total_app, (window_all now period h') by (by apply ordered_window || done).
  rewrite (window_none now period old) by (eapply Forall_impl; [done|simpl; by left]).
  f_equal. simpl. lia.
Qed.

(** C29: eviction. On the histories the policy keeps (ledgers never decrease,
    amounts are not negative, the sum fits an [i128]) the front-eviction loop is
    the filter on the rolling window: what remains is exactly the entries
    inside it, and the returned total is exactly what the others spent, so
    subtracting it keeps a cached sum exact. *)
Theorem cleanup_window h now period :
  is_u32 now → is_u32 period → ordered h → amounts_nonneg h → total h ≤ i128_max →
  Forall (λ x, entry_ledger x ≤ now) h →
  cleanup_old_entries h now period
  = (total h - total (window now period h), window now period h).
Proof. apply cleanup_is_window. Qed.

(** ** The interface laws *)

Section laws.
Context `{PriceCodec} `{!ValLaws}.
Abbreviation MEnv := (Env StorageKey PolicyData NoEvent).
Implicit Types e : MEnv.

(** What the install-time queries of the tokens return, and that they leave the
    policy's own state alone. *)
Definition divisor_of (me token : Address) (divisor : Z) : Prop :=
  ∃ w v w' d, host_invoke me token DECIMALS_FN [] w = Some (v, w') ∧ val_to_u32 v = Some d
    ∧ 0 ≤ d ≤ MAX_TOKEN_DECIMALS ∧ divisor = 10 ^ d.

Lemma fetch_token_divisors_Ok tokens e ds e' :
  fetch_token_divisors tokens e = Ok (ds, e') →
  Forall2 (divisor_of (self e)) tokens ds ∧ ∃ w, e' = set_world w e.
Proof.
  revert e ds. induction tokens as [|t tokens IH]; simpl; intros e ds Hf.
  - inv_run. split; [constructor|]. exists (world e). by destruct e.
  - inv_run. match goal with Ht : fetch_token_divisor _ _ = _ |- _ =>
      apply fetch_token_divisor_Ok in Ht as (v & w & d & Hi & Hc & Hd & -> & ->) end.
    match goal with Hr : fetch_token_divisors _ _ = _ |- _ =>
      apply IH in Hr as (Hall & w' & ->) end.
    pose proof (val_to_u32_range _ _ Hc) as [? _].
    split; [|by exists w']. constructor; [|exact Hall]. exists (world e), v, w, d. done.
Qed.

Lemma fetch_usd_divisor_frame oracle e n e' :
  fetch_usd_divisor oracle e = Ok (n, e') →
  (∃ d, 0 ≤ d ≤ MAX_ORACLE_DECIMALS ∧ n = 10 ^ d) ∧ ∃ w, e' = set_world w e.
Proof.
  intros (v & w & d & _ & Hc & Hd & -> & ->)%fetch_usd_divisor_Ok.
  pose proof (val_to_u32_range _ _ Hc) as [? _]. by eauto 10.
Qed.

#[local] Ltac inv_fetch :=
  repeat match goal with
  | Hf : fetch_usd_divisor _ _ = Ok _ |- _ =>
      apply fetch_usd_divisor_frame in Hf as ((? & ? & ->) & ? & ->)
  | Hf : fetch_token_divisors _ _ = Ok _ |- _ =>
      apply fetch_token_divisors_Ok in Hf as (? & ? & ->)
  end.

#[export] Instance multi_token_laws : PolicyLaws PolicyData NoEvent MultiTokenError.
Proof.
  split; intros [p r a|r a|ctx sg r a|[i a]] e e'; simpl;
    unfold install, uninstall, enforce, get_policy_data, rule_key; intros;
    inv_run; inv_fetch; policy_law.
Qed.

(** *** What enforcement checks and leaves behind *)

(** The call is a transfer of [amount], and the oracle prices it at [usd]
    dollars; [e] is the state in which the oracle is asked, [w] the world it
    leaves. *)
Definition priced e (d : PolicyData) (c : ContractContext) (usd : Z) (w : World) : Prop :=
  ∃ v amount i td p,
    fn_name c = "transfer"%string
    ∧ args c !! 2%nat = Some v ∧ val_to_i128 v = Some amount ∧ 0 ≤ amount
    ∧ first_index_of (ctx_contract c) (allowed_tokens d) = Some i
    ∧ token_divisors d !! i = Some td
    ∧ oracle_reply e (oracle_address d) (ctx_contract c) (Some p) w
    ∧ usable (timestamp e) p
    ∧ u64_saturating_sub (timestamp e) (price_timestamp p)
      ≤ MAX_STALENESS_LEDGERS * LEDGER_CLOSE_TIME_SECS
    ∧ to_usd amount (price p) (usd_divisor d) td = Some usd.

(** The data after a transfer of [usd] dollars at ledger [now]. *)
Definition spend (now usd : Z) (d : PolicyData) : option PolicyData :=
  let '(removed, history) := cleanup_old_entries (spending_history d) now (period_ledgers d) in
  let spent := i128_saturating_add (i128_saturating_sub (cached_total_spent_usd d) removed) usd in
  if (spent <=? spending_limit_usd d) && (zlen history <? MAX_HISTORY_ENTRIES) then
    Some (set_spending (history ++ [mkEntry usd now]) spent d)
  else None.

(** The state in which the oracle is asked: authorised, and the entry's TTL
    extended by the read. *)
Definition asked e (key : StorageKey) (w : World) (live' : Z) : MEnv :=
  touched key live' (set_world w e).
Definition loaded e (key : StorageKey) (w : World) (d : PolicyData) (live' : Z) : Prop :=
  host_require_auth (self e) (key_account key) (world e) = Some w
  ∧ persistent e !! key = Some d
  ∧ ttl_extends e key POLICY_TTL_THRESHOLD POLICY_EXTEND_AMOUNT live'.

(** A transfer of [usd] dollars goes through. *)
Definition enforce_outcome (context : Context) (key : StorageKey) (usd : Z) e e' : Prop :=
  ∃ c d d' w live' w',
    context = ContractCtx c
    ∧ loaded e key w d live'
    ∧ priced (asked e key w live') d c usd w'
    ∧ spend (sequence e) usd d = Some d'
    ∧ e' = store key d' (set_world w' (asked e key w live')).

Lemma get_policy_data_runs i a e d live' :
  persistent e !! AccountContext a i = Some d →
  ttl_extends e (AccountContext a i) POLICY_TTL_THRESHOLD POLICY_EXTEND_AMOUNT live' →
  get_policy_data i a e = Ok (d, touched (AccountContext a i) live' e).
Proof.
  intros Hd Hx. unfold get_policy_data.
  by step_get by (apply persistent_get_extend_Some; eauto).
Qed.

Lemma staleness_secs : u64_mul MAX_STALENESS_LEDGERS LEDGER_CLOSE_TIME_SECS = Some 500.
Proof. by vm_compute. Qed.

(** The end of [enforce], once the transfer is priced. *)
Definition settle (key : StorageKey) (now usd : Z) (d : PolicyData) : M MEnv MultiTokenError unit :=
  let '(removed_amount, history) :=
    cleanup_old_entries (spending_history d) now (period_ledgers d) in
  let cached := i128_saturating_sub (cached_total_spent_usd d) removed_amount in
  throw_if (spending_limit_usd d <? i128_saturating_add cached usd) SpendingLimitExceeded ;;
  throw_if (MAX_HISTORY_ENTRIES <=? zlen history) HistoryCapacityExceeded ;;
  persistent_set key (set_spending (history ++ [mkEntry usd now])
    (i128_saturating_add cached usd) d).

Lemma settle_Ok key now usd d e e' :
  settle key now usd d e = Ok (tt, e') ↔
  ∃ d', spend now usd d = Some d' ∧ e' = store key d' e.
Proof.
  unfold settle, spend. destruct (cleanup_old_entries _ _ _) as [removed h]. split.
  - intros. inv_run. rewrite (proj2 (Z.leb_le _ _)), (proj2 (Z.ltb_lt _ _)) by done. eauto.
  - intros (d' & Hd' & ->). destruct (_ && _) eqn:Hb; [|done].
    apply andb_prop in Hb as [?%Z.leb_le ?%Z.ltb_lt]. injection Hd' as <-.
    step_do by (apply throw_if_Ok; split; [by apply Z.ltb_ge|]).
    step_do by (apply throw_if_Ok; split; [by apply Z.leb_gt|]).
    by apply persistent_set_Ok.
Qed.

(** Spending [usd] more at ledger [now] is refused, the limit being tested first. *)
Inductive overspent (now usd : Z) (d : PolicyData) : MultiTokenError → Prop :=
  | over_limit removed h :
      cleanup_old_entries (spending_history d) now (period_ledgers d) = (removed, h) →
      spending_limit_usd d
        < i128_saturating_add (i128_saturating_sub (cached_total_spent_usd d) removed) usd →
      overspent now usd d SpendingLimitExceeded
  | over_capacity removed h :
      cleanup_old_entries (spending_history d) now (period_ledgers d) = (removed, h) →
      i128_saturating_add (i128_saturating_sub (cached_total_spent_usd d) removed) usd
        ≤ spending_limit_usd d →
      MAX_HISTORY_ENTRIES ≤ zlen h →
      overspent now usd d HistoryCapacityExceeded.

Lemma settle_Err key now usd d e t :
  settle key now usd d e = Err t ↔ ∃ err, overspent now usd d err ∧ t = ContractError err.
Proof.
  unfold settle. destruct (cleanup_old_entries _ _ _) as [removed h] eqn:Hc. split.
  - intros. inv_trap; eexists; (split; [|done]); [by eapply over_limit|by eapply over_capacity].
  - intros (err & [removed' h' Hc' Hlim|removed' h' Hc' Hlim Hcap] & ->);
      rewrite Hc in Hc'; injection Hc' as <- <-.
    + apply bind_Err, throw_if_Err. split; [by apply Z.ltb_lt|done].
    + step_do by (apply throw_if_Ok; split; [by apply Z.ltb_ge|]).
      apply bind_Err, throw_if_Err. split; [by apply Z.leb_le|done].
Qed.

(** Once the transfer is priced, enforcement is its settlement. *)
Lemma enforce_settles c signers rule account e d w live' usd w' :
  let key := rule_key rule account in
  loaded e key w d live' → priced (asked e key w live') d c usd w' →
  enforce (ContractCtx c) signers rule account e
  = settle key (sequence e) usd d (set_world w' (asked e key w live')).
Proof.
  intros key (Ha & Hd & Hx) (v & amount & i & td & p & Hfn & Harg & Hv & Hnn & Hi & Htd & Hor & Hu & Hst & Husd).
  unfold enforce. step_do by (apply require_auth_Ok; eauto).
  step_do by (apply throw_if_Ok; split; [by rewrite bool_decide_true|]).
  step_get by (apply unwrap_or_throw_Ok; split; [exact Harg|]).
  step_get by (apply unwrap_or_throw_Ok; split; [exact Hv|]).
  step_do by (apply throw_if_Ok; split; [by apply Z.ltb_ge|]).
  step_get by (apply get_policy_data_runs).
  step_get by (apply unwrap_or_throw_Ok; split; [exact Hi|]).
  step_get by (apply unwrap_or_throw_Ok; split; [exact Htd|]).
  step_get by (apply fetch_price_Ok; eauto).
  step_get by apply ledger_timestamp_Ok. step_get by apply ledger_sequence_Ok.
  step_get by (apply unwrap_Ok; split; [exact staleness_secs|]).
  step_do by (apply throw_if_Ok; split; [by apply Z.ltb_ge|]).
  by step_get by (apply unwrap_or_throw_Ok; split; [exact Husd|]).
Qed.

Lemma multi_token_enforce_runs context signers rule account e e' :
  enforce context signers rule account e = Ok (tt, e') ↔
  ∃ usd, enforce_outcome context (rule_key rule account) usd e e'.
Proof.
  split.
  - unfold enforce, get_policy_data. intros. rewrite staleness_secs in *.
    inv_run.
    simplify_eq. match goal with
    | Hc : cleanup_old_entries _ _ _ = _, Hlim : _ ≤ spending_limit_usd _, Hlen : zlen _ < _ |- _ =>
        pose proof (proj2 (Z.leb_le _ _) Hlim) as Hb1; pose proof (proj2 (Z.ltb_lt _ _) Hlen) as Hb2
    end.
    eexists _, _, _, _, _, _, _. split_and!; [done|by split_and!| | |done].
    + eexists _, _, _, _, _. by split_and!.
    + unfold spend. simpl in *. match goal with Hc : cleanup_old_entries _ _ _ = _ |- _ => rewrite Hc end.
      by rewrite Hb1, Hb2.
  - intros (usd & c & d & d' & w & live' & w' & -> & Hl & Hp & Hd' & ->).
    erewrite enforce_settles by done. apply settle_Ok. eauto.
Qed.

(** *** The dollar value *)

(** Pricing. For a non-negative amount, a positive price and the positive
    divisors of an installation, the three chained checked operations return
    the exact value in whole dollars, truncated; they refuse exactly when the
    product of amount and price does not fit an [i128], and the truncation loses
    less than one dollar per transfer. *)
Theorem to_usd_exact amount price ud td :
  0 ≤ amount → 0 < price → 0 < ud → 0 < td →
  to_usd amount price ud td
  = (if decide (amount * price ≤ i128_max) then Some (amount * price / (ud * td)) else None)
  ∧ (∀ usd, to_usd amount price ud td = Some usd →
       is_i128 usd ∧ 0 ≤ usd ∧ usd * (ud * td) ≤ amount * price < (usd + 1) * (ud * td)).
Proof.
  intros Ha Hp Hu Ht. assert (0 ≤ amount * price) by nia. assert (0 < ud * td) by nia.
  assert (to_usd amount price ud td
    = if decide (amount * price ≤ i128_max) then Some (amount * price / (ud * td)) else None) as ->.
  { unfold to_usd, i128_checked_mul. case_decide as Hm.
    - rewrite in_range_in by ranges. unfold i128_checked_div. simpl.
      rewrite (proj2 (Z.eqb_neq ud 0)), (proj2 (Z.eqb_neq td 0)) by lia.
      assert (0 ≤ amount * price / ud ≤ amount * price).
      { split; [by apply Z.div_pos|]. apply Z.div_le_upper_bound; nia. }
      rewrite Z.quot_div_nonneg by lia. rewrite in_range_in by ranges. simpl.
      rewrite Z.quot_div_nonneg by lia. rewrite Z.div_div by lia. apply in_range_in.
      assert (0 ≤ amount * price / (ud * td)) by (apply Z.div_pos; lia).
      assert (amount * price / (ud * td) ≤ amount * price) by (apply Z.div_le_upper_bound; nia).
      ranges.
    - by rewrite (proj2 (in_range_None _ _ _)) by lia. }
  split; [done|]. intros usd. case_decide as Hm; [|done]. intros [= <-].
  pose proof (Z.div_mod (amount * price) (ud * td)).
  pose proof (Z.mod_pos_bound (amount * price) (ud * td)).
  assert (0 ≤ amount * price / (ud * td)) by (apply Z.div_pos; lia).
  split_and!; [|lia|nia|nia]. assert (amount * price / (ud * td) ≤ amount * price)
    by (apply Z.div_le_upper_bound; nia). ranges.
Qed.

Lemma to_usd_nonneg amount price ud td usd :
  0 ≤ amount → 0 < price → 0 < ud → 0 < td → to_usd amount price ud td = Some usd →
  0 ≤ usd ≤ i128_max.
Proof.
  unfold to_usd, i128_checked_mul, i128_checked_div. intros Ha Hp Hu Ht.
  rewrite (proj2 (Z.eqb_neq ud 0)), (proj2 (Z.eqb_neq td 0)) by lia.
  intros (v & [-> _]%in_range_Some & Hs)%bind_Some. apply bind_Some in Hs as (v & [-> _]%in_range_Some & Hs).
  apply in_range_Some in Hs as [-> [_ ?]]. split; [|done].
  apply Z.quot_pos; [|done]. apply Z.quot_pos; nia.
Qed.

(** *** The invariant of the stored data *)

(** What never changes between an installation and its removal: the data has
    the parameters [p], and divisors that can be divided by. *)
Definition configured (p : MultiTokenSpendingLimitAccountParams) (d : PolicyData) : Prop :=
  spending_limit_usd d = param_spending_limit_usd p
  ∧ period_ledgers d = param_period_ledgers p
  ∧ oracle_address d = param_oracle_address p
  ∧ allowed_tokens d = param_allowed_tokens p
  ∧ 0 < usd_divisor d ∧ Forall (λ td, 0 < td) (token_divisors d).

(** The history at ledger [now]: in order, not in the future, bounded, and
    summed exactly by the cached total, which respects the limit. *)
Definition consistent (now : Z) (d : PolicyData) : Prop :=
  ordered (spending_history d) ∧ amounts_nonneg (spending_history d)
  ∧ Forall (λ x, entry_ledger x ≤ now) (spending_history d)
  ∧ zlen (spending_history d) ≤ MAX_HISTORY_ENTRIES
  ∧ cached_total_spent_usd d = total (spending_history d)
  ∧ cached_total_spent_usd d ≤ spending_limit_usd d.

Lemma ledgers_later now now' h :
  now ≤ now' → Forall (λ x, entry_ledger x ≤ now) h → Forall (λ x, entry_ledger x ≤ now') h.
Proof. intros Hn Hf. eapply Forall_impl; [exact Hf|]. simpl. lia. Qed.

Lemma consistent_later now now' d : now ≤ now' → consistent now d → consistent now' d.
Proof.
  intros Hn (Ho & Hnn & Hle & ?). unfold consistent. split_and!; try tauto.
  by apply (ledgers_later now).
Qed.

Lemma window_Forall (P : SpendingEntry → Prop) now period h :
  Forall P h → Forall P (window now period h).
Proof. intros Hh. apply Forall_forall. intros x [_ Hx]%list_elem_of_filter. by eapply Forall_forall. Qed.

Lemma window_ordered now period h : ordered h → ordered (window now period h).
Proof.
  unfold ordered, window. induction 1 as [|x h Hh IH Hx]; [constructor|].
  rewrite filter_cons. case_decide; [|done]. constructor; [done|]. by apply window_Forall.
Qed.

(** On consistent data a transfer is settled against exactly what the window
    holds, and leaves consistent data. *)
Lemma spend_consistent now usd d d' :
  is_u32 now → is_u32 (period_ledgers d) → spending_limit_usd d < i128_max →
  consistent now d → 0 ≤ usd ≤ i128_max → spend now usd d = Some d' →
  let h := window now (period_ledgers d) (spending_history d) in
  total h + usd ≤ spending_limit_usd d
  ∧ d' = set_spending (h ++ [mkEntry usd now]) (total h + usd) d
  ∧ consistent now d'.
Proof.
  intros Hnow Hper Hlim (Ho & Hnn & Hle & Hlen & Hc & Hcl) Husd Hs h.
  pose proof (total_nonneg _ Hnn). pose proof (window_Forall _ now (period_ledgers d) _ Hnn) as Hnn'.
  fold h in Hnn'. pose proof (total_nonneg _ Hnn').
  pose proof (window_total now (period_ledgers d) _ Hnn) as Hsub. fold h in Hsub.
  unfold spend in Hs. rewrite cleanup_is_window in Hs by (done || lia). fold h in Hs.
  unfold i128_saturating_sub in Hs. rewrite (clamp_in _ _ (_ - (_ - _))) in Hs by ranges.
  replace (cached_total_spent_usd d - (total (spending_history d) - total h)) with (total h) in Hs by lia.
  destruct (_ && _) eqn:Hb; [|done]. apply andb_prop in Hb as [Hb1%Z.leb_le Hb2%Z.ltb_lt].
  injection Hs as <-. unfold i128_saturating_add in *.
  assert (total h + usd ≤ spending_limit_usd d) by (revert Hb1; ranges).
  rewrite clamp_in by ranges.
  split_and!; [done|done|]. unfold consistent. simpl. split_and!.
  - apply ordered_snoc; [by apply window_ordered|]. by apply window_Forall.
  - apply amounts_nonneg_app. split; [done|]. repeat constructor. simpl. lia.
  - apply Forall_app_2; [by apply window_Forall|]. by repeat constructor.
  - revert Hb2. unfold zlen. rewrite length_app. simpl. lia.
  - rewrite total_app. unfold total at 3. simpl. lia.
  - done.
Qed.

Lemma priced_bounds p e d c usd w :
  configured p d → priced e d c usd w → 0 ≤ usd ≤ i128_max.
Proof.
  intros (_ & _ & _ & _ & Hud & Htds)
    (v & amount & i & td & q & _ & _ & _ & Ha & _ & Htd & _ & [Hq _] & _ & Husd).
  eapply to_usd_nonneg; [exact Ha|exact Hq|exact Hud| |exact Husd].
  by eapply Forall_lookup_1 in Htds.
Qed.

Lemma configured_spending p h t d : configured p (set_spending h t d) ↔ configured p d.
Proof. done. Qed.

Lemma divisor_of_pos me token td : divisor_of me token td → 0 < td.
Proof. intros (w & v & w' & d & _ & _ & [? _] & ->). by apply Z.pow_pos_nonneg. Qed.

Lemma install_stores p rule account e e' :
  install p rule account e = Ok (tt, e') →
  persistent e !! rule_key rule account = None
  ∧ sequence e' = sequence e
  ∧ ∃ d, persistent e' !! rule_key rule account = Some d
      ∧ configured p d ∧ spending_history d = [] ∧ cached_total_spent_usd d = 0
      ∧ Forall2 (divisor_of (self e)) (allowed_tokens d) (token_divisors d)
      ∧ (∃ n, 0 ≤ n ≤ MAX_ORACLE_DECIMALS ∧ usd_divisor d = 10 ^ n)
      ∧ 0 < spending_limit_usd d ∧ period_ledgers d ≠ 0 ∧ allowed_tokens d ≠ [].
Proof.
  unfold install. intros. inv_run.
  match goal with Hf : fetch_usd_divisor _ _ = _ |- _ =>
    apply fetch_usd_divisor_frame in Hf as ((n & Hn & ->) & w1 & ->) end.
  match goal with Hf : fetch_token_divisors _ _ = _ |- _ =>
    apply fetch_token_divisors_Ok in Hf as (Hds & w2 & ->) end.
  simpl in *. split_and!; [done|done|]. eexists. split; [apply lookup_insert_eq|].
  unfold configured. simpl. split_and!; try done; try lia; try (by eauto).
  clear -Hds. induction Hds; constructor; [by eapply divisor_of_pos|done].
Qed.

(** *** Runs with a log of what was spent *)

(** [spend_run key e0 log e]: from [e0] to [e], calls for any accounts and
    rules succeeded in any order and time passed, [key] was not uninstalled,
    and [log] lists the dollar values and ledgers of the transfers that went
    through for [key]. *)
Inductive spend_run (key : StorageKey) (e0 : MEnv) : list SpendingEntry → MEnv → Prop :=
  | spend_start : spend_run key e0 [] e0
  | spend_transfer log e context signers rule account usd e' :
      spend_run key e0 log e → rule_key rule account = key →
      enforce context signers rule account e = Ok (tt, e') →
      enforce_outcome context key usd e e' →
      spend_run key e0 (log ++ [mkEntry usd (sequence e)]) e'
  | spend_other log e c e' :
      spend_run key e0 log e → run_call c e = Ok (tt, e') →
      (call_key c = key → ∃ i a, c = COther (i, a)) →
      spend_run key e0 log e'
  | spend_time log e seq time w evs :
      spend_run key e0 log e → sequence e ≤ seq → is_u32 seq →
      spend_run key e0 log (set_events evs (set_ledger seq time w e)).

(** Along a run the log is the evicted entries followed by the stored history,
    and no window of it was ever above the limit. *)
Definition accounted (p : MultiTokenSpendingLimitAccountParams) (key : StorageKey)
    (log : list SpendingEntry) e : Prop :=
  is_u32 (sequence e)
  ∧ ∃ d old, persistent e !! key = Some d ∧ configured p d ∧ consistent (sequence e) d
    ∧ log = old ++ spending_history d ∧ amounts_nonneg old
    ∧ Forall (λ x, entry_ledger x ≤ cutoff (sequence e) (period_ledgers d)) old
    ∧ ∀ t, total (window t (period_ledgers d) log) ≤ spending_limit_usd d
           ∧ zlen (window t (period_ledgers d) log) ≤ MAX_HISTORY_ENTRIES.

Lemma view_keeps i a e e' :
  run_call (COther (i, a) : call PolicyData NoEvent MultiTokenError) e = Ok (tt, e') →
  persistent e' = persistent e.
Proof. simpl. unfold get_policy_data. intros. by inv_run. Qed.

Lemma window_later_entry t period s usd log :
  t < s → window t period (log ++ [mkEntry usd s]) = window t period log.
Proof.
  intros Hts. rewrite window_app, (window_none t period [_]); [apply app_nil_r|].
  apply Forall_singleton. simpl. by right.
Qed.

(** Splitting the log at the evicted entries, a later window only sees the
    stored ones. *)
Lemma window_evicted s t period old h :
  s ≤ t → Forall (λ x, entry_ledger x ≤ cutoff s period) old →
  window t period (old ++ h) = window t period h.
Proof.
  intros Hst Hold. rewrite window_app, (window_none t period old); [done|].
  eapply Forall_impl; [exact Hold|]. unfold cutoff. simpl. lia.
Qed.

Lemma window_suffix now period h :
  ordered h → Forall (λ x, entry_ledger x ≤ now) h →
  ∃ old, h = old ++ window now period h
    ∧ Forall (λ x, entry_ledger x ≤ cutoff now period) old.
Proof.
  intros Ho Hle. induction Hle as [|x h Hx Hle IH]; [by exists []|].
  destruct (decide (cutoff now period < entry_ledger x)) as [Hc|Hc].
  - exists []. split; [|done]. symmetry. apply window_all; [|by constructor].
    by apply ordered_window.
  - apply StronglySorted_inv in Ho as [Ho _]. destruct (IH Ho) as (old & Hh & Hold).
    exists (x :: old). unfold window, inside in *. rewrite filter_cons_False by lia.
    split; [by rewrite Hh at 1|]. constructor; [lia|done].
Qed.

Lemma accounted_transfer p key log context usd e e' :
  is_u32 (param_period_ledgers p) → param_spending_limit_usd p < i128_max →
  accounted p key log e → enforce_outcome context key usd e e' →
  accounted p key (log ++ [mkEntry usd (sequence e)]) e'.
Proof.
  intros Hper Hlim (Hseq & d & old & Hd & Hcf & Hcs & -> & Hno & Hold & Hw)
    (c & d0 & d' & w & live' & w' & -> & (_ & Hd0 & _) & Hpr & Hs & ->).
  rewrite Hd in Hd0. injection Hd0 as <-. pose proof Hcf as (Hl & Hp & _).
  pose proof (priced_bounds _ _ _ _ _ _ Hcf Hpr) as Husd.
  pose proof Hcs as (Ho & Hnn & Hle & _).
  apply spend_consistent in Hs as (Htot & -> & Hcs'); [|congruence..|done|done].
  destruct (window_suffix _ (period_ledgers d) _ Ho Hle) as (old2 & Hh & Hold2).
  split; [done|]. eexists _, (old ++ old2).
  split; [apply lookup_insert_eq|]. split; [by apply configured_spending|]. split; [done|].
  split; [rewrite <- !app_assoc, Hh at 1; simpl; by rewrite <- !app_assoc|].
  split; [apply amounts_nonneg_app; split; [done|]; rewrite Hh in Hnn; by apply amounts_nonneg_app in Hnn as [? _]|].
  split; [by apply Forall_app_2|]. intros t. cbn [period_ledgers spending_limit_usd set_spending].
  destruct (decide (t < sequence e)); [by rewrite window_later_entry|].
  rewrite <- app_assoc, (window_evicted (sequence e)) by (done || lia).
  pose proof Hcs' as (_ & Hnn' & Hle' & Hlen' & _ & _). simpl in Hnn', Hle', Hlen'.
  rewrite Hh at 1 2. rewrite <- app_assoc, (window_evicted (sequence e)) by (done || lia). split.
  - etrans; [apply window_total; exact Hnn'|]. rewrite total_app, total_cons. unfold total at 2. simpl. lia.
  - etrans; [|exact Hlen']. unfold zlen, window at 1. apply inj_le, length_filter.
Qed.

Lemma spend_run_accounted p rule account e0 e1 log e2 :
  is_u32 (sequence e0) → is_u32 (param_period_ledgers p) →
  param_spending_limit_usd p < i128_max →
  install p rule account e0 = Ok (tt, e1) →
  spend_run (rule_key rule account) e1 log e2 → accounted p (rule_key rule account) log e2.
Proof.
  intros Hseq Hper Hlim Hin Hrun. set (key := rule_key rule account) in *.
  induction Hrun as [|log e ctx sg r a usd e' _ IH Hk He Ho|log e c e' _ IH Hc Hk|log e seq time w evs _ IH Hle Hseq'].
  - apply install_stores in Hin as (_ & Hs & d & Hd & Hcf & Hh & Hca & _ & _ & Hpos & _).
    split; [by rewrite Hs|]. exists d, []. rewrite Hh. split_and!; try done.
    + unfold consistent. rewrite Hh, Hca. split_and!; [constructor|constructor|constructor|done|done|lia].
    + constructor.
    + intros t. split; [unfold window, total; simpl; lia|by_cmp].
  - by eapply accounted_transfer.
  - destruct IH as (Hs & d & old & Hd & Hcf & Hcs & Hlog & Hno & Hold & Hw).
    pose proof (law_frame _ _ _ Hc) as (_ & Hseq1 & Hf).
    split; [by rewrite Hseq1|]. exists d, old. rewrite Hseq1. split_and!; try done.
    destruct (decide (call_key c = key)) as [Hck|Hck]; [|by rewrite Hf].
    destruct (Hk Hck) as (i & a & ->). by rewrite (view_keeps _ _ _ _ Hc).
  - destruct IH as (Hs & d & old & Hd & Hcf & Hcs & Hlog & Hno & Hold & Hw).
    split; [done|]. exists d, old. split_and!; try done; simpl.
    + by eapply consistent_later.
    + eapply Forall_impl; [exact Hold|]. unfold cutoff. simpl. lia.
Qed.

(** Part of a log spends no more than all of it. *)
Lemma window_sublist t period sub log :
  sub `sublist_of` log → amounts_nonneg log →
  total (window t period sub) ≤ total (window t period log).
Proof.
  unfold window. induction 1 as [|x l1 l2 _ IH|x l1 l2 _ IH]; intros Hnn; [done| |];
    apply Forall_cons in Hnn as [Hx Hnn]; specialize (IH Hnn); rewrite ?filter_cons;
    case_decide; rewrite ?total_cons; lia.
Qed.

(** *** The log of a run of calls *)

Definition is_spend (key : StorageKey) (c : call PolicyData NoEvent MultiTokenError) : Prop :=
  match c with CEnforce _ _ rule account => rule_key rule account = key | _ => False end.
#[export] Instance is_spend_dec key c : Decision (is_spend key c).
Proof. destruct c; simpl; apply _. Defined.

(** [x] records what enforcing [context] for [key] spent, at the oracle's price. *)
Definition priced_at (key : StorageKey) (context : Context) (x : SpendingEntry) : Prop :=
  ∃ e e', enforce_outcome context key (amount_usd x) e e' ∧ sequence e = entry_ledger x.
Definition spends (key : StorageKey) (c : call PolicyData NoEvent MultiTokenError)
    (x : SpendingEntry) : Prop :=
  match c with CEnforce context _ _ _ => priced_at key context x | _ => False end.

Lemma policy_run_spends key e1 cs e :
  is_Some (persistent e1 !! key) → is_u32 (sequence e1) → sequence e ≤ u32_max →
  policy_run e1 cs e → Forall (λ c, abstract_op c ≠ RUninstall key) cs →
  ∃ log, spend_run key e1 log e ∧ Forall2 (spends key) (filter (is_spend key) cs) log
    ∧ is_Some (persistent e !! key).
Proof.
  intros Hd0 Hseq Hlast Hrun Hcs.
  induction Hrun as [|cs e c e' Hrun IH Hc|cs e seq time w evs Hrun IH Hle].
  - exists []. split_and!; [constructor|constructor|done].
  - apply Forall_app in Hcs as [Hcs Hu]. rewrite Forall_singleton in Hu.
    pose proof (law_frame _ _ _ Hc) as (_ & Hs & Hf). rewrite Hs in Hlast.
    destruct (IH Hlast Hcs) as (log & Hr & Hlog & Hd). rewrite filter_app.
    destruct (decide (call_key c = key)) as [Hk|Hk].
    + pose proof (law_effect _ _ _ Hc) as Hx. rewrite Hk in Hx.
      destruct c as [p r a|r a|ctx sg r a|[i a]]; simpl in Hk, Hx; destruct Hx as [Hb Ha].
      * rewrite Hb in Hd. by destruct Hd.
      * by destruct Hu; simpl; rewrite Hk.
      * destruct (proj1 (multi_token_enforce_runs ctx sg r a e e') Hc) as (usd & Ho). rewrite Hk in Ho.
        exists (log ++ [mkEntry usd (sequence e)]). split_and!;
          [exact (spend_transfer key e1 log e ctx sg r a usd e' Hr Hk Hc Ho)| |done].
        rewrite filter_cons_True by done. apply Forall2_app; [done|].
        constructor; [|constructor]. by exists e, e'.
      * exists log. rewrite filter_cons_False, app_nil_r by (by intros []). split_and!; [|done|done].
        eapply spend_other; [done|exact Hc|by intros _; exists i, a].
    + exists log. rewrite Hf by done. split_and!; [|rewrite filter_cons_False; [by rewrite app_nil_r|]|done].
      * by eapply spend_other; [done|exact Hc|].
      * destruct c; simpl in *; auto.
  - simpl in *. destruct (IH ltac:(lia) Hcs) as (log & Hr & Hlog & Hd). exists log.
    split_and!; [|done|done]. constructor; [done|done|].
    pose proof (policy_run_sequence _ _ _ Hrun). unfold is_u32 in *. lia.
Qed.


(** *** Enforcement, branch by branch *)

(** C28: the decision. On consistent data, a transfer the oracle prices at [usd]
    dollars is refused with [SpendingLimitExceeded] exactly when the window's
    spending plus [usd] is above the limit, else with [HistoryCapacityExceeded]
    exactly when the window already has [MAX_HISTORY_ENTRIES] entries, and
    otherwise recorded: the window plus the new entry, with its exact sum. *)
Theorem enforce_decision c signers rule account e d w live' usd w' :
  let key := rule_key rule account in
  let h := window (sequence e) (period_ledgers d) (spending_history d) in
  is_u32 (sequence e) → is_u32 (period_ledgers d) → spending_limit_usd d < i128_max →
  consistent (sequence e) d → 0 ≤ usd ≤ i128_max →
  loaded e key w d live' → priced (asked e key w live') d c usd w' →
  enforce (ContractCtx c) signers rule account e
  = if decide (spending_limit_usd d < total h + usd) then Err (ContractError SpendingLimitExceeded)
    else if decide (MAX_HISTORY_ENTRIES ≤ zlen h) then Err (ContractError HistoryCapacityExceeded)
    else Ok (tt, store key (set_spending (h ++ [mkEntry usd (sequence e)]) (total h + usd) d)
                   (set_world w' (asked e key w live'))).
Proof.
  intros key h Hs Hp Hlim Hc Husd Hl Hpr. pose proof Hc as (Ho & Hnn & Hle & _ & Hca & Hcl).
  rewrite (enforce_settles _ _ _ _ _ _ _ _ _ _ Hl Hpr). fold key.
  pose proof (window_total (sequence e) (period_ledgers d) _ Hnn) as Hsub. fold h in Hsub.
  pose proof (total_nonneg h (window_Forall _ _ _ _ Hnn)).
  unfold settle. rewrite cleanup_is_window by (done || lia). fold h.
  unfold i128_saturating_sub. rewrite (clamp_in _ _ (_ - (_ - _))) by ranges.
  replace (cached_total_spent_usd d - (total (spending_history d) - total h)) with (total h) by lia.
  case_decide as Hx.
  - apply bind_Err. unfold throw_if, i128_saturating_add.
    rewrite (proj2 (Z.ltb_lt _ _)); [done|]. ranges.
  - unfold i128_saturating_add. rewrite clamp_in by ranges.
    step_do by (apply throw_if_Ok; split; [apply Z.ltb_ge; lia|]).
    case_decide as Hy.
    + apply bind_Err. unfold throw_if. by rewrite (proj2 (Z.leb_le _ _)).
    + step_do by (apply throw_if_Ok; split; [apply Z.leb_gt; lia|]). by apply persistent_set_Ok.
Qed.

(** A well-formed transfer call. *)
Definition transfer_args (c : ContractContext) (amount : Z) : Prop :=
  fn_name c = "transfer"%string
  ∧ ∃ v, args c !! 2%nat = Some v ∧ val_to_i128 v = Some amount ∧ 0 ≤ amount.

#[local] Ltac skip_args := 
  step_do by (apply throw_if_Ok; split; [by rewrite bool_decide_true|]);
  step_get by (apply unwrap_or_throw_Ok; split; [eassumption|]);
  step_get by (apply unwrap_or_throw_Ok; split; [eassumption|]);
  step_do by (apply throw_if_Ok; split; [by apply Z.ltb_ge|]).

(** The reading of the arguments fails in one way only. *)
Lemma transfer_args_Err context (k : ContractContext → Z → M MEnv MultiTokenError unit) e t :
  match context with
  | ContractCtx c =>
      throw_if (negb (bool_decide (fn_name c = "transfer"%string))) InvalidTransferArgs ;;
      amount_val ← unwrap_or_throw (args c !! 2%nat) InvalidTransferArgs;
      amount ← unwrap_or_throw (val_to_i128 amount_val) InvalidTransferArgs;
      throw_if (amount <? 0) InvalidTransferArgs ;;
      k c amount
  | _ => throw InvalidTransferArgs
  end e = Err t ↔
  (∀ c amount, context = ContractCtx c → ¬ transfer_args c amount)
    ∧ t = ContractError InvalidTransferArgs
  ∨ ∃ c amount, context = ContractCtx c ∧ transfer_args c amount ∧ k c amount e = Err t.
Proof.
  unfold transfer_args. split.
  - destruct context as [c| |]; [|intros [= <-]; by left..]. intros. inv_trap.
    5: { right. eexists _, _. split; [done|]. by eauto 10. }
    all: left; split; [|done]; intros ? ? [= <-] (? & v & ? & ? & ?); simplify_eq; lia.
  - intros [[Hno ->]|(c & amount & -> & (Hfn & v & Harg & Hv & Hnn) & Hk)]; [|by skip_args].
    destruct context as [c| |]; [|done..]. unfold throw_if at 1.
    case_bool_decide; [|done]. rewrite (bind_do _ _ _ e) by done.
    destruct (args c !! 2%nat) as [v|] eqn:Harg; [|done].
    step_get by (apply unwrap_or_throw_Ok; split; [reflexivity|]).
    destruct (val_to_i128 v) as [amount|] eqn:Hv; [|done].
    step_get by (apply unwrap_or_throw_Ok; split; [reflexivity|]).
    apply bind_Err, throw_if_Err. split; [|done]. apply Z.ltb_lt.
    destruct (Z.lt_ge_cases amount 0) as [?|?]; [done|]. destruct (Hno c amount eq_refl); by eauto 10.
Qed.

(** The token is one of the installation's, with its divisor [td]. *)
Definition listed (d : PolicyData) (c : ContractContext) (td : Z) : Prop :=
  ∃ i, first_index_of (ctx_contract c) (allowed_tokens d) = Some i ∧ token_divisors d !! i = Some td.
(** How old a price is, in seconds. *)
Definition price_age e (p : PriceData) : Z :=
  u64_saturating_sub (timestamp e) (price_timestamp p).

(** Why a call is refused. In the code's order: the account did not authorise it;
    it is not a well-formed transfer; the rule's entry is missing or its TTL
    cannot be extended; the token, or its divisor, is not in the entry; the
    oracle gives no price that can be used; the price is stale; its conversion
    overflows; the spending would exceed the limit; the history is full. *)
Inductive enforce_refused (context : Context) (key : StorageKey) e : trap MultiTokenError → Prop :=
  | refused_authorisation :
      ¬ auth_ok e (key_account key) → enforce_refused context key e HostError
  | refused_arguments :
      auth_ok e (key_account key) →
      (∀ c amount, context = ContractCtx c → ¬ transfer_args c amount) →
      enforce_refused context key e (ContractError InvalidTransferArgs)
  | refused_not_installed c amount :
      auth_ok e (key_account key) → context = ContractCtx c → transfer_args c amount →
      persistent e !! key = None →
      enforce_refused context key e (ContractError NotInstalled)
  | refused_ttl c amount d :
      auth_ok e (key_account key) → context = ContractCtx c → transfer_args c amount →
      persistent e !! key = Some d →
      (∀ live', ¬ ttl_extends e key POLICY_TTL_THRESHOLD POLICY_EXTEND_AMOUNT live') →
      enforce_refused context key e HostError
  | refused_token c amount d w live' :
      context = ContractCtx c → transfer_args c amount → loaded e key w d live' →
      (∀ td, ¬ listed d c td) →
      enforce_refused context key e (ContractError TokenNotAllowed)
  | refused_oracle c amount d w live' td t :
      context = ContractCtx c → transfer_args c amount → loaded e key w d live' → listed d c td →
      price_refused (asked e key w live') (oracle_address d) (ctx_contract c) t →
      enforce_refused context key e t
  | refused_stale c amount d w live' td p w' :
      context = ContractCtx c → transfer_args c amount → loaded e key w d live' → listed d c td →
      oracle_reply (asked e key w live') (oracle_address d) (ctx_contract c) (Some p) w' →
      usable (timestamp e) p → MAX_STALENESS_LEDGERS * LEDGER_CLOSE_TIME_SECS < price_age e p →
      enforce_refused context key e (ContractError StaleOraclePrice)
  | refused_conversion c amount d w live' td p w' :
      context = ContractCtx c → transfer_args c amount → loaded e key w d live' → listed d c td →
      oracle_reply (asked e key w live') (oracle_address d) (ctx_contract c) (Some p) w' →
      usable (timestamp e) p → price_age e p ≤ MAX_STALENESS_LEDGERS * LEDGER_CLOSE_TIME_SECS →
      to_usd amount (price p) (usd_divisor d) td = None →
      enforce_refused context key e (ContractError AmountConversionOverflow)
  | refused_spending c d w live' usd w' err :
      context = ContractCtx c → loaded e key w d live' → priced (asked e key w live') d c usd w' →
      overspent (sequence e) usd d err →
      enforce_refused context key e (ContractError err).

Lemma enforce_refused_sound context signers rule account e t :
  enforce_refused context (rule_key rule account) e t →
  enforce context signers rule account e = Err t.
Proof.
  intros [Ha|[w Ha] Hno|c amount [w Ha] -> Hargs Hn|c amount d [w Ha] -> Hargs Hd Hno
    |c amount d w live' -> Hargs (Ha & Hd & Hx) Hno
    |c amount d w live' td t' -> Hargs (Ha & Hd & Hx) (i & Hi & Htd) Hp
    |c amount d w live' td p w' -> Hargs (Ha & Hd & Hx) (i & Hi & Htd) Hor Hu Hst
    |c amount d w live' td p w' -> Hargs (Ha & Hd & Hx) (i & Hi & Htd) Hor Hu Hst Hnone
    |c d w live' usd w' err -> Hl Hp Hov].
  9: { rewrite (enforce_settles _ _ _ _ _ _ _ _ _ _ Hl Hp). by apply settle_Err; eauto. }
  all: unfold enforce; try step_do by (apply require_auth_Ok; eauto).
  { by apply bind_Err, require_auth_Err. }
  { apply transfer_args_Err. by left. }
  all: destruct Hargs as (Hfn & v & Harg & Hv & Hnn); skip_args.
  { apply bind_Err. unfold get_policy_data. by step_get by (apply persistent_get_extend_None). }
  { apply bind_Err, bind_Err, persistent_get_extend_Err. eauto. }
  all: step_get by (apply get_policy_data_runs).
  { unfold listed in Hno. destruct (first_index_of _ _) as [i|] eqn:Hi; [|done].
    step_get by (apply unwrap_or_throw_Ok; split; [reflexivity|]). apply bind_Err, unwrap_or_throw_Err.
    split; [|done]. apply eq_None_not_Some. intros [td Htd]. by apply (Hno td); eauto. }
  all: step_get by (apply unwrap_or_throw_Ok; split; [exact Hi|]).
  all: step_get by (apply unwrap_or_throw_Ok; split; [exact Htd|]).
  { by apply bind_Err, fetch_price_Err. }
  all: step_get by (apply fetch_price_Ok; eauto).
  all: step_get by apply ledger_timestamp_Ok; step_get by apply ledger_sequence_Ok.
  all: step_get by (apply unwrap_Ok; split; [exact staleness_secs|]).
  { apply bind_Err, throw_if_Err. split; [by apply Z.ltb_lt|done]. }
  step_do by (apply throw_if_Ok; split; [by apply Z.ltb_ge|]).
  by apply bind_Err, unwrap_or_throw_Err.
Qed.

Lemma enforce_refused_complete context signers rule account e t :
  enforce context signers rule account e = Err t →
  enforce_refused context (rule_key rule account) e t.
Proof.
  intros Hf. unfold enforce in Hf. apply bind_Err_iff in Hf as [Hf|([] & e1 & Ha & Hf)].
  { apply require_auth_Err in Hf as [? ->]. by apply refused_authorisation. }
  apply require_auth_Ok in Ha as (w & Ha & ->). pose proof (ex_intro _ w Ha : auth_ok e account) as Hok.
  apply transfer_args_Err in Hf as [[Hno ->]|(c & amount & -> & Hargs & Hf)];
    [by apply refused_arguments|].
  apply bind_Err_iff in Hf as [Hf|(d & e1 & Hd & Hf)].
  { unfold get_policy_data in Hf. inv_trap; [by eapply refused_ttl|by eapply refused_not_installed]. }
  assert (∃ live', loaded e (rule_key rule account) w d live'
            ∧ e1 = asked e (rule_key rule account) w live') as (live' & Hl & ->).
  { unfold get_policy_data in Hd. inv_run. eexists. by split_and!. }
  rewrite staleness_secs in Hf.
  apply bind_Err_iff in Hf as [Hf|(i & e1 & [Hi ->]%unwrap_or_throw_Ok & Hf)].
  { apply unwrap_or_throw_Err in Hf as [Hn ->]. eapply refused_token; [done..|].
    intros td (i & Hi & _). congruence. }
  apply bind_Err_iff in Hf as [Hf|(td & e1 & [Htd ->]%unwrap_or_throw_Ok & Hf)].
  { apply unwrap_or_throw_Err in Hf as [Hn ->]. eapply refused_token; [done..|].
    intros td (i' & Hi' & ?). congruence. }
  assert (listed d c td) as Hlisted by by exists i.
  apply bind_Err_iff in Hf as [Hf|(p & e1 & (w' & Hor & Hu & ->)%fetch_price_Ok & Hf)].
  { apply fetch_price_Err in Hf. by eapply refused_oracle. }
  pose proof Hargs as (Hfn & v & Harg & Hv & Hnn).
  inv_trap; simplify_eq; [by eapply refused_stale|by eapply refused_conversion| |].
  all: eapply refused_spending; [done|done|by eexists _, _, _, _, _; split_and!|].
  - by eapply over_limit.
  - by eapply over_capacity.
Qed.

(** C37: multi-token enforcement, on every branch. It lets a call through exactly
    when the account authorised it, the policy is installed for the rule and its
    entry's TTL can be extended, it is a transfer of a non-negative amount of an
    allowed token, the oracle gives a positive, not future and not stale price,
    the conversion does not overflow, and the spending fits; the new state only
    differs in this rule's entry. It fails with [t] exactly when
    [enforce_refused] gives [t] as the first reason in the code's order, the
    oracle's failures, the limit and the capacity of the history included. *)
Theorem multi_token_enforce_spec context signers rule account e :
  (∀ e', enforce context signers rule account e = Ok (tt, e')
         ↔ ∃ usd, enforce_outcome context (rule_key rule account) usd e e')
  ∧ (∀ t, enforce context signers rule account e = Err t
          ↔ enforce_refused context (rule_key rule account) e t).
Proof.
  split; intros; [apply multi_token_enforce_runs|].
  split; [apply enforce_refused_complete|apply enforce_refused_sound].
Qed.

(** *** Installation *)

Definition valid_params (p : MultiTokenSpendingLimitAccountParams) : Prop :=
  0 < param_spending_limit_usd p ∧ param_period_ledgers p ≠ 0 ∧ param_allowed_tokens p ≠ [].
#[export] Instance valid_params_dec p : Decision (valid_params p).
Proof. unfold valid_params. apply _. Defined.

Lemma multi_token_invalid_params p :
  (param_spending_limit_usd p <=? 0) || (param_period_ledgers p =? 0)
    || is_empty (param_allowed_tokens p) = negb (bool_decide (valid_params p)).
Proof.
  unfold valid_params. case_bool_decide as Hp; simpl.
  - destruct Hp as (?%Z.leb_gt & ?%Z.eqb_neq & ->%is_empty_false). by repeat (apply orb_false_iff; split).
  - apply not_false_iff_true. intros Hb. apply Hp.
    apply orb_false_iff in Hb as [[?%Z.leb_gt ?%Z.eqb_neq]%orb_false_iff ?%is_empty_false]. done.
Qed.

(** The data an installation stores. *)
Definition initial (p : MultiTokenSpendingLimitAccountParams) (divisor : Z) (divisors : list Z) :
    PolicyData :=
  mkPolicyData (param_spending_limit_usd p) (param_period_ledgers p) (param_oracle_address p)
    divisor (param_allowed_tokens p) divisors [] 0.

(** Installation. With the account's authorisation [install] reports the
    first failing condition with its documented error, an existing installation
    before any contract is asked, and a failing oracle or token query as that
    failure; otherwise it stores the parameters, an empty history, and for every
    token, in the order of the list, the power of ten of the decimals it
    reported. Uninstalling removes exactly that entry. *)
Theorem multi_token_install_spec p rule account e w :
  let key := rule_key rule account in
  let e0 := set_world w e in
  host_require_auth (self e) account (world e) = Some w →
  install p rule account e =
    (if negb (is_call_contract (context_type rule)) then Err (ContractError InvalidContextRule)
     else if decide (valid_params p) then
       match persistent e !! key with
       | Some _ => Err (ContractError AlreadyInstalled)
       | None =>
           match fetch_usd_divisor (param_oracle_address p) e0 with
           | Err t => Err t
           | Ok (divisor, e1) =>
               match fetch_token_divisors (param_allowed_tokens p) e1 with
               | Err t => Err t
               | Ok (divisors, e2) => Ok (tt, store key (initial p divisor divisors) e2)
               end
           end
       end
     else Err (ContractError InvalidInstallParams))
  ∧ (∀ divisor divisors e1 e2,
       fetch_usd_divisor (param_oracle_address p) e0 = Ok (divisor, e1) →
       fetch_token_divisors (param_allowed_tokens p) e1 = Ok (divisors, e2) →
       (∃ d, 0 ≤ d ≤ MAX_ORACLE_DECIMALS ∧ divisor = 10 ^ d)
       ∧ Forall2 (divisor_of (self e)) (param_allowed_tokens p) divisors
       ∧ ∃ w', e2 = set_world w' e)
  ∧ uninstall rule account e =
    match persistent e !! key with
    | None => Err (ContractError NotInstalled)
    | Some _ => Ok (tt, unstore key e0)
    end.
Proof.
  intros key e0 Ha. unfold install, uninstall. split; [|split].
  - step_do by (apply require_auth_Ok; eauto). rewrite multi_token_invalid_params.
    destruct (is_call_contract _); [|done]. step_do by (by apply throw_if_Ok).
    case_decide; [|by rewrite bool_decide_false]. rewrite bool_decide_true by done.
    step_do by (by apply throw_if_Ok). step_get by (by apply persistent_has_Ok).
    change (AccountContext account (rule_id rule)) with key.
    fold e0. change (persistent e0) with (persistent e).
    destruct (persistent e !! key); [done|]. step_do by (by apply throw_if_Ok).
    unfold mbind, M_bind. destruct (fetch_usd_divisor _ _) as [[divisor e1]|]; [|done].
    by destruct (fetch_token_divisors _ _) as [[divisors e2]|].
  - intros divisor divisors e1 e2 (Hd & w1 & ->)%fetch_usd_divisor_frame
      (Hds & w2 & ->)%fetch_token_divisors_Ok. split_and!; [done|done|by exists w2].
  - step_do by (apply require_auth_Ok; eauto). exec.
    change (AccountContext account (rule_id rule)) with key. by destruct (persistent e !! key).
Qed.
End laws.

(** ** Witnesses: $100 per 50 ledgers in token 60 at $2.00, oracle 50 *)

Abbreviation TEnv := (Env (H := ref_host) StorageKey (PolicyData (H := ref_host)) NoEvent).
Definition test_params : MultiTokenSpendingLimitAccountParams (H := ref_host) :=
  mkParams (H := ref_host) 100 50 50%N [60%N].
Definition test_rule : ContextRule (H := ref_host) :=
  mkContextRule (H := ref_host) 3 (CallContract (H := ref_host) 60%N) [].
Definition test_key : StorageKey (H := ref_host) := rule_key (H := ref_host) test_rule 1%N.
Definition test_ctx (amount : Z) : ContractContext (H := ref_host) :=
  mkContractContext (H := ref_host) 60%N "transfer" [RAddress 1%N; RAddress 2%N; RI128 amount].
Definition test_env0 : TEnv := ref_env 9%N 100 1000 test_world.
Definition test_env1 : TEnv := final (install (H := ref_host) test_params test_rule 1%N test_env0) test_env0.
(** 30 tokens are $60. *)
Definition test_run (e : TEnv) :=
  enforce (H := ref_host) (ContractCtx (H := ref_host) (test_ctx 300000000)) [] test_rule 1%N e.
Definition test_env2 : TEnv := final (test_run test_env1) test_env1.
Definition test_data : PolicyData (H := ref_host) :=
  initial (H := ref_host) test_params (10 ^ 8) [10 ^ 7].
Definition test_data2 : PolicyData (H := ref_host) :=
  set_spending (H := ref_host) [mkEntry 60 100] 60 test_data.
(** The TTL a read extends the entry to. *)
Definition test_live (e : TEnv) : Z :=
  match live_until e !! test_key with
  | Some l => default 0 (r_extend_ttl (sequence e) l POLICY_TTL_THRESHOLD POLICY_EXTEND_AMOUNT)
  | None => 0
  end.

Lemma test_loaded1 : loaded (H := ref_host) test_env1 test_key test_world test_data (test_live test_env1).
Proof. split_and!; [by_run|by_run|]. exists 4195. split; by_run. Qed.
Lemma test_loaded2 : loaded (H := ref_host) test_env2 test_key test_world test_data2 (test_live test_env2).
Proof. split_and!; [by_run|by_run|]. exists 518500. split; by_run. Qed.

#[local] Ltac solve_priced :=
  exists (RI128 300000000), 300000000, 0%nat, (10 ^ 7),
    {| price := 200000000; price_timestamp := 990 |};
  split_and!; [by_run|by_run|by_run|by_cmp|by_run|by_run
    |exists (RPrice (Some (200000000, 990))); split; by_run|split; by_cmp|by_cmp|by_run].

Lemma test_priced1 :
  priced (H := ref_host) (asked (H := ref_host) test_env1 test_key test_world (test_live test_env1))
    test_data (test_ctx 300000000) 60 test_world.
Proof. solve_priced. Qed.
Lemma test_priced2 :
  priced (H := ref_host) (asked (H := ref_host) test_env2 test_key test_world (test_live test_env2))
    test_data2 (test_ctx 300000000) 60 test_world.
Proof. solve_priced. Qed.

Definition test_history : list SpendingEntry := [mkEntry 20 40; mkEntry 5 50; mkEntry 60 100].

Lemma cleanup_window_witness :
  cleanup_old_entries test_history 100 50 = (25, [mkEntry 60 100]).
Proof.
  rewrite (cleanup_window test_history 100 50); [by_run|by_cmp|by_cmp| | |by_cmp|].
  - repeat constructor; by_cmp.
  - repeat constructor; by_cmp.
  - repeat constructor; by_cmp.
Defined.

Lemma to_usd_exact_witness : to_usd 300000000 200000000 (10 ^ 8) (10 ^ 7) = Some 60.
Proof.
  rewrite (proj1 (to_usd_exact 300000000 200000000 (10 ^ 8) (10 ^ 7)
    ltac:(by_cmp) ltac:(by_cmp) ltac:(by_cmp) ltac:(by_cmp))). by_run.
Defined.

Lemma enforce_decision_witness :
  test_run test_env2 = Err (ContractError SpendingLimitExceeded).
Proof.
  unfold test_run. rewrite (enforce_decision (H := ref_host) (test_ctx 300000000) [] test_rule 1%N
    test_env2 test_data2 test_world (test_live test_env2) 60 test_world);
    [by_run|by_cmp|by_cmp|by_cmp| |by_cmp|exact test_loaded2|exact test_priced2].
  split_and!; [repeat constructor| | |by_cmp|by_run|by_cmp]; repeat constructor; by_cmp.
Defined.

Lemma multi_token_enforce_spec_witness :
  (∃ usd, enforce_outcome (H := ref_host) (ContractCtx (H := ref_host) (test_ctx 300000000)) test_key usd
     test_env1 test_env2)
  ∧ enforce (H := ref_host) (ContractCtx (H := ref_host) (test_ctx (-1))) [] test_rule 1%N test_env1
    = Err (ContractError InvalidTransferArgs)
  ∧ test_run test_env2 = Err (ContractError SpendingLimitExceeded).
Proof.
  split_and!.
  - apply (proj1 (multi_token_enforce_spec (H := ref_host)
      (ContractCtx (H := ref_host) (test_ctx 300000000)) [] test_rule 1%N test_env1)). by_run.
  - apply (proj2 (multi_token_enforce_spec (H := ref_host)
      (ContractCtx (H := ref_host) (test_ctx (-1))) [] test_rule 1%N test_env1)).
    apply refused_arguments; [exists test_world; by_run|].
    intros c amount Hc (_ & v & Harg & Hv & Hnn). injection Hc as <-.
    injection Harg as <-. injection Hv as <-. lia.
  - apply (proj2 (multi_token_enforce_spec (H := ref_host)
      (ContractCtx (H := ref_host) (test_ctx 300000000)) [] test_rule 1%N test_env2)).
    eapply refused_spending; [reflexivity|exact test_loaded2|exact test_priced2|].
    apply over_limit with (removed := 0) (h := [mkEntry 60 100]); [by_run|by_cmp].
Defined.

Lemma multi_token_install_spec_witness :
  install (H := ref_host) test_params test_rule 1%N test_env0 = Ok (tt, test_env1)
  ∧ uninstall (H := ref_host) test_rule 1%N test_env0 = Err (ContractError NotInstalled).
Proof.
  rewrite (proj1 (multi_token_install_spec (H := ref_host) test_params test_rule 1%N test_env0
    test_world ltac:(by_run))).
  rewrite (proj2 (proj2 (multi_token_install_spec (H := ref_host) test_params test_rule 1%N test_env0
    test_world ltac:(by_run)))).
  split; by_run.
Defined.

End MultiToken.
