(* ===== verification/Policies.v ===== *)
(** * The four policies behind one interface

    The consequences of the policy laws (Policy.v), for the four policies of the
    repository: each one's storage refines the abstract registry, installations
    are isolated from one another, and only their own account changes them; and
    what holds of all of them over any run: stored data is well typed, and entries
    in use stay live. *)
From S2P Require Import Prelude RustInt Soroban RefHost Policy Oracle.
From S2P Require Import SessionPolicy RecipientPolicy ParameterScoped MultiToken.
Import Session Recipient ParamScoped MultiToken.
Local Open Scope Z_scope.

(** The contract between the account and a policy: over any run the set of
    installed (account, rule) pairs evolves as the abstract registry says; calls
    for other pairs leave a pair's entry alone; and a call that changes an entry
    is one the entry's account authorised. *)
Definition registry_contract `{Policy Data Event Failure} : Prop :=
  (∀ (e0 : Env StorageKey Data Event) cs e, policy_run e0 cs e →
     registry_run (installed e0) (abstract_op <$> cs) (installed e))
  ∧ (∀ (e0 : Env StorageKey Data Event) cs e k,
       policy_run e0 cs e → Forall (λ c, call_key c ≠ k) cs →
       persistent e !! k = persistent e0 !! k)
  ∧ (∀ (e : Env StorageKey Data Event) c e' k,
       run_call c e = Ok (tt, e') → persistent e' !! k ≠ persistent e !! k →
       k = call_key c ∧ auth_ok e (key_account k)).
Arguments registry_contract {_} Data Event Failure {_}.

Lemma laws_registry `{Policy Data Event Failure} `{!PolicyLaws Data Event Failure} :
  registry_contract Data Event Failure.
Proof.
  split_and!; [intros; by apply run_refines|intros; by eapply run_isolated|].
  intros e c e' k Hc Hk. pose proof (law_frame _ _ _ Hc) as (_ & _ & Hf).
  assert (k = call_key c) as -> by (apply dec_stable; intros Hn; by rewrite Hf in Hk).
  split; [done|]. by apply (law_authorised c e e').
Qed.

(** C14: all four policies keep the registry contract: their installations are
    exactly what successful installs and uninstalls say, a second install
    and a use or removal without an installation never succeed, no call for
    one account or rule disturbs another's data, and no data changes without
    the authorisation of the account it belongs to. *)
Theorem policies_keep_registry `{PriceCodec} `{!ValLaws} :
  registry_contract Session.SessionData Session.SessionEvent Session.SessionError
  ∧ registry_contract Recipient.RecipientData Recipient.RecipientEvent Recipient.RecipientError
  ∧ registry_contract ParamScoped.ParameterScopedData ParamScoped.ConditionsEvent
      ParamScoped.ParameterScopedError
  ∧ registry_contract MultiToken.PolicyData MultiToken.NoEvent MultiTokenError.
Proof. split_and!; apply laws_registry. Qed.

(** At the reference host: account 1 installs the multi-token policy. *)
Definition test_install : call (H := ref_host) PolicyData NoEvent MultiTokenError :=
  @CInstall ref_host _ _ _ MultiTokenPolicy MultiToken.test_params MultiToken.test_rule 1%N.

Lemma policies_keep_registry_witness :
  registry_run (H := ref_host) (installed (H := ref_host) MultiToken.test_env0)
    [RInstall MultiToken.test_key] (installed (H := ref_host) MultiToken.test_env1).
Proof.
  refine (proj1 (proj2 (proj2 (proj2 (policies_keep_registry (H := ref_host)))))
    MultiToken.test_env0 [test_install] MultiToken.test_env1 _).
  refine (policy_call (H := ref_host) MultiToken.test_env0 [] MultiToken.test_env0
    test_install MultiToken.test_env1 (policy_start (H := ref_host) _) _). by_run.
Defined.

(** ** The type of the stored data *)

(** What every entry of a policy's storage satisfies. *)
Class WellFormed (Data : Type) := well_formed : Data → Prop.

(** Entries written by the contract have their type, along any run. *)
Definition keeps_well_formed `{Policy Data Event Failure} `{!WellFormed Data} : Prop :=
  ∀ (e0 : Env StorageKey Data Event) cs e,
    persistent e0 = ∅ → policy_run e0 cs e → map_Forall (λ _, well_formed) (persistent e).
Arguments keeps_well_formed {_} Data Event Failure {_ _}.

Lemma calls_keep_well_formed `{Policy Data Event Failure} `{!PolicyLaws Data Event Failure}
    `{!WellFormed Data} :
  (∀ c (e e' : Env StorageKey Data Event) d, run_call c e = Ok (tt, e') →
     (∀ d0, persistent e !! call_key c = Some d0 → well_formed d0) →
     persistent e' !! call_key c = Some d → well_formed d) →
  keeps_well_formed Data Event Failure.
Proof.
  intros Hc e0 cs e He0 Hrun. eapply run_stored; [exact Hc|exact Hrun|].
  rewrite He0. apply map_Forall_empty.
Qed.

Section data.
Context `{PriceCodec} `{!ValLaws}.

#[export] Instance session_data_wf : WellFormed Session.SessionData := λ d,
  Session.allowed_fns d ≠ [] ∧ zlen (Session.allowed_fns d) ≤ Session.MAX_ALLOWED_FNS.
#[export] Instance recipient_data_wf : WellFormed Recipient.RecipientData := λ d,
  Recipient.valid_list (Recipient.allowed_recipients d).
#[export] Instance parameter_data_wf : WellFormed ParamScoped.ParameterScopedData := λ d,
  ParamScoped.valid_conditions (ParamScoped.conditions d).

(** A positive limit that the cached total respects, a window, and parallel
    lists of tokens and divisors (powers of ten of bounded decimals); a bounded
    history of non-negative amounts. *)
#[export] Instance multi_token_data_wf : WellFormed MultiToken.PolicyData := λ d,
  0 < spending_limit_usd d ∧ period_ledgers d ≠ 0 ∧ allowed_tokens d ≠ []
  ∧ length (token_divisors d) = length (allowed_tokens d)
  ∧ Forall (λ td, ∃ n, 0 ≤ n ≤ MAX_TOKEN_DECIMALS ∧ td = 10 ^ n) (token_divisors d)
  ∧ (∃ n, 0 ≤ n ≤ MAX_ORACLE_DECIMALS ∧ usd_divisor d = 10 ^ n)
  ∧ zlen (spending_history d) ≤ MAX_HISTORY_ENTRIES ∧ amounts_nonneg (spending_history d)
  ∧ cached_total_spent_usd d ≤ spending_limit_usd d.

Lemma session_keeps_wf :
  keeps_well_formed Session.SessionData Session.SessionEvent Session.SessionError.
Proof.
  apply calls_keep_well_formed. intros c e e' d Hc Hd.
  destruct c as [p r a|r a|ctx sg r a|[i a]]; intros Hd'.
  1: { apply Session.session_install_runs in Hc as (Hp & _ & _ & He). rewrite He in Hd'.
       cbn [call_key] in Hd'. unfold rule_key in Hd'. simplify_map_eq. exact Hp. }
  1: { pose proof (law_effect _ _ _ Hc) as [_ Hn]. congruence. }
  all: rewrite (Session.session_uses_preserve _ _ _ Hc) in Hd' by done; by apply Hd.
Qed.

Lemma recipient_keeps_wf :
  keeps_well_formed Recipient.RecipientData Recipient.RecipientEvent Recipient.RecipientError.
Proof. apply calls_keep_well_formed. exact Recipient.call_valid. Qed.

Lemma parameter_keeps_wf :
  keeps_well_formed ParamScoped.ParameterScopedData ParamScoped.ConditionsEvent
    ParamScoped.ParameterScopedError.
Proof.
  apply calls_keep_well_formed. intros c e e' d Hc Hd.
  destruct c as [p r a|r a|ctx sg r a|[i a]]; intros Hd'.
  1: { apply ParamScoped.parameter_install_runs in Hc as (Hp & _ & _ & He). rewrite He in Hd'.
       cbn [call_key] in Hd'. unfold rule_key in Hd'. simplify_map_eq. exact Hp. }
  1: { pose proof (law_effect _ _ _ Hc) as [_ Hn]. congruence. }
  all: rewrite (ParamScoped.parameter_uses_preserve _ _ _ Hc) in Hd' by done; by apply Hd.
Qed.

(** Eviction leaves a suffix of the history, whatever the history. *)
Lemma cleanup_suffix h now period r h' :
  cleanup_old_entries h now period = (r, h') → ∃ old, h = old ++ h'.
Proof.
  unfold cleanup_old_entries. generalize 0 at 1. induction h as [|x h IH]; simpl; intros z.
  { intros [= _ <-]. by exists []. }
  case_match.
  - intros (old & ->)%IH. by exists (x :: old).
  - intros [= _ <-]. by exists [].
Qed.

Lemma spend_well_formed now usd d d' :
  0 ≤ usd → spend now usd d = Some d' → well_formed d → well_formed d'.
Proof.
  unfold spend. intros Husd Hs (? & ? & ? & ? & ? & ? & Hlen & Hnn & _).
  destruct (cleanup_old_entries _ _ _) as [r h'] eqn:Hc.
  destruct (_ && _) eqn:Hb; [|done]. apply andb_prop in Hb as [?%Z.leb_le ?%Z.ltb_lt].
  injection Hs as <-. apply cleanup_suffix in Hc as [old Hh].
  unfold well_formed, multi_token_data_wf. simpl. split_and!; try done.
  - unfold zlen in *. rewrite length_app. simpl. lia.
  - apply amounts_nonneg_app. split; [|by repeat constructor].
    rewrite Hh in Hnn. by apply amounts_nonneg_app in Hnn as [_ ?].
Qed.

Lemma multi_token_keeps_wf :
  keeps_well_formed MultiToken.PolicyData MultiToken.NoEvent MultiTokenError.
Proof.
  apply calls_keep_well_formed. intros c e e' d Hc Hd.
  destruct c as [p r a|r a|ctx sg r a|[i a]]; intros Hd'.
  - apply install_stores in Hc as (_ & _ & d0 & Hd0 & _ & Hh & Hca & Hds & Hud & Hl & Hp & Ht).
    change (call_key _) with (rule_key r a) in Hd'. rewrite Hd0 in Hd'. injection Hd' as <-.
    unfold well_formed, multi_token_data_wf. rewrite Hh, Hca. split_and!; try done; try lia.
    + symmetry. by eapply Forall2_length.
    + eapply Forall2_Forall_r; [exact Hds|]. apply Forall_true.
      intros t td (w & v & w' & n & _ & _ & ? & ->). eauto.
    + constructor.
  - pose proof (law_effect _ _ _ Hc) as [_ Hn]. congruence.
  - apply (multi_token_enforce_runs ctx sg r a) in Hc
      as (usd & c & d0 & d1 & w & live' & w' & _ & (_ & Hd0 & _) & Hpr & Hs & ->).
    change (call_key _) with (rule_key r a) in *. simpl in Hd'. rewrite lookup_insert_eq in Hd'.
    injection Hd' as <-. specialize (Hd _ Hd0). eapply spend_well_formed; [|exact Hs|exact Hd].
    destruct Hpr as (v & amount & i & td & q & _ & _ & _ & Ha & _ & Htd & _ & [Hq _] & _ & Husd).
    destruct Hd as (_ & _ & _ & _ & Htds & (n & [? _] & Hud) & _).
    destruct (Forall_lookup_1 _ _ _ _ Htds Htd) as (m & [? _] & ->).
    rewrite Hud in Husd. pose proof (Z.pow_pos_nonneg 10 n ltac:(lia) ltac:(done)).
    pose proof (Z.pow_pos_nonneg 10 m ltac:(lia) ltac:(done)).
    by eapply (to_usd_nonneg amount (price q) (10 ^ n) (10 ^ m)).
  - apply view_keeps in Hc. rewrite Hc in Hd'. by apply Hd.
Qed.

(** C15: the stored data is well typed. Starting from empty storage, through any
    calls for any accounts and rules in any order and any passing of time, every
    entry of every policy satisfies what its contract assumes when it reads it:
    method and recipient lists have between one and ten entries; condition maps
    are not empty, bounded, and use ordered operators on numbers only; and
    spending data has a positive limit, a non-zero window, one positive divisor
    per allowed token, at most a thousand entries of non-negative amounts, and
    a cached total within the limit. *)
Theorem policies_data_well_typed :
  keeps_well_formed Session.SessionData Session.SessionEvent Session.SessionError
  ∧ keeps_well_formed Recipient.RecipientData Recipient.RecipientEvent Recipient.RecipientError
  ∧ keeps_well_formed ParamScoped.ParameterScopedData ParamScoped.ConditionsEvent
      ParamScoped.ParameterScopedError
  ∧ keeps_well_formed MultiToken.PolicyData MultiToken.NoEvent MultiTokenError.
Proof.
  split_and!; [apply session_keeps_wf|apply recipient_keeps_wf|apply parameter_keeps_wf
    |apply multi_token_keeps_wf].
Qed.
End data.

(** ** Entries in use stay live *)

(** Whoever uses an installed policy keeps it usable: after a successful
    enforcement, or one of the entry points [refreshing] selects, the entry is
    live for at least [threshold] ledgers and its TTL can be extended at each of
    them, whatever else is called, unless it is uninstalled. *)
Definition stays_live `{Policy Data Event Failure} (refreshing : Other → bool)
    (threshold extend_to : Z) : Prop :=
  ∀ max_ttl, TtlLaws max_ttl → extend_to ≤ max_ttl →
  ∀ c (e0 e1 : Env StorageKey Data Event) cs e2,
    run_call c e0 = Ok (tt, e1) → refreshes refreshing c →
    policy_run e1 cs e2 → Forall (λ c', abstract_op c' ≠ RUninstall (call_key c)) cs →
    sequence e2 ≤ sequence e0 + threshold →
    ∃ live live', live_until e2 !! call_key c = Some live ∧ sequence e2 ≤ live
      ∧ ttl_extends e2 (call_key c) threshold extend_to live'.
Arguments stays_live {_} Data Event Failure {_} refreshing threshold extend_to.

Section ttl.
Context `{PriceCodec} `{!ValLaws}.

#[export] Instance session_ttl :
  PolicyTtl (Data := Session.SessionData) (Event := Session.SessionEvent)
    (Failure := Session.SessionError) (λ _, true)
    Session.SESSION_TTL_THRESHOLD Session.SESSION_EXTEND_AMOUNT.
Proof.
  split; [by_cmp| |]; intros max_ttl ? [p r a|r a|ctx sg r a|[i a]] e e';
    simpl; unfold Session.install, Session.uninstall, Session.enforce, Session.get_allowed_fns,
    rule_key; intros; inv_run; ttl_law.
Qed.

Definition recipient_refreshing (o : Recipient.recipient_call) : bool :=
  match o with Recipient.CGetAllowed _ _ => true | Recipient.CSetAllowed _ _ _ => false end.
#[export] Instance recipient_ttl :
  PolicyTtl (Data := Recipient.RecipientData) (Event := Recipient.RecipientEvent)
    (Failure := Recipient.RecipientError) recipient_refreshing
    Recipient.RECIPIENT_TTL_THRESHOLD Recipient.RECIPIENT_EXTEND_AMOUNT.
Proof.
  split; [by_cmp| |]; intros max_ttl ? [p r a|r a|ctx sg r a|[i a|l i a]] e e';
    simpl; unfold Recipient.install, Recipient.uninstall, Recipient.enforce,
    Recipient.set_allowed_recipients, Recipient.get_allowed_recipients,
    Recipient.emit_recipient_installed, Recipient.emit_recipient_uninstalled,
    Recipient.emit_recipient_enforced, rule_key; intros; inv_run; ttl_law.
Qed.

Hint Rewrite @ParamScoped.check_conditions_Ok @ParamScoped.validate_fns_Ok : runs.
#[export] Instance parameter_ttl :
  PolicyTtl (Data := ParamScoped.ParameterScopedData) (Event := ParamScoped.ConditionsEvent)
    (Failure := ParamScoped.ParameterScopedError) (λ _, true)
    ParamScoped.PARAMETER_SCOPED_TTL_THRESHOLD ParamScoped.PARAMETER_SCOPED_EXTEND_AMOUNT.
Proof.
  split; [by_cmp| |]; intros max_ttl ? [p r a|r a|ctx sg r a|[i a]] e e';
    simpl; unfold ParamScoped.install, ParamScoped.uninstall, ParamScoped.enforce,
    ParamScoped.get_conditions, ParamScoped.emit_conditions_installed,
    ParamScoped.emit_conditions_uninstalled, ParamScoped.emit_conditions_enforced, rule_key;
    intros; inv_run; ttl_law.
Qed.

Ltac inv_multi_token :=
  repeat match goal with
  | Hf : fetch_usd_divisor _ _ = Ok _ |- _ =>
      apply fetch_usd_divisor_frame in Hf as (_ & ? & ->)
  | Hf : fetch_token_divisors _ _ = Ok _ |- _ =>
      apply fetch_token_divisors_Ok in Hf as (_ & ? & ->)
  end.
#[export] Instance multi_token_ttl :
  PolicyTtl (Data := MultiToken.PolicyData) (Event := MultiToken.NoEvent)
    (Failure := MultiTokenError) (λ _, true)
    MultiToken.POLICY_TTL_THRESHOLD MultiToken.POLICY_EXTEND_AMOUNT.
Proof.
  split; [by_cmp| |]; intros max_ttl ? [p r a|r a|ctx sg r a|[i a]] e e';
    simpl; unfold MultiToken.install, MultiToken.uninstall, MultiToken.enforce,
    MultiToken.get_policy_data, rule_key; intros; inv_run; inv_multi_token; ttl_law.
Qed.

(** C22: policies in use never lapse. For all four policies: once an enforcement
    or a read (which needs no authorisation) went through for an account and
    rule, the entry stays live for at least the TTL threshold of 29 days of
    ledgers, whatever calls for whatever accounts follow short of its removal,
    and at each of those ledgers its TTL can be extended again; so one use per
    window keeps an installation alive for good. (Replacing a recipient list
    does not extend the TTL, so it does not count as a use.) *)
Theorem policies_stay_live :
  stays_live Session.SessionData Session.SessionEvent Session.SessionError (λ _, true)
    (29 * 17280) (30 * 17280)
  ∧ stays_live Recipient.RecipientData Recipient.RecipientEvent Recipient.RecipientError
      recipient_refreshing (29 * 17280) (30 * 17280)
  ∧ stays_live ParamScoped.ParameterScopedData ParamScoped.ConditionsEvent
      ParamScoped.ParameterScopedError (λ _, true) (29 * 17280) (30 * 17280)
  ∧ stays_live MultiToken.PolicyData MultiToken.NoEvent MultiTokenError (λ _, true)
      (29 * 17280) (30 * 17280).
Proof.
  split_and!; intros max_ttl Hl Hmax c e0 e1 cs e2;
    apply (run_stays_live _ (29 * 17280) (30 * 17280) max_ttl); done.
Qed.
End ttl.

(** At the reference host: the transfer of MultiToken.v after the installation,
    and the session of SessionPolicy.v used once and left alone for 29 days. *)
Definition test_calls : list (call (H := ref_host) PolicyData NoEvent MultiTokenError) :=
  [ test_install;
    @CEnforce ref_host _ _ _ MultiTokenPolicy
      (ContractCtx (H := ref_host) (MultiToken.test_ctx 300000000)) [] MultiToken.test_rule 1%N ].

Lemma policies_data_well_typed_witness :
  well_formed (WellFormed := multi_token_data_wf (H := ref_host)) MultiToken.test_data2.
Proof.
  refine (proj2 (proj2 (proj2 (policies_data_well_typed (H := ref_host)))) MultiToken.test_env0
    test_calls MultiToken.test_env2 _ _ MultiToken.test_key MultiToken.test_data2 _).
  - by_run.
  - apply (run_calls_run (H := ref_host)). by_run.
  - by_run.
Defined.

Definition session_use : call (H := ref_host) Session.SessionData
    (Session.SessionEvent (H := ref_host)) Session.SessionError :=
  @CEnforce ref_host _ _ _ Session.SessionPolicy (Session.test_ctx "swap") Session.test_signers
    Session.test_rule 1%N.
Definition session_env2 :=
  final (run_call (H := ref_host) session_use Session.test_env1) Session.test_env1.
Definition session_later :=
  set_ledger (H := ref_host) (50 + 29 * 17280) 0 (world session_env2) session_env2.

Lemma policies_stay_live_witness :
  ∃ live', ttl_extends (H := ref_host) session_later
    (AccountContext (H := ref_host) 1%N 3) (29 * 17280) (30 * 17280) live'.
Proof.
  destruct (proj1 (policies_stay_live (H := ref_host)) 3110400 (ref_ttl_laws 3110400) ltac:(by_cmp)
    session_use Session.test_env1 session_env2 [] session_later) as (live & live' & _ & _ & Hx).
  - by_run.
  - exact I.
  - refine (policy_time (H := ref_host) session_env2 [] session_env2 (50 + 29 * 17280) 0 _
      (events session_env2) (policy_start (H := ref_host) _) _). by_cmp.
  - constructor.
  - by_cmp.
  - exists live'. exact Hx.
Defined.
