(* ===== verification/WrapperPolicies.v ===== *)
(** * The wrapper policies (policies/threshold-policy, weighted-threshold-policy
      and spending-limit-policy, src/lib.rs)

    Each of these contracts forwards its entry points to a policy module of the
    stellar-accounts crate, which is not in the repository: the module is a
    class here, and what the crate docs of the wrapper say the module does is a
    class of laws.  A wrapper is then a machine on the configuration of each
    (account, rule) pair (Policy.v), which gives the properties of its runs. *)
From S2P Require Import Prelude RustInt Soroban RefHost Policy.
Local Open Scope Z_scope.

(** A step leaves the view [o] under key [k] and the other entries alone. *)
Definition writes `{Host} {Data Event View} (view : Data → View) (k : StorageKey)
    (o : option View) (e e' : Env StorageKey Data Event) : Prop :=
  view <$> persistent e' !! k = o ∧ ∀ k', k' ≠ k → persistent e' !! k' = persistent e !! k'.

(** Takes apart a run of a reference module and closes its law. *)
Ltac module_law :=
  intros; inv_run; unfold writes, store, unstore, rule_key; simpl;
  split_and?; intros; simplify_map_eq; rewrite ?lookup_insert_ne, ?lookup_delete_ne by congruence;
  try done; try lia; eauto.

(** ** policies/threshold-policy *)

Record SimpleThresholdAccountParams := { threshold : Z }.

(** [stellar_accounts::policies::simple_threshold] *)
Class SimpleThreshold `{Host} := {
  st_data : Type; st_event : Type; st_error : Type;
  simple_threshold_enforce : Context → list Signer → ContextRule → Address →
    M (Env StorageKey st_data st_event) st_error unit;
  simple_threshold_install : SimpleThresholdAccountParams → ContextRule → Address →
    M (Env StorageKey st_data st_event) st_error unit;
  simple_threshold_uninstall : ContextRule → Address →
    M (Env StorageKey st_data st_event) st_error unit;
  simple_threshold_get_threshold : Z → Address →
    M (Env StorageKey st_data st_event) st_error Z;
  simple_threshold_set_threshold : Z → ContextRule → Address →
    M (Env StorageKey st_data st_event) st_error unit;
}.

(** What the crate docs say of it: [install] rejects a zero threshold and one
    above the rule's signer count, [enforce] counts the authenticated signers,
    the setter and the getter change and read the stored threshold, and
    [uninstall] removes it. *)
Class SimpleThresholdLaws `{SimpleThreshold} (threshold_of : st_data → Z) : Prop := {
  st_install_law p rule a e e' : simple_threshold_install p rule a e = Ok (tt, e') →
    0 < threshold p ≤ zlen (rule_signers rule)
    ∧ writes threshold_of (rule_key rule a) (Some (threshold p)) e e';
  st_enforce_law ctx signers rule a e e' :
    simple_threshold_enforce ctx signers rule a e = Ok (tt, e') →
    ∃ t, threshold_of <$> persistent e !! rule_key rule a = Some t ∧ t ≤ zlen signers
      ∧ writes threshold_of (rule_key rule a) (Some t) e e';
  st_uninstall_law rule a e e' : simple_threshold_uninstall rule a e = Ok (tt, e') →
    writes threshold_of (rule_key rule a) None e e';
  st_get_law i a t e e' : simple_threshold_get_threshold i a e = Ok (t, e') →
    threshold_of <$> persistent e !! AccountContext a i = Some t
    ∧ writes threshold_of (AccountContext a i) (Some t) e e';
  st_set_law t rule a e e' : simple_threshold_set_threshold t rule a e = Ok (tt, e') →
    writes threshold_of (rule_key rule a) (Some t) e e';
}.

Module Threshold.
Section contract.
Context `{SimpleThreshold}.
Abbreviation TM := (M (Env StorageKey st_data st_event) st_error).

Definition enforce (context : Context) (authenticated_signers : list Signer)
    (context_rule : ContextRule) (smart_account : Address) : TM unit :=
  simple_threshold_enforce context authenticated_signers context_rule smart_account.
Definition install (install_params : SimpleThresholdAccountParams)
    (context_rule : ContextRule) (smart_account : Address) : TM unit :=
  simple_threshold_install install_params context_rule smart_account.
Definition uninstall (context_rule : ContextRule) (smart_account : Address) : TM unit :=
  simple_threshold_uninstall context_rule smart_account.
Definition get_threshold (context_rule_id : Z) (smart_account : Address) : TM Z :=
  simple_threshold_get_threshold context_rule_id smart_account.
Definition set_threshold (threshold : Z) (context_rule : ContextRule) (smart_account : Address) :
    TM unit :=
  simple_threshold_set_threshold threshold context_rule smart_account.

Inductive threshold_call :=
  | CGetThreshold (context_rule_id : Z) (smart_account : Address)
  | CSetThreshold (threshold : Z) (context_rule : ContextRule) (smart_account : Address).

#[export] Instance ThresholdPolicy : Policy st_data st_event st_error := {|
  Policy.AccountParams := SimpleThresholdAccountParams;
  Policy.install := install;
  Policy.uninstall := uninstall;
  Policy.enforce := enforce;
  Policy.Other := threshold_call;
  Policy.other_key := λ c, match c with
    | CGetThreshold i a => AccountContext a i
    | CSetThreshold _ rule a => rule_key rule a end;
  Policy.run_other := λ c, match c with
    | CGetThreshold i a => get_threshold i a ;; mret tt
    | CSetThreshold t rule a => set_threshold t rule a end;
|}.
End contract.

Section laws.
Context `{SimpleThresholdLaws}.
Abbreviation TEnv := (Env StorageKey st_data st_event).
Abbreviation tcall := (call st_data st_event st_error).

(** The configured threshold after a call, and what a call is let through with. *)
Definition next (c : tcall) (v : option Z) : option Z :=
  match c with
  | CInstall p _ _ => Some (threshold p)
  | CUninstall _ _ => None
  | COther (CSetThreshold t _ _) => Some t
  | CEnforce _ _ _ _ | COther (CGetThreshold _ _) => v
  end.
Definition guard (c : tcall) (v : option Z) : Prop :=
  match c with
  | CInstall p rule _ => 0 < threshold p ≤ zlen (rule_signers rule)
  | CEnforce _ signers _ _ => ∃ t, v = Some t ∧ t ≤ zlen signers
  | CUninstall _ _ | COther _ => True
  end.

#[export] Instance threshold_machine : PolicyMachine threshold_of guard next.
Proof.
  split.
  - intros [p r a|r a|ctx sg r a|[i a|t r a]] e e' k; simpl; intros Hc Hk.
    + apply st_install_law in Hc as (_ & _ & Hf). by apply Hf.
    + apply st_uninstall_law in Hc as [_ Hf]. by apply Hf.
    + apply st_enforce_law in Hc as (? & _ & _ & _ & Hf). by apply Hf.
    + inv_run. match goal with Hg : get_threshold _ _ _ = _ |- _ =>
        apply st_get_law in Hg as (_ & _ & Hf) end. by apply Hf.
    + apply st_set_law in Hc as [_ Hf]. by apply Hf.
  - intros [p r a|r a|ctx sg r a|[i a|t r a]] e e'; simpl; intros Hc.
    + by apply st_install_law in Hc as (? & ? & _).
    + by apply st_uninstall_law in Hc as [? _].
    + apply st_enforce_law in Hc as (t & -> & Ht & Hv & _). eauto.
    + inv_run. match goal with Hg : get_threshold _ _ _ = _ |- _ =>
        apply st_get_law in Hg as (-> & ? & _) end. done.
    + by apply st_set_law in Hc as [? _].
Qed.

(** The threshold the calls [cs] configured for a key. *)
Definition configured (k : StorageKey) (cs : list tcall) : option Z := history next k cs.

(** C16: the M-of-N policy over any run. For a module that does what the crate
    docs say, the threshold the contract reports for an account and rule is the
    one last installed or set and not uninstalled since; every call it ever let
    through was authenticated by at least as many signers as the threshold
    configured at that moment; and the documented divergence is real: once the
    rule has fewer signers than the configured threshold, no set of its signers
    gets any call through. *)
Theorem threshold_run (e0 : TEnv) cs e :
  persistent e0 = ∅ → policy_run e0 cs e →
  (∀ i a t e', get_threshold i a e = Ok (t, e') → configured (AccountContext a i) cs = Some t)
  ∧ (∀ pre context signers rule account post,
       cs = pre ++ CEnforce context signers rule account :: post →
       ∃ t, configured (rule_key rule account) pre = Some t ∧ t ≤ zlen signers)
  ∧ (∀ context signers rule account t,
       configured (rule_key rule account) cs = Some t →
       zlen (rule_signers rule) < t → NoDup signers → signers ⊆ rule_signers rule →
       ∀ e', enforce context signers rule account e ≠ Ok (tt, e')).
Proof.
  intros He0 Hrun. split_and!.
  - intros i a t e' [Ht _]%st_get_law. unfold configured.
    by rewrite <- (run_history threshold_of guard next e0 cs e _ He0 Hrun).
  - intros pre context signers rule account post Hcs.
    exact (run_guarded threshold_of guard next e0 cs e pre _ post He0 Hrun Hcs).
  - intros context signers rule account t Ht Hlt Hnd Hsub e' (t' & Ht' & Hle & _)%st_enforce_law.
    unfold configured in Ht. rewrite <- (run_history threshold_of guard next e0 cs e _ He0 Hrun) in Ht.
    simplify_eq. pose proof (NoDup_submseteq _ _ Hnd Hsub) as Hlen%submseteq_length.
    unfold zlen in *. lia.
Qed.
End laws.
End Threshold.

(** ** policies/weighted-threshold-policy *)

(** The weights of a rule's signers and the threshold. *)
Abbreviation Weights := (gmap Signer Z).
Definition weight_of `{Host} (weights : Weights) (signers : list Signer) : Z :=
  sumZ ((λ s, default 0 (weights !! s)) <$> signers).
Definition total_weight `{Host} (weights : Weights) : Z := sumZ (snd <$> map_to_list weights).

(** [stellar_accounts::policies::weighted_threshold] *)
Class WeightedThreshold `{Host} := {
  wt_data : Type; wt_event : Type; wt_error : Type;
  WeightedThresholdAccountParams : Type;
  params_weights : WeightedThresholdAccountParams → Weights;
  params_threshold : WeightedThresholdAccountParams → Z;
  weighted_threshold_enforce : Context → list Signer → ContextRule → Address →
    M (Env StorageKey wt_data wt_event) wt_error unit;
  weighted_threshold_install : WeightedThresholdAccountParams → ContextRule → Address →
    M (Env StorageKey wt_data wt_event) wt_error unit;
  weighted_threshold_uninstall : ContextRule → Address →
    M (Env StorageKey wt_data wt_event) wt_error unit;
  weighted_threshold_get_threshold : Z → Address →
    M (Env StorageKey wt_data wt_event) wt_error Z;
  weighted_threshold_get_signer_weights : ContextRule → Address →
    M (Env StorageKey wt_data wt_event) wt_error Weights;
  weighted_threshold_set_threshold : Z → ContextRule → Address →
    M (Env StorageKey wt_data wt_event) wt_error unit;
  weighted_threshold_set_signer_weight : Signer → Z → ContextRule → Address →
    M (Env StorageKey wt_data wt_event) wt_error unit;
}.

(** The crate docs: [install] rejects a zero threshold and one above the sum of
    the weights; [enforce] sums the authenticated signers' weights, an unknown
    signer contributing nothing; the setters change one weight or the threshold
    and the getters read them; [uninstall] removes both. *)
Class WeightedThresholdLaws `{WeightedThreshold} (config : wt_data → Weights * Z) : Prop := {
  wt_install_law p rule a e e' : weighted_threshold_install p rule a e = Ok (tt, e') →
    0 < params_threshold p ≤ total_weight (params_weights p)
    ∧ writes config (rule_key rule a) (Some (params_weights p, params_threshold p)) e e';
  wt_enforce_law ctx signers rule a e e' :
    weighted_threshold_enforce ctx signers rule a e = Ok (tt, e') →
    ∃ ws t, config <$> persistent e !! rule_key rule a = Some (ws, t)
      ∧ t ≤ weight_of ws signers ∧ writes config (rule_key rule a) (Some (ws, t)) e e';
  wt_uninstall_law rule a e e' : weighted_threshold_uninstall rule a e = Ok (tt, e') →
    writes config (rule_key rule a) None e e';
  wt_get_threshold_law i a t e e' : weighted_threshold_get_threshold i a e = Ok (t, e') →
    ∃ ws, config <$> persistent e !! AccountContext a i = Some (ws, t)
      ∧ writes config (AccountContext a i) (Some (ws, t)) e e';
  wt_get_signer_weights_law rule a ws e e' :
    weighted_threshold_get_signer_weights rule a e = Ok (ws, e') →
    ∃ t, config <$> persistent e !! rule_key rule a = Some (ws, t)
      ∧ writes config (rule_key rule a) (Some (ws, t)) e e';
  wt_set_threshold_law t rule a e e' : weighted_threshold_set_threshold t rule a e = Ok (tt, e') →
    writes config (rule_key rule a)
      ((λ x, (fst x, t)) <$> (config <$> persistent e !! rule_key rule a)) e e';
  wt_set_signer_weight_law s w rule a e e' :
    weighted_threshold_set_signer_weight s w rule a e = Ok (tt, e') →
    writes config (rule_key rule a)
      ((λ x, (<[s := w]> (fst x), snd x)) <$> (config <$> persistent e !! rule_key rule a)) e e';
}.

Module Weighted.
Section contract.
Context `{WeightedThreshold}.
Abbreviation WM := (M (Env StorageKey wt_data wt_event) wt_error).

Definition enforce (context : Context) (authenticated_signers : list Signer)
    (context_rule : ContextRule) (smart_account : Address) : WM unit :=
  weighted_threshold_enforce context authenticated_signers context_rule smart_account.
Definition install (install_params : WeightedThresholdAccountParams)
    (context_rule : ContextRule) (smart_account : Address) : WM unit :=
  weighted_threshold_install install_params context_rule smart_account.
Definition uninstall (context_rule : ContextRule) (smart_account : Address) : WM unit :=
  weighted_threshold_uninstall context_rule smart_account.
Definition get_threshold (context_rule_id : Z) (smart_account : Address) : WM Z :=
  weighted_threshold_get_threshold context_rule_id smart_account.
Definition get_signer_weights (context_rule : ContextRule) (smart_account : Address) :
    WM Weights :=
  weighted_threshold_get_signer_weights context_rule smart_account.
Definition set_threshold (threshold : Z) (context_rule : ContextRule) (smart_account : Address) :
    WM unit :=
  weighted_threshold_set_threshold threshold context_rule smart_account.
Definition set_signer_weight (signer : Signer) (weight : Z) (context_rule : ContextRule)
    (smart_account : Address) : WM unit :=
  weighted_threshold_set_signer_weight signer weight context_rule smart_account.

Inductive weighted_call :=
  | CGetThreshold (context_rule_id : Z) (smart_account : Address)
  | CGetSignerWeights (context_rule : ContextRule) (smart_account : Address)
  | CSetThreshold (threshold : Z) (context_rule : ContextRule) (smart_account : Address)
  | CSetSignerWeight (signer : Signer) (weight : Z) (context_rule : ContextRule)
      (smart_account : Address).

#[export] Instance WeightedThresholdPolicy : Policy wt_data wt_event wt_error := {|
  Policy.AccountParams := WeightedThresholdAccountParams;
  Policy.install := install;
  Policy.uninstall := uninstall;
  Policy.enforce := enforce;
  Policy.Other := weighted_call;
  Policy.other_key := λ c, match c with
    | CGetThreshold i a => AccountContext a i
    | CGetSignerWeights rule a | CSetThreshold _ rule a | CSetSignerWeight _ _ rule a =>
        rule_key rule a end;
  Policy.run_other := λ c, match c with
    | CGetThreshold i a => get_threshold i a ;; mret tt
    | CGetSignerWeights rule a => get_signer_weights rule a ;; mret tt
    | CSetThreshold t rule a => set_threshold t rule a
    | CSetSignerWeight s w rule a => set_signer_weight s w rule a end;
|}.
End contract.

Section laws.
Context `{WeightedThresholdLaws}.
Abbreviation WEnv := (Env StorageKey wt_data wt_event).
Abbreviation wcall := (call wt_data wt_event wt_error).

Definition next (c : wcall) (v : option (Weights * Z)) : option (Weights * Z) :=
  match c with
  | CInstall p _ _ => Some (params_weights p, params_threshold p)
  | CUninstall _ _ => None
  | COther (CSetThreshold t _ _) => (λ x, (fst x, t)) <$> v
  | COther (CSetSignerWeight s w _ _) => (λ x, (<[s := w]> (fst x), snd x)) <$> v
  | CEnforce _ _ _ _ | COther _ => v
  end.
Definition guard (c : wcall) (v : option (Weights * Z)) : Prop :=
  match c with
  | CInstall p _ _ => 0 < params_threshold p ≤ total_weight (params_weights p)
  | CEnforce _ signers _ _ => ∃ ws t, v = Some (ws, t) ∧ t ≤ weight_of ws signers
  | CUninstall _ _ | COther _ => True
  end.

#[export] Instance weighted_machine : PolicyMachine config guard next.
Proof.
  assert (∀ c (e e' : WEnv), run_call c e = Ok (tt, e') →
    ∃ v, guard c (config <$> persistent e !! call_key c)
      ∧ next c (config <$> persistent e !! call_key c) = v
      ∧ writes config (call_key c) v e e') as Hcall.
  { intros [p r a|r a|ctx sg r a|[i a|r a|t r a|s w r a]] e e'; simpl; intros Hc.
    - apply wt_install_law in Hc as (? & ?). eauto.
    - apply wt_uninstall_law in Hc. eauto.
    - apply wt_enforce_law in Hc as (ws & t & -> & ? & ?). eauto 10.
    - inv_run. match goal with Hg : get_threshold _ _ _ = _ |- _ =>
        apply wt_get_threshold_law in Hg as (ws & -> & ?) end. eauto.
    - inv_run. match goal with Hg : get_signer_weights _ _ _ = _ |- _ =>
        apply wt_get_signer_weights_law in Hg as (t & -> & ?) end. eauto.
    - apply wt_set_threshold_law in Hc. eauto.
    - apply wt_set_signer_weight_law in Hc. eauto. }
  split.
  - intros c e e' k Hc Hk. apply Hcall in Hc as (v & _ & _ & _ & Hf). by apply Hf.
  - intros c e e' Hc. apply Hcall in Hc as (v & Hg & <- & Hv & _). done.
Qed.

(** The weights and the threshold the calls [cs] configured for a key. *)
Definition configured (k : StorageKey) (cs : list wcall) : option (Weights * Z) :=
  history next k cs.

Lemma weight_of_perm ws l1 l2 : l1 ≡ₚ l2 → weight_of ws l1 = weight_of ws l2.
Proof.
  unfold weight_of. induction 1 as [|x l1 l2 _ IH|x y l|l1 l2 l3 _ IH1 _ IH2];
    rewrite ?fmap_cons; simpl; [done|by rewrite IH|lia|by rewrite IH1].
Qed.

(** Distinct signers of a rule weigh at most as much as all of its signers. *)
Lemma weight_of_sub ws l1 l2 :
  map_Forall (λ _ w, 0 ≤ w) ws → NoDup l1 → l1 ⊆ l2 → weight_of ws l1 ≤ weight_of ws l2.
Proof.
  intros Hws Hnd Hsub. destruct (submseteq_Permutation _ _ (NoDup_submseteq _ _ Hnd Hsub)) as [l Hl].
  rewrite (weight_of_perm ws l2 _ Hl). unfold weight_of. rewrite fmap_app, sumZ_app.
  enough (0 ≤ sumZ ((λ s, default 0 (ws !! s)) <$> l)) by lia.
  apply sumZ_nonneg, Forall_fmap, Forall_true. intros s. simpl.
  destruct (ws !! s) as [w|] eqn:Hw; [by apply (Hws s)|done].
Qed.

(** C17: the weighted policy over any run. For a module that does what the crate
    docs say, the weights and the threshold the contract reports are those the
    history of installs and setters configured; every call let through had
    authenticated signers weighing at least the threshold configured at that
    moment; and once the signers of a rule weigh less than the threshold
    together, no set of them gets any call through. *)
Theorem weighted_run (e0 : WEnv) cs e :
  persistent e0 = ∅ → policy_run e0 cs e →
  (∀ i a t e', get_threshold i a e = Ok (t, e') →
     snd <$> configured (AccountContext a i) cs = Some t)
  ∧ (∀ rule a ws e', get_signer_weights rule a e = Ok (ws, e') →
     fst <$> configured (rule_key rule a) cs = Some ws)
  ∧ (∀ pre context signers rule account post,
       cs = pre ++ CEnforce context signers rule account :: post →
       ∃ ws t, configured (rule_key rule account) pre = Some (ws, t) ∧ t ≤ weight_of ws signers)
  ∧ (∀ context signers rule account ws t,
       configured (rule_key rule account) cs = Some (ws, t) → map_Forall (λ _ w, 0 ≤ w) ws →
       weight_of ws (rule_signers rule) < t → NoDup signers → signers ⊆ rule_signers rule →
       ∀ e', enforce context signers rule account e ≠ Ok (tt, e')).
Proof.
  intros He0 Hrun.
  assert (∀ k, configured k cs = config <$> persistent e !! k) as Hk.
  { intros k. symmetry. exact (run_history config guard next e0 cs e k He0 Hrun). }
  split_and!.
  - intros i a t e' (ws & Hv & _)%wt_get_threshold_law. by rewrite Hk, Hv.
  - intros rule a ws e' (t & Hv & _)%wt_get_signer_weights_law. by rewrite Hk, Hv.
  - intros pre context signers rule account post Hcs.
    exact (run_guarded config guard next e0 cs e pre _ post He0 Hrun Hcs).
  - intros context signers rule account ws t Hc Hws Hlt Hnd Hsub e' (ws' & t' & Ht & Hle & _)%wt_enforce_law.
    rewrite Hk, Ht in Hc. simplify_eq.
    pose proof (weight_of_sub ws signers (rule_signers rule) Hws Hnd Hsub). lia.
Qed.
End laws.
End Weighted.

(** ** policies/spending-limit-policy *)

Record SpendingLimitAccountParams := { spending_limit : Z; period_ledgers : Z }.

(** [stellar_accounts::policies::spending_limit]; the data of an installation
    has a limit and a period. *)
Class SpendingLimit `{Host} := {
  SpendingLimitData : Type; sl_event : Type; sl_error : Type;
  spending_limit_enforce : Context → list Signer → ContextRule → Address →
    M (Env StorageKey SpendingLimitData sl_event) sl_error unit;
  spending_limit_install : SpendingLimitAccountParams → ContextRule → Address →
    M (Env StorageKey SpendingLimitData sl_event) sl_error unit;
  spending_limit_uninstall : ContextRule → Address →
    M (Env StorageKey SpendingLimitData sl_event) sl_error unit;
  spending_limit_get_data : Z → Address →
    M (Env StorageKey SpendingLimitData sl_event) sl_error SpendingLimitData;
  spending_limit_set : Z → ContextRule → Address →
    M (Env StorageKey SpendingLimitData sl_event) sl_error unit;
}.

(** What a context transfers under the policy: the amount of a call named
    [transfer], its third argument. *)
Definition transfer_amount `{Host} (context : Context) : option Z :=
  match context with
  | ContractCtx c =>
      if decide (fn_name c = "transfer"%string) then args c !! 2%nat ≫= val_to_i128 else None
  | _ => None
  end.

(** The crate docs: [install] rejects a rule that is not [CallContract] and a
    limit or period that is not positive; [enforce] refuses any call but a
    [transfer] and an amount that, on top of the [spent] of the window, exceeds
    the limit; the setter changes the limit, the getter reads the data, and
    [uninstall] removes it. *)
Class SpendingLimitLaws `{SpendingLimit} (config : SpendingLimitData → Z * Z)
    (spent : SpendingLimitData → Z → Z) : Prop := {
  sl_spent_nonneg d now : 0 ≤ spent d now;
  sl_install_law p rule a e e' : spending_limit_install p rule a e = Ok (tt, e') →
    (is_call_contract (context_type rule) = true ∧ 0 < spending_limit p ∧ 0 < period_ledgers p)
    ∧ writes config (rule_key rule a) (Some (spending_limit p, period_ledgers p)) e e';
  sl_enforce_law ctx signers rule a e e' : spending_limit_enforce ctx signers rule a e = Ok (tt, e') →
    ∃ d amount, persistent e !! rule_key rule a = Some d
      ∧ transfer_amount ctx = Some amount ∧ amount + spent d (sequence e) ≤ fst (config d)
      ∧ writes config (rule_key rule a) (Some (config d)) e e';
  sl_uninstall_law rule a e e' : spending_limit_uninstall rule a e = Ok (tt, e') →
    writes config (rule_key rule a) None e e';
  sl_get_law i a d e e' : spending_limit_get_data i a e = Ok (d, e') →
    persistent e !! AccountContext a i = Some d
    ∧ writes config (AccountContext a i) (Some (config d)) e e';
  sl_set_law l rule a e e' : spending_limit_set l rule a e = Ok (tt, e') →
    writes config (rule_key rule a)
      ((λ x, (l, snd x)) <$> (config <$> persistent e !! rule_key rule a)) e e';
}.

Module Spending.
Section contract.
Context `{SpendingLimit}.
Abbreviation SM := (M (Env StorageKey SpendingLimitData sl_event) sl_error).

Definition enforce (context : Context) (authenticated_signers : list Signer)
    (context_rule : ContextRule) (smart_account : Address) : SM unit :=
  spending_limit_enforce context authenticated_signers context_rule smart_account.
Definition install (install_params : SpendingLimitAccountParams)
    (context_rule : ContextRule) (smart_account : Address) : SM unit :=
  spending_limit_install install_params context_rule smart_account.
Definition uninstall (context_rule : ContextRule) (smart_account : Address) : SM unit :=
  spending_limit_uninstall context_rule smart_account.
Definition get_spending_limit_data (context_rule_id : Z) (smart_account : Address) :
    SM SpendingLimitData :=
  spending_limit_get_data context_rule_id smart_account.
Definition set_spending_limit (limit : Z) (context_rule : ContextRule) (smart_account : Address) :
    SM unit :=
  spending_limit_set limit context_rule smart_account.

Inductive spending_call :=
  | CGetData (context_rule_id : Z) (smart_account : Address)
  | CSetLimit (limit : Z) (context_rule : ContextRule) (smart_account : Address).

#[export] Instance SpendingLimitPolicy : Policy SpendingLimitData sl_event sl_error := {|
  Policy.AccountParams := SpendingLimitAccountParams;
  Policy.install := install;
  Policy.uninstall := uninstall;
  Policy.enforce := enforce;
  Policy.Other := spending_call;
  Policy.other_key := λ c, match c with
    | CGetData i a => AccountContext a i
    | CSetLimit _ rule a => rule_key rule a end;
  Policy.run_other := λ c, match c with
    | CGetData i a => get_spending_limit_data i a ;; mret tt
    | CSetLimit l rule a => set_spending_limit l rule a end;
|}.
End contract.

Section laws.
Context `{SpendingLimitLaws}.
Abbreviation SEnv := (Env StorageKey SpendingLimitData sl_event).
Abbreviation scall := (call SpendingLimitData sl_event sl_error).

(** The limit and the period of a key. *)
Definition next (c : scall) (v : option (Z * Z)) : option (Z * Z) :=
  match c with
  | CInstall p _ _ => Some (spending_limit p, period_ledgers p)
  | CUninstall _ _ => None
  | COther (CSetLimit l _ _) => (λ x, (l, snd x)) <$> v
  | CEnforce _ _ _ _ | COther (CGetData _ _) => v
  end.
Definition guard (c : scall) (v : option (Z * Z)) : Prop :=
  match c with
  | CInstall p rule _ => is_call_contract (context_type rule) = true
      ∧ 0 < spending_limit p ∧ 0 < period_ledgers p
  | CEnforce ctx _ _ _ => ∃ limit period amount,
      v = Some (limit, period) ∧ transfer_amount ctx = Some amount ∧ amount ≤ limit
  | CUninstall _ _ | COther _ => True
  end.

#[export] Instance spending_machine : PolicyMachine config guard next.
Proof.
  assert (∀ c (e e' : SEnv), run_call c e = Ok (tt, e') →
    ∃ v, guard c (config <$> persistent e !! call_key c)
      ∧ next c (config <$> persistent e !! call_key c) = v
      ∧ writes config (call_key c) v e e') as Hcall.
  { intros [p r a|r a|ctx sg r a|[i a|l r a]] e e'; simpl; intros Hc.
    - apply sl_install_law in Hc as (? & ?). eauto.
    - apply sl_uninstall_law in Hc. eauto.
    - apply sl_enforce_law in Hc as (d & amount & -> & Ha & Hle & Hw).
      pose proof (sl_spent_nonneg d (sequence e)). eexists. split_and!; [|done|exact Hw].
      exists (fst (config d)), (snd (config d)), amount. simpl.
      split_and!; [by destruct (config d)|done|lia].
    - inv_run. match goal with Hg : get_spending_limit_data _ _ _ = _ |- _ =>
        apply sl_get_law in Hg as (-> & ?) end. eauto.
    - apply sl_set_law in Hc. eauto. }
  split.
  - intros c e e' k Hc Hk. apply Hcall in Hc as (v & _ & _ & _ & Hf). by apply Hf.
  - intros c e e' Hc. apply Hcall in Hc as (v & Hg & <- & Hv & _). done.
Qed.

(** The limit and the period the calls [cs] configured for a key. *)
Definition configured (k : StorageKey) (cs : list scall) : option (Z * Z) := history next k cs.

(** The spending-limit policy over any run. For a module that does what the
    crate docs say, the data the contract reports has the limit and the period
    the history of installs and setters configured, and every call it ever let
    through was a [transfer] of no more than the limit configured at that
    moment; any other call is refused, whatever the limit. *)
Theorem spending_run (e0 : SEnv) cs e :
  persistent e0 = ∅ → policy_run e0 cs e →
  (∀ i a d e', get_spending_limit_data i a e = Ok (d, e') →
     configured (AccountContext a i) cs = Some (config d))
  ∧ (∀ pre context signers rule account post,
       cs = pre ++ CEnforce context signers rule account :: post →
       ∃ limit period amount, configured (rule_key rule account) pre = Some (limit, period)
         ∧ transfer_amount context = Some amount ∧ amount ≤ limit)
  ∧ (∀ context signers rule account e', transfer_amount context = None →
       enforce context signers rule account e ≠ Ok (tt, e')).
Proof.
  intros He0 Hrun. split_and!.
  - intros i a d e' [Hd _]%sl_get_law. unfold configured.
    by rewrite <- (run_history config guard next e0 cs e _ He0 Hrun), Hd.
  - intros pre context signers rule account post Hcs.
    exact (run_guarded config guard next e0 cs e pre _ post He0 Hrun Hcs).
  - intros context signers rule account e' Hn (d & amount & _ & Ht & _)%sl_enforce_law. congruence.
Qed.
End laws.
End Spending.

(** ** Reference modules, and witnesses *)

Section reference.
Context `{Host}.
Abbreviation RM D := (M (Env StorageKey D unit) unit).

(** What the three modules share: authorisation, one installation per pair,
    removal, reading and changing an installed entry. *)
Definition r_install {D} (ok : bool) (d : D) (rule : ContextRule) (a : Address) : RM D unit :=
  require_auth a ;;
  throw_if (negb ok) tt ;;
  has ← persistent_has (rule_key rule a);
  throw_if has tt ;;
  persistent_set (rule_key rule a) d.
Definition r_uninstall {D} (rule : ContextRule) (a : Address) : RM D unit :=
  require_auth a ;; persistent_remove (rule_key rule a).
Definition r_get {D} (i : Z) (a : Address) : RM D D :=
  o ← persistent_get (AccountContext a i); unwrap_or_throw o tt.
Definition r_update {D} (f : D → D) (rule : ContextRule) (a : Address) : RM D unit :=
  require_auth a ;;
  d ← r_get (rule_id rule) a;
  persistent_set (rule_key rule a) (f d).
Definition r_enforce {D} (test : D → Z → option D) (rule : ContextRule) (a : Address) :
    RM D unit :=
  require_auth a ;;
  d ← r_get (rule_id rule) a;
  now ← ledger_sequence;
  d' ← unwrap_or_throw (test d now) tt;
  persistent_set (rule_key rule a) d'.

Context {D View : Type} (view : D → View).
Implicit Types e : Env StorageKey D unit.

Lemma r_install_Ok ok d rule a e e' :
  r_install ok d rule a e = Ok (tt, e') →
  ok = true ∧ writes view (rule_key rule a) (Some (view d)) e e'.
Proof. unfold r_install. module_law. Qed.
Lemma r_uninstall_Ok rule a e e' :
  r_uninstall rule a e = Ok (tt, e') → writes view (rule_key rule a) None e e'.
Proof. unfold r_uninstall. module_law. Qed.
Lemma r_get_Ok i a d e e' :
  r_get i a e = Ok (d, e') →
  persistent e !! AccountContext a i = Some d
  ∧ writes view (AccountContext a i) (Some (view d)) e e'.
Proof.
  unfold r_get. intros. inv_run. unfold writes. 
  match goal with Hp : persistent _ !! _ = Some _ |- _ => by rewrite Hp end.
Qed.
Lemma r_update_Ok f g rule a e e' :
  (∀ d, view (f d) = g (view d)) → r_update f rule a e = Ok (tt, e') →
  writes view (rule_key rule a)
    (g <$> (view <$> persistent e !! rule_key rule a)) e e'.
Proof.
  unfold r_update, r_get. intros Hfg ?. inv_run. unfold writes, store, rule_key. simpl in *. 
  match goal with Hp : persistent _ !! _ = Some _ |- _ => rewrite Hp end. simpl.
  split; [by rewrite lookup_insert_eq; simpl; rewrite Hfg|].
  intros. by rewrite lookup_insert_ne.
Qed.
Lemma r_enforce_Ok test rule a e e' :
  (∀ d now d', test d now = Some d' → view d' = view d) → r_enforce test rule a e = Ok (tt, e') →
  ∃ d, persistent e !! rule_key rule a = Some d
    ∧ is_Some (test d (sequence e))
    ∧ writes view (rule_key rule a) (Some (view d)) e e'.
Proof.
  unfold r_enforce, r_get. intros Ht ?. inv_run. simpl in *.
  match goal with Hp : persistent _ !! _ = Some ?d |- _ => exists d; split; [done|] end.
  split; [eauto|]. unfold writes, store, rule_key. simpl.
  split; [rewrite lookup_insert_eq; simpl; f_equal; by eapply Ht|].
  intros. by rewrite lookup_insert_ne.
Qed.

End reference.

Section modules.
Context `{Host}.

Definition simple_threshold_module : SimpleThreshold :=
  Build_SimpleThreshold _ Z unit unit
    (λ _ signers, r_enforce (λ t _, if t <=? zlen signers then Some t else None))
    (λ p rule, r_install ((0 <? threshold p) && (threshold p <=? zlen (rule_signers rule)))
                 (threshold p) rule)
    r_uninstall r_get (λ t, r_update (λ _, t)).

Lemma simple_threshold_module_laws : SimpleThresholdLaws (H0 := simple_threshold_module) (λ t, t).
Proof.
  split; simpl.
  - intros p rule a e e' [Hok Hw]%(r_install_Ok (λ t, t)).
    apply andb_prop in Hok as [?%Z.ltb_lt ?%Z.leb_le]. done.
  - intros ctx signers rule a e e' He. apply (r_enforce_Ok (λ t, t)) in He as (t & Ht & [? Hs] & Hw).
    + exists t. rewrite Ht. split; [done|]. split; [|done]. by destruct (Z.leb_spec t (zlen signers)).
    + intros d now d'. by destruct (d <=? _); intros [= ->].
  - intros rule a e e'. apply (r_uninstall_Ok (λ t, t)).
  - intros i a t e e' Hg. apply (r_get_Ok (λ t, t)) in Hg as [-> Hw]. done.
  - intros t rule a e e' Hu. pose proof Hu as Hu'. unfold r_update, r_get in Hu'.
    inv_run. simpl in *. apply (r_update_Ok (λ t, t) (λ _, t) (λ _, t)) in Hu; [|done].
    match goal with Hp : persistent _ !! _ = Some _ |- _ => unfold rule_key in Hu; rewrite Hp in Hu end.
    exact Hu.
Qed.

Definition weighted_threshold_module : WeightedThreshold :=
  Build_WeightedThreshold _ (gmap (Signer) Z * Z) unit unit
    (gmap (Signer) Z * Z) fst snd
    (λ _ signers, r_enforce (λ d _, if snd d <=? weight_of (fst d) signers
                                    then Some d else None))
    (λ p rule, r_install ((0 <? snd p) && (snd p <=? total_weight (fst p))) p rule)
    r_uninstall
    (λ i a, d ← r_get i a; mret (snd d))
    (λ rule a, d ← r_get (rule_id rule) a; mret (fst d))
    (λ t, r_update (λ d, (fst d, t)))
    (λ s w, r_update (λ d, (<[s := w]> (fst d), snd d))).

Lemma weighted_threshold_module_laws : WeightedThresholdLaws (H0 := weighted_threshold_module) (λ d, d).
Proof.
  split; simpl.
  - intros [ws t] rule a e e' [Hok Hw]%(r_install_Ok (λ d, d)).
    apply andb_prop in Hok as [?%Z.ltb_lt ?%Z.leb_le]. done.
  - intros ctx signers rule a e e' He. apply (r_enforce_Ok (λ d, d)) in He as ([ws t] & Ht & [? Hs] & Hw).
    + exists ws, t. rewrite Ht. split; [done|]. split; [|done]. simpl in Hs.
      by destruct (Z.leb_spec t (weight_of ws signers)).
    + intros d now d'. by destruct (_ <=? _); intros [= ->].
  - intros rule a e e'. apply (r_uninstall_Ok (λ d, d)).
  - intros i a t e e' Hr. apply bind_Ok in Hr as ([ws t'] & e1 & Hg & [-> ->]%ret_Ok).
    apply (r_get_Ok (λ d, d)) in Hg as [Hd Hw]. exists ws. split; [exact (f_equal (fmap (λ d, d)) Hd)|exact Hw].
  - intros rule a ws e e' Hr. apply bind_Ok in Hr as ([ws' t] & e1 & Hg & [-> ->]%ret_Ok).
    apply (r_get_Ok (λ d, d)) in Hg as [Hd Hw]. exists t. split; [exact (f_equal (fmap (λ d, d)) Hd)|exact Hw].
  - intros t rule a e e'. by apply (r_update_Ok (λ d, d) _ (λ d, (fst d, t))).
  - intros s w rule a e e'. by apply (r_update_Ok (λ d, d) _ (λ d, (<[s := w]> (fst d), snd d))).
Qed.

(** The limit, the period and the spent amounts with their ledgers. *)
Record RSpending := mkRSpending { r_config : Z * Z; r_spending : list (Z * Z) }.
Definition r_spent (d : RSpending) (now : Z) : Z :=
  sumZ ((λ x, Z.max 0 (fst x)) <$> filter (λ x, now - snd (r_config d) < snd x) (r_spending d)).

Definition spending_limit_module : SpendingLimit :=
  Build_SpendingLimit _ RSpending unit unit
    (λ ctx _, r_enforce (λ d now,
       amount ← transfer_amount ctx;
       if amount + r_spent d now <=? fst (r_config d)
       then Some (mkRSpending (r_config d) (r_spending d ++ [(amount, now)])) else None))
    (λ p rule, r_install (is_call_contract (context_type rule) && (0 <? spending_limit p)
                          && (0 <? period_ledgers p))
                 (mkRSpending (spending_limit p, period_ledgers p) []) rule)
    r_uninstall r_get
    (λ l, r_update (λ d, mkRSpending (l, snd (r_config d)) (r_spending d))).

Lemma spending_limit_module_laws :
  SpendingLimitLaws (H0 := spending_limit_module) r_config r_spent.
Proof.
  split; simpl.
  - intros d now. apply sumZ_nonneg, Forall_fmap, Forall_true. simpl. lia.
  - intros p rule a e e' [Hok Hw]%(r_install_Ok r_config). apply andb_prop in Hok as [Hok ?%Z.ltb_lt].
    apply andb_prop in Hok as [? ?%Z.ltb_lt]. done.
  - intros ctx signers rule a e e' He. apply (r_enforce_Ok r_config) in He as (d & Ht & [? Hs] & Hw).
    + destruct (transfer_amount ctx) as [amount|]; [|done]. exists d, amount.
      split_and!; [done|done| |done]. simpl in Hs. by destruct (Z.leb_spec (amount + r_spent d (sequence e)) (r_config d).1).
    + intros d now d' Hd'. destruct (transfer_amount ctx); [|done]. simpl in Hd'. 
      destruct (_ <=? _); [|done]. by injection Hd' as <-.
  - intros rule a e e'. apply (r_uninstall_Ok r_config).
  - intros i a d e e'. apply (r_get_Ok r_config).
  - intros l rule a e e'. by apply (r_update_Ok r_config _ (λ x, (l, snd x))).
Qed.

End modules.

#[export] Instance ref_simple_threshold : SimpleThreshold (H := ref_host) := simple_threshold_module.
#[export] Instance ref_simple_threshold_laws : SimpleThresholdLaws (H := ref_host) (λ t, t) :=
  simple_threshold_module_laws.
#[export] Instance ref_weighted_threshold : WeightedThreshold (H := ref_host) :=
  weighted_threshold_module.
#[export] Instance ref_weighted_threshold_laws : WeightedThresholdLaws (H := ref_host) (λ d, d) :=
  weighted_threshold_module_laws.
#[export] Instance ref_spending_limit : SpendingLimit (H := ref_host) := spending_limit_module.
#[export] Instance ref_spending_limit_laws : SpendingLimitLaws (H := ref_host) r_config r_spent :=
  spending_limit_module_laws.

(** Account 1, rule 3 with the signers 2 and 3, each contract at 9. *)
Definition test_signer (a : N) : Signer (H := ref_host) := Delegated (H := ref_host) a.
Definition test_rule (signers : list N) : ContextRule (H := ref_host) :=
  mkContextRule (H := ref_host) 3 (CallContract (H := ref_host) 5%N) (test_signer <$> signers).
Definition test_transfer (amount : Z) : Context (H := ref_host) :=
  ContractCtx (H := ref_host) (mkContractContext (H := ref_host) 5%N "transfer"
    [RAddress 1; RAddress 20; RI128 amount]).
Definition test_env {D} : Env (H := ref_host) StorageKey D unit := ref_env 9%N 50 0 (ref_world [1%N] ∅).

(** Two of two, an authorised call, then one signer is removed from the rule
    without lowering the threshold. *)
Definition threshold_calls : list (call (H := ref_host) Z unit unit) :=
  let P := Threshold.ThresholdPolicy (H := ref_host) in
  [ @CInstall _ _ _ _ P {| threshold := 2 |} (test_rule [2; 3]%N) 1%N;
    @CEnforce _ _ _ _ P (test_transfer 7) (test_signer <$> [2; 3]%N) (test_rule [2; 3]%N) 1%N ].
Definition threshold_env := final (run_calls threshold_calls test_env) test_env.
Lemma threshold_ran : run_calls threshold_calls test_env = Ok (tt, threshold_env).
Proof. apply ok_final. by_run. Qed.

Lemma threshold_run_witness :
  Threshold.configured (H := ref_host) (AccountContext (H := ref_host) 1%N 3) threshold_calls = Some 2
  ∧ Threshold.enforce (H := ref_host) (test_transfer 7) [test_signer 2%N] (test_rule [2%N]) 1%N
      threshold_env ≠ Ok (tt, threshold_env).
Proof.
  pose proof (Threshold.threshold_run (H := ref_host) (H0 := ref_simple_threshold) (threshold_of := λ t : Z, t) test_env threshold_calls
    threshold_env eq_refl (run_calls_run (H := ref_host) _ _ _ threshold_ran)) as (Hget & _ & Hdiv).
  split.
  - refine (Hget 3 1%N 2 threshold_env _). by_run.
  - refine (Hdiv (test_transfer 7) [test_signer 2%N] (test_rule [2%N]) 1%N 2 _ _ _ _ _).
    + by_run.
    + by_cmp.
    + apply (bool_decide_unpack _). by vm_compute.
    + done.
Defined.

(** The crate docs' example: a CEO of weight 100, a CTO and a CFO of weight 75
    and the threshold 150; then the rule is left with the CEO alone. *)
Definition weighted_calls :
    list (call (H := ref_host) (gmap (Signer (H := ref_host)) Z * Z) unit unit) :=
  let P := Weighted.WeightedThresholdPolicy (H := ref_host) in
  let weights := {[ test_signer 2%N := 100; test_signer 3%N := 75; test_signer 4%N := 75 ]} in
  [ @CInstall _ _ _ _ P (weights, 150) (test_rule [2; 3; 4]%N) 1%N;
    @CEnforce _ _ _ _ P (test_transfer 7) (test_signer <$> [3; 4]%N) (test_rule [2; 3; 4]%N) 1%N ].
Definition weighted_env := final (run_calls weighted_calls test_env) test_env.
Lemma weighted_ran : run_calls weighted_calls test_env = Ok (tt, weighted_env).
Proof. apply ok_final. by_run. Qed.

Lemma weighted_run_witness :
  snd <$> Weighted.configured (H := ref_host) (AccountContext (H := ref_host) 1%N 3) weighted_calls
    = Some 150
  ∧ Weighted.enforce (H := ref_host) (test_transfer 7) [test_signer 2%N] (test_rule [2%N]) 1%N
      weighted_env ≠ Ok (tt, weighted_env).
Proof.
  pose proof (Weighted.weighted_run (H := ref_host) (H0 := ref_weighted_threshold) (config := λ d, d) test_env weighted_calls
    weighted_env eq_refl (run_calls_run (H := ref_host) _ _ _ weighted_ran)) as (Hget & _ & _ & Hdiv).
  split.
  - refine (Hget 3 1%N 150 weighted_env _). by_run.
  - refine (Hdiv (test_transfer 7) [test_signer 2%N] (test_rule [2%N]) 1%N
      {[ test_signer 2%N := 100; test_signer 3%N := 75; test_signer 4%N := 75 ]} 150 _ _ _ _ _ _).
    + by_run.
    + apply (bool_decide_unpack _). by vm_compute.
    + by_cmp.
    + apply (bool_decide_unpack _). by vm_compute.
    + done.
Defined.

(** A limit of 10 per 100 ledgers, two transfers, and a lower limit. *)
Definition spending_calls : list (call (H := ref_host) RSpending unit unit) :=
  let P := Spending.SpendingLimitPolicy (H := ref_host) in
  [ @CInstall _ _ _ _ P {| spending_limit := 10; period_ledgers := 100 |} (test_rule [2%N]) 1%N;
    @CEnforce _ _ _ _ P (test_transfer 7) [test_signer 2%N] (test_rule [2%N]) 1%N;
    @COther _ _ _ _ P (Spending.CSetLimit (H := ref_host) 8 (test_rule [2%N]) 1%N) ].
Definition spending_env := final (run_calls spending_calls test_env) test_env.
Lemma spending_ran : run_calls spending_calls test_env = Ok (tt, spending_env).
Proof. apply ok_final. by_run. Qed.

Lemma spending_run_witness :
  Spending.configured (H := ref_host) (AccountContext (H := ref_host) 1%N 3) spending_calls
    = Some (8, 100)
  ∧ Spending.enforce (H := ref_host) (CreateContractHostFnCtx (H := ref_host)) [] (test_rule []) 1%N
      spending_env ≠ Ok (tt, spending_env).
Proof.
  pose proof (Spending.spending_run (H := ref_host) (H0 := ref_spending_limit) (config := r_config) (spent := r_spent) test_env spending_calls
    spending_env eq_refl (run_calls_run (H := ref_host) _ _ _ spending_ran)) as (Hget & _ & Hno).
  split.
  - refine (Hget 3 1%N (mkRSpending (8, 100) [(7, 50)]) spending_env _). by_run.
  - by apply Hno.
Defined.
