(* ===== verification/Order.v ===== *)
(** * Total orders and sorted insertion

    Rust's [Ord]: a three-way comparison and its laws, lexicographic
    composition ([Ordering::then_with]), and the theory of inserting into
    strictly sorted lists without duplicates. *)
From S2P Require Import Prelude.

(** [Ord::cmp] of a type: a lawful total order consistent with equality. *)
Class CmpLaws {A} (cmp : A → A → comparison) : Prop := {
  cmp_eq x y : cmp x y = Eq ↔ x = y;
  cmp_opp x y : cmp y x = CompOpp (cmp x y);
  cmp_trans x y z : cmp x y = Lt → cmp y z = Lt → cmp x z = Lt;
}.

(** [Ordering::then_with] *)
Definition then_with (c d : comparison) : comparison :=
  match c with Eq => d | _ => c end.

#[export] Instance Z_compare_laws : CmpLaws Z.compare.
Proof.
  split; [apply Z.compare_eq_iff|intros; apply Z.compare_antisym|].
  intros x y z. rewrite !Z.compare_lt_iff. lia.
Qed.
#[export] Instance N_compare_laws : CmpLaws N.compare.
Proof.
  split; [apply N.compare_eq_iff|intros; apply N.compare_antisym|].
  intros x y z. rewrite !N.compare_lt_iff. lia.
Qed.

(** Comparing an image under an injection. *)
Definition cmp_on {A B} (f : A → B) (cmp : B → B → comparison) (x y : A) : comparison :=
  cmp (f x) (f y).
Lemma cmp_on_laws {A B} (f : A → B) `{!Inj (=) (=) f} (cmp : B → B → comparison) `{!CmpLaws cmp} :
  CmpLaws (cmp_on f cmp).
Proof.
  unfold cmp_on. split.
  - intros x y. rewrite cmp_eq. split; [apply (inj f)|by intros ->].
  - intros. apply cmp_opp.
  - intros x y z. apply cmp_trans.
Qed.

(** Lexicographic order on lists. *)
Fixpoint list_cmp {A} (cmp : A → A → comparison) (l1 l2 : list A) : comparison :=
  match l1, l2 with
  | [], [] => Eq
  | [], _ :: _ => Lt
  | _ :: _, [] => Gt
  | x :: l1, y :: l2 => then_with (cmp x y) (list_cmp cmp l1 l2)
  end.

Section cmp.
Context {A} (cmp : A → A → comparison) `{!CmpLaws cmp}.

Lemma cmp_is_eq x y : cmp x y = Eq → x = y.
Proof. apply (proj1 (cmp_eq (cmp := cmp) x y)). Qed.
Lemma cmp_refl x : cmp x x = Eq.
Proof. by apply (cmp_eq (cmp := cmp)). Qed.
Lemma cmp_gt x y : cmp x y = Gt ↔ cmp y x = Lt.
Proof. rewrite (cmp_opp (cmp := cmp) x y). by destruct (cmp x y). Qed.

#[export] Instance list_cmp_laws : CmpLaws (list_cmp cmp).
Proof.
  split.
  - induction x as [|x l1 IH]; intros [|y l2]; simpl; [done|done|done|].
    destruct (cmp x y) eqn:Hc; simpl.
    + apply cmp_is_eq in Hc as ->. rewrite IH. naive_solver.
    + split; [done|]. intros [= -> ->]. by rewrite cmp_refl in Hc.
    + split; [done|]. intros [= -> ->]. by rewrite cmp_refl in Hc.
  - induction x as [|x l1 IH]; intros [|y l2]; simpl; [done|done|done|].
    rewrite (cmp_opp (cmp := cmp) x y). destruct (cmp x y); simpl; [apply IH|done|done].
  - induction x as [|x l1 IH]; intros [|y l2] [|z l3]; simpl; try done.
    destruct (cmp x y) eqn:Hxy; simpl; [|intros _|done].
    + apply cmp_is_eq in Hxy as ->. destruct (cmp y z) eqn:Hyz; simpl; [|done|done]. apply IH.
    + destruct (cmp y z) eqn:Hyz; simpl; [|intros _|done].
      * apply cmp_is_eq in Hyz as ->. by rewrite Hxy.
      * by rewrite (cmp_trans (cmp := cmp) _ _ _ Hxy Hyz).
Qed.

(** ** Strictly sorted lists *)

Definition before (x y : A) : Prop := cmp x y = Lt.
Definition strictly_sorted (l : list A) : Prop := StronglySorted before l.

#[export] Instance before_antisymm : AntiSymm (=) before.
Proof.
  intros x y Hxy Hyx. unfold before in *. rewrite (cmp_opp (cmp := cmp) x y), Hxy in Hyx. done.
Qed.
#[export] Instance before_transitive : Transitive before.
Proof. intros x y z. apply (cmp_trans (cmp := cmp)). Qed.

Lemma strictly_sorted_NoDup l : strictly_sorted l → NoDup l.
Proof.
  induction 1 as [|x l Hl IH Hx]; constructor; [|done].
  intros Hin. rewrite Forall_forall in Hx. specialize (Hx _ Hin).
  unfold before in Hx. by rewrite cmp_refl in Hx.
Qed.

(** A set of elements has one strictly sorted listing. *)
Lemma strictly_sorted_unique l1 l2 :
  strictly_sorted l1 → strictly_sorted l2 → l1 ≡ₚ l2 → l1 = l2.
Proof. apply (StronglySorted_unique before). Qed.

(** Insertion before the first greater element; [None] for a duplicate. *)
Fixpoint insert_sorted (x : A) (l : list A) : option (list A) :=
  match l with
  | [] => Some [x]
  | y :: l =>
      match cmp y x with
      | Eq => None
      | Gt => Some (x :: y :: l)
      | Lt => cons y <$> insert_sorted x l
      end
  end.

Lemma insert_sorted_perm x l l' : insert_sorted x l = Some l' → l' ≡ₚ x :: l.
Proof.
  revert l'. induction l as [|y l IH]; simpl; [by intros l' [= <-]|].
  destruct (cmp y x); [done| |by intros l' [= <-]].
  intros l' (l1 & Hi & ->)%fmap_Some. rewrite (IH l1 Hi). apply Permutation_swap.
Qed.

Lemma insert_sorted_sorted x l l' :
  strictly_sorted l → insert_sorted x l = Some l' → strictly_sorted l'.
Proof.
  intros Hl. revert l'. induction Hl as [|y l Hl IH Hy]; simpl.
  { intros l' [= <-]. by repeat constructor. }
  destruct (cmp y x) eqn:Hc; [done| |].
  - intros l' (l1 & Hi & ->)%fmap_Some. constructor; [by apply IH|].
    rewrite (insert_sorted_perm _ _ _ Hi). by constructor.
  - intros l' [= <-]. apply cmp_gt in Hc. constructor; [by constructor|].
    constructor; [done|]. eapply Forall_impl; [exact Hy|]. intros z. by apply (cmp_trans (cmp := cmp)).
Qed.

Lemma insert_sorted_None x l : strictly_sorted l → insert_sorted x l = None ↔ x ∈ l.
Proof.
  induction 1 as [|y l Hl IH Hy]; simpl.
  { split; [done|]. by intros ?%not_elem_of_nil. }
  rewrite elem_of_cons. destruct (cmp y x) eqn:Hc.
  - apply cmp_is_eq in Hc as ->. naive_solver.
  - rewrite fmap_None, IH. split; [by right|]. intros [->|]; [|done]. by rewrite cmp_refl in Hc.
  - split; [done|]. intros [->|Hin]; [by rewrite cmp_refl in Hc|].
    rewrite Forall_forall in Hy. specialize (Hy _ Hin). unfold before in Hy. congruence.
Qed.
End cmp.
