(* ===== verification/Factory.v ===== *)
(** * Account factory (account-factory/contracts/factory-contract/src/lib.rs)

    Deterministic deployment of smart accounts: normalisation of the requested
    signers and threshold, the deployment salt, and the entry points
    constructor, get_account_address, create_account, get_verifier and
    get_threshold_policy. *)
From S2P Require Import Prelude RustInt Soroban RefHost Policy Order.
From Stdlib Require Import Wf_nat Wellfounded.
Local Open Scope Z_scope.

(** The SDK's ordering and encoding of addresses and byte strings, [sha256], and
    the deployer, which are not part of the repository. *)
Class FactoryHost `{Host} := {
  address_cmp : Address → Address → comparison;
  bytes_cmp : Bytes → Bytes → comparison;
  address_to_xdr : Address → Bytes;
  sha256 : Bytes → Bytes;
  (** [deployer().with_current_contract(salt).deployed_address()] *)
  deployed_address : Address → Bytes → Address;
  (** [address.executable().is_some()] *)
  is_executable : Address → World → bool;
  (** [deployer.deploy_v2(wasm_hash, (signers, policies))]: deployer, salt. *)
  host_deploy_v2 : Address → Bytes → Bytes → list Signer → gmap Address Val → World →
    option (Address * World);
  (** [SimpleThresholdAccountParams { threshold }.into_val(env)] *)
  threshold_into_val : Z → Val;
}.

Class FactoryLaws `{FactoryHost} : Prop := {
  address_cmp_laws :: CmpLaws address_cmp;
  bytes_cmp_laws :: CmpLaws bytes_cmp;
  address_to_xdr_inj :: Inj (=) (=) address_to_xdr;
  (** Deploying with a salt creates a contract at the address derived from it. *)
  deploy_v2_address deployer salt wasm signers policies w a w' :
    host_deploy_v2 deployer salt wasm signers policies w = Some (a, w') →
    a = deployed_address deployer salt ∧ is_executable a w' = true;
}.

Module Factory.

(** ** Data *)

Inductive DataKey := Config.
#[export] Instance DataKey_eq_dec : EqDecision DataKey.
Proof. solve_decision. Defined.
#[export] Program Instance DataKey_countable : Countable DataKey :=
  inj_countable' (λ _, tt) (λ _, Config) _.
Next Obligation. by intros []. Qed.

Inductive SignerKind := Ed25519 | WebAuthn.
#[export] Instance SignerKind_eq_dec : EqDecision SignerKind.
Proof. solve_decision. Defined.

Inductive FactoryError :=
  | AlreadyInitialized | MissingConfig | NoSigners | DuplicateSigner | MissingThreshold
  | InvalidThreshold | InvalidEd25519Key | InvalidWebAuthnKey | InvalidEd25519Verifier
  | InvalidWebAuthnVerifier | InvalidThresholdPolicy.

Record ExternalSignerInit := mkExternal { signer_kind : SignerKind; key_data : Bytes }.

#[export] Instance ExternalSignerInit_eq_dec : EqDecision ExternalSignerInit.
Proof. solve_decision. Defined.

Section contract.
Context `{FactoryHost}.

Record FactoryConfig := mkConfig {
  smart_account_wasm_hash : Bytes;
  ed25519_verifier : Address;
  webauthn_verifier : Address;
  threshold_policy : Address;
}.

Inductive AccountSignerInit :=
  | Delegated (a : Address)
  | External (x : ExternalSignerInit).

#[export] Instance AccountSignerInit_eq_dec : EqDecision AccountSignerInit.
Proof. solve_decision. Defined.

Record AccountInitParams := mkInitParams {
  init_signers : list AccountSignerInit;
  init_threshold : option Z;
  init_salt : Bytes;
}.

Record NormalizedParams := mkNormalized {
  signers : list AccountSignerInit;
  effective_threshold : Z;
  account_salt : Bytes;
}.

Inductive FactoryEvent := AccountCreated (account : Address).

Abbreviation FEnv := (Env DataKey FactoryConfig FactoryEvent).
Abbreviation FM := (M FEnv FactoryError).

(** ** Signers *)

Definition signer_kind_code (kind : SignerKind) : Z :=
  match kind with Ed25519 => 1 | WebAuthn => 2 end.
Definition account_signer_code (signer : AccountSignerInit) : Z :=
  match signer with
  | Delegated _ => 0
  | External external => signer_kind_code (signer_kind external)
  end.

Definition compare_signers (left right : AccountSignerInit) : comparison :=
  then_with (account_signer_code left ?= account_signer_code right)
    match left, right with
    | Delegated left_addr, Delegated right_addr => address_cmp left_addr right_addr
    | External left_external, External right_external =>
        then_with (signer_kind_code (signer_kind left_external)
                   ?= signer_kind_code (signer_kind right_external))
          (bytes_cmp (key_data left_external) (key_data right_external))
    | _, _ => Eq
    end.

Definition validate_signer_shape (signer : AccountSignerInit) : FM unit :=
  match signer with
  | Delegated _ => mret tt
  | External external =>
      match signer_kind external with
      | Ed25519 => throw_if (negb (zlen (key_data external) =? 32)) InvalidEd25519Key
      | WebAuthn =>
          throw_if ((zlen (key_data external) <=? 65)
            || negb (Z_of_byte (default Byte.x00 (key_data external !! 0%nat)) =? 4))
            InvalidWebAuthnKey
      end
  end.

(** [vec.insert(idx, x)] *)
Definition insert_at {A} (idx : nat) (x : A) (l : list A) : list A :=
  take idx l ++ x :: drop idx l.

(** The [while idx < canonical.len()] loop; the flag is [inserted]. *)
Fixpoint insert_loop (fuel : nat) (canonical : list AccountSignerInit)
    (signer : AccountSignerInit) (idx : nat) : FM (list AccountSignerInit * bool) :=
  match fuel with
  | O => panic
  | S fuel =>
      if (idx <? length canonical)%nat then
        existing ← unwrap (canonical !! idx);
        match compare_signers existing signer with
        | Eq => throw DuplicateSigner
        | Gt => mret (insert_at idx signer canonical, true)
        | Lt => insert_loop fuel canonical signer (S idx)
        end
      else mret (canonical, false)
  end.

(** [for signer in signers.iter() { ... }], from the list built so far. The
    loop looks at each of its positions at most once. *)
Fixpoint canonicalize_loop (canonical input : list AccountSignerInit) :
    FM (list AccountSignerInit) :=
  match input with
  | [] => mret canonical
  | signer :: rest =>
      validate_signer_shape signer ;;
      '(canonical', inserted) ← insert_loop (S (length canonical)) canonical signer 0;
      canonicalize_loop (if inserted : bool then canonical' else canonical' ++ [signer]) rest
  end.
Definition canonicalize_signers (input : list AccountSignerInit) : FM (list AccountSignerInit) :=
  canonicalize_loop [] input.

(** ** Parameters *)

Definition effective (signer_count : Z) (threshold : option Z) : FM Z :=
  if signer_count =? 1 then
    match threshold with
    | None => mret 1
    | Some t => if t =? 1 then mret 1 else throw InvalidThreshold
    end
  else
    match threshold with
    | Some t => if (1 <=? t) && (t <=? signer_count) then mret t else throw InvalidThreshold
    | None => throw MissingThreshold
    end.

Definition normalize_params (params : AccountInitParams) : FM NormalizedParams :=
  throw_if (is_empty (init_signers params)) NoSigners ;;
  canonical_signers ← canonicalize_signers (init_signers params);
  effective_threshold ← effective (zlen canonical_signers) (init_threshold params);
  mret (mkNormalized canonical_signers effective_threshold (init_salt params)).

(** ** The deployment salt *)

Definition tag : Bytes := String.list_byte_of_string "latch.factory.account.v2".

Definition signer_data (signer : AccountSignerInit) : Bytes :=
  match signer with
  | Delegated address => address_to_xdr address
  | External external => key_data external
  end.
(** The body of the loop: code, length, data. *)
Definition signer_preimage (signer : AccountSignerInit) : Bytes :=
  byte_of_Z (account_signer_code signer)
    :: u32_to_be_bytes (zlen (signer_data signer)) ++ signer_data signer.

Definition deploy_preimage (params : NormalizedParams) : Bytes :=
  tag ++ account_salt params ++ u32_to_be_bytes (zlen (signers params))
    ++ concat (signer_preimage <$> signers params)
    ++ u32_to_be_bytes (effective_threshold params).
Definition compute_account_deploy_salt (params : NormalizedParams) : Bytes :=
  sha256 (deploy_preimage params).

(** ** Entry points *)

Definition validate_singleton_address (address : Address) (error : FactoryError) : FM unit :=
  exec ← read (λ e, is_executable address (world e));
  throw_if (negb exec) error.

Definition constructor (wasm_hash : Bytes) (ed25519 webauthn threshold : Address) : FM unit :=
  has ← instance_has Config;
  throw_if has AlreadyInitialized ;;
  validate_singleton_address ed25519 InvalidEd25519Verifier ;;
  validate_singleton_address webauthn InvalidWebAuthnVerifier ;;
  validate_singleton_address threshold InvalidThresholdPolicy ;;
  instance_set Config (mkConfig wasm_hash ed25519 webauthn threshold) ;;
  instance_extend_ttl 100 1555200.

Definition get_config : FM FactoryConfig :=
  instance_extend_ttl 100 1555200 ;;
  o ← instance_get Config;
  unwrap_or_throw o MissingConfig.

Definition verifier_of (config : FactoryConfig) (kind : SignerKind) : Address :=
  match kind with
  | Ed25519 => ed25519_verifier config
  | WebAuthn => webauthn_verifier config
  end.

Definition build_account_signers (config : FactoryConfig) (l : list AccountSignerInit) :
    list Signer :=
  (λ signer, match signer with
   | Delegated address => Policy.Delegated address
   | External external =>
       Policy.External (verifier_of config (signer_kind external)) (key_data external)
   end) <$> l.

Definition build_account_policies (config : FactoryConfig) (threshold signer_count : Z) :
    gmap Address Val :=
  if 1 <? signer_count then {[ threshold_policy config := threshold_into_val threshold ]}
  else ∅.

Definition get_account_address (params : AccountInitParams) : FM Address :=
  normalized ← normalize_params params;
  me ← current_contract_address;
  mret (deployed_address me (compute_account_deploy_salt normalized)).

Definition create_account (params : AccountInitParams) : FM Address :=
  config ← get_config;
  normalized ← normalize_params params;
  let salt := compute_account_deploy_salt normalized in
  me ← current_contract_address;
  let account_address := deployed_address me salt in
  exists_ ← read (λ e, is_executable account_address (world e));
  if exists_ : bool then mret account_address
  else
    let account_signers := build_account_signers config (signers normalized) in
    let policies := build_account_policies config (effective_threshold normalized)
                      (zlen account_signers) in
    account ← invoke (host_deploy_v2 me salt (smart_account_wasm_hash config)
                        account_signers policies);
    publish (AccountCreated account) ;;
    mret account.

Definition get_verifier (kind : SignerKind) : FM Address :=
  config ← get_config;
  mret (verifier_of config kind).
Definition get_threshold_policy : FM Address :=
  config ← get_config;
  mret (threshold_policy config).
End contract.

(** ** Canonical signer lists *)

Section signers.
Context `{FactoryLaws}.
Abbreviation FEnv := (Env DataKey FactoryConfig FactoryEvent).
Abbreviation FM := (M FEnv FactoryError).
Implicit Types e : FEnv.

#[export] Instance compare_signers_laws : CmpLaws compare_signers.
Proof.
  assert (∀ x y, compare_signers x y = Eq ↔ x = y) as Heq.
  { intros [a|[k d]] [b|[k' d']]; unfold compare_signers; simpl.
    - rewrite cmp_eq. naive_solver.
    - by destruct k'.
    - by destruct k.
    - destruct k, k'; simpl; rewrite ?cmp_eq; naive_solver. }
  split; [done| |].
  - intros [a|[k d]] [b|[k' d']]; unfold compare_signers; simpl; [apply cmp_opp| | |].
    + by destruct k'.
    + by destruct k.
    + destruct k, k'; simpl; [apply cmp_opp|done|done|apply cmp_opp].
  - intros [a|[k d]] [b|[k' d']] [c|[k'' d'']]; unfold compare_signers; simpl;
      [apply cmp_trans|..]; repeat match goal with k : SignerKind |- _ => destruct k end; simpl;
      try done; apply cmp_trans.
Qed.

(** What [validate_signer_shape] accepts, and its error otherwise. *)
Definition shape_error (signer : AccountSignerInit) : option FactoryError :=
  match signer with
  | Delegated _ => None
  | External x =>
      match signer_kind x with
      | Ed25519 => if decide (zlen (key_data x) = 32) then None else Some InvalidEd25519Key
      | WebAuthn =>
          if decide (65 < zlen (key_data x) ∧ key_data x !! 0%nat = Some Byte.x04) then None
          else Some InvalidWebAuthnKey
      end
  end.
Definition well_shaped (signer : AccountSignerInit) : Prop := shape_error signer = None.

Lemma first_byte_04 (d : Bytes) :
  65 < zlen d → Z_of_byte (default Byte.x00 (d !! 0%nat)) = 4 ↔ d !! 0%nat = Some Byte.x04.
Proof.
  destruct d as [|b d]; [done|]. intros _. simpl. split; [|by intros [= ->]].
  intros Hb. f_equal. apply Z_of_byte_inj. by rewrite Hb.
Qed.

Lemma validate_signer_shape_run signer e :
  validate_signer_shape signer e
  = match shape_error signer with None => Ok (tt, e) | Some err => Err (ContractError err) end.
Proof.
  destruct signer as [a|[[] d]]; simpl; [done| |]; unfold throw_if.
  - destruct (Z.eqb_spec (zlen d) 32); simpl; by case_decide.
  - destruct (Z.leb_spec (zlen d) 65) as [Hle|Hlt]; simpl.
    + rewrite decide_False by lia. done.
    + destruct (Z.eqb_spec (Z_of_byte (default Byte.x00 (d !! 0%nat))) 4) as [Hb|Hb]; simpl.
      * apply first_byte_04 in Hb; [|done]. by rewrite decide_True.
      * rewrite decide_False; [done|]. intros [_ Hd]. apply Hb. by apply first_byte_04.
Qed.

(** The list after the loop, whether or not it inserted. *)
Definition finish (signer : AccountSignerInit) (p : list AccountSignerInit * bool) :
    list AccountSignerInit :=
  if snd p then fst p else fst p ++ [signer].

(** The index loop is the insertion into a sorted list: with one more unit of
    fuel than positions left it never runs out. *)
Lemma insert_loop_run fuel pre suf signer e :
  (length suf < fuel)%nat →
  match insert_sorted compare_signers signer suf with
  | None => insert_loop fuel (pre ++ suf) signer (length pre) e = Err (ContractError DuplicateSigner)
  | Some l => ∃ p, insert_loop fuel (pre ++ suf) signer (length pre) e = Ok (p, e)
                ∧ finish signer p = pre ++ l
  end.
Proof.
  revert pre suf. induction fuel as [|fuel IH]; intros pre suf Hf; [lia|]. simpl.
  destruct suf as [|y suf]; simpl.
  { rewrite (proj2 (Nat.ltb_ge _ _)) by (rewrite app_nil_r; lia).
    eexists. split; [done|]. unfold finish. simpl. by rewrite app_nil_r. }
  rewrite (proj2 (Nat.ltb_lt _ _)) by (rewrite length_app; simpl; lia).
  rewrite list_lookup_middle by done. unfold unwrap, mbind, M_bind.
  destruct (compare_signers y signer) eqn:Hc.
  - done.
  - specialize (IH (pre ++ [y]) suf). simpl in Hf.
    rewrite length_app, <- app_assoc in IH. simpl in IH.
    rewrite Nat.add_1_r in IH. specialize (IH ltac:(lia)).
    destruct (insert_sorted _ _ _) as [l|]; simpl.
    + destruct IH as (p & Hp & Hfin). exists p. split; [done|].
      by rewrite Hfin, <- app_assoc.
    + done.
  - eexists. split; [done|]. unfold finish, insert_at. simpl.
    by rewrite take_app_length, drop_app_length.
Qed.

(** Canonicalisation as a fold of validated insertions. *)
Fixpoint canonical_from (canonical input : list AccountSignerInit) :
    result FactoryError (list AccountSignerInit) :=
  match input with
  | [] => Ok canonical
  | signer :: rest =>
      match shape_error signer with
      | Some err => Err (ContractError err)
      | None =>
          match insert_sorted compare_signers signer canonical with
          | None => Err (ContractError DuplicateSigner)
          | Some l => canonical_from l rest
          end
      end
  end.

Lemma canonicalize_loop_run canonical input e :
  canonicalize_loop canonical input e
  = match canonical_from canonical input with Ok l => Ok (l, e) | Err t => Err t end.
Proof.
  revert canonical. induction input as [|signer rest IH]; intros canonical; [done|].
  cbn [canonicalize_loop canonical_from].
  pose proof (validate_signer_shape_run signer e) as Hv.
  destruct (shape_error signer) as [err|]; [by apply bind_Err|].
  rewrite (bind_do _ _ _ _ Hv). clear Hv.
  pose proof (insert_loop_run (S (length canonical)) [] canonical signer e ltac:(lia)) as Hl.
  simpl app in Hl. simpl length in Hl. destruct (insert_sorted _ _ _) as [l|].
  - destruct Hl as ([c ins] & Hp & Hfin). rewrite (bind_run _ _ _ _ _ Hp).
    unfold finish in Hfin. simpl in Hfin. rewrite Hfin. apply IH.
  - by apply bind_Err.
Qed.

Lemma canonical_from_app c l1 l2 :
  canonical_from c (l1 ++ l2)
  = match canonical_from c l1 with Ok c' => canonical_from c' l2 | Err t => Err t end.
Proof.
  revert c. induction l1 as [|x l1 IH]; intros c; simpl; [done|].
  destruct (shape_error x); [done|]. destruct (insert_sorted _ _ _); [apply IH|done].
Qed.

Lemma canonical_from_sound c input l :
  strictly_sorted compare_signers c → canonical_from c input = Ok l →
  Forall well_shaped input ∧ l ≡ₚ c ++ input ∧ strictly_sorted compare_signers l.
Proof.
  revert c. induction input as [|x input IH]; simpl; intros c Hc.
  { intros [= <-]. by rewrite app_nil_r. }
  destruct (shape_error x) eqn:Hx; [done|].
  destruct (insert_sorted _ _ _) as [c'|] eqn:Hi; [|done]. intros Hl.
  pose proof (insert_sorted_sorted _ _ _ _ Hc Hi) as Hc'.
  destruct (IH _ Hc' Hl) as (Hw & Hp & Hs). split_and!; [by constructor| |done].
  rewrite Hp, (insert_sorted_perm _ _ _ _ Hi). simpl. by rewrite Permutation_middle.
Qed.

Lemma canonical_from_complete c input :
  strictly_sorted compare_signers c → Forall well_shaped input → NoDup (c ++ input) →
  is_Ok (canonical_from c input).
Proof.
  revert c. induction input as [|x input IH]; simpl; intros c Hc Hw Hnd; [done|].
  apply Forall_cons in Hw as [Hx Hw]. rewrite Hx.
  rewrite <- Permutation_middle in Hnd. apply NoDup_cons in Hnd as [Hni Hnd].
  destruct (insert_sorted _ _ _) as [c'|] eqn:Hi.
  - apply IH; [exact (insert_sorted_sorted _ _ _ _ Hc Hi)|done|].
    rewrite (insert_sorted_perm _ _ _ _ Hi). simpl. by constructor.
  - apply (insert_sorted_None _ _ _ Hc) in Hi. exfalso. apply Hni. apply elem_of_app. by left.
Qed.

(** Every list of well-shaped distinct signers has its canonical form. *)
Lemma canonicalize_Ok input l e e' :
  canonicalize_signers input e = Ok (l, e') ↔
  e' = e ∧ Forall well_shaped input ∧ l ≡ₚ input ∧ strictly_sorted compare_signers l.
Proof.
  unfold canonicalize_signers. rewrite canonicalize_loop_run. split.
  - destruct (canonical_from [] input) as [l'|] eqn:Hl; [|done]. intros [= <- <-].
    split; [done|]. exact (canonical_from_sound [] input l' (SSorted_nil _) Hl).
  - intros (-> & Hw & Hp & Hs).
    pose proof (canonical_from_complete [] input (SSorted_nil _) Hw) as Hok.
    destruct (canonical_from [] input) as [l'|] eqn:Hl.
    + destruct (canonical_from_sound [] input l' (SSorted_nil _) Hl) as (_ & Hp' & Hs').
      rewrite (strictly_sorted_unique compare_signers l' l Hs' Hs); [done|]. by rewrite Hp, Hp'.
    + exfalso. apply Hok. simpl. rewrite <- Hp. exact (strictly_sorted_NoDup compare_signers l Hs).
Qed.

(** The error of the first offending signer, after [l] good ones. *)
Lemma canonicalize_Err l x r e :
  Forall well_shaped l → NoDup l →
  match shape_error x with
  | Some err => canonicalize_signers (l ++ x :: r) e = Err (ContractError err)
  | None => x ∈ l → canonicalize_signers (l ++ x :: r) e = Err (ContractError DuplicateSigner)
  end.
Proof.
  intros Hw Hnd. unfold canonicalize_signers. rewrite canonicalize_loop_run, canonical_from_app.
  pose proof (canonical_from_complete [] l (SSorted_nil _) Hw Hnd) as Hok.
  destruct (canonical_from [] l) as [c|] eqn:Hl; [|done]. simpl.
  destruct (shape_error x); [done|]. intros Hin.
  destruct (canonical_from_sound [] l c (SSorted_nil _) Hl) as (_ & Hp & Hs).
  rewrite (proj2 (insert_sorted_None _ _ _ Hs)); [done|]. by rewrite Hp.
Qed.

(** [x] cannot follow the signers [l], and why. *)
Definition offends (l : list AccountSignerInit) (x : AccountSignerInit) (err : FactoryError) : Prop :=
  shape_error x = Some err ∨ well_shaped x ∧ x ∈ l ∧ err = DuplicateSigner.

Lemma canonical_from_Err pre c input t :
  strictly_sorted compare_signers c → c ≡ₚ pre → Forall well_shaped pre → NoDup pre →
  canonical_from c input = Err t →
  ∃ l x r err, pre ++ input = l ++ x :: r ∧ Forall well_shaped l ∧ NoDup l ∧ offends l x err
    ∧ t = ContractError err.
Proof.
  revert pre c. induction input as [|x input IH]; simpl; intros pre c Hc Hp Hw Hnd; [done|].
  destruct (shape_error x) as [err|] eqn:Hx.
  { intros [= <-]. exists pre, x, input, err. by split_and!; [..|left|]. }
  destruct (insert_sorted _ _ _) as [c'|] eqn:Hi.
  - assert (Hni : x ∉ c). { intros Hin%(insert_sorted_None _ _ _ Hc). congruence. }
    intros Ht. pose proof (insert_sorted_sorted _ _ _ _ Hc Hi) as Hc'.
    rewrite cons_middle, app_assoc. apply (IH _ c'); [done| | | |done].
    + by rewrite (insert_sorted_perm _ _ _ _ Hi), Hp, Permutation_app_comm.
    + apply Forall_app. split; [done|]. by repeat constructor.
    + rewrite Permutation_app_comm. simpl. constructor; [by rewrite <- Hp|done].
  - intros [= <-]. apply (insert_sorted_None _ _ _ Hc) in Hi. rewrite Hp in Hi.
    exists pre, x, input, DuplicateSigner. by split_and!; [..|right|].
Qed.

Lemma canonicalize_Err_iff input e t :
  canonicalize_signers input e = Err t ↔
  ∃ l x r err, input = l ++ x :: r ∧ Forall well_shaped l ∧ NoDup l ∧ offends l x err
    ∧ t = ContractError err.
Proof.
  split.
  - unfold canonicalize_signers. rewrite canonicalize_loop_run.
    destruct (canonical_from [] input) as [|t'] eqn:Hc; [done|]. intros [= <-].
    by apply (canonical_from_Err [] []) in Hc; [|constructor..].
  - intros (l & x & r & err & -> & Hw & Hnd & Ho & ->).
    pose proof (canonicalize_Err l x r e Hw Hnd) as Hx.
    destruct Ho as [Hs|(Hs & Hin & ->)]; rewrite Hs in Hx; auto.
Qed.

(** ** Normalised parameters *)

Definition threshold_ok (count : Z) (requested : option Z) (t : Z) : Prop :=
  if decide (count = 1) then t = 1 ∧ (requested = None ∨ requested = Some 1)
  else requested = Some t ∧ 1 ≤ t ≤ count.

Lemma effective_Ok count requested t e e' :
  effective count requested e = Ok (t, e') ↔ e' = e ∧ threshold_ok count requested t.
Proof.
  unfold effective, threshold_ok. destruct (Z.eqb_spec count 1), requested as [r|];
    case_decide; try done; unfold throw.
  - destruct (Z.eqb_spec r 1); rewrite ?ret_Ok; naive_solver.
  - rewrite ret_Ok. naive_solver.
  - destruct (Z.leb_spec 1 r), (Z.leb_spec r count); simpl; rewrite ?ret_Ok; 
      (split; [naive_solver lia|intros (-> & [= ->] & ?); first [done|lia]]).
  - naive_solver.
Qed.

Lemma effective_Err count requested e t :
  effective count requested e = Err t ↔
  count = 1 ∧ (∃ r, requested = Some r ∧ r ≠ 1) ∧ t = ContractError InvalidThreshold
  ∨ count ≠ 1 ∧ requested = None ∧ t = ContractError MissingThreshold
  ∨ count ≠ 1 ∧ (∃ r, requested = Some r ∧ ¬ (1 ≤ r ≤ count)) ∧ t = ContractError InvalidThreshold.
Proof.
  unfold effective, throw. destruct (Z.eqb_spec count 1), requested as [r|]; rewrite ?ret_Err.
  - destruct (Z.eqb_spec r 1); rewrite ?ret_Err; naive_solver.
  - naive_solver.
  - destruct (Z.leb_spec 1 r), (Z.leb_spec r count); simpl; rewrite ?ret_Err; naive_solver lia.
  - naive_solver.
Qed.

(** [n] is the normal form of the request [p]. *)
Definition normal (p : AccountInitParams) (n : NormalizedParams) : Prop :=
  init_signers p ≠ [] ∧ Forall well_shaped (init_signers p)
  ∧ signers n ≡ₚ init_signers p ∧ strictly_sorted compare_signers (signers n)
  ∧ account_salt n = init_salt p
  ∧ threshold_ok (zlen (signers n)) (init_threshold p) (effective_threshold n).

Lemma normalize_Ok p n e e' :
  normalize_params p e = Ok (n, e') ↔ e' = e ∧ normal p n.
Proof.
  unfold normalize_params, normal. split.
  - intros. inv_run.
    match goal with Hc : canonicalize_signers _ _ = _ |- _ =>
      apply canonicalize_Ok in Hc as (-> & ? & ? & ?) end.
    match goal with Hc : effective _ _ _ = _ |- _ => apply effective_Ok in Hc as [-> ?] end. done.
  - intros (-> & Hne & Hw & Hp & Hs & Hsalt & Ht). destruct n as [l t salt]. simpl in *. subst salt.
    step_do by (apply throw_if_Ok; split; [by apply is_empty_false|]).
    step_get by (by apply canonicalize_Ok). by step_get by (by apply effective_Ok).
Qed.

(** Why a request has none, and its error: it has no signers; a signer is
    misshapen or repeats an earlier one, the first such signer counting; the
    threshold of a single signer is not one; that of several signers is missing,
    or is not between one and their number. *)
Inductive refused (p : AccountInitParams) : FactoryError → Prop :=
  | refused_empty : init_signers p = [] → refused p NoSigners
  | refused_signer l x r err :
      init_signers p = l ++ x :: r → Forall well_shaped l → NoDup l → offends l x err →
      refused p err
  | refused_single t :
      Forall well_shaped (init_signers p) → zlen (init_signers p) = 1 →
      init_threshold p = Some t → t ≠ 1 → refused p InvalidThreshold
  | refused_missing :
      Forall well_shaped (init_signers p) → NoDup (init_signers p) → 1 < zlen (init_signers p) →
      init_threshold p = None → refused p MissingThreshold
  | refused_range t :
      Forall well_shaped (init_signers p) → NoDup (init_signers p) → 1 < zlen (init_signers p) →
      init_threshold p = Some t → ¬ (1 ≤ t ≤ zlen (init_signers p)) →
      refused p InvalidThreshold.

(** Well-shaped distinct signers have a canonical form, of the same length. *)
Lemma canonical_exists input e :
  Forall well_shaped input → NoDup input →
  ∃ l, canonicalize_signers input e = Ok (l, e) ∧ zlen l = zlen input.
Proof.
  intros Hw Hnd. destruct (canonicalize_signers input e) as [[l e']|t] eqn:Hc.
  - apply canonicalize_Ok in Hc as (-> & _ & Hp & _). exists l. split; [done|].
    unfold zlen. by rewrite Hp.
  - apply canonicalize_Err_iff in Hc as (l & x & r & err & -> & _ & _ & Ho & _).
    apply Forall_app in Hw as [_ [Hx _]%Forall_cons].
    apply NoDup_app in Hnd as (_ & Hnd & _).
    destruct Ho as [Hs|(_ & Hin & _)]; [unfold well_shaped in Hx; congruence|].
    exfalso. apply (Hnd x Hin). left.
Qed.

Lemma singleton_NoDup {A} (l : list A) : zlen l = 1 → NoDup l.
Proof.
  unfold zlen. destruct l as [|x [|y l]]; simpl; intros; [lia|apply NoDup_singleton|lia].
Qed.

Lemma normalize_refused p e err :
  refused p err → normalize_params p e = Err (ContractError err).
Proof.
  assert (init_signers p ≠ [] → throw_if (is_empty (init_signers p)) NoSigners e = Ok (tt, e)) as Hne
    by (intros ?; apply throw_if_Ok; by rewrite is_empty_false).
  intros [Hn|l x r err' Hs Hw Hnd Ho|th Hw Hone Ht Hth|Hw Hnd Hmany Ht
         |th Hw Hnd Hmany Ht Hth]; unfold normalize_params.
  { apply bind_Err, throw_if_Err. by rewrite Hn. }
  { rewrite bind_do with (s1 := e) by (apply Hne; rewrite Hs; by destruct l).
    apply bind_Err, canonicalize_Err_iff. eauto 10. }
  1: pose proof (singleton_NoDup _ Hone) as Hnd.
  all: rewrite bind_do with (s1 := e) by (apply Hne; intros Hnil; by rewrite Hnil in *).
  all: destruct (canonical_exists _ e Hw Hnd) as (l & Hc & Hlen); step_get by exact Hc.
  all: apply bind_Err, effective_Err; rewrite Hlen; naive_solver lia.
Qed.

Lemma normalize_Err p e t :
  normalize_params p e = Err t ↔ ∃ err, refused p err ∧ t = ContractError err.
Proof.
  split; [|by intros (err & Hr & ->); apply normalize_refused].
  unfold normalize_params. intros Hf. apply bind_Err_iff in Hf as [Hf|([] & e1 & Hne & Hf)].
  { apply throw_if_Err in Hf as [He%is_empty_true ->]. exists NoSigners. by split; [constructor|]. }
  apply throw_if_Ok in Hne as [Hne%is_empty_false ->].
  apply bind_Err_iff in Hf as [Hf|(l & e1 & Hc & Hf)].
  { apply canonicalize_Err_iff in Hf as (l & x & r & err & Hs & Hw & Hnd & Ho & ->).
    exists err. by split; [eapply refused_signer|]. }
  apply canonicalize_Ok in Hc as (-> & Hw & Hp & Hs).
  pose proof (strictly_sorted_NoDup _ _ Hs) as Hnd. rewrite Hp in Hnd.
  assert (zlen l = zlen (init_signers p)) as Hlen by (unfold zlen; by rewrite Hp).
  assert (1 ≤ zlen (init_signers p)) by (unfold zlen; destruct (init_signers p); simpl; [done|lia]).
  apply bind_Err_iff in Hf as [Hf|(th & e1 & _ & Hf)]; [|by apply ret_Err in Hf].
  rewrite effective_Err, Hlen in Hf.
  destruct Hf as [(? & (r & ? & ?) & ->)|[(? & ? & ->)|(? & (r & ? & ?) & ->)]];
    eexists; (split; [|done]).
  - by eapply refused_single.
  - apply refused_missing; try done. lia.
  - eapply refused_range; try done. lia.
Qed.

(** The same account asked for: the same signers in any order, the same salt,
    and the same threshold, where omitting it for a single signer means one. *)
Definition same_request (p1 p2 : AccountInitParams) : Prop :=
  init_signers p1 ≡ₚ init_signers p2 ∧ init_salt p1 = init_salt p2
  ∧ (init_threshold p1 = init_threshold p2
     ∨ zlen (init_signers p1) = 1 ∧ default 1 (init_threshold p1) = default 1 (init_threshold p2)).

#[export] Instance same_request_equivalence : Equivalence same_request.
Proof.
  unfold same_request, zlen. split.
  - intros p. by split_and!; [| |left].
  - intros p1 p2 (Hp & Hs & Ht). rewrite <- Hp. split_and!; [done|done|]. naive_solver.
  - intros p1 p2 p3 (Hp & Hs & Ht) (Hp' & Hs' & Ht'). rewrite <- Hp in Ht'.
    split_and!; [by etrans|congruence|].
    destruct Ht as [Ht|[Hl Ht]], Ht' as [Ht'|[Hl' Ht']]; [left; congruence|right; split; [done|congruence]..].
Qed.

Lemma threshold_ok_default count r1 r2 t :
  r1 = r2 ∨ count = 1 ∧ default 1 r1 = default 1 r2 →
  threshold_ok count r1 t → threshold_ok count r2 t.
Proof.
  unfold threshold_ok. intros [->|[-> Hd]]; [done|]. rewrite !decide_True by done.
  intros [-> Hr]. split; [done|]. destruct r2 as [z|]; [|by left]. right.
  by destruct Hr as [-> | ->]; simpl in Hd; subst.
Qed.

(** Such requests have the same normal form. *)
#[export] Instance normal_same_request n : Proper (same_request ==> iff) (λ p, normal p n).
Proof.
  assert (∀ p1 p2, same_request p1 p2 → normal p1 n → normal p2 n) as Hn.
  { intros p1 p2 (Hp & Hs & Ht) (Hne & Hw & Hp1 & Hss & Hsalt & Hth). split_and!; try done.
    - intros He. apply Hne. rewrite He in Hp. by apply Permutation_nil_r in Hp.
    - by rewrite <- Hp.
    - by rewrite Hp1.
    - by rewrite <- Hs.
    - eapply threshold_ok_default; [|exact Hth]. unfold zlen in *. by rewrite Hp1. }
  intros p1 p2 Hp. split; apply Hn; by symmetry || done.
Qed.

(** ** The salt's preimage *)

(** What the SDK's types guarantee of a signer and of normalised parameters:
    lengths and counts are [u32]s, salts have 32 bytes. *)
Definition encodable_signer (signer : AccountSignerInit) : Prop :=
  zlen (signer_data signer) ≤ u32_max.
Definition encodable (n : NormalizedParams) : Prop :=
  length (account_salt n) = 32%nat ∧ zlen (signers n) ≤ u32_max
  ∧ is_u32 (effective_threshold n) ∧ Forall encodable_signer (signers n).

Lemma signer_data_len s : encodable_signer s → is_u32 (zlen (signer_data s)).
Proof. intros Hs. split; [apply zlen_nonneg|exact Hs]. Qed.

Lemma account_signer_code_byte s1 s2 :
  byte_of_Z (account_signer_code s1) = byte_of_Z (account_signer_code s2) →
  account_signer_code s1 = account_signer_code s2.
Proof. by destruct s1 as [?|[[] ?]], s2 as [?|[[] ?]]. Qed.

Lemma same_code_data s1 s2 :
  account_signer_code s1 = account_signer_code s2 → signer_data s1 = signer_data s2 → s1 = s2.
Proof.
  destruct s1 as [a|[[] d]], s2 as [a'|[[] d']]; simpl; try done; intros _; [|by intros ->..].
  by intros ->%(inj address_to_xdr).
Qed.

(** A length-prefixed encoding followed by anything determines its parts. *)
Lemma length_prefix_inj (d1 d2 r1 r2 : Bytes) :
  is_u32 (zlen d1) → is_u32 (zlen d2) →
  u32_to_be_bytes (zlen d1) ++ d1 ++ r1 = u32_to_be_bytes (zlen d2) ++ d2 ++ r2 →
  d1 = d2 ∧ r1 = r2.
Proof.
  intros Hd1 Hd2 Heq. apply app_inj_1 in Heq as [Hl Heq]; [|done].
  apply u32_to_be_bytes_inj in Hl; [|done..]. apply app_inj_1 in Heq; [done|].
  unfold zlen in Hl. lia.
Qed.

Lemma signer_preimage_inj s1 s2 r1 r2 :
  encodable_signer s1 → encodable_signer s2 →
  signer_preimage s1 ++ r1 = signer_preimage s2 ++ r2 → s1 = s2 ∧ r1 = r2.
Proof.
  intros Hs1%signer_data_len Hs2%signer_data_len Heq. unfold signer_preimage in Heq.
  rewrite <- !app_comm_cons, <- !app_assoc in Heq. apply cons_eq_inj in Heq as [Hc Heq].
  apply account_signer_code_byte in Hc. apply length_prefix_inj in Heq as [Hd ->]; [|done..].
  split; [|done]. by apply same_code_data.
Qed.

Lemma signers_preimage_inj l1 l2 r1 r2 :
  length l1 = length l2 → Forall encodable_signer l1 → Forall encodable_signer l2 →
  concat (signer_preimage <$> l1) ++ r1 = concat (signer_preimage <$> l2) ++ r2 →
  l1 = l2 ∧ r1 = r2.
Proof.
  revert l2. induction l1 as [|s1 l1 IH]; intros [|s2 l2]; try done.
  intros [= Hlen] [Hs1 Hl1]%Forall_cons [Hs2 Hl2]%Forall_cons Heq.
  rewrite !fmap_cons, !concat_cons, <- !app_assoc in Heq.
  apply signer_preimage_inj in Heq as [-> Heq]; [|done..].
  apply IH in Heq as [-> ->]; [|done..]. done.
Qed.

Lemma deploy_preimage_injective n1 n2 :
  encodable n1 → encodable n2 → deploy_preimage n1 = deploy_preimage n2 → n1 = n2.
Proof.
  destruct n1 as [l1 t1 s1], n2 as [l2 t2 s2]. unfold encodable, deploy_preimage.
  cbn [account_salt signers effective_threshold].
  intros (Hs1 & Hl1 & Ht1 & Hw1) (Hs2 & Hl2 & Ht2 & Hw2) Heq.
  apply app_inv_head in Heq. apply app_inj_1 in Heq as [-> Heq]; [|congruence].
  apply app_inj_1 in Heq as [Hlen Heq]; [|done].
  apply u32_to_be_bytes_inj in Hlen; [|split; [apply zlen_nonneg|done]..].
  apply signers_preimage_inj in Heq as [-> Ht]; [|unfold zlen in Hlen; lia|done..].
  by apply u32_to_be_bytes_inj in Ht as ->.
Qed.

(** ** Entry points *)

(** The factory is configured and its instance's TTL extends, to [l']. *)
Definition ready e (cfg : FactoryConfig) (l' : Z) : Prop :=
  inst e !! Config = Some cfg
  ∧ host_extend_ttl (sequence e) (inst_live_until e) 100 1555200 = Some l'.

Lemma get_config_Ok e cfg e' :
  get_config e = Ok (cfg, e') ↔ ∃ l', ready e cfg l' ∧ e' = set_inst_live l' e.
Proof.
  unfold get_config, ready. split.
  - intros. inv_run. simpl in *. eauto.
  - intros (l' & (Hi & Hl) & ->). step_do by (apply instance_extend_ttl_Ok; eauto).
    step_get by apply instance_get_Ok. by apply unwrap_or_throw_Ok.
Qed.
Lemma get_config_Err e t :
  get_config e = Err t ↔
  host_extend_ttl (sequence e) (inst_live_until e) 100 1555200 = None ∧ t = HostError
  ∨ (∃ l', host_extend_ttl (sequence e) (inst_live_until e) 100 1555200 = Some l')
    ∧ inst e !! Config = None ∧ t = ContractError MissingConfig.
Proof.
  unfold get_config. split.
  - intros. inv_trap; simpl in *; eauto 10.
  - intros [[Hl ->]|((l' & Hl) & Hn & ->)]; [by apply bind_Err, instance_extend_ttl_Err|].
    step_do by (apply instance_extend_ttl_Ok; eauto). step_get by apply instance_get_Ok.
    by apply unwrap_or_throw_Err.
Qed.
Hint Rewrite @get_config_Ok @normalize_Ok : runs.

(** The account a normalised request stands for. *)
Definition account_of e (n : NormalizedParams) : Address :=
  deployed_address (self e) (compute_account_deploy_salt n).
(** The deployment [create_account] asks for. *)
Definition deployment e (cfg : FactoryConfig) (n : NormalizedParams) : option (Address * World) :=
  host_deploy_v2 (self e) (compute_account_deploy_salt n) (smart_account_wasm_hash cfg)
    (build_account_signers cfg (signers n))
    (build_account_policies cfg (effective_threshold n) (zlen (signers n))) (world e).

Lemma get_account_address_Ok p e a e' :
  get_account_address p e = Ok (a, e') ↔ e' = e ∧ ∃ n, normal p n ∧ a = account_of e n.
Proof.
  unfold get_account_address. split.
  - intros. inv_run. eauto.
  - intros (-> & n & Hn & ->). step_get by (by apply normalize_Ok).
    by step_get by apply current_contract_address_Ok.
Qed.

Lemma get_account_address_Err p e t :
  get_account_address p e = Err t ↔ ∃ err, refused p err ∧ t = ContractError err.
Proof.
  rewrite <- (normalize_Err p e). split.
  - unfold get_account_address. intros Hf. inv_trap. done.
  - intros Hn. by apply bind_Err.
Qed.

Lemma build_account_signers_len cfg l : zlen (build_account_signers cfg l) = zlen l.
Proof. unfold zlen, build_account_signers. by rewrite length_fmap. Qed.

(** [create_account] on a configured factory and a request in normal form. *)
Lemma create_account_run p n e cfg l' :
  ready e cfg l' → normal p n →
  create_account p e
  = if is_executable (account_of e n) (world e) then Ok (account_of e n, set_inst_live l' e)
    else match deployment e cfg n with
         | Some (a, w) =>
             Ok (a, set_events (events e ++ [AccountCreated a]) (set_world w (set_inst_live l' e)))
         | None => Err HostError
         end.
Proof.
  intros Hr Hn. unfold create_account. step_get by (apply get_config_Ok; eauto).
  step_get by (by apply normalize_Ok). step_get by apply current_contract_address_Ok.
  step_get by (by apply read_Ok). rewrite build_account_signers_len.
  change (world (set_inst_live l' e)) with (world e).
  change (deployed_address _ _) with (account_of e n).
  destruct (is_executable _ _); [done|]. exec. fold (deployment e cfg n).
  by destruct (deployment e cfg n) as [[a w]|].
Qed.

(** What a successful creation found and did: a deployed account, or none and it
    deployed one. *)
Definition created p e (a : Address) e' : Prop :=
  ∃ n cfg l', normal p n ∧ ready e cfg l' ∧ a = account_of e n
    ∧ (is_executable a (world e) = true ∧ e' = set_inst_live l' e
       ∨ ∃ w, is_executable a (world e) = false ∧ deployment e cfg n = Some (a, w)
           ∧ is_executable a w = true
           ∧ e' = set_events (events e ++ [AccountCreated a]) (set_world w (set_inst_live l' e))).

(** Why a creation fails: the instance's TTL cannot be extended; the factory is
    not configured, whatever is asked for; the request is refused; or the
    deployment fails. *)
Inductive create_refused p e : trap FactoryError → Prop :=
  | create_not_extended :
      host_extend_ttl (sequence e) (inst_live_until e) 100 1555200 = None →
      create_refused p e HostError
  | create_unconfigured l' :
      host_extend_ttl (sequence e) (inst_live_until e) 100 1555200 = Some l' →
      inst e !! Config = None → create_refused p e (ContractError MissingConfig)
  | create_request cfg l' err :
      ready e cfg l' → refused p err → create_refused p e (ContractError err)
  | create_deployment cfg l' n :
      ready e cfg l' → normal p n → is_executable (account_of e n) (world e) = false →
      deployment e cfg n = None → create_refused p e HostError.

(** Creation is decided by the configuration and the request. *)
Lemma create_account_decided p e :
  (∃ t, get_config e = Err t ∧ create_account p e = Err t)
  ∨ ∃ cfg l', ready e cfg l'
      ∧ ((∃ n, normal p n) ∨ ∃ err, refused p err ∧ create_account p e = Err (ContractError err)).
Proof.
  destruct (get_config e) as [[cfg e1]|t] eqn:Hg; [right|left; exists t; split; [done|by apply bind_Err]].
  pose proof (proj1 (get_config_Ok _ _ _) Hg) as (l' & Hr & ->). exists cfg, l'. split; [done|].
  destruct (normalize_params p (set_inst_live l' e)) as [[n e2]|t] eqn:Hn.
  - apply normalize_Ok in Hn as [_ Hn]. eauto.
  - right. pose proof (proj1 (normalize_Err _ _ _) Hn) as (err & Hre & ->). exists err. split; [done|].
    unfold create_account. step_get by exact Hg. by apply bind_Err.
Qed.

Lemma create_account_Ok p e a e' :
  create_account p e = Ok (a, e') ↔ created p e a e'.
Proof.
  split.
  - intros Hc. destruct (create_account_decided p e)
      as [(t & _ & Ht)|(cfg & l' & Hr & [[n Hn]|(err & _ & Ht)])]; [congruence| |congruence].
    rewrite (create_account_run _ _ _ _ _ Hr Hn) in Hc. exists n, cfg, l'.
    destruct (is_executable (account_of e n) (world e)) eqn:Hx;
      [injection Hc as <- <-; by split_and!; [| | |left]|].
    destruct (deployment e cfg n) as [[a' w]|] eqn:Hd; [|done]. injection Hc as <- <-.
    destruct (deploy_v2_address _ _ _ _ _ _ _ _ Hd) as [Ha Hx']. change (a' = account_of e n) in Ha.
    subst a'. split_and!; [done|done|done|]. right. by exists w.
  - intros (n & cfg & l' & Hn & Hr & -> & Hc). rewrite (create_account_run _ _ _ _ _ Hr Hn).
    by destruct Hc as [[-> ->]|(w & -> & -> & _ & ->)].
Qed.

Lemma create_account_Err p e t :
  create_account p e = Err t ↔ create_refused p e t.
Proof.
  split.
  - intros Hc. destruct (create_account_decided p e)
      as [(t' & Hg & Ht)|(cfg & l' & Hr & [[n Hn]|(err & Hre & Ht)])].
    + assert (t' = t) as -> by congruence.
      apply get_config_Err in Hg as [[? ->]|((l' & ?) & ? & ->)]; by econstructor.
    + rewrite (create_account_run _ _ _ _ _ Hr Hn) in Hc.
      destruct (is_executable (account_of e n) (world e)) eqn:Hx; [done|].
      destruct (deployment e cfg n) as [[a' w]|] eqn:Hd; [done|]. injection Hc as <-.
      by eapply create_deployment.
    + rewrite Hc in Ht. injection Ht as ->. by eapply create_request.
  - intros [Hl|l' Hl Hn|cfg l' err Hr Hre|cfg l' n Hr Hn Hx Hd].
    + apply bind_Err, get_config_Err. by left.
    + apply bind_Err, get_config_Err. right. eauto.
    + unfold create_account. step_get by (apply get_config_Ok; eauto).
      by apply bind_Err, normalize_refused.
    + by rewrite (create_account_run _ _ _ _ _ Hr Hn), Hx, Hd.
Qed.

Lemma create_account_inv p e a e' :
  create_account p e = Ok (a, e') →
  ∃ n cfg, normal p n ∧ inst e !! Config = Some cfg ∧ a = account_of e n.
Proof. intros (n & cfg & l' & ? & [? _] & ? & _)%create_account_Ok. eauto. Qed.

(** ** Runs of a factory *)

Inductive call :=
  | CGetAccountAddress (p : AccountInitParams)
  | CCreateAccount (p : AccountInitParams)
  | CGetVerifier (kind : SignerKind)
  | CGetThresholdPolicy.
Definition run_call (c : call) : FM Address :=
  match c with
  | CGetAccountAddress p => get_account_address p
  | CCreateAccount p => create_account p
  | CGetVerifier kind => get_verifier kind
  | CGetThresholdPolicy => get_threshold_policy
  end.
Inductive step : FEnv → FEnv → Prop :=
  | step_call c a e e' : run_call c e = Ok (a, e') → step e e'
  | step_time e seq time w : sequence e ≤ seq → step e (set_ledger seq time w e).

Lemma factory_call_frame c a e e' :
  run_call c e = Ok (a, e') → inst e' = inst e ∧ self e' = self e ∧ sequence e' = sequence e.
Proof.
  destruct c as [p|p|k|]; simpl.
  - by intros (-> & _)%get_account_address_Ok.
  - unfold create_account. intros. by inv_run.
  - unfold get_verifier. intros. by inv_run.
  - unfold get_threshold_policy. intros. by inv_run.
Qed.

Lemma factory_run_frame e e' : rtc step e e' → inst e' = inst e ∧ self e' = self e.
Proof.
  induction 1 as [|e e1 e2 Hs _ [-> ->]]; [done|].
  destruct Hs as [c a e e' Hc|]; [|done]. by apply factory_call_frame in Hc as (-> & -> & _).
Qed.


(** *** Termination *)

(** More fuel than positions left changes nothing, and never runs out. *)
Lemma insert_loop_fuel fuel1 fuel2 pre suf signer e :
  (length suf < fuel1)%nat → (length suf < fuel2)%nat →
  insert_loop fuel1 (pre ++ suf) signer (length pre) e
  = insert_loop fuel2 (pre ++ suf) signer (length pre) e.
Proof.
  revert fuel2 pre suf. induction fuel1 as [|fuel1 IH]; intros [|fuel2] pre suf H1f H2f; [lia..|].
  cbn [insert_loop]. destruct suf as [|y suf].
  { by rewrite (proj2 (Nat.ltb_ge _ _)) by (rewrite app_nil_r; lia). }
  rewrite (proj2 (Nat.ltb_lt _ _)) by (rewrite length_app; simpl; lia).
  rewrite list_lookup_middle by done. unfold unwrap, mbind, M_bind.
  destruct (compare_signers y signer); [done| |done].
  specialize (IH fuel2 (pre ++ [y]) suf). simpl in H1f, H2f.
  rewrite length_app, <- app_assoc in IH. simpl in IH. rewrite Nat.add_1_r in IH.
  apply IH; lia.
Qed.

(** A step of the loop moves to a later position of an unchanged vector. *)
Definition loop_step (canonical : list AccountSignerInit) (signer : AccountSignerInit)
    (next idx : nat) : Prop :=
  ∃ existing, canonical !! idx = Some existing ∧ compare_signers existing signer = Lt
    ∧ next = S idx.

Lemma loop_step_wf canonical signer : well_founded (loop_step canonical signer).
Proof.
  apply (wf_incl _ _ (ltof nat (λ idx, length canonical - idx)%nat)); [|apply well_founded_ltof].
  intros next idx (existing & Hi%lookup_lt_Some & _ & ->). unfold ltof. lia.
Qed.

Lemma panics_normalize_params p : no_panic (normalize_params p).
Proof. by intros e (err & _ & [=])%normalize_Err. Qed.
Hint Resolve panics_normalize_params : panics.
Lemma panics_get_config : no_panic get_config.
Proof. unfold get_config. solve_panics. Qed.
Hint Resolve panics_get_config : panics.
Lemma panics_factory_call c : no_panic (run_call c).
Proof.
  destruct c as [p|p|k|]; simpl; unfold get_account_address, create_account, get_verifier,
    get_threshold_policy; solve_panics.
Qed.

Lemma factory_constructor_Ok wasm ed wa th e e' :
  constructor wasm ed wa th e = Ok (tt, e') ↔
  inst e !! Config = None ∧ is_executable ed (world e) = true
  ∧ is_executable wa (world e) = true ∧ is_executable th (world e) = true
  ∧ ∃ l', host_extend_ttl (sequence e) (inst_live_until e) 100 1555200 = Some l'
       ∧ e' = set_inst_live l' (set_inst (<[Config := mkConfig wasm ed wa th]> (inst e)) e).
Proof.
  unfold constructor, validate_singleton_address. split.
  - intros. inv_run. simpl in *. eauto 10.
  - intros (Hn & He & Hw & Ht & l' & Hl & ->). exec.
    rewrite bool_decide_false by (rewrite Hn; by intros []).
    rewrite He. simpl. rewrite Hw. simpl. rewrite Ht. simpl. by rewrite Hl.
Qed.
End signers.

(** ** The properties *)

Section theorems.
Context `{FactoryLaws}.
Abbreviation FEnv := (Env DataKey FactoryConfig FactoryEvent).
Implicit Types e : FEnv.
Hint Rewrite @get_config_Ok @normalize_Ok : runs.

(** C25: signer canonicalisation. [canonicalize_signers] (its index loop
    included, which always terminates) succeeds exactly on well-shaped signers
    without duplicates, and returns their strictly sorted permutation, which is
    unique; otherwise it fails with the error of the first signer that is
    misshapen or repeats an earlier one. *)
Theorem canonicalize_spec input e :
  (∀ l e', canonicalize_signers input e = Ok (l, e') ↔
     e' = e ∧ Forall well_shaped input ∧ l ≡ₚ input ∧ strictly_sorted compare_signers l)
  ∧ (is_Ok (canonicalize_signers input e) ↔ Forall well_shaped input ∧ NoDup input)
  ∧ (∀ l x r, input = l ++ x :: r → Forall well_shaped l → NoDup l →
     match shape_error x with
     | Some err => canonicalize_signers input e = Err (ContractError err)
     | None => x ∈ l → canonicalize_signers input e = Err (ContractError DuplicateSigner)
     end).
Proof.
  split; [intros; apply canonicalize_Ok|]. split.
  - split.
    + destruct (canonicalize_signers input e) as [[l e']|] eqn:Hc; [|done]. intros _.
      apply canonicalize_Ok in Hc as (_ & Hw & Hp & Hs). split; [done|].
      rewrite <- Hp. exact (strictly_sorted_NoDup compare_signers l Hs).
    + intros [Hw Hnd]. by destruct (canonical_exists input e Hw Hnd) as (l & -> & _).
  - intros l x r -> Hw Hnd. by apply canonicalize_Err.
Qed.

(** Request normalisation. A request has at most one normal form, and
    [normalize_params] returns it; it fails exactly on the requests that are
    [refused], with their error. *)
Theorem normalize_spec p e :
  (∀ n e', normalize_params p e = Ok (n, e') ↔ e' = e ∧ normal p n)
  ∧ (∀ n1 n2, normal p n1 → normal p n2 → n1 = n2)
  ∧ (∀ t, normalize_params p e = Err t ↔ ∃ err, refused p err ∧ t = ContractError err).
Proof.
  split; [intros; apply normalize_Ok|]. split; [|intros; apply normalize_Err].
  intros n1 n2 Hn1 Hn2. pose proof (proj2 (normalize_Ok p n1 e e) (conj eq_refl Hn1)).
  pose proof (proj2 (normalize_Ok p n2 e e) (conj eq_refl Hn2)). congruence.
Qed.

(** C26: order independence. Requests for the same signers in any order, with the
    same salt and threshold (an omitted threshold of a single signer meaning
    one), are the same account: they have the same predicted address, and
    creating one is creating the other, down to the deployed signers, policies,
    events and state. *)
Theorem account_order_independent p1 p2 e :
  same_request p1 p2 →
  (∀ a e', get_account_address p1 e = Ok (a, e') ↔ get_account_address p2 e = Ok (a, e'))
  ∧ (∀ a e', create_account p1 e = Ok (a, e') ↔ create_account p2 e = Ok (a, e')).
Proof.
  intros Hp. assert (∀ n, normal p1 n ↔ normal p2 n) as Hn by exact (λ n, normal_same_request n p1 p2 Hp).
  split; intros a e'.
  - rewrite !get_account_address_Ok. by setoid_rewrite Hn.
  - rewrite !create_account_Ok. unfold created. by setoid_rewrite Hn.
Qed.

(** C21: the factory always answers. The index loop of canonicalize_signers is
    well founded, and the fuel of its model is enough: any more gives the same
    result. So for every request, in every state, normalisation returns a normal
    form or one of the factory's errors without touching the state, and no entry
    point panics on a request that holds elements of the declared types: it
    returns, fails with a factory error, or is stopped by the host. *)
Theorem factory_terminates :
  (∀ canonical signer, well_founded (loop_step canonical signer))
  ∧ (∀ fuel canonical signer e, (length canonical < fuel)%nat →
       insert_loop fuel canonical signer 0 e = insert_loop (S (length canonical)) canonical signer 0 e)
  ∧ (∀ p e, (∃ n, normalize_params p e = Ok (n, e))
            ∨ (∃ err, normalize_params p e = Err (ContractError err)))
  ∧ (∀ wasm ed wa th, no_panic (constructor wasm ed wa th))
  ∧ ∀ c, no_panic (run_call c).
Proof.
  split_and!.
  - apply loop_step_wf.
  - intros fuel canonical signer e Hf. by apply (insert_loop_fuel fuel _ [] canonical); [|lia].
  - intros p e. destruct (normalize_params p e) as [[n e']|t] eqn:Hn; [left|right].
    + exists n. by apply normalize_Ok in Hn as [-> _].
    + apply normalize_Err in Hn as (err & _ & ->). by exists err.
  - intros wasm ed wa th. unfold constructor, validate_singleton_address. solve_panics.
  - apply panics_factory_call.
Qed.

(** C19: the salt commits to the account. The hashed preimage determines every
    part of a normal form (tag, 32-byte salt, signer count, each signer's kind
    and length-prefixed data, threshold), so two requests get the same
    deployment salt only if they have the same salt, the same signers up to
    order and the same effective threshold, or their preimages are two
    different inputs on which SHA-256 collides. *)
Theorem account_salt_commits p1 p2 n1 n2 :
  normal p1 n1 → normal p2 n2 → encodable n1 → encodable n2 →
  compute_account_deploy_salt n1 = compute_account_deploy_salt n2 →
  (init_signers p1 ≡ₚ init_signers p2 ∧ init_salt p1 = init_salt p2
   ∧ effective_threshold n1 = effective_threshold n2 ∧ n1 = n2)
  ∨ (deploy_preimage n1 ≠ deploy_preimage n2
     ∧ sha256 (deploy_preimage n1) = sha256 (deploy_preimage n2)).
Proof.
  intros (_ & _ & Hp1 & _ & Hs1 & _) (_ & _ & Hp2 & _ & Hs2 & _) He1 He2 Hsalt.
  destruct (decide (deploy_preimage n1 = deploy_preimage n2)) as [Heq|Hne]; [left|by right].
  apply deploy_preimage_injective in Heq as ->; [|done..].
  rewrite <- Hs1, <- Hs2, <- Hp1, Hp2. done.
Qed.

(** C30: account creation, on every branch. [create_account] succeeds exactly on
    a configured factory and a request with a normal form, and returns the
    address [get_account_address] predicts: if something is already deployed
    there it changes nothing but the instance's TTL, otherwise it deploys once,
    with the configured wasm, the signers mapped to the configured verifiers in
    canonical order, and the threshold policy exactly when there are several
    signers, and emits the event. It fails with [t] exactly when
    [create_refused] gives [t]: an unconfigured factory refuses every request; a
    request without signers, with a misshapen or repeated one or with a wrong
    threshold is refused with its own error, by [get_account_address] too; a
    failing deployment fails the call. *)
Theorem create_account_spec p e :
  (∀ a e', create_account p e = Ok (a, e') ↔ created p e a e')
  ∧ (∀ t, create_account p e = Err t ↔ create_refused p e t)
  ∧ (∀ a e', get_account_address p e = Ok (a, e') ↔ e' = e ∧ ∃ n, normal p n ∧ a = account_of e n)
  ∧ (∀ t, get_account_address p e = Err t ↔ ∃ err, refused p err ∧ t = ContractError err)
  ∧ (∀ n cfg, normal p n →
       build_account_policies cfg (effective_threshold n) (zlen (signers n))
       = match signers n with
         | [_] => ∅
         | _ => {[ threshold_policy cfg := threshold_into_val (effective_threshold n) ]}
         end).
Proof.
  split_and!; intros; [apply create_account_Ok|apply create_account_Err|apply get_account_address_Ok
    |apply get_account_address_Err|].
  match goal with Hn : normal p n |- _ => destruct Hn as (Hne & _ & Hp & _) end.
  unfold build_account_policies, zlen. destruct (signers n) as [|s [|s' l]]; [|done|].
  - by apply Permutation_nil_l in Hp.
  - rewrite (proj2 (Z.ltb_lt _ _)); [done|]. simpl. lia.
Qed.

(** C20: creation is idempotent, even under reordering. Once a request created
    its account, the same request with its signers in any order, at any later
    time while the account exists and the factory's instance is live, returns
    the same address and deploys, emits and changes nothing (only the
    instance's TTL may grow). *)
Theorem create_account_idempotent max_ttl `{!TtlLaws max_ttl} p p' e a e1 e2 :
  1555200 ≤ max_ttl →
  create_account p e = Ok (a, e1) → rtc step e1 e2 →
  same_request p p' → sequence e2 ≤ inst_live_until e2 → is_executable a (world e2) = true →
  ∃ l', inst_live_until e2 ≤ l' ∧ create_account p' e2 = Ok (a, set_inst_live l' e2).
Proof.
  intros Hmax Hc Hrun Hp Hlive Hx.
  pose proof (create_account_inv _ _ _ _ Hc) as (n & cfg & Hn & Hcfg & ->).
  apply (factory_call_frame (CCreateAccount p)) in Hc as (Hi & Hself & _).
  apply factory_run_frame in Hrun as [Hi2 Hself2].
  destruct (extend_ttl_live (sequence e2) (inst_live_until e2) 100 1555200) as [l' Hl];
    [done|lia|done|].
  exists l'. split; [by apply (extend_ttl_result _ _ _ _ _) in Hl as [? _]; [|lia|]|].
  assert (account_of e n = account_of e2 n) as Ha by (unfold account_of; congruence).
  rewrite Ha in *. apply create_account_Ok. exists n, cfg, l'.
  split; [by apply (normal_same_request n p p' Hp)|].
  split; [split; [by rewrite Hi2, Hi|done]|]. split; [done|]. by left.
Qed.

(** C34: configuration. The constructor succeeds exactly on an unconfigured
    instance with three deployed singletons (and a live TTL), the first missing
    one giving its own error; from then on no call, in any order and at any
    time, changes the configuration, a second construction is refused, and the
    views return what was configured. *)
Theorem factory_configured wasm ed wa th e :
  (inst e !! Config ≠ None →
   constructor wasm ed wa th e = Err (ContractError AlreadyInitialized))
  ∧ (inst e !! Config = None →
     (is_executable ed (world e) = false →
      constructor wasm ed wa th e = Err (ContractError InvalidEd25519Verifier))
     ∧ (is_executable ed (world e) = true → is_executable wa (world e) = false →
        constructor wasm ed wa th e = Err (ContractError InvalidWebAuthnVerifier))
     ∧ (is_executable ed (world e) = true → is_executable wa (world e) = true →
        is_executable th (world e) = false →
        constructor wasm ed wa th e = Err (ContractError InvalidThresholdPolicy)))
  ∧ (∀ e1 e2, constructor wasm ed wa th e = Ok (tt, e1) → rtc step e1 e2 →
     inst e2 !! Config = Some (mkConfig wasm ed wa th)
     ∧ (∀ wasm' ed' wa' th', constructor wasm' ed' wa' th' e2
          = Err (ContractError AlreadyInitialized))
     ∧ (∀ kind a e3, get_verifier kind e2 = Ok (a, e3) →
          a = match kind with Ed25519 => ed | WebAuthn => wa end)
     ∧ (∀ a e3, get_threshold_policy e2 = Ok (a, e3) → a = th)).
Proof.
  assert (∀ wasm ed wa th e, inst e !! Config ≠ None →
    constructor wasm ed wa th e = Err (ContractError AlreadyInitialized)) as Hinit.
  { clear. intros wasm ed wa th e Hi. unfold constructor. exec.
    rewrite bool_decide_true; [done|]. by apply not_eq_None_Some. }
  split; [apply Hinit|]. split.
  - intros Hn. unfold constructor, validate_singleton_address. exec.
    rewrite bool_decide_false by (rewrite Hn; by intros []). split_and!.
    + by intros ->.
    + intros ->. simpl. by intros ->.
    + intros ->. simpl. intros ->. simpl. by intros ->.
  - intros e1 e2 Hc Hrun. apply factory_constructor_Ok in Hc as (_ & _ & _ & _ & l' & _ & ->).
    apply factory_run_frame in Hrun as [Hi _]. simpl in Hi.
    assert (inst e2 !! Config = Some (mkConfig wasm ed wa th)) as Hcfg
      by (rewrite Hi; apply lookup_insert_eq).
    split_and!; [done|intros; apply Hinit; by rewrite Hcfg| |].
    + unfold get_verifier. intros kind a e3 Hg. inv_run. unfold ready in *. destruct_and?.
      by simplify_eq.
    + unfold get_threshold_policy. intros a e3 Hg. inv_run. unfold ready in *. destruct_and?.
      by simplify_eq.
Qed.
End theorems.

(** ** The reference host's deployer, and witnesses *)

#[export] Instance ref_factory_host : FactoryHost (H := ref_host) :=
  Build_FactoryHost ref_host N.compare (list_cmp (cmp_on Z_of_byte Z.compare))
    (λ a : N, replicate (N.to_nat a) Byte.x00) (λ b, b)
    (λ (self : N) salt, N.pos (encode (self, salt)))
    (λ (a : N) w, bool_decide (is_Some (r_code w !! a)))
    (λ (self : N) salt wasm _ _ w,
       let a := N.pos (encode (self, salt)) in
       match r_code w !! a with
       | Some _ => None
       | None => Some (a, r_set_code (<[a := wasm]> (r_code w)) w)
       end)
    RU32.

#[export] Instance Z_of_byte_injective : Inj (=) (=) Z_of_byte.
Proof. intros b1 b2. apply Z_of_byte_inj. Qed.

#[export] Instance ref_factory_laws : FactoryLaws (H := ref_host).
Proof.
  split; simpl.
  - apply N_compare_laws.
  - apply list_cmp_laws. apply (cmp_on_laws Z_of_byte Z.compare).
  - intros a b Hab. apply (f_equal length) in Hab. rewrite !length_replicate in Hab. lia.
  - intros self salt wasm sg po w a w'. destruct (r_code w !! _) eqn:?; [done|].
    intros [= <- <-]. split; [done|]. apply bool_decide_eq_true. simpl.
    rewrite lookup_insert_eq. eauto.
Qed.

(** A factory 9 whose singletons are 20, 21 and 22, and a two-signer request. *)
Definition test_world : RWorld :=
  {| r_auth := []; r_balances := ∅; r_decimals := ∅; r_prices := ∅;
     r_code := {[ 20%N := []; 21%N := []; 22%N := [] ]}; r_roles := []; r_store := tt |}.
Abbreviation TEnv :=
  (Env (H := ref_host) DataKey (FactoryConfig (H := ref_host)) (FactoryEvent (H := ref_host))).
Definition test_env0 : TEnv := ref_env 9%N 10 0 test_world.
Definition test_env1 : TEnv :=
  final (constructor (H := ref_host) [Byte.x07] 20%N 21%N 22%N test_env0) test_env0.
Definition test_key : AccountSignerInit (H := ref_host) :=
  External (H := ref_host) (mkExternal Ed25519 (replicate 32 Byte.x01)).
Definition test_delegated : AccountSignerInit (H := ref_host) := Delegated (H := ref_host) 3%N.
Definition test_signers : list (AccountSignerInit (H := ref_host)) := [test_key; test_delegated].
Definition test_request (l : list (AccountSignerInit (H := ref_host))) (t : option Z) :
    AccountInitParams (H := ref_host) :=
  mkInitParams (H := ref_host) l t (replicate 32 Byte.x00).
Definition test_params := test_request test_signers (Some 2).
Definition test_params' := test_request (reverse test_signers) (Some 2).
Definition test_normal (t : Z) : NormalizedParams (H := ref_host) :=
  mkNormalized (H := ref_host) [test_delegated; test_key] t (replicate 32 Byte.x00).
Definition test_created := create_account (H := ref_host) test_params test_env1.
Definition test_account : N := value test_created 0%N.
Definition test_env2 : TEnv := final test_created test_env1.

Lemma test_normal_ok t :
  t = 1 ∨ t = 2 →
  normal (H := ref_host) (test_request test_signers (Some t)) (test_normal t).
Proof.
  intros Ht. apply (normalize_Ok (H := ref_host) _ _ test_env1 test_env1).
  destruct Ht as [-> | ->]; by_run.
Qed.

Lemma canonicalize_spec_witness :
  (∀ l e', canonicalize_signers (H := ref_host) test_signers test_env0 = Ok (l, e') →
     l ≡ₚ test_signers)
  ∧ canonicalize_signers (H := ref_host) (test_signers ++ [test_key]) test_env0
    = Err (ContractError DuplicateSigner).
Proof.
  split.
  - intros l e' Hl.
    by apply (proj1 (canonicalize_spec (H := ref_host) test_signers test_env0)) in Hl as (_ & _ & ? & _).
  - refine (proj2 (proj2 (canonicalize_spec (H := ref_host) (test_signers ++ [test_key]) test_env0))
      test_signers test_key [] eq_refl _ _ _).
    + repeat constructor.
    + apply (bool_decide_unpack _). by vm_compute.
    + left.
Defined.

Lemma factory_terminates_witness :
  insert_loop (H := ref_host) 7 [test_delegated] test_key 0 test_env0
    = Ok (([test_delegated], false), test_env0)
  ∧ create_account (H := ref_host) test_params test_env1 ≠ Err Panic.
Proof.
  destruct (factory_terminates (H := ref_host)) as (_ & Hfuel & _ & _ & Hcalls). split.
  - rewrite (Hfuel 7%nat [test_delegated] test_key test_env0) by (simpl; lia). by_run.
  - exact (Hcalls (CCreateAccount (H := ref_host) test_params) test_env1).
Defined.

Lemma test_refused : refused (H := ref_host) (test_request test_signers None) MissingThreshold.
Proof.
  apply refused_missing; [|apply (bool_decide_unpack _); by vm_compute|by_cmp|done].
  repeat constructor.
Qed.

Lemma normalize_spec_witness :
  normalize_params (H := ref_host) (test_request test_signers None) test_env0
    = Err (ContractError MissingThreshold)
  ∧ normal (H := ref_host) test_params (test_normal 2).
Proof.
  split.
  - apply (normalize_spec (H := ref_host) (test_request test_signers None) test_env0).
    exists MissingThreshold. split; [exact test_refused|reflexivity].
  - refine (proj2 (proj1 (proj1 (normalize_spec (H := ref_host) test_params test_env0)
      (test_normal 2) test_env0) _)). by_run.
Defined.

Lemma test_same : same_request (H := ref_host) test_params test_params'.
Proof. split_and!; [symmetry; apply reverse_Permutation|done|by left]. Qed.

Lemma account_order_independent_witness :
  get_account_address (H := ref_host) test_params' test_env1 = Ok (test_account, test_env1).
Proof.
  refine (proj1 (proj1 (account_order_independent (H := ref_host) test_params test_params' test_env1
    test_same) test_account test_env1) _). by_run.
Defined.

(** The two thresholds of the same signers have different salts. *)
Lemma account_salt_commits_witness :
  compute_account_deploy_salt (H := ref_host) (test_normal 1)
  ≠ compute_account_deploy_salt (H := ref_host) (test_normal 2).
Proof.
  assert (∀ t, is_u32 t → encodable (H := ref_host) (test_normal t)) as Henc.
  { intros t Ht. split_and!; [by_run|by_cmp|done|]. repeat constructor; by_cmp. }
  intros Heq.
  destruct (account_salt_commits (H := ref_host) (test_request test_signers (Some 1)) test_params
    (test_normal 1) (test_normal 2) (test_normal_ok 1 (or_introl eq_refl))
    (test_normal_ok 2 (or_intror eq_refl)) (Henc 1 ltac:(by_cmp)) (Henc 2 ltac:(by_cmp)) Heq)
    as [(_ & _ & Ht & _)|[Hne Hsha]]; [discriminate Ht|]. exact (Hne Hsha).
Defined.

Lemma create_account_spec_witness :
  (∃ n, normal (H := ref_host) test_params n ∧ test_account = account_of (H := ref_host) test_env1 n)
  ∧ create_account (H := ref_host) (test_request [] None) test_env0 = Err (ContractError MissingConfig)
  ∧ create_account (H := ref_host) (test_request test_signers None) test_env1
    = Err (ContractError MissingThreshold)
  ∧ build_account_policies (H := ref_host) (mkConfig (H := ref_host) [] 20%N 21%N 22%N) 2 2
    = {[ 22%N := RU32 2 ]}.
Proof.
  split_and!.
  - apply (create_account_spec (H := ref_host) test_params test_env1) with (e' := test_env1). by_run.
  - apply (proj1 (proj2 (create_account_spec (H := ref_host) (test_request [] None) test_env0))).
    apply create_unconfigured with (l' := 4105); by_run.
  - apply (proj1 (proj2 (create_account_spec (H := ref_host) (test_request test_signers None) test_env1))).
    apply create_request with (cfg := mkConfig (H := ref_host) [Byte.x07] 20%N 21%N 22%N) (l' := 4105).
    + split; by_run.
    + exact test_refused.
  - exact (proj2 (proj2 (proj2 (proj2 (create_account_spec (H := ref_host) test_params test_env1))))
      (test_normal 2) (mkConfig (H := ref_host) [] 20%N 21%N 22%N) (test_normal_ok 2 (or_intror eq_refl))).
Defined.

Lemma create_account_idempotent_witness :
  ∃ l', create_account (H := ref_host) test_params' test_env2
        = Ok (test_account, set_inst_live l' test_env2).
Proof.
  destruct (create_account_idempotent (H := ref_host) 3110400 test_params test_params' test_env1
    test_account test_env2 test_env2 ltac:(by_cmp) ltac:(by_run) (rtc_refl _ _)
    test_same ltac:(by_cmp) ltac:(by_run))
    as (l' & _ & Hc).
  exists l'. exact Hc.
Defined.

Lemma factory_configured_witness :
  constructor (H := ref_host) [] 99%N 21%N 22%N test_env0
    = Err (ContractError InvalidEd25519Verifier)
  ∧ inst test_env2 !! Config = Some (mkConfig (H := ref_host) [Byte.x07] 20%N 21%N 22%N).
Proof.
  split.
  - exact (proj1 (proj1 (proj2 (factory_configured (H := ref_host) [] 99%N 21%N 22%N test_env0))
      ltac:(by_run)) ltac:(by_run)).
  - refine (proj1 (proj2 (proj2 (factory_configured (H := ref_host) [Byte.x07] 20%N 21%N 22%N test_env0))
      test_env1 test_env2 _ _)); [by_run|].
    apply rtc_once. apply (step_call (H := ref_host) (CCreateAccount (H := ref_host) test_params)
      test_account). by_run.
Defined.
End Factory.
