(* ===== verification/SmartAccount.v ===== *)
(** * The Latch smart account (latch-smart-account/src/lib.rs)

    The account's own code: the registry of the contracts it deployed
    (deploy_contract, get_deployed_contract_count, get_deployed_contract), and
    the entry points that gate or forward to the stellar-accounts library
    (constructor, batch_add_signer, __check_auth, upgrade).  That library is
    not part of the repository: its operations are fields of a class. *)
From S2P Require Import Prelude RustInt Soroban RefHost Policy.
Local Open Scope Z_scope.

(** The stellar-accounts and stellar-contract-utils operations the account
    calls, and the host's deployer. The library keeps its own state (context
    rules, signers, policies) under keys of its own, which the account's code
    never reads: it is part of the world here. *)
Class AccountLib `{Host} := {
  AuthPayload : Type;
  SmartAccountError : Type;
  SMART_ACCOUNT_TTL_THRESHOLD : Z;
  SMART_ACCOUNT_EXTEND_AMOUNT : Z;
  lib_add_context_rule : Address → ContextRuleType → Symbol → option Z → list Signer →
    gmap Address Val → World → option (unit * World);
  lib_batch_add_signer : Address → Z → list Signer → World → option (unit * World);
  (** [smart_account::do_check_auth]: its result, an error being a value. *)
  lib_do_check_auth : Address → Bytes → AuthPayload → list Context → World →
    option ((unit + SmartAccountError) * World);
  lib_upgrade : Address → Bytes → World → option (unit * World);
  (** The calls of the SmartAccount and ExecutionEntryPoint traits: default
      methods of the library, each checking the account's authorisation where
      the trait documents it. *)
  TraitCall : Type;
  lib_trait_call : Address → TraitCall → World → option (unit * World);
  (** [deployer().with_current_contract(salt).deploy_v2(wasm_hash, args)], with
      the host's authorisation of the deployer. *)
  host_deploy : Address → Bytes → Bytes → list Val → World → option (Address * World);
}.

Module Account.

(** ** Data *)

Inductive LatchSmartAccountStorageKey :=
  | DeployedContractCount
  | DeployedContractKey (index : Z).
#[export] Instance LatchSmartAccountStorageKey_eq_dec : EqDecision LatchSmartAccountStorageKey.
Proof. solve_decision. Defined.
#[export] Program Instance LatchSmartAccountStorageKey_countable :
  Countable LatchSmartAccountStorageKey :=
  inj_countable' (λ k, match k with DeployedContractCount => None | DeployedContractKey i => Some i end)
    (λ o, match o with None => DeployedContractCount | Some i => DeployedContractKey i end) _.
Next Obligation. by intros []. Qed.

Inductive LatchSmartAccountError := DeployedContractNotFound | MathOverflow.

Section contract.
Context `{AccountLib}.

Record DeployedContract := mkDeployed { address : Address; wasm_hash : Bytes }.

(** The values under the two kinds of keys. *)
Inductive AccountVal :=
  | CountVal (n : Z)
  | RecordVal (record : DeployedContract).
Inductive AccountEvent := ContractDeployed (address : Address) (wasm_hash : Bytes).

Abbreviation AEnv := (Env LatchSmartAccountStorageKey AccountVal AccountEvent).
Abbreviation AM := (M AEnv LatchSmartAccountError).

Definition as_count (v : AccountVal) : option Z :=
  match v with CountVal n => Some n | RecordVal _ => None end.
Definition as_record (v : AccountVal) : option DeployedContract :=
  match v with RecordVal r => Some r | CountVal _ => None end.

(** ** Entry points *)

Definition constructor (signers : list Signer) (policies : gmap Address Val) : AM unit :=
  me ← current_contract_address;
  invoke (lib_add_context_rule me DefaultRule "default" None signers policies).

Definition batch_add_signer (context_rule_id : Z) (signers : list Signer) : AM unit :=
  me ← current_contract_address;
  require_auth me ;;
  invoke (lib_batch_add_signer me context_rule_id signers).

(** A stored value of another type makes the typed [get] panic. *)
Definition get_deployed_contract_count : AM Z :=
  o ← instance_get DeployedContractCount;
  match o with
  | None => mret 0
  | Some v => unwrap (as_count v)
  end.

Definition deploy_contract (hash salt : Bytes) (constructor_args : list Val) : AM Address :=
  me ← current_contract_address;
  deployed ← invoke (host_deploy me salt hash constructor_args);
  index ← get_deployed_contract_count;
  next_count ← unwrap_or_throw (u32_checked_add index 1) MathOverflow;
  instance_set DeployedContractCount (CountVal next_count) ;;
  let key := DeployedContractKey index in
  persistent_set key (RecordVal (mkDeployed deployed hash)) ;;
  persistent_extend_ttl key SMART_ACCOUNT_TTL_THRESHOLD SMART_ACCOUNT_EXTEND_AMOUNT ;;
  publish (ContractDeployed deployed hash) ;;
  mret deployed.

Definition get_deployed_contract (index : Z) : AM DeployedContract :=
  o ← persistent_get_extend (DeployedContractKey index)
        SMART_ACCOUNT_TTL_THRESHOLD SMART_ACCOUNT_EXTEND_AMOUNT;
  v ← unwrap_or_throw o DeployedContractNotFound;
  unwrap (as_record v).

(** [__check_auth]: the library decides. *)
Definition check_auth (signature_payload : Bytes) (signatures : AuthPayload)
    (auth_contexts : list Context) : AM (unit + SmartAccountError) :=
  me ← current_contract_address;
  invoke (lib_do_check_auth me signature_payload signatures auth_contexts).

Definition upgrade (new_wasm_hash : Bytes) (_operator : Address) : AM unit :=
  me ← current_contract_address;
  require_auth me ;;
  invoke (lib_upgrade me new_wasm_hash).

(** [impl SmartAccount for LatchSmartAccount {}] and [impl ExecutionEntryPoint
    for LatchSmartAccount {}]: every method is the trait's default. *)
Definition trait_call (c : TraitCall) : AM unit :=
  me ← current_contract_address;
  invoke (lib_trait_call me c).

(** ** Calls and runs *)

Inductive call :=
  | CBatchAddSigner (context_rule_id : Z) (signers : list Signer)
  | CDeploy (hash salt : Bytes) (constructor_args : list Val)
  | CGetCount
  | CGetDeployed (index : Z)
  | CCheckAuth (payload : Bytes) (signatures : AuthPayload) (contexts : list Context)
  | CUpgrade (new_wasm_hash : Bytes) (operator : Address)
  | CTrait (c : TraitCall).

(** The records a successful call adds to the registry. *)
Definition run_call (c : call) : AM (list DeployedContract) :=
  match c with
  | CBatchAddSigner i l => batch_add_signer i l ;; mret []
  | CDeploy hash salt cargs => a ← deploy_contract hash salt cargs; mret [mkDeployed a hash]
  | CGetCount => get_deployed_contract_count ;; mret []
  | CGetDeployed i => get_deployed_contract i ;; mret []
  | CCheckAuth p s cs => check_auth p s cs ;; mret []
  | CUpgrade h o => upgrade h o ;; mret []
  | CTrait c => trait_call c ;; mret []
  end.
End contract.

(** ** The registry *)

Section registry.
Context `{AccountLib}.
Abbreviation AEnv := (Env LatchSmartAccountStorageKey AccountVal AccountEvent).
Implicit Types e : AEnv.

(** [holds_registry e l]: the storage represents the list [l] of deployed
    contracts, in order: the counter is its length and the records its
    elements, at exactly its indices. *)
Definition holds_registry e (l : list DeployedContract) : Prop :=
  zlen l ≤ u32_max
  ∧ (inst e !! DeployedContractCount = Some (CountVal (zlen l))
     ∨ inst e !! DeployedContractCount = None ∧ l = [])
  ∧ ∀ i, persistent e !! DeployedContractKey i
         = if decide (0 ≤ i) then RecordVal <$> l !! Z.to_nat i else None.

(** The account between [e0] and [e]: calls succeeded in any order, deploying
    [l], while the ledger and the world moved on. *)
Inductive account_run (e0 : AEnv) : list DeployedContract → AEnv → Prop :=
  | account_start : account_run e0 [] e0
  | account_call l e c new e' :
      account_run e0 l e → run_call c e = Ok (new, e') → account_run e0 (l ++ new) e'
  | account_time l e seq time w :
      account_run e0 l e → sequence e ≤ seq → account_run e0 l (set_ledger seq time w e).

Lemma get_count_run e l :
  holds_registry e l → get_deployed_contract_count e = Ok (zlen l, e).
Proof.
  intros (_ & Hc & _). unfold get_deployed_contract_count.
  step_get by apply instance_get_Ok. by destruct Hc as [->|[-> ->]].
Qed.
Lemma get_count_Ok e n e' : get_deployed_contract_count e = Ok (n, e') → e' = e.
Proof. unfold get_deployed_contract_count. intros. by inv_run. Qed.

Lemma get_deployed_frame i e r e' :
  get_deployed_contract i e = Ok (r, e') → inst e' = inst e ∧ persistent e' = persistent e.
Proof. unfold get_deployed_contract. intros. by inv_run. Qed.

Lemma lookup_snoc_Z {A} (l : list A) x i :
  0 ≤ i → (l ++ [x]) !! Z.to_nat i = if decide (i = zlen l) then Some x else l !! Z.to_nat i.
Proof.
  intros Hi. unfold zlen. case_decide as Hl.
  - subst. rewrite Nat2Z.id. by apply list_lookup_middle.
  - destruct (decide (i < zlen l)) as [Hlt|Hge]; unfold zlen in *.
    + rewrite lookup_app_l; [done|]. lia.
    + rewrite lookup_ge_None_2, lookup_ge_None_2; [done|lia|]. rewrite length_app. simpl. lia.
Qed.

(** What a deployment does: the effect on the account's own state. *)
Lemma deploy_contract_run hash salt cargs e l :
  holds_registry e l →
  deploy_contract hash salt cargs e
  = match host_deploy (self e) salt hash cargs (world e) with
    | None => Err HostError
    | Some (a, w) =>
        if decide (zlen l = u32_max) then Err (ContractError MathOverflow)
        else
          (persistent_extend_ttl (DeployedContractKey (zlen l)) SMART_ACCOUNT_TTL_THRESHOLD
            SMART_ACCOUNT_EXTEND_AMOUNT ;;
           publish (ContractDeployed a hash) ;; mret a)
          (store (DeployedContractKey (zlen l)) (RecordVal (mkDeployed a hash))
            (set_inst (<[DeployedContractCount := CountVal (zlen l + 1)]> (inst e)) (set_world w e)))
    end.
Proof.
  intros Hr. unfold deploy_contract. step_get by apply current_contract_address_Ok.
  destruct (host_deploy _ _ _ _ _) as [[a w]|] eqn:Hd;
    [|apply bind_Err; unfold invoke; by rewrite Hd].
  step_get by (apply invoke_Ok; eauto).
  rewrite (bind_run _ _ _ (zlen l) (set_world w e)) by (by apply get_count_run).
  pose proof (zlen_nonneg l). destruct Hr as [Hl _]. case_decide as Hm.
  - apply bind_Err. unfold unwrap_or_throw, u32_checked_add.
    by rewrite (proj2 (in_range_None _ _ _)) by (rewrite Hm; lia).
  - step_get by (apply unwrap_or_throw_Ok; split; [apply in_range_in; ranges|]).
    step_do by apply instance_set_Ok. by step_do by apply persistent_set_Ok.
Qed.

Lemma holds_registry_frame e e' l :
  inst e' = inst e → persistent e' = persistent e → holds_registry e l → holds_registry e' l.
Proof. unfold holds_registry. by intros -> ->. Qed.

Lemma deploy_contract_registry hash salt cargs e a e' l :
  holds_registry e l → deploy_contract hash salt cargs e = Ok (a, e') →
  holds_registry e' (l ++ [mkDeployed a hash]).
Proof.
  intros Hr. rewrite (deploy_contract_run _ _ _ _ _ Hr).
  destruct (host_deploy _ _ _ _ _) as [[a' w]|]; [|done].
  case_decide as Hmax; [done|]. intros. inv_run. simpl in *.
  destruct Hr as (Hl & _ & Hp). split_and!.
  - unfold zlen in *. rewrite length_app. simpl. ranges.
  - left. simpl. rewrite lookup_insert_eq. unfold zlen. rewrite length_app. simpl.
    do 2 f_equal. lia.
  - intros i. simpl. destruct (decide (i = zlen l)) as [->|Hi].
    + rewrite lookup_insert_eq, decide_True by apply zlen_nonneg.
      rewrite lookup_snoc_Z by apply zlen_nonneg. by rewrite decide_True.
    + rewrite lookup_insert_ne by congruence. rewrite Hp. case_decide; [|done].
      rewrite lookup_snoc_Z by done. by rewrite decide_False.
Qed.

Lemma account_call_registry c e new e' l :
  holds_registry e l → run_call c e = Ok (new, e') → holds_registry e' (l ++ new).
Proof.
  intros Hr Hc. destruct c; simpl in Hc.
  2: { inv_run. by eapply deploy_contract_registry. }
  all: unfold batch_add_signer, check_auth, upgrade, trait_call in Hc; inv_run; rewrite app_nil_r;
    try (by eapply holds_registry_frame; [| |exact Hr]).
  - match goal with Hg : get_deployed_contract_count _ = _ |- _ => by apply get_count_Ok in Hg as -> end.
  - match goal with Hg : get_deployed_contract _ _ = _ |- _ => apply get_deployed_frame in Hg as [??] end.
    by eapply holds_registry_frame.
Qed.

Lemma account_run_registry e0 l e :
  holds_registry e0 [] → account_run e0 l e → holds_registry e l.
Proof.
  intros He0. induction 1 as [|l e c new e' _ IH Hc|l e seq time w _ IH _]; [done| |done].
  by eapply account_call_registry.
Qed.

(** The registry of an account that has deployed nothing. *)
Definition fresh e : Prop :=
  inst e !! DeployedContractCount = None ∧ ∀ i, persistent e !! DeployedContractKey i = None.
Lemma fresh_registry e : fresh e → holds_registry e [].
Proof.
  intros [Hc Hp]. split_and!; [by_cmp|by right|]. intros i. rewrite Hp. by case_decide.
Qed.
End registry.

(** ** The properties *)

Section theorems.
Context `{AccountLib}.
Abbreviation AEnv := (Env LatchSmartAccountStorageKey AccountVal AccountEvent).
Implicit Types e : AEnv.

(** C23: the registry refines a list. Over any run of a fresh account, whatever
    else is called in between, the counter is the number of contracts deployed
    and index [i] holds the [i]-th deployment: reading the count returns the
    length of the list, reading an index returns exactly its entry (when the
    entry's TTL extends) and fails with [DeployedContractNotFound] beyond the
    end, and no index ever changes once written. *)
Theorem registry_refines_list e0 l e :
  fresh e0 → account_run e0 l e →
  get_deployed_contract_count e = Ok (zlen l, e)
  ∧ (∀ i r e', get_deployed_contract i e = Ok (r, e') → 0 ≤ i ∧ l !! Z.to_nat i = Some r)
  ∧ (∀ i r live', 0 ≤ i → l !! Z.to_nat i = Some r →
       ttl_extends e (DeployedContractKey i) SMART_ACCOUNT_TTL_THRESHOLD
         SMART_ACCOUNT_EXTEND_AMOUNT live' →
       get_deployed_contract i e = Ok (r, touched (DeployedContractKey i) live' e))
  ∧ (∀ i, zlen l ≤ i → get_deployed_contract i e = Err (ContractError DeployedContractNotFound)).
Proof.
  intros Hf Hrun. pose proof (account_run_registry _ _ _ (fresh_registry _ Hf) Hrun) as Hr.
  pose proof Hr as (_ & _ & Hp). split_and!.
  - by apply get_count_run.
  - unfold get_deployed_contract. intros i r e' Hg. inv_run.
    match goal with Ho : persistent _ !! _ = Some _ |- _ => rewrite Hp in Ho end.
    case_decide; [|done]. split; [done|]. destruct (l !! Z.to_nat i); naive_solver.
  - intros i r live' Hi Hl Hx. unfold get_deployed_contract.
    step_get by (apply persistent_get_extend_Some; [rewrite Hp, decide_True, Hl by done; done|exact Hx]).
    step_get by (by apply unwrap_or_throw_Ok). done.
  - intros i Hi. unfold get_deployed_contract. pose proof (zlen_nonneg l).
    step_get by (apply persistent_get_extend_None; rewrite Hp, decide_True, lookup_ge_None_2 by
      (unfold zlen in *; lia); done). done.
Qed.

(** Deployment on every branch. On an account holding the registry [l],
    [deploy_contract] fails when the host's deployment does (unauthorised, or an
    occupied address), fails with [MathOverflow] when the registry is full,
    without wrapping the counter, and otherwise returns the deployed address,
    appends exactly its record and emits the event. *)
Theorem deploy_contract_spec hash salt cargs e l :
  holds_registry e l →
  (host_deploy (self e) salt hash cargs (world e) = None →
   deploy_contract hash salt cargs e = Err HostError)
  ∧ (∀ a w, host_deploy (self e) salt hash cargs (world e) = Some (a, w) →
     (zlen l = u32_max → deploy_contract hash salt cargs e = Err (ContractError MathOverflow))
     ∧ (∀ a' e', deploy_contract hash salt cargs e = Ok (a', e') →
        a' = a ∧ zlen l < u32_max ∧ holds_registry e' (l ++ [mkDeployed a hash])
        ∧ events e' = events e ++ [ContractDeployed a hash] ∧ world e' = w)
     ∧ (∀ live', zlen l < u32_max →
        host_extend_ttl (sequence e)
          (default (host_new_live_until (sequence e)) (live_until e !! DeployedContractKey (zlen l)))
          SMART_ACCOUNT_TTL_THRESHOLD SMART_ACCOUNT_EXTEND_AMOUNT = Some live' →
        is_Ok (deploy_contract hash salt cargs e))).
Proof.
  intros Hr. pose proof (deploy_contract_run hash salt cargs e l Hr) as Hrun.
  split; [intros Hd; by rewrite Hrun, Hd|]. intros a w Hd. split_and!.
  - intros Hmax. by rewrite Hrun, Hd, decide_True.
  - intros a' e' Hok. pose proof (deploy_contract_registry _ _ _ _ _ _ _ Hr Hok) as Hr'.
    destruct Hr as [Hl _]. rewrite Hrun, Hd in Hok. case_decide; [done|].
    inv_run. simpl in *. split_and!; try done. lia.
  - intros live' Hlt Hx. rewrite Hrun, Hd, decide_False by lia.
    match goal with |- is_Ok ((?m ≫= _) ?e2) =>
      assert (∃ e3, m e2 = Ok (tt, e3)) as [e3 He3] end.
    { destruct (live_until e !! DeployedContractKey (zlen l)) as [live|] eqn:Hlive; simpl in Hx;
        eexists; apply persistent_extend_ttl_Ok; simpl; rewrite Hlive.
      - by exists live, live'.
      - exists (host_new_live_until (sequence e)), live'. by rewrite lookup_insert_eq. }
    by rewrite (bind_do _ _ _ _ He3).
Qed.

(** The gates. Adding signers and upgrading succeed only with the account's
    own authorisation, and then do exactly what the library operation does, in
    the world the authorisation left; the authorisation decision itself is the
    library's, unchanged; none of them touches the registry. *)
Theorem account_gated e :
  (∀ i l e', batch_add_signer i l e = Ok (tt, e') ↔
     ∃ w w', host_require_auth (self e) (self e) (world e) = Some w
       ∧ lib_batch_add_signer (self e) i l w = Some (tt, w') ∧ e' = set_world w' e)
  ∧ (∀ h o e', upgrade h o e = Ok (tt, e') ↔
     ∃ w w', host_require_auth (self e) (self e) (world e) = Some w
       ∧ lib_upgrade (self e) h w = Some (tt, w') ∧ e' = set_world w' e)
  ∧ (∀ i l h o, host_require_auth (self e) (self e) (world e) = None →
     batch_add_signer i l e = Err HostError ∧ upgrade h o e = Err HostError)
  ∧ (∀ p s cs r e', check_auth p s cs e = Ok (r, e') ↔
     ∃ w', lib_do_check_auth (self e) p s cs (world e) = Some (r, w') ∧ e' = set_world w' e).
Proof.
  assert (∀ (f : Address → World → option (unit * World)) e',
    ((me ← current_contract_address; require_auth me ;; invoke (f me)) : M AEnv LatchSmartAccountError unit) e
      = Ok (tt, e') ↔
    ∃ w w', host_require_auth (self e) (self e) (world e) = Some w
      ∧ f (self e) w = Some (tt, w') ∧ e' = set_world w' e) as Hgate.
  { intros f e'. split.
    - intros. inv_run. eauto 10.
    - intros (w & w' & Ha & Hf & ->). step_get by apply current_contract_address_Ok.
      step_do by (apply require_auth_Ok; eauto). apply invoke_Ok. eauto. }
  split_and!.
  - intros i l e'. apply (Hgate (λ me, lib_batch_add_signer me i l)).
  - intros h o e'. apply (Hgate (λ me, lib_upgrade me h)).
  - intros i l h o Ha. unfold batch_add_signer, upgrade. split;
      step_get by apply current_contract_address_Ok; apply bind_Err; unfold require_auth; by rewrite Ha.
  - intros p s cs r e'. unfold check_auth. split.
    + intros. inv_run. eauto.
    + intros (w' & Hf & ->). step_get by apply current_contract_address_Ok. apply invoke_Ok. eauto.
Qed.
End theorems.

(** ** The reference host's library, and witnesses *)

(** New delegated signers may authorise; one signature passes the check. *)
Definition r_delegated (l : list (Signer (H := ref_host))) : list N :=
  omap (λ s, match s with Delegated a => Some (a : N) | External _ _ => None end) l.

#[export] Instance ref_account_lib : AccountLib (H := ref_host) :=
  Build_AccountLib ref_host nat unit 501120 518400
    (λ _ _ _ _ l _ w, Some (tt, r_set_auth (r_delegated l ++ r_auth w) w))
    (λ _ _ l w, Some (tt, r_set_auth (r_delegated l ++ r_auth w) w))
    (λ _ _ n _ w, Some (if (0 <? n)%nat then inl tt else inr tt, w))
    (λ (self : N) hash w, Some (tt, r_set_code (<[self := hash]> (r_code w)) w))
    unit (λ _ _ w, Some (tt, w))
    (λ (self : N) salt hash _ w,
       let a := N.pos (encode (self, salt)) in
       match r_code w !! a with
       | Some _ => None
       | None => Some (a, r_set_code (<[a := hash]> (r_code w)) w)
       end).

Abbreviation TEnv := (Env (H := ref_host) LatchSmartAccountStorageKey (AccountVal (H := ref_host))
  (AccountEvent (H := ref_host))).
Definition test_env0 : TEnv := ref_env 9%N 100 0 (ref_world [9%N] ∅).
Definition test_deploy (salt : Bytes) : call (H := ref_host) :=
  CDeploy (H := ref_host) [Byte.x07] salt [].
Definition test_env1 : TEnv := final (run_call (H := ref_host) (test_deploy [Byte.x01]) test_env0) test_env0.
Definition test_env2 : TEnv := final (run_call (H := ref_host) (test_deploy [Byte.x02]) test_env1) test_env1.
Definition test_record (salt : Bytes) : DeployedContract (H := ref_host) :=
  mkDeployed (H := ref_host) (N.pos (encode (9%N, salt))) [Byte.x07].

Lemma test_fresh : fresh (H := ref_host) test_env0.
Proof. split; [by_run|]. intros i. apply lookup_empty. Qed.

Lemma registry_refines_list_witness :
  get_deployed_contract_count (H := ref_host) test_env2 = Ok (2, test_env2)
  ∧ get_deployed_contract (H := ref_host) 2 test_env2 = Err (ContractError DeployedContractNotFound).
Proof.
  assert (account_run (H := ref_host) test_env0
    [test_record [Byte.x01]; test_record [Byte.x02]] test_env2) as Hrun.
  { refine (account_call (H := ref_host) test_env0 [test_record [Byte.x01]] test_env1
      (test_deploy [Byte.x02]) [test_record [Byte.x02]] test_env2 _ _); [|by_run].
    refine (account_call (H := ref_host) test_env0 [] test_env0 (test_deploy [Byte.x01])
      [test_record [Byte.x01]] test_env1 (account_start (H := ref_host) test_env0) _). by_run. }
  pose proof (registry_refines_list (H := ref_host) test_env0 _ test_env2 test_fresh Hrun)
    as (Hc & _ & _ & Hend).
  split; [exact Hc|]. apply Hend. by_cmp.
Defined.

Lemma deploy_contract_spec_witness :
  ∃ a e', deploy_contract (H := ref_host) [Byte.x07] [Byte.x01] [] test_env0 = Ok (a, e')
    ∧ holds_registry (H := ref_host) e' [test_record [Byte.x01]]
    ∧ deploy_contract (H := ref_host) [Byte.x07] [Byte.x01] [] e' = Err HostError.
Proof.
  assert (holds_registry (H := ref_host) test_env1 [test_record [Byte.x01]]) as Hr1.
  { refine (proj1 (proj2 (proj2 (proj1 (proj2 (proj2 (deploy_contract_spec (H := ref_host)
      [Byte.x07] [Byte.x01] [] test_env0 [] (fresh_registry (H := ref_host) _ test_fresh))
      (N.pos (encode (9%N, [Byte.x01]))) (world test_env1) _))
      (N.pos (encode (9%N, [Byte.x01]))) test_env1 _)))); by_run. }
  exists (N.pos (encode (9%N, [Byte.x01]))), test_env1. split; [by_run|]. split; [exact Hr1|].
  refine (proj1 (deploy_contract_spec (H := ref_host) [Byte.x07] [Byte.x01] [] test_env1 _ Hr1) _).
  by_run.
Defined.

Lemma account_gated_witness :
  batch_add_signer (H := ref_host) 0 [Delegated (H := ref_host) 5%N]
    (set_world (ref_world [] ∅) test_env0) = Err HostError
  ∧ ∃ e', upgrade (H := ref_host) [Byte.x08] 9%N test_env0 = Ok (tt, e').
Proof.
  split.
  - refine (proj1 (proj1 (proj2 (proj2 (account_gated (H := ref_host)
      (set_world (ref_world [] ∅) test_env0)))) 0 [Delegated (H := ref_host) 5%N] [] 9%N _)). by_run.
  - exists (final (upgrade (H := ref_host) [Byte.x08] 9%N test_env0) test_env0).
    apply (proj1 (proj2 (account_gated (H := ref_host) test_env0))).
    exists (world test_env0), (r_set_code {[ 9%N := [Byte.x08] ]} (world test_env0)).
    split; [by_run|]. split; by_run.
Defined.
End Account.
