(* ===== verification/Verifiers.v ===== *)
(** * Signature verifiers

    The stateless verifier contracts: raw P-256 (latch-verifiers/p256-verifier),
    raw secp256k1 (latch-verifiers/secp256k1-verifier), the wrappers of the
    stellar-accounts Ed25519 and WebAuthn modules (latch-verifiers/
    ed25519-verifier and webauthn-verifier), and the reference verifier of
    prefixed messages (demo/modified-ed25519-verifier).  They share the
    [Verifier] trait; the cryptography is the host's. *)
From S2P Require Import Prelude RustInt.
Local Open Scope Z_scope.

Abbreviation Bytes := (list byte).

(** The host's cryptography and the stellar-accounts verifier modules. The
    host's [*_verify] functions trap on an invalid signature ([false] here). *)
Class Crypto := {
  secp256r1_verify : Bytes → Bytes → Bytes → bool;             (* key, hash, signature *)
  secp256k1_recover : Bytes → Bytes → Z → option Bytes;        (* hash, signature, id *)
  ed25519_verify : Bytes → Bytes → Bytes → bool;               (* key, message, signature *)
  lib_ed25519_verify : Bytes → Bytes → Bytes → option bool;    (* hash, key, signature *)
  lib_ed25519_canonicalize : Bytes → Bytes;
  lib_ed25519_batch : list Bytes → list Bytes;
  WebAuthnSigData : Type;
  sig_data_from_xdr : Bytes → option WebAuthnSigData;
  extract_from_bytes : Bytes → nat → nat → option Bytes;
  lib_webauthn_verify : Bytes → Bytes → WebAuthnSigData → option bool;
  lib_webauthn_canonicalize : Bytes → option Bytes;
  lib_webauthn_batch : list Bytes → option (list Bytes);
}.

(** Documented behaviour of the WebAuthn helpers: a range of bytes is returned
    when it is inside, and the canonical key is the first 65 bytes. *)
Class WebAuthnLaws `{Crypto} : Prop := {
  extract_range b i j : (i ≤ j)%nat →
    extract_from_bytes b i j
    = if decide (j ≤ length b)%nat then Some (take (j - i) (drop i b)) else None;
  webauthn_canonical b :
    lib_webauthn_canonicalize b = if decide (65 ≤ length b)%nat then Some (take 65 b) else None;
}.

(** Documented behaviour of the library modules: a verification that fails
    traps instead of returning [false], and batches preserve the order. *)
Class LibVerifierLaws `{Crypto} : Prop := {
  lib_ed25519_true hash key sig b : lib_ed25519_verify hash key sig = Some b → b = true;
  lib_ed25519_batch_map keys : lib_ed25519_batch keys = lib_ed25519_canonicalize <$> keys;
  lib_webauthn_true hash key sig b : lib_webauthn_verify hash key sig = Some b → b = true;
  lib_webauthn_batch_map keys cs :
    lib_webauthn_batch keys = Some cs → Forall2 (λ k c, lib_webauthn_canonicalize k = Some c) keys cs;
}.

(** [trait Verifier], at byte-string keys and signatures. *)
Record Verifier (S E : Type) := mkVerifier {
  verify : Bytes → Bytes → Bytes → M S E bool;
  canonicalize_key : Bytes → M S E Bytes;
  batch_canonicalize_key : list Bytes → M S E (list Bytes);
}.
Arguments mkVerifier {S E}.
Arguments verify {S E} v.
Arguments canonicalize_key {S E} v.
Arguments batch_canonicalize_key {S E} v.

(** What the smart account relies on: a verifier that returns accepts, keeps no
    state, and canonicalises a batch key by key in order. *)
Definition verifier_contract {S E} (V : Verifier S E) : Prop :=
  (∀ hash key sig s b s', verify V hash key sig s = Ok (b, s') → b = true ∧ s' = s)
  ∧ (∀ key s c s', canonicalize_key V key s = Ok (c, s') → s' = s)
  ∧ (∀ keys s cs s', batch_canonicalize_key V keys s = Ok (cs, s') →
       s' = s ∧ Forall2 (λ key c, canonicalize_key V key s = Ok (c, s)) keys cs).

(** The answer of a verifier contract to a call, [None] when the call fails. *)
Definition verdict {E} (V : Verifier unit E) (hash key sig : Bytes) : option bool :=
  match verify V hash key sig tt with Ok (b, _) => Some b | Err _ => None end.

(** [BytesN::<n>::try_from(bytes)] *)
Definition bytes_n (n : nat) (b : Bytes) : option Bytes :=
  if decide (length b = n) then Some b else None.

(** A host check that traps when it does not hold. *)
Definition host_check {S E} (b : bool) : M S E unit :=
  λ s, if b then Ok (tt, s) else Err HostError.
Definition host_value {S E A} (o : option A) : M S E A :=
  λ s, match o with Some a => Ok (a, s) | None => Err HostError end.

Lemma host_check_Ok {S E} b (s s' : S) u :
  (host_check b : M S E unit) s = Ok (u, s') ↔ b = true ∧ s' = s.
Proof. unfold host_check. destruct u, b; naive_solver. Qed.
Lemma host_value_Ok {S E A} (o : option A) (s s' : S) a :
  (host_value o : M S E A) s = Ok (a, s') ↔ o = Some a ∧ s' = s.
Proof. unfold host_value. destruct o; naive_solver. Qed.
#[export] Hint Rewrite @host_check_Ok @host_value_Ok : runs.
Arguments host_check : simpl never.
Arguments host_value : simpl never.

(** The first byte of an uncompressed SEC1 point. *)
Definition sec1 (key : Bytes) : Prop := key !! 0%nat = Some Byte.x04.
#[export] Instance sec1_dec key : Decision (sec1 key).
Proof. unfold sec1. apply _. Defined.

(** A loop of canonicalisations succeeds when all keys are fine. *)
Lemma mapM_guard {S E A} (P : A → Prop) `{∀ x, Decision (P x)} (f : A → M S E A) (err : E) l s :
  (∀ x s, f x s = if decide (P x) then Ok (x, s) else Err (ContractError err)) →
  mapM f l s = if decide (Forall P l) then Ok (l, s) else Err (ContractError err).
Proof.
  intros Hf. induction l as [|x l IH]; [done|].
  change (mapM f (x :: l)) with (y ← f x; k ← mapM f l; mret (y :: k)).
  destruct (decide (P x)) as [Hx|Hx].
  - rewrite (bind_run _ _ _ x s) by (by rewrite Hf, decide_True).
    destruct (decide (Forall P l)) as [Hl|Hl].
    + rewrite (bind_run _ _ _ l s) by done. by rewrite decide_True by by constructor.
    + rewrite (bind_Err _ _ _ _ IH). rewrite decide_False; [done|]. by intros [_ ?]%Forall_cons.
  - rewrite (bind_Err _ _ _ (ContractError err)) by (by rewrite Hf, decide_False).
    rewrite decide_False; [done|]. by intros [? _]%Forall_cons.
Qed.

Lemma mapM_stateless {S E A B} (f : A → M S E B) l s k s' :
  (∀ x s b s', f x s = Ok (b, s') → s' = s) →
  mapM f l s = Ok (k, s') → s' = s ∧ Forall2 (λ x b, f x s = Ok (b, s)) l k.
Proof.
  intros Hf. revert k s'. induction l as [|x l IH]; intros k s' Hk.
  { by apply ret_Ok in Hk as [-> ->]. }
  change (mapM f (x :: l)) with (y ← f x; k ← mapM f l; mret (y :: k)) in Hk.
  apply bind_Ok in Hk as (y & s1 & Hy & Hk). pose proof (Hf _ _ _ _ Hy) as ->.
  apply bind_Ok in Hk as (k' & s2 & Hk' & Hr). apply ret_Ok in Hr as [-> ->].
  apply IH in Hk' as [-> ?]. split; [done|]. by constructor.
Qed.

(** ** P-256 *)

Module P256.

Inductive P256VerifierError := InvalidHashLength | InvalidKeyEncoding.

Section contract.
Context `{Crypto} {S : Type}.
Abbreviation VM := (M S P256VerifierError).

Definition validate_key_encoding (key_data : Bytes) : VM unit :=
  throw_if (negb (bool_decide (key_data !! 0%nat = Some Byte.x04))) InvalidKeyEncoding.

Definition verify (hash key_data sig_data : Bytes) : VM bool :=
  throw_if (negb (zlen hash =? 32)) InvalidHashLength ;;
  validate_key_encoding key_data ;;
  hash_n ← unwrap_or_throw (bytes_n 32 hash) InvalidHashLength;
  host_check (secp256r1_verify key_data hash_n sig_data) ;;
  mret true.

Definition canonicalize_key (key_data : Bytes) : VM Bytes :=
  validate_key_encoding key_data ;;
  mret key_data.

Definition batch_canonicalize_key (key_data : list Bytes) : VM (list Bytes) :=
  mapM canonicalize_key key_data.

Definition P256Verifier : Verifier S P256VerifierError :=
  mkVerifier verify canonicalize_key batch_canonicalize_key.
End contract.
End P256.

(** ** secp256k1 *)

Module Secp256k1.

Inductive Secp256k1VerifierError :=
  | InvalidHashLength | InvalidKeyEncoding | KeyMismatch | InvalidRecoveryId.

Section contract.
Context `{Crypto} {S : Type}.
Abbreviation VM := (M S Secp256k1VerifierError).

Definition validate_key_encoding (key_data : Bytes) : VM unit :=
  throw_if (negb (bool_decide (key_data !! 0%nat = Some Byte.x04))) InvalidKeyEncoding.

Definition verify (hash key_data sig_data : Bytes) : VM bool :=
  throw_if (negb (zlen hash =? 32)) InvalidHashLength ;;
  validate_key_encoding key_data ;;
  hash_n ← unwrap_or_throw (bytes_n 32 hash) InvalidHashLength;
  id_byte ← unwrap (sig_data !! 64%nat);
  let recovery_id := Z_of_byte id_byte in
  throw_if (1 <? recovery_id) InvalidRecoveryId ;;
  let signature := take 64 sig_data in
  recovered ← host_value (secp256k1_recover hash_n signature recovery_id);
  throw_if (negb (bool_decide (recovered = key_data))) KeyMismatch ;;
  mret true.

Definition canonicalize_key (key_data : Bytes) : VM Bytes :=
  validate_key_encoding key_data ;;
  mret key_data.

Definition batch_canonicalize_key (key_data : list Bytes) : VM (list Bytes) :=
  mapM canonicalize_key key_data.

Definition Secp256k1Verifier : Verifier S Secp256k1VerifierError :=
  mkVerifier verify canonicalize_key batch_canonicalize_key.
End contract.
End Secp256k1.

(** ** The wrappers of library modules *)

Module Ed25519Wrapper.
Section contract.
Context `{Crypto} {S E : Type}.

Definition verify (hash key_data sig_data : Bytes) : M S E bool :=
  host_value (lib_ed25519_verify hash key_data sig_data).
Definition canonicalize_key (key_data : Bytes) : M S E Bytes :=
  mret (lib_ed25519_canonicalize key_data).
Definition batch_canonicalize_key (key_data : list Bytes) : M S E (list Bytes) :=
  mret (lib_ed25519_batch key_data).
Definition Ed25519Verifier : Verifier S E :=
  mkVerifier verify canonicalize_key batch_canonicalize_key.
End contract.
End Ed25519Wrapper.

Module WebAuthnWrapper.
Section contract.
Context `{Crypto} {S E : Type}.

(** [expect] panics. *)
Definition verify (hash key_data sig_data : Bytes) : M S E bool :=
  sig_struct ← unwrap (sig_data_from_xdr sig_data);
  pub_key ← unwrap (extract_from_bytes key_data 0 65);
  host_value (lib_webauthn_verify hash pub_key sig_struct).
Definition canonicalize_key (key_data : Bytes) : M S E Bytes :=
  host_value (lib_webauthn_canonicalize key_data).
Definition batch_canonicalize_key (key_data : list Bytes) : M S E (list Bytes) :=
  host_value (lib_webauthn_batch key_data).
Definition WebAuthnVerifier : Verifier S E :=
  mkVerifier verify canonicalize_key batch_canonicalize_key.
End contract.
End WebAuthnWrapper.

(** ** The prefixed-message verifier *)

Module ModifiedEd25519.

Definition AUTH_PREFIX : Bytes :=
  String.list_byte_of_string "Stellar Smart Account Auth:" ++ [Byte.x0a].
Definition PREFIX_LEN : nat := 28.
Definition PAYLOAD_LEN : nat := 32.
Definition HEX_LEN : nat := 64.
Definition SIGNED_MSG_LEN : nat := PREFIX_LEN + HEX_LEN.

Inductive ModifiedEd25519VerifierError := InvalidHashLength.

Definition HEX : Bytes := String.list_byte_of_string "0123456789abcdef".

(** [dst[i] = b], which panics out of bounds. *)
Definition set_byte (dst : Bytes) (i : nat) (b : byte) : option Bytes :=
  if (i <? length dst)%nat then Some (<[i := b]> dst) else None.

(** [for &byte in src { dst[i] = ...; dst[i + 1] = ...; i += 2; }] *)
Fixpoint hex_loop (dst : Bytes) (i : nat) (src : Bytes) : option Bytes :=
  match src with
  | [] => Some dst
  | b :: src =>
      hi ← HEX !! Z.to_nat (Z.shiftr (Z_of_byte b) 4);
      dst ← set_byte dst i hi;
      lo ← HEX !! Z.to_nat (Z.land (Z_of_byte b) 15);
      dst ← set_byte dst (i + 1) lo;
      hex_loop dst (i + 2) src
  end.
Definition hex_encode_lower (dst src : Bytes) : option Bytes := hex_loop dst 0 src.

(** [dst[..n].copy_from_slice(src)], which panics on different lengths. *)
Definition copy_prefix (dst : Bytes) (n : nat) (src : Bytes) : option Bytes :=
  if (n <=? length dst)%nat && (length src =? n)%nat then Some (src ++ drop n dst) else None.

Section contract.
Context `{Crypto} {S : Type}.
Abbreviation VM := (M S ModifiedEd25519VerifierError).

Definition verify (hash key_data sig_data : Bytes) : VM bool :=
  throw_if (negb (zlen hash =? Z.of_nat PAYLOAD_LEN)) InvalidHashLength ;;
  let signed_msg := replicate SIGNED_MSG_LEN Byte.x00 in
  signed_msg ← unwrap (copy_prefix signed_msg PREFIX_LEN AUTH_PREFIX);
  hash_arr ← unwrap (bytes_n PAYLOAD_LEN hash);
  tail ← unwrap (hex_encode_lower (drop PREFIX_LEN signed_msg) hash_arr);
  let signed_msg := take PREFIX_LEN signed_msg ++ tail in
  host_check (ed25519_verify key_data signed_msg sig_data) ;;
  mret true.

Definition canonicalize_key (key_data : Bytes) : VM Bytes :=
  mret (lib_ed25519_canonicalize key_data).
Definition batch_canonicalize_key (key_data : list Bytes) : VM (list Bytes) :=
  mret (lib_ed25519_batch key_data).
Definition ModifiedEd25519Verifier : Verifier S ModifiedEd25519VerifierError :=
  mkVerifier verify canonicalize_key batch_canonicalize_key.
End contract.
End ModifiedEd25519.

(** ** Hexadecimal encoding *)

Section hex.
Import ModifiedEd25519.

(** Two digits per byte; the reference encoding and its decoder. *)
Definition hex_digit (n : Z) : byte := nth (Z.to_nat n) HEX Byte.x00.
Definition hex_byte (b : byte) : Bytes := [hex_digit (Z_of_byte b / 16); hex_digit (Z_of_byte b mod 16)].
Definition hex_of (src : Bytes) : Bytes := concat (hex_byte <$> src).

Definition digit_value (c : byte) : option Z :=
  Z.of_nat ∘ fst <$> list_find (λ d, d = c) HEX.
Fixpoint hex_decode (s : Bytes) : option Bytes :=
  match s with
  | [] => Some []
  | hi :: lo :: s =>
      h ← digit_value hi; l ← digit_value lo; rest ← hex_decode s;
      Some (byte_of_Z (16 * h + l) :: rest)
  | [_] => None
  end.

Lemma hex_nibbles b :
  HEX !! Z.to_nat (Z.shiftr (Z_of_byte b) 4) = Some (hex_digit (Z_of_byte b / 16))
  ∧ HEX !! Z.to_nat (Z.land (Z_of_byte b) 15) = Some (hex_digit (Z_of_byte b mod 16)).
Proof. destruct b; split; by vm_compute. Qed.

Lemma digit_values b :
  digit_value (hex_digit (Z_of_byte b / 16)) = Some (Z_of_byte b / 16)
  ∧ digit_value (hex_digit (Z_of_byte b mod 16)) = Some (Z_of_byte b mod 16).
Proof. destruct b; split; by vm_compute. Qed.

Lemma hex_of_cons b src : hex_of (b :: src) = hex_byte b ++ hex_of src.
Proof. done. Qed.

Lemma length_hex_of src : length (hex_of src) = (2 * length src)%nat.
Proof.
  induction src as [|b src IH]; [done|]. rewrite hex_of_cons, length_app, IH. simpl. lia.
Qed.

(** Decoding inverts the encoding. *)
Lemma hex_decode_of src : hex_decode (hex_of src) = Some src.
Proof.
  induction src as [|b src IH]; [done|]. rewrite hex_of_cons.
  unfold hex_byte. cbn [app hex_decode]. destruct (digit_values b) as [-> ->]. simpl.
  rewrite IH. simpl. do 2 f_equal. rewrite <- (byte_of_Z_of_byte b) at 3. f_equal.
  rewrite <- Z.div_mod; [done|lia].
Qed.

Lemma set_byte_app (pre : Bytes) x suf b :
  set_byte (pre ++ x :: suf) (length pre) b = Some (pre ++ b :: suf).
Proof.
  unfold set_byte. rewrite (proj2 (Nat.ltb_lt _ _)) by (rewrite length_app; simpl; lia).
  f_equal. rewrite <- (Nat.add_0_r (length pre)). by rewrite insert_app_r.
Qed.

(** The loop fills the destination with the encoding, without a panic. *)
Lemma hex_loop_run src pre dst :
  length dst = (2 * length src)%nat →
  hex_loop (pre ++ dst) (length pre) src = Some (pre ++ hex_of src).
Proof.
  revert pre dst. induction src as [|b src IH]; intros pre dst Hl.
  { destruct dst; [done|simpl in Hl; lia]. }
  destruct dst as [|x [|y dst]]; simpl in Hl; [lia..|]. cbn [hex_loop].
  destruct (hex_nibbles b) as [-> ->]. simpl. rewrite set_byte_app. simpl.
  pose proof (set_byte_app (pre ++ [hex_digit (Z_of_byte b / 16)]) y dst
    (hex_digit (Z_of_byte b mod 16))) as Hset.
  rewrite length_app, <- !app_assoc in Hset. simpl in Hset. rewrite Hset. simpl.
  specialize (IH (pre ++ hex_byte b) dst ltac:(lia)).
  rewrite length_app, <- !app_assoc in IH. simpl in IH. by rewrite IH.
Qed.

(** The message the wallet signs. *)
Definition signed_message (hash : Bytes) : Bytes := AUTH_PREFIX ++ hex_of hash.
End hex.

(** ** The properties *)

Section theorems.
Context `{Crypto} {S : Type}.
Implicit Types s : S.

(** C39: hexadecimal round trip. On a destination of exactly twice the length,
    [hex_encode_lower] never indexes out of bounds and writes two lowercase
    digits per byte, from which decoding recovers the bytes; so the 92-byte
    message the demo verifier checks determines the hash. *)
Theorem hex_encode_roundtrip dst src :
  length dst = (2 * length src)%nat →
  ∃ out, ModifiedEd25519.hex_encode_lower dst src = Some out
    ∧ length out = length dst ∧ hex_decode out = Some src
    ∧ (∀ b, b ∈ out → b ∈ ModifiedEd25519.HEX)
    ∧ ∀ hash, signed_message src = signed_message hash → src = hash.
Proof.
  intros Hl. exists (hex_of src). split_and!.
  - exact (hex_loop_run src [] dst Hl).
  - by rewrite length_hex_of, Hl.
  - apply hex_decode_of.
  - intros b Hb. unfold hex_of in Hb. apply list_elem_of_In, in_concat in Hb as (d & Hd & Hb).
    apply list_elem_of_In, list_elem_of_fmap in Hd as (x & -> & _).
    apply list_elem_of_In in Hb. unfold hex_byte in Hb. destruct (hex_nibbles x) as [H1 H2].
    apply list_elem_of_lookup_2 in H1, H2. rewrite !elem_of_cons in Hb.
    destruct Hb as [->|[->|[]%not_elem_of_nil]]; done.
  - intros hash Hm. apply app_inv_head in Hm. apply (f_equal hex_decode) in Hm.
    rewrite !hex_decode_of in Hm. by injection Hm.
Qed.

(** The prefixed-message verifier. It accepts exactly the host-valid
    signatures over the prefix followed by the lowercase hex of a 32-byte hash,
    refuses other hash lengths with [InvalidHashLength], traps on an invalid
    signature, never returns [false], and none of its buffer operations
    panics. *)
Theorem modified_ed25519_spec hash key sig s :
  ModifiedEd25519.verify hash key sig s
  = (if decide (zlen hash = 32) then
       if ed25519_verify key (signed_message hash) sig then Ok (true, s) else Err HostError
     else Err (ContractError ModifiedEd25519.InvalidHashLength))
  ∧ (zlen hash = 32 → length (signed_message hash) = ModifiedEd25519.SIGNED_MSG_LEN).
Proof.
  split.
  - unfold ModifiedEd25519.verify. case_decide as Hl.
    + assert (length hash = 32%nat) as Hlen by (unfold zlen in Hl; lia).
      step_do by (apply throw_if_Ok; split; [by rewrite Hl|]).
      step_get by (apply unwrap_Ok; split; [by vm_compute|]).
      rewrite (bind_run _ _ _ hash s)
        by (apply unwrap_Ok; unfold bytes_n; by rewrite decide_True).
      rewrite (bind_run _ _ _ (hex_of hash) s)
        by (apply unwrap_Ok; split; [apply (hex_loop_run hash []); rewrite Hlen; by vm_compute|done]).
      change (take _ _ ++ hex_of hash) with (signed_message hash).
      destruct (ed25519_verify _ _ _) eqn:Hv.
      * by rewrite (bind_do _ _ _ s) by by apply host_check_Ok.
      * by apply bind_Err.
    + apply bind_Err. unfold throw_if. rewrite (proj2 (Z.eqb_neq _ _)); done.
  - intros Hl. unfold signed_message. rewrite length_app, length_hex_of.
    unfold zlen in Hl. replace (length hash) with 32%nat by lia. by vm_compute.
Qed.

(** P-256 verification. The verifier returns [true] exactly on a 32-byte
    hash, a key with the uncompressed prefix and a signature the host accepts
    over that very hash (it is not hashed again); every other call fails, in the
    order hash length, key encoding, signature, and none returns [false].
    Canonicalisation returns correctly prefixed keys unchanged, in batches in
    their order, and refuses a batch with any other key. *)
Theorem p256_spec hash key sig s :
  P256.verify hash key sig s
  = (if decide (length hash = 32%nat) then
       if decide (sec1 key) then
         if secp256r1_verify key hash sig then Ok (true, s) else Err HostError
       else Err (ContractError P256.InvalidKeyEncoding)
     else Err (ContractError P256.InvalidHashLength))
  ∧ P256.canonicalize_key key s
    = (if decide (sec1 key) then Ok (key, s) else Err (ContractError P256.InvalidKeyEncoding))
  ∧ ∀ keys, P256.batch_canonicalize_key keys s
    = (if decide (Forall sec1 keys) then Ok (keys, s)
       else Err (ContractError P256.InvalidKeyEncoding)).
Proof.
  assert (∀ key s, P256.canonicalize_key key s
    = if decide (sec1 key) then Ok (key, s) else Err (ContractError P256.InvalidKeyEncoding)) as Hcan.
  { clear. intros key s. unfold P256.canonicalize_key, P256.validate_key_encoding, sec1. exec_monad.
    by repeat case_decide || case_bool_decide. }
  split; [|split; [done|intros keys; by apply mapM_guard]].
  unfold P256.verify. case_decide as Hl.
  - step_do by (apply throw_if_Ok; split; [unfold zlen; by rewrite Hl|]).
    unfold P256.validate_key_encoding. fold (sec1 key). case_decide as Hk.
    + rewrite (bind_do _ _ _ s) by (apply throw_if_Ok; split; [by rewrite bool_decide_true|done]).
      rewrite (bind_run _ _ _ hash s)
        by (apply unwrap_or_throw_Ok; unfold bytes_n; by rewrite decide_True).
      destruct (secp256r1_verify _ _ _); [|by apply bind_Err].
      by rewrite (bind_do _ _ _ s) by by apply host_check_Ok.
    + apply bind_Err. unfold throw_if. by rewrite bool_decide_false.
  - apply bind_Err. unfold throw_if, zlen. rewrite (proj2 (Z.eqb_neq _ _)) by lia. done.
Qed.

(** What the secp256k1 verifier answers, for a recovery-id byte [id]. *)
Definition secp256k1_answer (hash key sig : Bytes) (id : byte) s :
    result Secp256k1.Secp256k1VerifierError (bool * S) :=
  if decide (length hash = 32%nat) then
    if decide (sec1 key) then
      if decide (Z_of_byte id ≤ 1) then
        match secp256k1_recover hash (take 64 sig) (Z_of_byte id) with
        | Some recovered =>
            if decide (recovered = key) then Ok (true, s)
            else Err (ContractError Secp256k1.KeyMismatch)
        | None => Err HostError
        end
      else Err (ContractError Secp256k1.InvalidRecoveryId)
    else Err (ContractError Secp256k1.InvalidKeyEncoding)
  else Err (ContractError Secp256k1.InvalidHashLength).

Lemma secp256k1_verify_run hash key sig id s :
  sig !! 64%nat = Some id →
  Secp256k1.verify hash key sig s = secp256k1_answer hash key sig id s.
Proof.
  intros Hid. unfold Secp256k1.verify, secp256k1_answer. case_decide as Hl.
  2: { apply bind_Err. unfold throw_if, zlen. rewrite (proj2 (Z.eqb_neq _ _)) by lia. done. }
  step_do by (apply throw_if_Ok; split; [unfold zlen; by rewrite Hl|]).
  unfold Secp256k1.validate_key_encoding. fold (sec1 key). case_decide as Hk.
  2: { apply bind_Err. unfold throw_if. by rewrite bool_decide_false. }
  rewrite (bind_do _ _ _ s) by (apply throw_if_Ok; split; [by rewrite bool_decide_true|done]).
  rewrite (bind_run _ _ _ hash s)
    by (apply unwrap_or_throw_Ok; unfold bytes_n; by rewrite decide_True).
  rewrite Hid. step_get by (by apply unwrap_Ok). case_decide as Hr.
  2: { apply bind_Err. unfold throw_if. rewrite (proj2 (Z.ltb_lt _ _)) by lia. done. }
  rewrite (bind_do _ _ _ s) by (apply throw_if_Ok; split; [by apply Z.ltb_ge|done]).
  destruct (secp256k1_recover _ _ _) as [rk|]; [|by apply bind_Err].
  rewrite (bind_run _ _ _ rk s) by by apply host_value_Ok. case_decide.
  - by rewrite (bind_do _ _ _ s) by (apply throw_if_Ok; split; [by rewrite bool_decide_true|done]).
  - apply bind_Err. unfold throw_if. by rewrite bool_decide_false.
Qed.

(** Secp256k1 verification. On 65-byte signatures, the verifier returns
    [true] exactly on a 32-byte hash, a key with the uncompressed prefix, a raw
    recovery id of 0 or 1, and a signature from which the host recovers that
    very key; every other call fails with its documented error, in that order,
    and none returns [false]. A signature over a hash authenticates at most one
    key, and never with an Ethereum-style recovery id. *)
Theorem secp256k1_spec hash key sig id s :
  sig !! 64%nat = Some id →
  Secp256k1.verify hash key sig s = secp256k1_answer hash key sig id s
  ∧ (∀ b s', Secp256k1.verify hash key sig s = Ok (b, s') ↔
       b = true ∧ s' = s ∧ length hash = 32%nat ∧ sec1 key ∧ Z_of_byte id ≤ 1
       ∧ secp256k1_recover hash (take 64 sig) (Z_of_byte id) = Some key)
  ∧ (∀ key1 key2 b1 b2 s1 s2,
       Secp256k1.verify hash key1 sig s = Ok (b1, s1) →
       Secp256k1.verify hash key2 sig s = Ok (b2, s2) → key1 = key2).
Proof.
  intros Hid. split; [by apply secp256k1_verify_run|].
  assert (∀ key b s', Secp256k1.verify hash key sig s = Ok (b, s') ↔
       b = true ∧ s' = s ∧ length hash = 32%nat ∧ sec1 key ∧ Z_of_byte id ≤ 1
       ∧ secp256k1_recover hash (take 64 sig) (Z_of_byte id) = Some key) as Hv.
  { clear key. intros key b s'. rewrite (secp256k1_verify_run _ _ _ _ _ Hid). unfold secp256k1_answer.
    repeat case_decide; try naive_solver.
    destruct (secp256k1_recover _ _ _); [case_decide|]; naive_solver. }
  split; [done|]. intros key1 key2 b1 b2 s1 s2. rewrite !Hv. naive_solver.
Qed.

(** The verifier interface. None of the five verifiers, raw or wrapping a
    library module, ever answers [false]: a call that returns accepts the
    signature, every rejection fails the call; none has state; and a batch of
    keys is canonicalised key by key, in order. *)
Theorem verifiers_keep_interface `{!LibVerifierLaws} {E : Type} :
  verifier_contract (P256.P256Verifier (S := S))
  ∧ verifier_contract (Secp256k1.Secp256k1Verifier (S := S))
  ∧ verifier_contract (ModifiedEd25519.ModifiedEd25519Verifier (S := S))
  ∧ verifier_contract (Ed25519Wrapper.Ed25519Verifier (S := S) (E := E))
  ∧ verifier_contract (WebAuthnWrapper.WebAuthnVerifier (S := S) (E := E)).
Proof.
  split_and!; split_and!; simpl; intros; try (by inv_run).
  - unfold P256.verify, P256.validate_key_encoding in *. by inv_run.
  - unfold P256.canonicalize_key, P256.validate_key_encoding in *. by inv_run.
  - eapply mapM_stateless; [|done].
    unfold P256.canonicalize_key, P256.validate_key_encoding. intros. by inv_run.
  - unfold Secp256k1.verify, Secp256k1.validate_key_encoding in *. by inv_run.
  - unfold Secp256k1.canonicalize_key, Secp256k1.validate_key_encoding in *. by inv_run.
  - eapply mapM_stateless; [|done].
    unfold Secp256k1.canonicalize_key, Secp256k1.validate_key_encoding. intros. by inv_run.
  - unfold ModifiedEd25519.verify in *. by inv_run.
  - unfold ModifiedEd25519.canonicalize_key in *. by inv_run.
  - unfold ModifiedEd25519.batch_canonicalize_key, ModifiedEd25519.canonicalize_key in *. inv_run.
    split; [done|]. rewrite lib_ed25519_batch_map. clear. induction keys; by constructor.
  - unfold Ed25519Wrapper.verify in *. inv_run. split; [|done]. by eapply lib_ed25519_true.
  - unfold Ed25519Wrapper.canonicalize_key in *. by inv_run.
  - unfold Ed25519Wrapper.batch_canonicalize_key, Ed25519Wrapper.canonicalize_key in *. inv_run.
    split; [done|]. rewrite lib_ed25519_batch_map. clear. induction keys; by constructor.
  - unfold WebAuthnWrapper.verify in *. inv_run. split; [|done]. by eapply lib_webauthn_true.
  - unfold WebAuthnWrapper.canonicalize_key in *. by inv_run.
  - unfold WebAuthnWrapper.batch_canonicalize_key, WebAuthnWrapper.canonicalize_key in *. inv_run.
    split; [done|]. eapply Forall2_impl; [by apply lib_webauthn_batch_map|].
    intros k c Hc. by apply host_value_Ok.
Qed.

(** WebAuthn keys. Verification passes the XDR-decoded signature and the
    first 65 bytes of the key to the library and panics when either is missing;
    so the credential-id suffix of a key changes neither what it verifies nor
    its canonical form, which is those 65 bytes. *)
Theorem webauthn_suffix_irrelevant `{!WebAuthnLaws} {E : Type} hash pk suffix sig s :
  length pk = 65%nat →
  (WebAuthnWrapper.verify hash (pk ++ suffix) sig : M S E bool) s
  = (match sig_data_from_xdr sig with
     | None => Err Panic
     | Some sd =>
         match lib_webauthn_verify hash pk sd with
         | Some b => Ok (b, s)
         | None => Err HostError
         end
     end)
  ∧ (WebAuthnWrapper.canonicalize_key (pk ++ suffix) : M S E Bytes) s = Ok (pk, s)
  ∧ ∀ short, (length short < 65)%nat → is_Some (sig_data_from_xdr sig) →
      (WebAuthnWrapper.verify hash short sig : M S E bool) s = Err Panic
      ∧ (WebAuthnWrapper.canonicalize_key short : M S E Bytes) s = Err HostError.
Proof.
  intros Hpk. unfold WebAuthnWrapper.verify, WebAuthnWrapper.canonicalize_key. split_and!.
  - destruct (sig_data_from_xdr sig) as [sd|]; [|by apply bind_Err].
    step_get by (by apply unwrap_Ok).
    rewrite (bind_run _ _ _ pk s).
    + unfold host_value. by destruct (lib_webauthn_verify _ _ _).
    + apply unwrap_Ok. split; [|done]. rewrite extract_range by lia.
      rewrite decide_True by (rewrite length_app; lia). by rewrite drop_0, Nat.sub_0_r, take_app_length'.
  - apply host_value_Ok. split; [|done]. rewrite webauthn_canonical, decide_True
      by (rewrite length_app; lia). by rewrite take_app_length'.
  - intros short Hs [sd Hsd]. rewrite Hsd. split.
    + step_get by (by apply unwrap_Ok). apply bind_Err. unfold unwrap.
      rewrite extract_range by lia. by rewrite decide_False by lia.
    + unfold host_value. rewrite webauthn_canonical. by rewrite decide_False by lia.
Qed.
End theorems.

(** ** A toy cryptography satisfying the laws, and witnesses *)

(** A signature is the key or message it is for, padded; nothing secret. *)
#[export] Instance ref_crypto : Crypto :=
  Build_Crypto
    (λ key hash sig, bool_decide (sig = hash ++ take 32 key))
    (λ hash sig _, if decide (take 32 sig = hash) then Some (Byte.x04 :: drop 32 sig ++ hash) else None)
    (λ key msg sig, bool_decide (sig = key ++ take 32 msg))
    (λ hash key sig, if decide (sig = key ++ hash) then Some true else None)
    (λ key, key) (λ keys, keys)
    Bytes (λ sig, match sig with [] => None | _ => Some sig end)
    (λ b i j, if decide (i ≤ j ≤ length b)%nat then Some (take (j - i) (drop i b)) else None)
    (λ hash key sig, if decide (sig = hash) then Some true else None)
    (λ b, if decide (65 ≤ length b)%nat then Some (take 65 b) else None)
    (λ l, mapM (λ b, if decide (65 ≤ length b)%nat then Some (take 65 b) else None) l).

#[export] Instance ref_webauthn_laws : WebAuthnLaws.
Proof.
  split; [|done]. intros b i j Hij. simpl. repeat case_decide; naive_solver lia.
Qed.
#[export] Instance ref_lib_laws : LibVerifierLaws.
Proof.
  split; simpl.
  - intros hash key sig b. case_decide; naive_solver.
  - intros keys. by rewrite list_fmap_id.
  - intros hash key sig b. case_decide; naive_solver.
  - intros keys cs. by rewrite mapM_Some.
Qed.

Definition test_hash : Bytes := replicate 32 Byte.x11.
Definition test_pk : Bytes := Byte.x04 :: replicate 64 Byte.x22.

Lemma hex_encode_roundtrip_witness :
  ∃ out, ModifiedEd25519.hex_encode_lower (replicate 4 Byte.x00) [Byte.x0a; Byte.xff] = Some out
    ∧ hex_decode out = Some [Byte.x0a; Byte.xff].
Proof.
  destruct (hex_encode_roundtrip (replicate 4 Byte.x00) [Byte.x0a; Byte.xff] eq_refl)
    as (out & Ho & _ & Hd & _). exists out. split; [exact Ho|exact Hd].
Defined.

Lemma modified_ed25519_spec_witness :
  length (signed_message test_hash) = 92%nat
  ∧ (ModifiedEd25519.verify [Byte.x01] [] [] : M unit _ bool) ()
    = Err (ContractError ModifiedEd25519.InvalidHashLength).
Proof.
  split; [exact (proj2 (modified_ed25519_spec test_hash [] [] ()) ltac:(by_run))|].
  rewrite (proj1 (modified_ed25519_spec [Byte.x01] [] [] ())). by_run.
Defined.

(** Recovery succeeds with id 0; the Ethereum-style id 27 is refused. *)
Definition test_sig (id : byte) : Bytes := test_hash ++ replicate 32 Byte.x33 ++ [id].
Definition test_recovered : Bytes := Byte.x04 :: replicate 32 Byte.x33 ++ test_hash.
Lemma secp256k1_spec_witness :
  (Secp256k1.verify test_hash test_recovered (test_sig Byte.x00) : M unit _ bool) () = Ok (true, ())
  ∧ (Secp256k1.verify test_hash test_recovered (test_sig Byte.x1b) : M unit _ bool) ()
    = Err (ContractError Secp256k1.InvalidRecoveryId).
Proof.
  rewrite (proj1 (secp256k1_spec test_hash test_recovered (test_sig Byte.x00) Byte.x00 () ltac:(by_run))).
  rewrite (proj1 (secp256k1_spec test_hash test_recovered (test_sig Byte.x1b) Byte.x1b () ltac:(by_run))).
  split; by_run.
Defined.

Lemma p256_spec_witness :
  (P256.verify test_hash test_pk (test_hash ++ take 32 test_pk) : M unit _ bool) () = Ok (true, ())
  ∧ (P256.canonicalize_key (replicate 65 Byte.x02) : M unit _ Bytes) ()
    = Err (ContractError P256.InvalidKeyEncoding).
Proof.
  rewrite (proj1 (p256_spec test_hash test_pk (test_hash ++ take 32 test_pk) ())).
  rewrite (proj1 (proj2 (p256_spec test_hash (replicate 65 Byte.x02) [] ()))). split; by_run.
Defined.

Lemma verifiers_keep_interface_witness :
  ∃ b, (P256.verify test_hash test_pk (test_hash ++ take 32 test_pk) : M unit _ bool) () = Ok (b, ())
    ∧ b = true.
Proof.
  exists true. split; [by_run|].
  exact (proj1 (proj1 (proj1 (verifiers_keep_interface (S := unit) (E := unit)))
    test_hash test_pk (test_hash ++ take 32 test_pk) () true () ltac:(by_run))).
Defined.

Lemma webauthn_suffix_irrelevant_witness :
  (WebAuthnWrapper.canonicalize_key (test_pk ++ [Byte.x01; Byte.x02]) : M unit unit Bytes) ()
    = Ok (test_pk, ())
  ∧ (WebAuthnWrapper.verify test_hash (test_pk ++ [Byte.x01]) test_hash : M unit unit bool) ()
    = Ok (true, ()).
Proof.
  split.
  - exact (proj1 (proj2 (webauthn_suffix_irrelevant (E := unit) test_hash test_pk
      [Byte.x01; Byte.x02] test_hash () ltac:(by_run)))).
  - rewrite (proj1 (webauthn_suffix_irrelevant (E := unit) test_hash test_pk
      [Byte.x01] test_hash () ltac:(by_run))). by_run.
Defined.
