(* ===== verification/Authorisation.v ===== *)
(** * Authorisation, end to end

    What an account's [__check_auth] (SmartAccount.v) lets through, when the
    rules of the account carry the policies of this repository.  The decision is
    made by the stellar-accounts library, which finds the rule each context
    names, authenticates its signers with the verifier contracts (Verifiers.v)
    and calls [enforce] of every policy of the rule (Policy.v): that behaviour,
    documented and tested in latch-smart-account, is a class here.  [run] is a
    history of the whole system, of which a policy contract sees [policy_calls]
    ([run_policy]). *)
From S2P Require Import Prelude RustInt Soroban Policy SmartAccount.
Import (hints) Account.
Local Open Scope Z_scope.

Section types.
Context `{Host}.

(** A context rule as the account stores it: what the policies receive, the
    policies attached to it and the ledger it expires at. *)
Record StoredRule := mkStored {
  stored : ContextRule;
  rule_policies : list Address;
  valid_until : option Z;
}.

(** One authorised context: under which rule, by which signers. *)
Record Grant := mkGrant {
  granted : Context;
  granted_under : StoredRule;
  granted_signers : list Signer;
}.
Definition grant_id (g : Grant) : Z := rule_id (stored (granted_under g)).

(** The scope of a rule. (The wasm hash of a deployment is not part of the
    context as the policies see it, so [CreateContract] covers them all here.) *)
Definition covers (t : ContextRuleType) (c : Context) : Prop :=
  match t, c with
  | DefaultRule, _ => True
  | CallContract a, ContractCtx c => ctx_contract c = a
  | CreateContract _, (CreateContractHostFnCtx | CreateContractWithCtorHostFnCtx) => True
  | _, _ => False
  end.
#[export] Instance covers_dec t c : Decision (covers t c).
Proof. destruct t, c; simpl; apply _. Defined.

Definition unexpired (r : StoredRule) (ledger : Z) : Prop :=
  match valid_until r with Some n => ledger ≤ n | None => True end.
#[export] Instance unexpired_dec r ledger : Decision (unexpired r ledger).
Proof. unfold unexpired. destruct (valid_until r); apply _. Defined.
End types.

(** ** The library's authorisation check *)

Class Authorisation `{AccountLib} := {
  account_env : Address → World →
    Env Account.LatchSmartAccountStorageKey Account.AccountVal Account.AccountEvent;
  ledger_of : World → Z;
  (** The rule stored under an id of an account. *)
  stored_rule : Address → Z → World → option StoredRule;
  (** [AuthPayload { signers: Map<Signer, Bytes>, context_rule_ids: Vec<u32> }] *)
  payload_signers : AuthPayload → gmap Signer Bytes;
  context_rule_ids : AuthPayload → list Z;
  (** [VerifierClient::verify]: verifier, hash, key, signature. *)
  verifier_client : Address → Bytes → Bytes → Bytes → option bool;
  (** The contexts a successful check hands to the policies. *)
  lib_grants : Address → Bytes → AuthPayload → list Context → World → list Grant;
  (** Whatever else happens on the ledger, one transaction at a time. *)
  Action : Type;
  world_step : World → Action → World → Prop;
}.

Section authorisation.
Context `{Authorisation}.

(** The signer authorised the payload: natively, or by its verifier. *)
Definition proven (me : Address) (hash : Bytes) (w : World) (s : Signer) (sig : Bytes) : Prop :=
  match s with
  | Delegated a => is_Some (host_require_auth me a w)
  | External verifier key => verifier_client verifier hash key sig = Some true
  end.

(** What stands behind an authorised context: a stored rule that has not expired
    and covers it, and distinct signers of that rule, all authenticated. *)
Record valid_grant (me : Address) (hash : Bytes) (sigs : gmap Signer Bytes) (w : World)
    (g : Grant) : Prop := {
  grant_stored : stored_rule me (grant_id g) w = Some (granted_under g);
  grant_unexpired : unexpired (granted_under g) (ledger_of w);
  grant_covered : covers (context_type (stored (granted_under g))) (granted g);
  grant_distinct : NoDup (granted_signers g);
  grant_proven s : s ∈ granted_signers g →
    s ∈ rule_signers (stored (granted_under g))
    ∧ ∃ sig, sigs !! s = Some sig ∧ proven me hash w s sig;
}.
End authorisation.

(** Documented behaviour of [do_check_auth] when it succeeds: one valid grant
    for each context, in order, under the rules the payload names. *)
Class AuthorisationLaws `{Authorisation} : Prop := {
  account_env_self a w : self (account_env a w) = a;
  account_env_world a w : world (account_env a w) = w;
  check_auth_grants me hash s cs w w' :
    lib_do_check_auth me hash s cs w = Some (inl tt, w') →
    let gs := lib_grants me hash s cs w in
    granted <$> gs = cs ∧ grant_id <$> gs = context_rule_ids s
    ∧ Forall (valid_grant me hash (payload_signers s) w) gs;
}.

(** ** Policy contracts in the system *)

Class PolicyContract `{Authorisation} `{!Policy Data Event Failure} := {
  (** The contract at this address is this policy. *)
  policy_at : Address → Prop;
  (** The environment in which it executes in a world. *)
  policy_env : Address → World → Env StorageKey Data Event;
  (** The calls of it that a transaction makes, outside account authorisation. *)
  calls_of : Address → Action → list (call Data Event Failure);
}.

(** The calls of the policy at [P] that authorising [gs] makes, in order. *)
Definition enforcements `{Host} `{!Policy Data Event Failure} (P me : Address)
    (gs : list Grant) : list (call Data Event Failure) :=
  omap (λ g, if decide (P ∈ rule_policies (granted_under g))
             then Some (CEnforce (granted g) (granted_signers g) (stored (granted_under g)) me)
             else None) gs.

(** Only its own calls change a contract's storage, and an authorisation calls
    [enforce] of every policy of the rule of each context. *)
Class PolicyContractLaws `{PolicyContract} : Prop := {
  check_auth_enforces P me hash s cs w w' :
    policy_at P → lib_do_check_auth me hash s cs w = Some (inl tt, w') →
    policy_run (policy_env P w) (enforcements P me (lib_grants me hash s cs w)) (policy_env P w');
  world_step_calls P w x w' :
    policy_at P → world_step w x w' → policy_run (policy_env P w) (calls_of P x) (policy_env P w');
}.

(** ** Histories of the system *)

Section runs.
Context `{Authorisation}.

Inductive SystemEvent :=
  | Authorised (me : Address) (hash : Bytes) (gs : list Grant)
  | Acted (x : Action).

(** Accounts authorise transactions, and other transactions happen. *)
Inductive run (w0 : World) : list SystemEvent → World → Prop :=
  | run_start : run w0 [] w0
  | run_authorised evs w me hash s cs e' :
      run w0 evs w →
      Account.check_auth hash s cs (account_env me w) = Ok (inl tt, e') →
      run w0 (evs ++ [Authorised me hash (lib_grants me hash s cs w)]) (world e')
  | run_acted evs w x w' : run w0 evs w → world_step w x w' → run w0 (evs ++ [Acted x]) w'.

(** The account [me] authorised [g] along the history, for the payload [hash]. *)
Definition authorises (evs : list SystemEvent) (me : Address) (hash : Bytes) (g : Grant) : Prop :=
  ∃ gs, Authorised me hash gs ∈ evs ∧ g ∈ gs.

Context `{!AuthorisationLaws}.

Lemma check_auth_lib me hash s cs w r e' :
  Account.check_auth hash s cs (account_env me w) = Ok (r, e') →
  lib_do_check_auth me hash s cs w = Some (r, world e').
Proof.
  unfold Account.check_auth. intros. inv_run. simpl.
  by rewrite account_env_self, account_env_world in *.
Qed.

(** The grants of a history were valid in the world they were given in. *)
Lemma run_at w0 evs w pre me hash gs post :
  run w0 evs w → evs = pre ++ Authorised me hash gs :: post →
  ∃ w1 sigs, run w0 pre w1 ∧ Forall (valid_grant me hash sigs w1) gs.
Proof.
  intros Hrun. revert post. induction Hrun as [|evs w me' hash' s cs e' Hrun IH Hc|evs w x w' Hrun IH _];
    intros post Heq; [by destruct pre| |];
    (destruct post as [|ev post _] using rev_ind;
      [|rewrite app_comm_cons, app_assoc in Heq; apply app_inj_tail in Heq as [-> _]; by eapply IH]).
  - apply app_inj_tail in Heq as [-> [= <- <- <-]].
    apply check_auth_lib, check_auth_grants in Hc as (_ & _ & Hv). eauto.
  - by apply app_inj_tail in Heq as [_ ?].
Qed.
Lemma authorises_valid w0 evs w me hash g :
  run w0 evs w → authorises evs me hash g →
  ∃ pre w1 sigs, pre `prefix_of` evs ∧ run w0 pre w1 ∧ valid_grant me hash sigs w1 g.
Proof.
  intros Hrun (gs & (pre & post & ->)%list_elem_of_split & Hg).
  destruct (run_at _ _ _ _ _ _ _ _ Hrun eq_refl) as (w1 & sigs & Hpre & Hv).
  rewrite Forall_forall in Hv. exists pre, w1, sigs. split_and!; [by eexists|done|by apply Hv].
Qed.

(** Somewhere along the history the rule of a grant was unexpired and one of its
    signers authenticated the payload. *)
Definition authenticated (w0 : World) (evs : list SystemEvent) (me : Address) (hash : Bytes)
    (g : Grant) : Prop :=
  ∃ pre w1 s sig, pre `prefix_of` evs ∧ run w0 pre w1
    ∧ unexpired (granted_under g) (ledger_of w1)
    ∧ s ∈ rule_signers (stored (granted_under g)) ∧ proven me hash w1 s sig.

Lemma authorises_authenticated w0 evs w me hash g :
  run w0 evs w → authorises evs me hash g → granted_signers g ≠ [] →
  authenticated w0 evs me hash g
  ∧ covers (context_type (stored (granted_under g))) (granted g).
Proof.
  intros Hrun Hau Hne.
  destruct (authorises_valid w0 evs w me hash g Hrun Hau)
    as (pre & w1 & sigs & Hpre & Hrun1 & [_ Hx Hcov _ Hpr]).
  split; [|exact Hcov]. destruct (granted_signers g) as [|s l]; [done|].
  destruct (Hpr s ltac:(by left)) as (Hin & sig & _ & Hprv). by exists pre, w1, s, sig.
Qed.
End runs.

(** ** What a policy contract sees of a history *)

Section projection.
Context `{PolicyContractLaws Data Event Failure} `{!PolicyLaws Data Event Failure} `{!AuthorisationLaws}.
Abbreviation pcall := (call Data Event Failure).

(** The calls of the policy at [P] that the events make. *)
Definition event_calls (P : Address) (ev : SystemEvent) : list pcall :=
  match ev with
  | Authorised me _ gs => enforcements P me gs
  | Acted x => calls_of P x
  end.
Definition policy_calls (P : Address) (evs : list SystemEvent) : list pcall :=
  evs ≫= event_calls P.

(** The grants that the policy at [P] let through for a key. *)
Definition grants_for (P : Address) (k : StorageKey) (evs : list SystemEvent) : list Grant :=
  evs ≫= λ ev, match ev with
  | Authorised me _ gs =>
      filter (λ g, P ∈ rule_policies (granted_under g)
                   ∧ rule_key (stored (granted_under g)) me = k) gs
  | Acted _ => []
  end.

(** A history of the system is a history of each policy contract. *)
Lemma run_policy P w0 evs w :
  policy_at P → run w0 evs w → policy_run (policy_env P w0) (policy_calls P evs) (policy_env P w).
Proof.
  intros HP. induction 1 as [|evs w me hash s cs e' _ IH Hc|evs w x w' _ IH Hx]; [constructor| |];
    unfold policy_calls in *; rewrite bind_app; cbn [list_bind mbind event_calls];
    rewrite app_nil_r; eapply policy_run_trans; try exact IH.
  - apply check_auth_enforces; [done|]. by apply check_auth_lib.
  - by apply world_step_calls.
Qed.

Lemma enforcements_split P me g1 g g2 :
  P ∈ rule_policies (granted_under g) →
  enforcements P me (g1 ++ g :: g2)
  = enforcements P me g1
    ++ (CEnforce (granted g) (granted_signers g) (stored (granted_under g)) me : pcall)
    :: enforcements P me g2.
Proof. intros Hp. unfold enforcements. rewrite omap_app. simpl. by rewrite decide_True. Qed.

Lemma policy_calls_at P pre me hash g1 g g2 post :
  P ∈ rule_policies (granted_under g) →
  policy_calls P (pre ++ Authorised me hash (g1 ++ g :: g2) :: post)
  = (policy_calls P pre ++ enforcements P me g1)
    ++ (CEnforce (granted g) (granted_signers g) (stored (granted_under g)) me : pcall)
    :: (enforcements P me g2 ++ policy_calls P post).
Proof.
  intros Hp. unfold policy_calls. rewrite bind_app. cbn [list_bind mbind event_calls].
  rewrite (enforcements_split P me g1 g g2 Hp). by rewrite <- !app_assoc.
Qed.

(** An authorised context is a successful enforcement of each of its policies,
    somewhere in the history. *)
Lemma authorises_enforced P evs me hash g :
  authorises evs me hash g → P ∈ rule_policies (granted_under g) →
  ∃ pre post, policy_calls P evs
    = pre ++ (CEnforce (granted g) (granted_signers g) (stored (granted_under g)) me : pcall) :: post.
Proof.
  intros (gs & (e1 & e2 & ->)%list_elem_of_split & (g1 & g2 & ->)%list_elem_of_split) Hp.
  rewrite policy_calls_at by done. eauto.
Qed.

(** The run of a policy up to and after one of its calls. *)
Lemma policy_run_split (e0 e : Env StorageKey Data Event) pre (c : pcall) post :
  policy_run e0 (pre ++ c :: post) e →
  ∃ e1 e2, policy_run e0 pre e1 ∧ run_call c e1 = Ok (tt, e2) ∧ policy_run e2 post e.
Proof.
  intros Hrun. remember (pre ++ c :: post) as cs eqn:Hcs. revert post Hcs.
  induction Hrun as [|cs e d e' Hrun IH Hd|cs e seq time w evs _ IH Hle]; intros post Hcs.
  - by destruct pre.
  - destruct post as [|x post _] using rev_ind.
    + apply app_inj_tail in Hcs as [-> ->]. exists e, e'. split_and!; [done|done|constructor].
    + rewrite app_comm_cons, app_assoc in Hcs. apply app_inj_tail in Hcs as [-> ->].
      destruct (IH post eq_refl) as (e1 & e2 & H1' & Hc & H2'). exists e1, e2.
      split_and!; [done|done|]. by econstructor.
  - destruct (IH post Hcs) as (e1 & e2 & H1' & Hc & H2'). exists e1, e2.
    split_and!; [done|done|]. by constructor.
Qed.

(** The state of the policy when it let an authorised context through. *)
Lemma authorises_call P w0 evs w me hash g :
  policy_at P → run w0 evs w → authorises evs me hash g → P ∈ rule_policies (granted_under g) →
  ∃ pre post e1 e2, policy_calls P evs = pre ++ CEnforce (granted g) (granted_signers g)
                      (stored (granted_under g)) me :: post
    ∧ policy_run (policy_env P w0) pre e1
    ∧ enforce (granted g) (granted_signers g) (stored (granted_under g)) me e1 = Ok (tt, e2).
Proof.
  intros HP Hrun Hau Hp. destruct (authorises_enforced P evs me hash g Hau Hp) as (pre & post & Hcs).
  pose proof (run_policy P w0 evs w HP Hrun) as Hpr. rewrite Hcs in Hpr.
  destruct (policy_run_split _ _ _ _ _ Hpr) as (e1 & e2 & H1' & Hc & _). eauto 10.
Qed.

(** For a policy that is a guarded machine, the guard held of an authorised
    context, in the view that the calls before it had made of the initial one. *)
Lemma authorises_guarded {View : Type} (view : Data → View)
    (guard : pcall → option View → Prop) (next : pcall → option View → option View)
    `{!PolicyMachine view guard next} P (e1 : Env StorageKey Data Event) w0 evs w me hash g :
  policy_at P → policy_run e1 [] (policy_env P w0) → run w0 evs w →
  authorises evs me hash g → P ∈ rule_policies (granted_under g) →
  ∃ pre post, policy_calls P evs = pre ++ CEnforce (granted g) (granted_signers g)
                (stored (granted_under g)) me :: post
    ∧ guard (CEnforce (granted g) (granted_signers g) (stored (granted_under g)) me)
        (history_from next (view <$> persistent e1 !! AccountContext me (grant_id g))
           (AccountContext me (grant_id g)) pre).
Proof.
  intros HP Hstart Hrun Hau Hp.
  destruct (authorises_enforced P evs me hash g Hau Hp) as (pre & post & Hcs).
  exists pre, post. split; [exact Hcs|].
  pose proof (policy_run_trans _ _ _ _ _ Hstart (run_policy P w0 evs w HP Hrun)) as Hpr.
  exact (run_guarded_from view guard next _ _ _ _ _ _ Hpr Hcs).
Qed.
End projection.
