(* ===== verification/RefSystem.v ===== *)
(** * A reference system

    An executable library and ledger that satisfy the laws of Authorisation.v:
    accounts store rules, one policy contract, of any crate, stores its entries,
    [do_check_auth] looks up the rules, authenticates the signers and runs the
    policy's own [enforce].  The witnesses of the end-to-end properties run on
    it. *)
From S2P Require Import Prelude RustInt Soroban RefHost Policy SmartAccount Authorisation.
Import (hints) Account.
Local Open Scope Z_scope.

(** Rules and entries, in types that do not mention the host. *)
Record RRule := mkRRule {
  rr_type : option N;                       (* [CallContract], else [Default] *)
  rr_signers : list (N + N * Bytes);
  rr_policies : list N;
  rr_until : option Z;
}.
Record RStore (D : Type) := mkRStore {
  rs_ledger : Z;
  rs_rules : gmap (N * Z) RRule;            (* (account, id) *)
  rs_data : gmap (N * Z) D;                 (* the policy's entries *)
  rs_live : gmap (N * Z) Z;
}.
Arguments mkRStore {D}.
Arguments rs_ledger {D} _.
Arguments rs_rules {D} _.
Arguments rs_data {D} _.
Arguments rs_live {D} _.

Definition sys_host (D : Type) : Host := Eval cbv beta delta [store_host] in store_host (RStore D).

(** The address of the policy contract. *)
Definition r_policy : N := 22%N.

(** *** What a policy's code leaves alone *)

Section reference.
Context {D : Type}.
#[local] Instance HS : Host := sys_host D.

Section frames.
Context `{Countable K} {V Ev E : Type}.
Abbreviation FEnv := (Env K V Ev).
Abbreviation FM := (M FEnv E).

Record same_frame (e e' : FEnv) : Prop := {
  frame_self : self e' = self e;
  frame_sequence : sequence e' = sequence e;
  frame_timestamp : timestamp e' = timestamp e;
  frame_inst : inst e' = inst e;
  frame_inst_live : inst_live_until e' = inst_live_until e;
  frame_store : r_store (world e' : RWorldOf (RStore D)) = r_store (world e : RWorldOf (RStore D));
  frame_code : r_code (world e' : RWorldOf (RStore D)) = r_code (world e : RWorldOf (RStore D));
}.
#[export] Instance same_frame_preorder : PreOrder same_frame.
Proof.
  split; [by split|]. intros e1 e2 e3 [] []. split; congruence.
Qed.

(** [m] only touches the persistent storage and the events, and the world
    outside the store. *)
Definition frames {A} (m : FM A) : Prop := ∀ e a e', m e = Ok (a, e') → same_frame e e'.

Lemma frames_bind {A B} (m : FM A) (k : A → FM B) :
  frames m → (∀ a, frames (k a)) → frames (m ≫= k).
Proof.
  intros Hm Hk e b e' (a & e1 & Ha & Hb)%bind_Ok. etrans; [by eapply Hm|by eapply Hk].
Qed.
(** What leaves the environment as it is, or changes one of the two parts. *)
Lemma frames_pure {A} (m : FM A) : (∀ e a e', m e = Ok (a, e') → e' = e) → frames m.
Proof. intros Hm e a e' ->%Hm. reflexivity. Qed.
Lemma frames_ret {A} (a : A) : frames (mret a : FM A).
Proof. apply frames_pure. by intros e b e' [_ ->]%ret_Ok. Qed.
Lemma frames_throw {A} x : frames (throw x : FM A).
Proof. by intros e b e'. Qed.
Lemma frames_throw_if b x : frames (throw_if b x : FM unit).
Proof. apply frames_pure. by intros e [] e' [_ ->]%throw_if_Ok. Qed.
Lemma frames_unwrap_or_throw {A} (o : option A) x : frames (unwrap_or_throw o x : FM A).
Proof. apply frames_pure. by intros e b e' [_ ->]%unwrap_or_throw_Ok. Qed.
Lemma frames_unwrap {A} (o : option A) : frames (unwrap o : FM A).
Proof. apply frames_pure. by intros e b e' [_ ->]%unwrap_Ok. Qed.
Lemma frames_read {A} (f : FEnv → A) : frames (read f : FM A).
Proof. apply frames_pure. by intros e b e' [_ ->]%read_Ok. Qed.
Lemma frames_set k v : frames (persistent_set k v : FM unit).
Proof. by intros e [] e' ->%persistent_set_Ok. Qed.
Lemma frames_remove k : frames (persistent_remove k : FM unit).
Proof. by intros e [] e' ->%persistent_remove_Ok. Qed.
Lemma frames_extend k t x : frames (persistent_extend_ttl k t x : FM unit).
Proof. by intros e [] e' (live & live' & _ & _ & ->)%persistent_extend_ttl_Ok. Qed.
Lemma frames_publish ev : frames (publish ev : FM unit).
Proof. by intros e [] e' ->%publish_Ok. Qed.
Lemma frames_require_auth a : frames (require_auth a : FM unit).
Proof.
  intros e [] e' (w & Hw & ->)%require_auth_Ok. simpl in Hw.
  case_decide; [|done]. by injection Hw as <-.
Qed.
Lemma frames_host_invoke me callee fn call_args :
  frames (invoke (host_invoke me callee fn call_args) : FM Val).
Proof.
  intros e v e' (w & Hw & ->)%invoke_Ok. simpl in Hw. unfold r_invoke in Hw.
  repeat case_decide; [| |done].
  - by apply bind_Some in Hw as (d & _ & [= _ <-]).
  - destruct call_args as [|[] ?]; try done. by injection Hw as _ <-.
Qed.
End frames.

Section system.
Context {Data Event Failure : Type} `{!Policy Data Event Failure}
  (of_data : D → Data) (to_data : Data → D)
  (r_verify : N → Bytes → Bytes → Bytes → option bool)
  (r_params : RVal → option AccountParams).
Abbreviation RW := (RWorldOf (RStore D)).
Abbreviation PEnv := (Env StorageKey Data Event).
Implicit Types w : RW.

(** *** The policy contract *)

Definition r_key (p : N * Z) : StorageKey := AccountContext (fst p : Address) (snd p).
Definition r_unkey (k : StorageKey) : N * Z := match k with AccountContext a i => (a, i) end.

Definition r_policy_env (P : N) w : PEnv :=
  mkEnv (P : Address) (rs_ledger (r_store w)) 0
    (kmap r_key (of_data <$> rs_data (r_store w))) (kmap r_key (rs_live (r_store w)))
    ∅ 0 [] w.
Definition r_save (e : PEnv) : RW :=
  r_set_store (mkRStore (rs_ledger (r_store (world e : RW))) (rs_rules (r_store (world e : RW)))
    (kmap r_unkey (to_data <$> persistent e)) (kmap r_unkey (live_until e))) (world e).
Definition r_call (c : call Data Event Failure) w : option RW :=
  match run_call c (r_policy_env r_policy w) with Ok (_, e) => Some (r_save e) | Err _ => None end.
(** A direct call by [me], which the host takes as its authorisation. *)
Definition r_call_as (me : N) (c : call Data Event Failure) w : option RW :=
  w' ← r_call c (r_set_auth (me :: r_auth w) w); Some (r_set_auth (r_auth w) w').

(** *** Rules and signers *)

Definition r_signer (s : N + N * Bytes) : Signer :=
  match s with inl a => Delegated (a : Address) | inr (v, key) => External (v : Address) key end.
Definition r_unsigner (s : Signer) : N + N * Bytes :=
  match s with Delegated a => inl a | External v key => inr (v, key) end.
Definition r_rule (id : Z) (r : RRule) : StoredRule :=
  mkStored (mkContextRule id
    (match rr_type r with Some a => CallContract (a : Address) | None => DefaultRule end)
    (r_signer <$> rr_signers r)) (rr_policies r) (rr_until r).
Definition r_stored_rule (me : N) (id : Z) w : option StoredRule :=
  r_rule id <$> rs_rules (r_store w) !! (me, id).
Definition r_set_rules (rules : gmap (N * Z) RRule) w : RW :=
  r_set_store (mkRStore (rs_ledger (r_store w)) rules (rs_data (r_store w)) (rs_live (r_store w))) w.
Definition r_advance (n : Z) w : RW :=
  r_set_store (mkRStore (rs_ledger (r_store w) + n) (rs_rules (r_store w)) (rs_data (r_store w))
    (rs_live (r_store w))) w.

(** A new account's rule gets the id 0; its policy is installed. *)
Definition r_add_context_rule (me : N) (ty : ContextRuleType) (_ : Symbol) (until : option Z)
    (signers : list Signer) (policies : gmap N RVal) w : option (unit * RW) :=
  match rs_rules (r_store w) !! (me, 0) with
  | Some _ => None
  | None =>
      ty' ← (match ty with
             | DefaultRule => Some None | CallContract a => Some (Some (a : N))
             | CreateContract _ => None end);
      let rule := mkRRule ty' (r_unsigner <$> signers) (fst <$> map_to_list policies) until in
      let w1 := r_set_rules (<[(me, 0) := rule]> (rs_rules (r_store w))) w in
      match policies !! r_policy with
      | None => Some (tt, w1)
      | Some v =>
          p ← r_params v;
          w2 ← r_call_as me (CInstall p (mkContextRule 0 ty signers) (me : Address)) w1;
          Some (tt, w2)
      end
  end.

(** *** [do_check_auth] *)

Abbreviation Payload := (gmap Signer Bytes * list Z)%type.

Definition r_grant (me : N) (s : Payload) w (c : Context) (id : Z) : option Grant :=
  r ← r_stored_rule me id w;
  Some (mkGrant c r (filter (λ x, is_Some (fst s !! x)) (remove_dups (rule_signers (stored r))))).
Fixpoint r_build (me : N) (s : Payload) w (cs : list Context) (ids : list Z) :
    option (list Grant) :=
  match cs, ids with
  | [], [] => Some []
  | c :: cs, id :: ids => g ← r_grant me s w c id; gs ← r_build me s w cs ids; Some (g :: gs)
  | _, _ => None
  end.

Definition r_proven (me : N) (hash : Bytes) w (x : Signer) : Prop :=
  match x with
  | Delegated a => (a : N) ∈ r_auth w
  | External _ _ => True
  end.
Definition r_signed (hash : Bytes) (s : Payload) (x : Signer) : Prop :=
  match x with
  | Delegated _ => True
  | External v key => r_verify v hash key (default [] (fst s !! x)) = Some true
  end.
Definition r_ok (me : N) (hash : Bytes) (s : Payload) w (g : Grant) : Prop :=
  unexpired (granted_under g) (rs_ledger (r_store w))
  ∧ covers (context_type (stored (granted_under g))) (granted g)
  ∧ Forall (λ x, r_proven me hash w x ∧ r_signed hash s x) (granted_signers g).
#[local] Instance r_proven_dec me hash w x : Decision (r_proven me hash w x).
Proof. destruct x; simpl; apply _. Defined.
#[local] Instance r_signed_dec hash s x : Decision (r_signed hash s x).
Proof. destruct x; simpl; apply _. Defined.
#[local] Instance r_ok_dec me hash s w g : Decision (r_ok me hash s w g).
Proof. unfold r_ok. apply _. Defined.

Fixpoint r_enforce_all (me : N) (gs : list Grant) w : option RW :=
  match gs with
  | [] => Some w
  | g :: gs =>
      w1 ← (if decide (r_policy ∈ rule_policies (granted_under g)) then
              r_call_as me (CEnforce (granted g) (granted_signers g) (stored (granted_under g))
                (me : Address)) w
            else Some w);
      r_enforce_all me gs w1
  end.
Definition r_do_check_auth (me : N) (hash : Bytes) (s : Payload) (cs : list Context) w :
    option ((unit + unit) * RW) :=
  gs ← r_build me s w cs (snd s);
  if decide (Forall (r_ok me hash s w) gs) then
    w' ← r_enforce_all me gs w; Some (inl tt, w')
  else None.
Definition r_grants (me : N) (_ : Bytes) (s : Payload) (cs : list Context) w : list Grant :=
  default [] (r_build me s w cs (snd s)).

(** *** The instances *)

Definition r_account_env (me : N) w : Env Account.LatchSmartAccountStorageKey Account.AccountVal
    Account.AccountEvent :=
  mkEnv (me : Address) (rs_ledger (r_store w)) 0 ∅ ∅ ∅ (rs_ledger (r_store w) + 4095) [] w.
(** Ledgers close, and anyone calls the policy. *)
Inductive RAction := RTime (n : N) | RCall (c : call Data Event Failure).
Definition r_step w (x : RAction) w' : Prop :=
  match x with
  | RTime n => w' = r_advance (Z.of_N n) w
  | RCall c => r_call c w = Some w'
  end.

#[local] Instance sys_lib : AccountLib :=
  Build_AccountLib HS Payload unit 501120 518400 r_add_context_rule
    (λ _ _ _ w, Some (tt, w)) r_do_check_auth (λ _ _ w, Some (tt, w)) unit
    (λ _ _ w, Some (tt, w)) (λ _ _ _ _ _, None).
#[local] Instance sys_auth : Authorisation :=
  Build_Authorisation HS sys_lib r_account_env (λ w, rs_ledger (r_store w)) r_stored_rule fst snd
    r_verify r_grants RAction r_step.
#[local] Instance sys_policy : PolicyContract :=
  Build_PolicyContract HS sys_lib sys_auth Data Event Failure Policy0 (λ P : N, P = r_policy)
    r_policy_env (λ _ x, match x with RTime _ => [] | RCall c => [c] end).

(** *** The laws *)

(** What the reference needs of the policy: its data in host-free form, and
    that it has no instance storage of its own. *)
Class Framed : Prop := {
  of_to_data d : of_data (to_data d) = d;
  framed (c : call Data Event Failure) : frames (run_call c);
}.
Context `{!Framed}.

#[local] Instance r_key_inj : Inj (=) (=) r_key.
Proof. intros [a i] [b j] [= -> ->]. done. Qed.
#[local] Instance r_unkey_inj : Inj (=) (=) r_unkey.
Proof. intros [a i] [b j] [= -> ->]. done. Qed.

Lemma r_key_unkey k : r_key (r_unkey k) = k.
Proof. by destruct k. Qed.
Lemma r_live_back (m : gmap StorageKey Z) : kmap r_key (kmap r_unkey m : gmap (N * Z) Z) = m.
Proof.
  induction m as [|k z m Hk IH] using map_ind; [by rewrite !kmap_empty|].
  by rewrite !kmap_insert, IH, r_key_unkey by apply _.
Qed.
Lemma r_data_back (m : gmap StorageKey Data) :
  kmap r_key (of_data <$> (kmap r_unkey (to_data <$> m) : gmap (N * Z) D)) = m.
Proof.
  induction m as [|k d m Hk IH] using map_ind; [by rewrite fmap_empty, kmap_empty, fmap_empty, kmap_empty|].
  rewrite fmap_insert, kmap_insert, fmap_insert, kmap_insert by apply _.
  by rewrite IH, r_key_unkey, of_to_data.
Qed.

Lemma r_save_run c w e :
  run_call c (r_policy_env r_policy w) = Ok (tt, e) →
  policy_run e [] (r_policy_env r_policy (r_save e)).
Proof.
  intros Hc. pose proof (framed _ _ _ _ Hc) as [Hs Hq Ht Hi Hl Hw _]. simpl in *.
  assert (r_policy_env r_policy (r_save e)
          = set_events [] (set_ledger (sequence e) 0 (r_save e) e)) as ->.
  { unfold r_policy_env, set_events, set_ledger. simpl.
    by rewrite r_live_back, r_data_back, Hs, Hi, Hl, Hw, Hq. }
  by apply policy_time; [constructor|].
Qed.

Lemma r_call_run c w w' :
  r_call c w = Some w' → policy_run (r_policy_env r_policy w) [c] (r_policy_env r_policy w').
Proof.
  unfold r_call. destruct (run_call c _) as [[[] e]|] eqn:Hc; [|done]. intros [= <-].
  eapply (policy_run_trans _ [c] _ []); [|by eapply r_save_run].
  eapply (policy_call _ []); [constructor|exact Hc].
Qed.

Lemma r_time_run w w' :
  rs_data (r_store w') = rs_data (r_store w) → rs_live (r_store w') = rs_live (r_store w) →
  rs_ledger (r_store w) ≤ rs_ledger (r_store w') →
  policy_run (r_policy_env r_policy w) [] (r_policy_env r_policy w').
Proof.
  intros Hd Hl Hle.
  assert (r_policy_env r_policy w' = set_events [] (set_ledger (rs_ledger (r_store w')) 0 w'
    (r_policy_env r_policy w))) as ->.
  { unfold r_policy_env, set_events, set_ledger. simpl. by rewrite Hd, Hl. }
  by apply policy_time; [constructor|].
Qed.

Lemma r_call_as_inv me c w w' :
  r_call_as me c w = Some w' →
  ∃ w1 e, run_call c (r_policy_env r_policy w1) = Ok (tt, e)
    ∧ policy_run e [] (r_policy_env r_policy w').
Proof.
  unfold r_call_as, r_call. intros (w1 & Hc & [= <-])%bind_Some.
  destruct (run_call c _) as [[[] e]|] eqn:Hr; [|done]. injection Hc as <-.
  eexists _, e. split; [exact Hr|]. eapply (policy_run_trans _ [] _ []); [by eapply r_save_run|].
  by apply r_time_run.
Qed.

Lemma r_call_as_run me c w w' :
  r_call_as me c w = Some w' → policy_run (r_policy_env r_policy w) [c] (r_policy_env r_policy w').
Proof.
  unfold r_call_as. intros (w1 & Hc & [= <-])%bind_Some. apply r_call_run in Hc.
  eapply (policy_run_trans _ [] (r_policy_env r_policy (r_set_auth (me :: r_auth w) w)) [c]);
    [by apply r_time_run|].
  eapply (policy_run_trans _ [c] _ []); [exact Hc|]. by apply r_time_run.
Qed.

Lemma r_enforce_all_run me gs w w' :
  r_enforce_all me gs w = Some w' →
  policy_run (r_policy_env r_policy w) (enforcements r_policy me gs) (r_policy_env r_policy w').
Proof.
  revert w. induction gs as [|g gs IH]; simpl; intros w Hw.
  - injection Hw as <-. constructor.
  - apply bind_Some in Hw as (w1 & Hg & Hw). apply IH in Hw. unfold enforcements. simpl.
    case_decide; [|by injection Hg as ->].
    eapply (policy_run_trans _ [_]); [by eapply r_call_as_run|exact Hw].
Qed.

Lemma r_call_as_keeps me c w w' :
  r_call_as me c w = Some w' →
  rs_rules (r_store w') = rs_rules (r_store w) ∧ r_code w' = r_code w.
Proof.
  unfold r_call_as, r_call. intros (w1 & Hc & [= <-])%bind_Some.
  destruct (run_call c _) as [[[] e]|] eqn:Hr; [|done]. injection Hc as <-.
  destruct (framed _ _ _ _ Hr) as [_ _ _ _ _ Hst Hco]. simpl in *. by rewrite Hst, Hco.
Qed.

Lemma r_signer_unsigner (l : list Signer) : r_signer <$> (r_unsigner <$> l) = l.
Proof. induction l as [|[|] l IH]; [done|..]; rewrite !fmap_cons, IH; done. Qed.

(** What a successful [r_add_context_rule] stored and installed. *)
Lemma r_add_context_rule_spec me ty name until signers policies w w' :
  r_add_context_rule me ty name until signers policies w = Some (tt, w') →
  (∃ r, r_stored_rule me 0 w' = Some r ∧ stored r = mkContextRule 0 ty signers
    ∧ ∀ policy, policy ∈ rule_policies r ↔ is_Some (policies !! policy))
  ∧ (∀ v p, policies !! r_policy = Some v → r_params v = Some p →
      ∃ w1 e, run_call (CInstall p (mkContextRule 0 ty signers) (me : Address))
                (r_policy_env r_policy w1) = Ok (tt, e)
        ∧ policy_run e [] (r_policy_env r_policy w'))
  ∧ r_code w' = r_code w.
Proof.
  unfold r_add_context_rule. destruct (rs_rules _ !! _); [done|].
  intros (ty' & Hty & Hadd)%bind_Some.
  set (rule := mkRRule ty' (r_unsigner <$> signers) (fst <$> map_to_list policies) until) in *.
  set (w1 := r_set_rules _ w) in *.
  assert (∀ w2, rs_rules (r_store w2) = rs_rules (r_store w1) →
    ∃ r, r_stored_rule me 0 w2 = Some r ∧ stored r = mkContextRule 0 ty signers
      ∧ ∀ policy, policy ∈ rule_policies r ↔ is_Some (policies !! policy)) as Hrule.
  { intros w2 Hw2. exists (r_rule 0 rule). split_and!.
    - unfold r_stored_rule. rewrite Hw2. simpl. by rewrite lookup_insert_eq.
    - unfold r_rule. simpl. rewrite r_signer_unsigner. f_equal.
      destruct ty; simplify_eq; done.
    - intros policy. simpl. rewrite list_elem_of_fmap. split.
      + intros ([p v] & -> & Hp%elem_of_map_to_list). by exists v.
      + intros [v Hv]. exists (policy, v). split; [done|]. by apply elem_of_map_to_list. }
  destruct (policies !! r_policy) as [v|] eqn:Hv.
  - apply bind_Some in Hadd as (p & Hp & Hadd). apply bind_Some in Hadd as (w2 & Hc & [= <-]).
    destruct (r_call_as_keeps _ _ _ _ Hc) as [Hkr Hkc]. split_and!; [by apply Hrule| |done].
    intros v' p' [= <-] Hp'. rewrite Hp in Hp'. injection Hp' as <-. by eapply r_call_as_inv.
  - injection Hadd as <-. split_and!; [by apply Hrule|done|done].
Qed.

#[local] Instance sys_policy_laws : PolicyContractLaws.
Proof.
  split; simpl.
  - intros P me hash s cs w w' -> Hc. unfold r_do_check_auth in Hc.
    apply bind_Some in Hc as (gs & Hgs & Hc). case_decide; [|done].
    apply bind_Some in Hc as (w1 & Hen & [= <-]). unfold r_grants. rewrite Hgs.
    by apply r_enforce_all_run.
  - intros P w [n|c] w' -> Hx; simpl in Hx; [|by apply r_call_run].
    subst. apply r_time_run; [done|done|]. simpl. lia.
Qed.

Lemma r_build_Some me s w cs ids gs :
  r_build me s w cs ids = Some gs →
  granted <$> gs = cs ∧ grant_id <$> gs = ids
  ∧ Forall (λ g, r_stored_rule me (grant_id g) w = Some (granted_under g)
                 ∧ granted_signers g = filter (λ x, is_Some (fst s !! x))
                     (remove_dups (rule_signers (stored (granted_under g))))) gs.
Proof.
  revert ids gs. induction cs as [|c cs IH]; intros [|id ids] gs; simpl; try done.
  - intros [= <-]. split_and!; [done|done|constructor].
  - intros (g & Hg & (l & Hl & [= <-])%bind_Some)%bind_Some.
    apply IH in Hl as (<- & <- & Hf). unfold r_grant in Hg.
    apply bind_Some in Hg as (r & Hr & [= <-]).
    assert (rule_id (stored r) = id) as <-.
    { unfold r_stored_rule in Hr. destruct (_ !! _); [|done]. by injection Hr as <-. }
    split_and!; [done|done|]. by constructor.
Qed.

#[local] Instance sys_auth_laws : AuthorisationLaws.
Proof.
  split; simpl; [done|done|]. intros me hash s cs w w' Hc. unfold r_do_check_auth in Hc.
  apply bind_Some in Hc as (gs & Hgs & Hc). case_decide as Hok; [|done].
  unfold r_grants. rewrite Hgs. apply r_build_Some in Hgs as (Hcs & Hids & Hst).
  simpl. split_and!; [done|done|]. apply Forall_forall. intros g Hg.
  rewrite Forall_forall in Hok, Hst. destruct (Hok g Hg) as (Hx & Hcov & Hpr).
  destruct (Hst g Hg) as [Hr Hs]. split; [exact Hr|exact Hx|exact Hcov| |].
  - rewrite Hs. apply NoDup_filter, NoDup_remove_dups.
  - intros x Hx'. rewrite Forall_forall in Hpr. destruct (Hpr x Hx') as [Hn Hsg].
    rewrite Hs in Hx'. apply list_elem_of_filter in Hx' as [[sig Hsig] Hin].
    rewrite elem_of_remove_dups in Hin.
    split; [done|]. exists sig. split; [exact Hsig|]. destruct x as [a|v key]; simpl in *.
    + rewrite decide_True by done. eauto.
    + by rewrite Hsig in Hsg.
Qed.
End system.
End reference.

(** An authorisation check that passed. Running it decides this without
    computing the state it ends in. *)
Definition passed {A E S} (r : result E ((unit + A) * S)) : bool :=
  match r with Ok (inl _, _) => true | _ => false end.
Lemma passed_final {A E S} (r : result E ((unit + A) * S)) s :
  passed r = true → r = Ok (inl tt, final r s).
Proof. by destruct r as [[[[]|] s']|]. Qed.

Create HintDb frames.
#[export] Hint Resolve frames_ret frames_throw frames_throw_if frames_unwrap_or_throw frames_unwrap
  frames_read frames_set frames_remove frames_extend frames_publish frames_require_auth
  frames_host_invoke : frames.
Ltac solve_frames :=
  repeat first
    [ solve [auto with frames]
    | apply frames_bind; [|intros ?]
    | match goal with |- frames (match ?x with _ => _ end) => destruct x end
    | progress cbv zeta ].

