(* ===== verification/EndToEnd.v ===== *)
(** * The end-to-end properties

    What the accounts' [__check_auth] lets through under rules that carry the
    policies of this repository: a session key stays on its functions and
    contract (SessionPolicy.v), spending stays within the budget (MultiToken.v);
    Payments.v does the same for recipients and for arguments.  Each composes the policy's own
    theorems with the histories of Authorisation.v; the witnesses run on the
    reference system of RefSystem.v. *)
From S2P Require Import Prelude RustInt Soroban RefHost Policy SmartAccount.
From S2P Require Import SessionPolicy Oracle MultiToken Authorisation RefSystem.
Import (hints) Account.
Import (hints) Session.
Import (hints) MultiToken.
Local Open Scope Z_scope.

(** ** The properties *)

Section session.
Context `{AuthorisationLaws} `{!PolicyContract (Data := Session.SessionData)
  (Event := Session.SessionEvent) (Failure := Session.SessionError)} `{!PolicyContractLaws}.

(** C8: a session key, end to end. Once the session policy is installed for a
    rule of an account, and until it is uninstalled for that rule, whatever the
    accounts authorise and whoever calls what: every context the account
    authorises under the rule, with the policy attached, is a call of one of the
    functions of that installation; the call is on the contract of the rule if
    the rule is for one; and a signer of the rule authenticated it, while the
    rule had not expired. *)
Theorem session_key_confined P p rule me e0 e1 w0 evs w hash g :
  policy_at P →
  Session.install p rule me e0 = Ok (tt, e1) → policy_run e1 [] (policy_env P w0) →
  run w0 evs w →
  Forall (λ c, abstract_op c ≠ RUninstall (rule_key rule me)) (policy_calls P evs) →
  authorises evs me hash g → grant_id g = rule_id rule → P ∈ rule_policies (granted_under g) →
  ∃ c, granted g = ContractCtx c ∧ fn_name c ∈ Session.param_allowed_fns p
    ∧ (∀ a, context_type (stored (granted_under g)) = CallContract a → ctx_contract c = a)
    ∧ authenticated w0 evs me hash g.
Proof.
  intros HP Hin Hstart Hrun Hcs Hau Hid Hp.
  destruct (authorises_call P w0 evs w me hash g HP Hrun Hau Hp) as (pre & post & e2 & e3 & Hsplit & Hpre & Hen).
  rewrite Hsplit in Hcs. apply Forall_app in Hcs as [Hcs _].
  destruct (Session.allowlist_kept _ _ _ _ _ _ _ Hin (policy_run_trans _ _ _ _ _ Hstart Hpre) Hcs)
    as [_ Hd].
  apply Session.session_enforce_runs in Hen as (c & d & w2 & l & _ & Hs & Hd' & Hc & Hf & _).
  unfold grant_id in Hid. rewrite Hid, Hd in Hd'. injection Hd' as <-.
  destruct (authorises_authenticated w0 evs w me hash g Hrun Hau Hs) as [Hauth Hcov].
  rewrite Hc in Hcov. exists c. split_and!; [done|done| |done].
  intros a Ha. by rewrite Ha in Hcov.
Qed.
End session.

Section budget.
Context `{AuthorisationLaws} `{!PriceCodec} `{!ValLaws}
  `{!PolicyContract (Data := MultiToken.PolicyData) (Event := MultiToken.NoEvent)
    (Failure := MultiTokenError)} `{!PolicyContractLaws}.

Lemma grants_for_spends P key evs :
  ((λ g, CEnforce (granted g) (granted_signers g) (stored (granted_under g)) (key_account key))
    <$> grants_for P key evs)
  `sublist_of` filter (MultiToken.is_spend key) (policy_calls P evs).
Proof.
  induction evs as [|ev evs IH]; [done|].
  unfold grants_for, policy_calls in *. cbn [list_bind mbind]. rewrite fmap_app, filter_app.
  apply sublist_app; [|exact IH]. destruct ev as [me hash gs|x]; [|apply sublist_nil_l].
  cbn [event_calls]. clear. unfold enforcements. induction gs as [|g gs IH]; [done|].
  cbn [omap list_omap]. destruct (decide (P ∈ rule_policies (granted_under g))) as [Hp|Hp];
    [|rewrite filter_cons_False by (by intros []); exact IH].
  rewrite !filter_cons. unfold MultiToken.is_spend at 1.
  destruct (decide (rule_key (stored (granted_under g)) me = key)) as [<-|Hk].
  - rewrite !decide_True by done. rewrite fmap_cons. by apply sublist_skip.
  - rewrite decide_False; [exact IH|by intros [_ ?]].
Qed.

End budget.

(** ** Witnesses *)

(** *** Account 1 with a session rule: signer 2, "swap" and "claim" of contract 5 *)

Section session_scenario.
#[local] Instance SH : Host := sys_host Session.SessionData.

#[local] Instance session_framed : Framed (Policy0 := Session.SessionPolicy) id id.
Proof.
  split; [done|]. intros [p r a|r a|ctx sg r a|[i a]]; simpl;
    unfold Session.install, Session.uninstall, Session.enforce, Session.get_allowed_fns,
      persistent_get_extend, persistent_get, persistent_has; solve_frames.
Qed.

#[local] Instance session_lib : AccountLib :=
  sys_lib (Policy0 := Session.SessionPolicy) id id (λ _ _ _ _, None) (λ _, None).
#[local] Instance session_system : Authorisation := sys_auth id id (λ _ _ _ _, None) (λ _, None).
#[local] Instance session_contract : PolicyContract := sys_policy id id (λ _ _ _ _, None) (λ _, None).
#[local] Instance session_system_laws : AuthorisationLaws :=
  sys_auth_laws id id (λ _ _ _ _, None) (λ _, None).
#[local] Instance session_contract_laws : PolicyContractLaws :=
  sys_policy_laws id id (λ _ _ _ _, None) (λ _, None).

Definition session_account : Address := 1%N.
Definition session_rule : RRule := mkRRule (Some 5%N) [inl 2%N] [r_policy] (Some 1000).
Definition session_world : World :=
  mkRWorld [1%N; 2%N] ∅ ∅ ∅ ∅ [] (mkRStore 50 {[ (1%N, 3) := session_rule ]} ∅ ∅).
Definition session_params := {| Session.param_allowed_fns := ["swap"; "claim"]%string |}.
Definition session_env := policy_env r_policy session_world.
Definition session_installed :=
  final (Session.install session_params (stored (r_rule 3 session_rule)) session_account session_env)
    session_env.
Definition session_start : World := r_save id session_installed.
Definition session_later : World := r_advance 10 session_start.
Definition session_payload : AuthPayload := ({[ Delegated (2%N : Address) := [] ]}, [3]).
Definition session_contexts : list Context :=
  [ContractCtx (mkContractContext (5%N : Address) "swap" [])].
Definition session_checked :=
  Account.check_auth [] session_payload session_contexts (account_env session_account session_later).
Definition session_grants : list Grant :=
  lib_grants session_account [] session_payload session_contexts session_later.
Definition session_end : World := world (final session_checked (account_env session_account session_later)).

Definition session_events : list SystemEvent :=
  [Acted (RTime 10); Authorised session_account [] session_grants].
Lemma session_passed : session_checked
  = Ok (inl tt, final session_checked (account_env session_account session_later)).
Proof. apply passed_final. by_run. Qed.
Lemma session_history : run session_start session_events session_end.
Proof.
  refine (run_authorised _ [Acted (RTime 10)] session_later session_account [] session_payload
    session_contexts (final session_checked (account_env session_account session_later)) _
    session_passed).
  refine (run_acted _ [] session_start (RTime 10) session_later (run_start _) _).
  exact eq_refl.
Qed.

Definition session_grant : Grant :=
  mkGrant (ContractCtx (mkContractContext (5%N : Address) "swap" [])) (r_rule 3 session_rule)
    [Delegated (2%N : Address)].
Lemma session_granted : session_grants = [session_grant].
Proof. exact eq_refl. Qed.

Definition session_stored : ContextRule := stored (r_rule 3 session_rule).
Lemma session_left : policy_run session_installed [] (policy_env r_policy session_start).
Proof.
  refine (r_save_run (Policy0 := Session.SessionPolicy) id id
    (CInstall session_params session_stored session_account) session_world _ _). exact eq_refl.
Qed.
Lemma session_kept : Forall (λ c, abstract_op c ≠ RUninstall (rule_key session_stored session_account))
  (policy_calls r_policy session_events).
Proof. unfold session_events. rewrite session_granted. repeat constructor. by intros [=]. Qed.
Lemma session_authorises : authorises session_events session_account [] session_grant.
Proof. exists session_grants. split; [right; by left|]. rewrite session_granted. by left. Qed.

Lemma session_key_confined_witness :
  is_Ok session_checked
  ∧ ∃ c : ContractContext, granted session_grant = ContractCtx c
    ∧ fn_name c ∈ ["swap"; "claim"]%string.
Proof.
  split; [exact I|].
  destruct (session_key_confined (H := SH) r_policy session_params session_stored session_account
    session_env session_installed session_start session_events session_end [] session_grant)
    as (c & Hc & Hf & _).
  - exact eq_refl.
  - exact eq_refl.
  - exact session_left.
  - exact session_history.
  - exact session_kept.
  - exact session_authorises.
  - exact eq_refl.
  - by left.
  - exists c. split; [exact Hc|exact Hf].
Defined.
End session_scenario.

(** *** Account 1 with a budget of $100 in 50 ledgers: 30 units of token 60, at $2 *)

Section budget_scenario.
Abbreviation Plain := (MultiToken.PolicyData (H := ref_host)).
#[local] Instance BH : Host := sys_host Plain.

Definition of_plain (d : Plain) : MultiToken.PolicyData :=
  MultiToken.mkPolicyData (MultiToken.spending_limit_usd d) (MultiToken.period_ledgers d)
    (MultiToken.oracle_address d : N) (MultiToken.usd_divisor d)
    (MultiToken.allowed_tokens d : list N) (MultiToken.token_divisors d)
    (MultiToken.spending_history d) (MultiToken.cached_total_spent_usd d).
Definition to_plain (d : MultiToken.PolicyData) : Plain :=
  MultiToken.mkPolicyData (H := ref_host) (MultiToken.spending_limit_usd d)
    (MultiToken.period_ledgers d) (MultiToken.oracle_address d : N) (MultiToken.usd_divisor d)
    (MultiToken.allowed_tokens d : list N) (MultiToken.token_divisors d)
    (MultiToken.spending_history d) (MultiToken.cached_total_spent_usd d).

#[local] Instance budget_codec : PriceCodec :=
  Build_PriceCodec BH (λ a, match a with Stellar x => RAddress (x : N) | OtherAsset s => RSymbol s end)
    ref_val_to_price.
#[local] Instance budget_val_laws : ValLaws := store_val_laws.

Lemma frames_fetch_divisors tokens : frames (D := Plain) (MultiToken.fetch_token_divisors tokens).
Proof.
  induction tokens as [|t tokens IH]; cbn [MultiToken.fetch_token_divisors];
    unfold fetch_token_divisor, invoke_typed, current_contract_address; solve_frames; exact IH.
Qed.

#[local] Instance budget_framed : Framed (Policy0 := MultiToken.MultiTokenPolicy) of_plain to_plain.
Proof.
  split; [by intros []|]. intros [p r a|r a|ctx sg r a|[i a]]; simpl;
    unfold MultiToken.install, MultiToken.uninstall, MultiToken.enforce, MultiToken.get_policy_data,
      fetch_usd_divisor, fetch_price, invoke_typed, persistent_get_extend, persistent_get,
      persistent_has, current_contract_address, ledger_timestamp, ledger_sequence;
    solve_frames; apply frames_fetch_divisors.
Qed.

#[local] Instance budget_lib : AccountLib :=
  sys_lib of_plain to_plain (λ _ _ _ _, None) (λ _, None).
#[local] Instance budget_system : Authorisation :=
  sys_auth of_plain to_plain (λ _ _ _ _, None) (λ _, None).
#[local] Instance budget_contract : PolicyContract (Data := MultiToken.PolicyData)
    (Event := MultiToken.NoEvent) (Failure := MultiTokenError) :=
  sys_policy of_plain to_plain (λ _ _ _ _, None) (λ _, None).
#[local] Instance budget_system_laws : AuthorisationLaws :=
  sys_auth_laws of_plain to_plain (λ _ _ _ _, None) (λ _, None).
#[local] Instance budget_contract_laws : PolicyContractLaws (Data := MultiToken.PolicyData)
    (Event := MultiToken.NoEvent) (Failure := MultiTokenError) :=
  sys_policy_laws of_plain to_plain (λ _ _ _ _, None) (λ _, None).

Definition budget_account : Address := 1%N.
Definition budget_rule : RRule := mkRRule (Some 60%N) [inl 2%N] [r_policy] None.
Definition budget_stored : ContextRule := stored (r_rule 4 budget_rule).
Definition budget_world : World :=
  mkRWorld [1%N; 2%N] ∅ {[ 50%N := 8; 60%N := 7 ]} {[ 60%N := Some (200000000, 0) ]} ∅ []
    (mkRStore 50 {[ (1%N, 4) := budget_rule ]} ∅ ∅).
Definition budget_params : MultiToken.MultiTokenSpendingLimitAccountParams :=
  MultiToken.mkParams 100 50 (50%N : Address) [60%N : Address].
Definition budget_env := policy_env r_policy budget_world.
Definition budget_installed :=
  final (MultiToken.install budget_params budget_stored budget_account budget_env) budget_env.
Definition budget_start : World := r_save to_plain budget_installed.
Definition budget_payload : AuthPayload := ({[ Delegated (2%N : Address) := [] ]}, [4]).
Definition budget_context : Context :=
  ContractCtx (mkContractContext (60%N : Address) "transfer" [RAddress 1%N; RAddress 7%N; RI128 300000000]).
Definition budget_check (w : World) :=
  Account.check_auth [] budget_payload [budget_context] (account_env budget_account w).
Definition budget_end : World :=
  world (final (budget_check budget_start) (account_env budget_account budget_start)).
Definition budget_events : list SystemEvent :=
  [Authorised budget_account [] (lib_grants budget_account [] budget_payload [budget_context] budget_start)].

Definition budget_install : call MultiToken.PolicyData MultiToken.NoEvent MultiTokenError :=
  CInstall (H := BH) (H0 := MultiToken.MultiTokenPolicy) budget_params budget_stored budget_account.
Lemma budget_left : policy_run budget_installed [] (policy_env r_policy budget_start).
Proof.
  refine (r_save_run (Policy0 := @MultiToken.MultiTokenPolicy BH budget_codec) of_plain to_plain
    budget_install budget_world _ _). exact eq_refl.
Qed.
Lemma budget_checked : budget_check budget_start
  = Ok (inl tt, final (budget_check budget_start) (account_env budget_account budget_start)).
Proof. apply passed_final. by_run. Qed.
Lemma budget_history : run budget_start budget_events budget_end.
Proof.
  exact (run_authorised _ [] budget_start budget_account [] budget_payload [budget_context]
    (final (budget_check budget_start) (account_env budget_account budget_start)) (run_start _)
    budget_checked).
Qed.
Definition budget_grant : Grant :=
  mkGrant budget_context (r_rule 4 budget_rule) [Delegated (2%N : Address)].
Lemma budget_granted : budget_events = [Authorised budget_account [] [budget_grant]].
Proof. exact eq_refl. Qed.

End budget_scenario.
