(* ===== verification/Payments.v ===== *)
(** * What an account pays, end to end

    The contexts an account authorises under rules with the recipient allowlist
    (RecipientPolicy.v) or the parameter conditions (ParameterScoped.v)
    attached: where its payments go, and with which arguments its calls are
    made.  As in EndToEnd.v, the policies' machines are followed along the
    histories of Authorisation.v, here with the configuration changing on the
    way; the witnesses run on the reference system of RefSystem.v. *)
From S2P Require Import Prelude RustInt Soroban RefHost Policy SmartAccount.
From S2P Require Import RecipientPolicy ParameterScoped Authorisation RefSystem.
Import (hints) Account.
Import (hints) Recipient.
Import (hints) ParamScoped.
Local Open Scope Z_scope.

(** ** The properties *)

Section payments.
Context `{AuthorisationLaws} `{!PolicyContract (Data := Recipient.RecipientData)
  (Event := Recipient.RecipientEvent) (Failure := Recipient.RecipientError)} `{!PolicyContractLaws}.

(** C9: an account's payments, end to end. Once the recipient policy is
    installed for a rule of an account, whatever the accounts authorise and
    whoever calls what: every context the account authorises under the rule,
    with the policy attached, is a token transfer to a recipient on the list in
    force at that moment, which is the installed list with the changes of the
    successful calls up to then (and no list means no transfer), the entry it is
    checked against being the one of this account and rule alone; it is on the
    contract of the rule if the rule is for one; and a signer of the rule
    authenticated it before it expired. *)
Theorem payments_confined P p rule me e0 e1 w0 evs w hash g :
  policy_at P →
  Recipient.install p rule me e0 = Ok (tt, e1) → policy_run e1 [] (policy_env P w0) →
  run w0 evs w →
  authorises evs me hash g → grant_id g = rule_id rule → P ∈ rule_policies (granted_under g) →
  ∃ pre post c v recipient l,
    policy_calls P evs = pre ++ CEnforce (granted g) (granted_signers g)
                           (stored (granted_under g)) me :: post
    ∧ history_from Recipient.next (Some (Recipient.param_allowed_recipients p))
        (rule_key rule me) pre = Some l
    ∧ granted g = ContractCtx c ∧ fn_name c = "transfer"%string
    ∧ args c !! 1%nat = Some v ∧ val_to_address v = Some recipient ∧ recipient ∈ l
    ∧ (∀ a, context_type (stored (granted_under g)) = CallContract a → ctx_contract c = a)
    ∧ authenticated w0 evs me hash g.
Proof.
  intros HP Hin Hstart Hrun Hau Hid Hp.
  destruct (machine_step (view := Recipient.allowed_recipients) (CInstall (H0 := Recipient.RecipientPolicy) p rule me) e0 e1 Hin)
    as [_ Hlist].
  destruct (authorises_guarded Recipient.allowed_recipients Recipient.guard Recipient.next
    P e1 w0 evs w me hash g HP Hstart Hrun Hau Hp) as (pre & post & Hcs & Hs & l & Hl & Hpay).
  rewrite Hid in Hl. cbn [call_key] in Hlist. unfold rule_key in *. rewrite Hlist in Hl.
  destruct Hpay as (c & v & rc & Hc & Hfn & Hv & Hrc & Hrcl).
  destruct (authorises_authenticated w0 evs w me hash g Hrun Hau Hs) as [Hauth Hcov].
  rewrite Hc in Hcov. exists pre, post, c, v, rc, l. split_and!; try done.
  intros a Ha. by rewrite Ha in Hcov.
Qed.
End payments.

Section arguments.
Context `{AuthorisationLaws} `{!PolicyContract (Data := ParamScoped.ParameterScopedData)
  (Event := ParamScoped.ConditionsEvent) (Failure := ParamScoped.ParameterScopedError)}
  `{!PolicyContractLaws}.

(** C10: an account's arguments, end to end. Once the parameter policy is
    installed for a rule of an account, and until it is uninstalled for that
    rule, whatever the accounts authorise and whoever calls what: every context
    the account authorises under the rule, with the policy attached, calls one of
    the configured functions, and its arguments satisfy every condition
    configured for it, each argument being there and of the type the condition
    compares; it is on the contract of the rule if the rule is for one; and a
    signer of the rule authenticated it before it expired. *)
Theorem arguments_confined P p rule me e0 e1 w0 evs w hash g :
  policy_at P →
  ParamScoped.install p rule me e0 = Ok (tt, e1) → policy_run e1 [] (policy_env P w0) →
  run w0 evs w →
  Forall (λ c, abstract_op c ≠ RUninstall (rule_key rule me)) (policy_calls P evs) →
  authorises evs me hash g → grant_id g = rule_id rule → P ∈ rule_policies (granted_under g) →
  ∃ c conds,
    granted g = ContractCtx c ∧ ParamScoped.param_conditions p !! fn_name c = Some conds
    ∧ Forall (λ cond, ∃ v, args c !! Z.to_nat (ParamScoped.arg_index cond) = Some v
                        ∧ ParamScoped.argument_satisfies cond v) conds
    ∧ (∀ a, context_type (stored (granted_under g)) = CallContract a → ctx_contract c = a)
    ∧ authenticated w0 evs me hash g.
Proof.
  intros HP Hin Hstart Hrun Hcs Hau Hid Hp.
  destruct (authorises_call P w0 evs w me hash g HP Hrun Hau Hp)
    as (pre & post & e2 & e3 & Hsplit & Hpre & Hen).
  rewrite Hsplit in Hcs. apply Forall_app in Hcs as [Hcs _].
  pose proof (policy_run_trans _ _ _ _ _ Hstart Hpre) as Hrun1.
  destruct (ParamScoped.confined _ _ _ _ _ _ _ _ _ _ _ Hin Hrun1 Hcs Hen Hid)
    as (Hs & c & conds & Hc & Hfn & Hconds).
  destruct (authorises_authenticated w0 evs w me hash g Hrun Hau Hs) as [Hauth Hcov].
  rewrite Hc in Hcov. exists c, conds. split_and!; try done. intros a Ha. by rewrite Ha in Hcov.
Qed.
End arguments.

(** ** Witnesses *)

(** *** Account 1 with payments of token 60: to 21, later to 22 instead *)

Section payments_scenario.
#[local] Instance PH : Host := sys_host (list N).

Definition of_list (l : list N) : Recipient.RecipientData := Recipient.mkRecipientData (l : list Address).
Definition to_list (d : Recipient.RecipientData) : list N := Recipient.allowed_recipients d.

#[local] Instance pay_framed : Framed (Policy0 := Recipient.RecipientPolicy) of_list to_list.
Proof.
  split; [by intros []|]. intros [p r a|r a|ctx sg r a|[i a|l i a]]; simpl;
    unfold Recipient.install, Recipient.uninstall, Recipient.enforce, Recipient.set_allowed_recipients,
      Recipient.get_allowed_recipients, Recipient.emit_recipient_installed,
      Recipient.emit_recipient_uninstalled, Recipient.emit_recipient_enforced,
      persistent_get_extend, persistent_get, persistent_has;
    solve_frames.
Qed.

#[local] Instance pay_lib : AccountLib :=
  sys_lib (Policy0 := Recipient.RecipientPolicy) of_list to_list (λ _ _ _ _, None) (λ _, None).
#[local] Instance pay_system : Authorisation :=
  sys_auth of_list to_list (λ _ _ _ _, None) (λ _, None).
#[local] Instance pay_contract : PolicyContract (Data := Recipient.RecipientData)
    (Event := Recipient.RecipientEvent) (Failure := Recipient.RecipientError) :=
  sys_policy of_list to_list (λ _ _ _ _, None) (λ _, None).
#[local] Instance pay_system_laws : AuthorisationLaws :=
  sys_auth_laws of_list to_list (λ _ _ _ _, None) (λ _, None).
#[local] Instance pay_contract_laws : PolicyContractLaws (Data := Recipient.RecipientData)
    (Event := Recipient.RecipientEvent) (Failure := Recipient.RecipientError) :=
  sys_policy_laws of_list to_list (λ _ _ _ _, None) (λ _, None).

Definition pay_account : Address := 1%N.
Definition pay_recipient : Address := 22%N.
Definition pay_rule : RRule := mkRRule (Some 60%N) [inl 2%N] [r_policy] None.
Definition pay_stored : ContextRule := stored (r_rule 3 pay_rule).
Definition pay_world : World :=
  mkRWorld [1%N; 2%N] ∅ ∅ ∅ ∅ [] (mkRStore 50 {[ (1%N, 3) := pay_rule ]} ∅ ∅).
Definition pay_params : Recipient.RecipientAccountParams :=
  {| Recipient.param_allowed_recipients := [21%N : Address] |}.
Definition pay_env := policy_env r_policy pay_world.
Definition pay_installed := final (Recipient.install pay_params pay_stored pay_account pay_env) pay_env.
Definition pay_start : World := r_save to_list pay_installed.

Abbreviation paycall :=
  (call Recipient.RecipientData Recipient.RecipientEvent Recipient.RecipientError).
Definition pay_install : paycall :=
  CInstall (H := PH) (H0 := Recipient.RecipientPolicy) pay_params pay_stored pay_account.
Definition pay_update : paycall :=
  COther (H0 := Recipient.RecipientPolicy) (Recipient.CSetAllowed [22%N : Address] 3 pay_account).
Definition pay_later : World := default pay_start (r_call of_list to_list pay_update pay_start).
Definition pay_payload : AuthPayload := ({[ Delegated (2%N : Address) := [] ]}, [3]).
Definition pay_context (to : N) : Context :=
  ContractCtx (mkContractContext (60%N : Address) "transfer" [RAddress 1%N; RAddress to; RI128 5]).
Definition pay_check (to : N) :=
  Account.check_auth [] pay_payload [pay_context to] (account_env pay_account pay_later).
Definition pay_end : World := world (final (pay_check 22%N) (account_env pay_account pay_later)).
Definition pay_grant : Grant :=
  mkGrant (pay_context 22%N) (r_rule 3 pay_rule) [Delegated (2%N : Address)].
Definition pay_events : list SystemEvent :=
  [Acted (RCall pay_update); Authorised pay_account [] [pay_grant]].

Lemma pay_left : policy_run pay_installed [] (policy_env r_policy pay_start).
Proof.
  refine (r_save_run (Policy0 := Recipient.RecipientPolicy) of_list to_list pay_install pay_world _ _).
  exact eq_refl.
Qed.
Lemma pay_passed : pay_check 22%N
  = Ok (inl tt, final (pay_check 22%N) (account_env pay_account pay_later)).
Proof. apply passed_final. by_run. Qed.
Lemma pay_granted : lib_grants pay_account [] pay_payload [pay_context 22%N] pay_later = [pay_grant].
Proof. exact eq_refl. Qed.
Lemma pay_history : run pay_start pay_events pay_end.
Proof.
  unfold pay_events. rewrite <- pay_granted.
  refine (run_authorised _ [Acted (RCall pay_update)] pay_later pay_account [] pay_payload
    [pay_context 22%N] (final (pay_check 22%N) (account_env pay_account pay_later)) _ pay_passed).
  refine (run_acted _ [] pay_start (RCall pay_update) pay_later (run_start _) _). exact eq_refl.
Qed.

(** The recipient the update removed is refused; the new one is on the list. *)
Lemma payments_confined_witness :
  pay_check 21%N = Err HostError
  ∧ ∃ l recipient, history_from Recipient.next (Some [21%N : Address])
      (rule_key pay_stored pay_account) [pay_update] = Some l
    ∧ recipient = pay_recipient ∧ recipient ∈ l.
Proof.
  split; [exact eq_refl|].
  destruct (payments_confined (H := PH) r_policy pay_params pay_stored pay_account pay_env
    pay_installed pay_start pay_events pay_end [] pay_grant)
    as (pre & post & c & v & rc & l & Hcs & Hl & [= <-] & _ & [= <-] & [= <-] & Hin & _).
  - exact eq_refl.
  - exact eq_refl.
  - exact pay_left.
  - exact pay_history.
  - exists [pay_grant]. split; [right; by left|by left].
  - exact eq_refl.
  - by left.
  - exists l, pay_recipient. split_and!; [|done|exact Hin].
    destruct pre as [|c1 [|c2 [|c3 pre]]]; try done. injection Hcs as <- _. exact Hl.
Defined.
End payments_scenario.

(** *** Account 1 with conditions: transfers of token 60, to 21, of at most 100 *)

Section arguments_scenario.
Abbreviation PlainConditions := (ParamScoped.ParameterScopedData (H := ref_host)).
#[local] Instance AH : Host := sys_host PlainConditions.

(** A condition with its value rewritten to another host's addresses. *)
Definition of_value (v : ParamScoped.ExpectedValue (H := ref_host)) : ParamScoped.ExpectedValue :=
  match v with
  | ParamScoped.U32 n => ParamScoped.U32 n
  | ParamScoped.I32 n => ParamScoped.I32 n
  | ParamScoped.U64 n => ParamScoped.U64 n
  | ParamScoped.I64 n => ParamScoped.I64 n
  | ParamScoped.U128 n => ParamScoped.U128 n
  | ParamScoped.I128 n => ParamScoped.I128 n
  | ParamScoped.Sym s => ParamScoped.Sym s
  | ParamScoped.Addr a => ParamScoped.Addr (a : N)
  end.
Definition to_value (v : ParamScoped.ExpectedValue) : ParamScoped.ExpectedValue (H := ref_host) :=
  match v with
  | ParamScoped.U32 n => ParamScoped.U32 n
  | ParamScoped.I32 n => ParamScoped.I32 n
  | ParamScoped.U64 n => ParamScoped.U64 n
  | ParamScoped.I64 n => ParamScoped.I64 n
  | ParamScoped.U128 n => ParamScoped.U128 n
  | ParamScoped.I128 n => ParamScoped.I128 n
  | ParamScoped.Sym s => ParamScoped.Sym s
  | ParamScoped.Addr a => ParamScoped.Addr (H := ref_host) (a : N)
  end.
Definition of_condition (c : ParamScoped.Condition (H := ref_host)) : ParamScoped.Condition :=
  ParamScoped.mkCondition (ParamScoped.arg_index c) (ParamScoped.operator c)
    (of_value (ParamScoped.expected_value c)).
Definition to_condition (c : ParamScoped.Condition) : ParamScoped.Condition (H := ref_host) :=
  ParamScoped.mkCondition (H := ref_host) (ParamScoped.arg_index c) (ParamScoped.operator c)
    (to_value (ParamScoped.expected_value c)).
Definition of_conditions (d : PlainConditions) : ParamScoped.ParameterScopedData :=
  ParamScoped.mkData (map of_condition <$> ParamScoped.conditions d).
Definition to_conditions (d : ParamScoped.ParameterScopedData) : PlainConditions :=
  ParamScoped.mkData (H := ref_host) (map to_condition <$> ParamScoped.conditions d).

Lemma of_to_conditions d : of_conditions (to_conditions d) = d.
Proof.
  destruct d as [m]. unfold of_conditions, to_conditions. simpl. f_equal.
  rewrite <- map_fmap_compose. etrans; [|apply map_fmap_id]. apply map_fmap_ext.
  intros fn conds _. unfold compose. rewrite map_map. etrans; [|apply map_id].
  apply map_ext. by intros [ix op []].
Qed.

Lemma frames_check_conditions call_args conds :
  frames (D := PlainConditions) (ParamScoped.check_conditions call_args conds).
Proof. induction conds as [|c conds IH]; cbn [ParamScoped.check_conditions]; solve_frames; exact IH. Qed.
Lemma frames_validate_operators conds :
  frames (D := PlainConditions) (ParamScoped.validate_operators conds).
Proof. induction conds as [|c conds IH]; cbn [ParamScoped.validate_operators]; solve_frames; exact IH. Qed.
Lemma frames_validate_fns fns : frames (D := PlainConditions) (ParamScoped.validate_fns fns).
Proof.
  induction fns as [|[fn conds] fns IH]; cbn [ParamScoped.validate_fns]; solve_frames;
    first [apply frames_validate_operators|exact IH].
Qed.
Hint Resolve frames_check_conditions frames_validate_fns : frames.

#[local] Instance arg_framed :
  Framed (Policy0 := ParamScoped.ParameterScopedPolicy) of_conditions to_conditions.
Proof.
  split; [apply of_to_conditions|]. intros [p r a|r a|ctx sg r a|[i a]]; simpl;
    unfold ParamScoped.install, ParamScoped.uninstall, ParamScoped.enforce, ParamScoped.get_conditions,
      ParamScoped.emit_conditions_installed, ParamScoped.emit_conditions_uninstalled,
      ParamScoped.emit_conditions_enforced, persistent_get_extend, persistent_get, persistent_has;
    solve_frames.
Qed.

#[local] Instance arg_lib : AccountLib :=
  sys_lib (Policy0 := ParamScoped.ParameterScopedPolicy) of_conditions to_conditions
    (λ _ _ _ _, None) (λ _, None).
#[local] Instance arg_system : Authorisation :=
  sys_auth of_conditions to_conditions (λ _ _ _ _, None) (λ _, None).
#[local] Instance arg_contract : PolicyContract (Data := ParamScoped.ParameterScopedData)
    (Event := ParamScoped.ConditionsEvent) (Failure := ParamScoped.ParameterScopedError) :=
  sys_policy of_conditions to_conditions (λ _ _ _ _, None) (λ _, None).
#[local] Instance arg_system_laws : AuthorisationLaws :=
  sys_auth_laws of_conditions to_conditions (λ _ _ _ _, None) (λ _, None).
#[local] Instance arg_contract_laws : PolicyContractLaws (Data := ParamScoped.ParameterScopedData)
    (Event := ParamScoped.ConditionsEvent) (Failure := ParamScoped.ParameterScopedError) :=
  sys_policy_laws of_conditions to_conditions (λ _ _ _ _, None) (λ _, None).

Definition arg_account : Address := 1%N.
Definition arg_rule : RRule := mkRRule (Some 60%N) [inl 2%N] [r_policy] None.
Definition arg_stored : ContextRule := stored (r_rule 3 arg_rule).
Definition arg_world : World :=
  mkRWorld [1%N; 2%N] ∅ ∅ ∅ ∅ [] (mkRStore 50 {[ (1%N, 3) := arg_rule ]} ∅ ∅).
Definition arg_amount : ParamScoped.Condition :=
  ParamScoped.mkCondition 2 ParamScoped.Lte (ParamScoped.I128 100).
Definition arg_params : ParamScoped.ParameterScopedAccountParams :=
  {| ParamScoped.param_conditions :=
       {[ "transfer"%string :=
            [ParamScoped.mkCondition 1 ParamScoped.Eq (ParamScoped.Addr (21%N : Address)); arg_amount] ]} |}.
Definition arg_env := policy_env r_policy arg_world.
Definition arg_installed :=
  final (ParamScoped.install arg_params arg_stored arg_account arg_env) arg_env.
Definition arg_start : World := r_save to_conditions arg_installed.
Definition arg_payload : AuthPayload := ({[ Delegated (2%N : Address) := [] ]}, [3]).
Definition arg_call (amount : Z) : ContractContext :=
  mkContractContext (60%N : Address) "transfer" [RAddress 1%N; RAddress 21%N; RI128 amount].
Definition arg_check (amount : Z) :=
  Account.check_auth [] arg_payload [ContractCtx (arg_call amount)] (account_env arg_account arg_start).
Definition arg_end : World := world (final (arg_check 70) (account_env arg_account arg_start)).
Definition arg_grant : Grant :=
  mkGrant (ContractCtx (arg_call 70)) (r_rule 3 arg_rule) [Delegated (2%N : Address)].
Definition arg_events : list SystemEvent := [Authorised arg_account [] [arg_grant]].
Definition arg_install :
    call ParamScoped.ParameterScopedData ParamScoped.ConditionsEvent ParamScoped.ParameterScopedError :=
  CInstall (H := AH) (H0 := ParamScoped.ParameterScopedPolicy) arg_params arg_stored arg_account.

Lemma arg_left : policy_run arg_installed [] (policy_env r_policy arg_start).
Proof.
  refine (r_save_run (Policy0 := ParamScoped.ParameterScopedPolicy) of_conditions to_conditions
    arg_install arg_world _ _). exact eq_refl.
Qed.
Lemma arg_passed : arg_check 70
  = Ok (inl tt, final (arg_check 70) (account_env arg_account arg_start)).
Proof. apply passed_final. by_run. Qed.
Lemma arg_granted :
  lib_grants arg_account [] arg_payload [ContractCtx (arg_call 70)] arg_start = [arg_grant].
Proof. exact eq_refl. Qed.
Lemma arg_history : run arg_start arg_events arg_end.
Proof.
  unfold arg_events. rewrite <- arg_granted.
  exact (run_authorised _ [] arg_start arg_account [] arg_payload [ContractCtx (arg_call 70)]
    (final (arg_check 70) (account_env arg_account arg_start)) (run_start _) arg_passed).
Qed.

(** A transfer of 101 is refused; the one of 70 satisfies its conditions. *)
Lemma arguments_confined_witness :
  arg_check 101 = Err HostError
  ∧ ∃ v, args (arg_call 70) !! 2%nat = Some v ∧ ParamScoped.argument_satisfies arg_amount v.
Proof.
  split; [exact eq_refl|].
  destruct (arguments_confined (H := AH) r_policy arg_params arg_stored arg_account arg_env
    arg_installed arg_start arg_events arg_end [] arg_grant)
    as (c & conds & [= <-] & [= <-] & Hconds & _).
  - exact eq_refl.
  - exact eq_refl.
  - exact arg_left.
  - exact arg_history.
  - repeat constructor. by intros [=].
  - exists [arg_grant]. split; by left.
  - exact eq_refl.
  - by left.
  - apply (list.Forall_forall _ _ ) with (x := arg_amount) in Hconds; [exact Hconds|right; by left].
Defined.
End arguments_scenario.
