(* ===== verification/FeeForwarder.v ===== *)
(** * Fee forwarder (fee-forwarder/src/lib.rs)

    The permissioned singleton that sponsors transactions: the constructor, which
    grants the roles, the role-gated entry points forward, enable_fee_token,
    disable_fee_token and sweep_tokens, and the calls of the AccessControl trait,
    which change the roles afterwards.  Role storage, fee collection and the token
    allowlist are library code outside the repository; of a call of the trait
    only its effect on the roles is stated. *)
From S2P Require Import Prelude RustInt Soroban RefHost.
Local Open Scope Z_scope.

(** The operations of stellar-access and stellar-fee-abstraction; each names
    the executing contract first, and [None] is a failing call. Their state is
    part of the world. *)
Class ForwarderLib `{Host} := {
  FeeAbstractionApproval : Type;
  Lazy : FeeAbstractionApproval;
  (** [has_role self account role w] *)
  has_role : Address → Address → Symbol → World → bool;
  lib_set_admin : Address → Address → World → option (unit * World);
  lib_grant_role_no_auth : Address → Address → Symbol → Address → World → option (unit * World);
  (** The check [#[only_role(account, role)]] inserts before the body. *)
  lib_only_role : Address → Address → Symbol → World → option (unit * World);
  lib_collect_fee_and_invoke : Address → Address → Z → Z → Z → Address → Symbol → list Val →
    Address → Address → FeeAbstractionApproval → World → option (Val * World);
  lib_set_allowed_fee_token : Address → Address → bool → World → option (unit * World);
  lib_sweep_token : Address → Address → Address → World → option (Z * World);
  (** The calls of the AccessControl trait, default methods of the library, and
      what each makes of an account's role: granted, revoked or left alone. *)
  AccessCall : Type;
  lib_access_call : Address → AccessCall → World → option (unit * World);
  role_effect : AccessCall → Address → Symbol → option bool;
}.

(** Documented behaviour: the check needs the role and the account's own
    authorisation; granting adds one role; a call of the trait has its effect on
    the roles; nothing else the forwarder calls changes its roles (it cannot be
    re-entered while it executes). *)
Class ForwarderLaws `{ForwarderLib} : Prop := {
  only_role_checks me a r w w' :
    lib_only_role me a r w = Some (tt, w') →
    has_role me a r w = true ∧ is_Some (host_require_auth me a w);
  only_role_roles me a r w w' b r' :
    lib_only_role me a r w = Some (tt, w') → has_role me b r' w' = has_role me b r' w;
  grant_role_adds me a r admin w w' b r' :
    lib_grant_role_no_auth me a r admin w = Some (tt, w') →
    has_role me b r' w' = has_role me b r' w || bool_decide (b = a ∧ r' = r);
  set_admin_roles me a w w' b r' :
    lib_set_admin me a w = Some (tt, w') → has_role me b r' w' = has_role me b r' w;
  collect_roles me t f mf ex tc fn cargs u rc ap w v w' b r' :
    lib_collect_fee_and_invoke me t f mf ex tc fn cargs u rc ap w = Some (v, w') →
    has_role me b r' w' = has_role me b r' w;
  set_allowed_roles me t on w w' b r' :
    lib_set_allowed_fee_token me t on w = Some (tt, w') →
    has_role me b r' w' = has_role me b r' w;
  sweep_roles me t rc w z w' b r' :
    lib_sweep_token me t rc w = Some (z, w') → has_role me b r' w' = has_role me b r' w;
  access_call_roles me c w w' b r' :
    lib_access_call me c w = Some (tt, w') →
    has_role me b r' w' = default (has_role me b r' w) (role_effect c b r');
}.

Module Forwarder.

Definition MANAGER_ROLE : Symbol := "manager"%string.
Definition EXECUTOR_ROLE : Symbol := "executor"%string.

Section contract.
Context `{ForwarderLib} {E : Type}.

(** The forwarder has no storage, events or errors of its own. *)
Abbreviation WEnv := (Env unit unit unit).
Abbreviation WM := (M WEnv E).

Definition only_role (account : Address) (role : Symbol) : WM unit :=
  me ← current_contract_address;
  invoke (lib_only_role me account role).

(** [for executor in executors.iter()] *)
Fixpoint grant_executors (admin : Address) (executors : list Address) : WM unit :=
  match executors with
  | [] => mret tt
  | executor :: rest =>
      me ← current_contract_address;
      invoke (lib_grant_role_no_auth me executor EXECUTOR_ROLE admin) ;;
      grant_executors admin rest
  end.

Definition constructor (admin manager : Address) (executors : list Address) : WM unit :=
  me ← current_contract_address;
  invoke (lib_set_admin me admin) ;;
  invoke (lib_grant_role_no_auth me manager MANAGER_ROLE admin) ;;
  grant_executors admin executors.

Definition forward (fee_token : Address) (fee_amount max_fee_amount expiration_ledger : Z)
    (target_contract : Address) (target_fn : Symbol) (target_args : list Val)
    (user relayer : Address) : WM Val :=
  only_role relayer "executor" ;;
  me ← current_contract_address;
  invoke (lib_collect_fee_and_invoke me fee_token fee_amount max_fee_amount expiration_ledger
            target_contract target_fn target_args user me Lazy).

Definition enable_fee_token (token operator : Address) : WM unit :=
  only_role operator "manager" ;;
  me ← current_contract_address;
  invoke (lib_set_allowed_fee_token me token true).

Definition disable_fee_token (token operator : Address) : WM unit :=
  only_role operator "manager" ;;
  me ← current_contract_address;
  invoke (lib_set_allowed_fee_token me token false).

Definition sweep_tokens (token recipient operator : Address) : WM Z :=
  only_role operator "manager" ;;
  me ← current_contract_address;
  invoke (lib_sweep_token me token recipient).

(** [impl AccessControl for FeeForwarder {}] *)
Definition access (c : AccessCall) : WM unit :=
  me ← current_contract_address;
  invoke (lib_access_call me c).

Inductive call :=
  | CForward (fee_token : Address) (fee_amount max_fee_amount expiration_ledger : Z)
      (target_contract : Address) (target_fn : Symbol) (target_args : list Val)
      (user relayer : Address)
  | CEnable (token operator : Address)
  | CDisable (token operator : Address)
  | CSweep (token recipient operator : Address)
  | CAccess (c : AccessCall).

Definition run_call (c : call) : WM unit :=
  match c with
  | CForward t f mf ex tc fn cargs u r => forward t f mf ex tc fn cargs u r ;; mret tt
  | CEnable t o => enable_fee_token t o
  | CDisable t o => disable_fee_token t o
  | CSweep t rc o => sweep_tokens t rc o ;; mret tt
  | CAccess c => access c
  end.

(** Who a call must come from, and in which role. *)
Definition caller (c : call) : option (Address * Symbol) :=
  match c with
  | CForward _ _ _ _ _ _ _ _ relayer => Some (relayer, EXECUTOR_ROLE)
  | CEnable _ operator | CDisable _ operator | CSweep _ _ operator =>
      Some (operator, MANAGER_ROLE)
  | CAccess _ => None
  end.

(** The changes of the roles a call makes, and what a sequence of them makes of
    an account's role. *)
Definition role_changes (c : call) : list AccessCall :=
  match c with CAccess x => [x] | _ => [] end.
Definition role_after (a : Address) (r : Symbol) (cs : list AccessCall) (held : bool) : bool :=
  foldl (λ held c, default held (role_effect c a r)) held cs.

(** The roles the constructor grants. *)
Definition granted (manager : Address) (executors : list Address) (a : Address) (r : Symbol) : bool :=
  bool_decide (a = manager ∧ r = MANAGER_ROLE) || bool_decide (a ∈ executors ∧ r = EXECUTOR_ROLE).
End contract.

Section roles.
Context `{ForwarderLaws} {E : Type}.
Abbreviation WEnv := (Env unit unit unit).
Implicit Types e : WEnv.

Definition role_in e (a : Address) (r : Symbol) : bool := has_role (self e) a r (world e).

Lemma grant_executors_roles admin l e e' :
  (grant_executors admin l : M WEnv E unit) e = Ok (tt, e') →
  self e' = self e ∧ ∀ a r,
    role_in e' a r = role_in e a r || bool_decide (a ∈ l ∧ r = EXECUTOR_ROLE).
Proof.
  revert e. induction l as [|x l IH]; cbn [grant_executors]; intros e Hg.
  - inv_run. split; [done|]. intros a r. rewrite bool_decide_false, orb_false_r; [done|].
    by intros [[]%not_elem_of_nil _].
  - inv_run. match goal with Hl : lib_grant_role_no_auth _ _ _ _ _ = Some (?u, _) |- _ =>
      destruct u; rename Hl into Hgr end.
    match goal with Hr : grant_executors _ _ _ = _ |- _ => apply IH in Hr as [Hs Hroles] end.
    split; [done|]. intros a r. rewrite Hroles. unfold role_in at 1. simpl.
    rewrite (grant_role_adds _ _ _ _ _ _ a r Hgr). unfold role_in.
    rewrite <- orb_assoc. f_equal. rewrite <- bool_decide_or.
    apply bool_decide_ext. rewrite elem_of_cons. naive_solver.
Qed.

(** The constructor, on a forwarder without roles. *)
Lemma constructor_roles admin manager executors e e' :
  (∀ a r, role_in e a r = false) →
  (constructor admin manager executors : M WEnv E unit) e = Ok (tt, e') →
  ∀ a r, role_in e' a r = granted manager executors a r.
Proof.
  intros Hfresh Hc a r. unfold constructor in Hc. inv_run.
  repeat match goal with u : unit |- _ => destruct u end. simpl in *.
  match goal with Hg : grant_executors _ _ _ = _ |- _ =>
    apply grant_executors_roles in Hg as [_ Hg]; rewrite Hg end.
  unfold role_in at 1. simpl.
  match goal with Hm : lib_grant_role_no_auth _ _ _ _ _ = _, Ha : lib_set_admin _ _ _ = _ |- _ =>
    rewrite (grant_role_adds _ _ _ _ _ _ a r Hm), (set_admin_roles _ _ _ _ a r Ha) end.
  fold (role_in e a r). by rewrite Hfresh.
Qed.

(** What a call needs and what it makes of the roles. *)
Lemma run_call_roles c e e' :
  (run_call c : M WEnv E unit) e = Ok (tt, e') →
  self e' = self e
  ∧ (∀ a r, role_in e' a r = role_after a r (role_changes c) (role_in e a r))
  ∧ (∀ a r, caller c = Some (a, r) → role_in e a r = true ∧ auth_ok e a).
Proof.
  destruct (caller c) as [[x rx]|] eqn:Hx; intros Hc.
  - assert (∃ w w2, lib_only_role (self e) x rx (world e) = Some (tt, w) ∧ e' = set_world w2 e
      ∧ role_changes c = [] ∧ ∀ a r, has_role (self e) a r w2 = has_role (self e) a r w)
      as (w & w2 & Ho & -> & -> & Hw).
    { destruct c; [injection Hx as <- <-; simpl in Hc..|done];
        unfold forward, enable_fee_token, disable_fee_token, sweep_tokens, only_role in Hc;
        inv_run; simpl in *; repeat match goal with u : unit |- _ => destruct u end;
        eexists _, _; (split; [eassumption|]); (split; [reflexivity|]); (split; [done|]); intros a r;
        [by eapply collect_roles|by eapply set_allowed_roles..|by eapply sweep_roles]. }
    split; [done|]. split.
    + intros a r. unfold role_in. simpl. rewrite Hw. by apply (only_role_roles _ _ _ _ _ a r Ho).
    + intros a r [= <- <-]. by apply only_role_checks in Ho.
  - destruct c as [| | | |x]; try done. simpl in Hc. unfold access in Hc. inv_run.
    split; [done|]. split; [|done]. intros a r. unfold role_in. simpl. by apply access_call_roles.
Qed.

(** Runs after construction, with the changes of the roles on the way;
    elsewhere only the world's other parts change. *)
Inductive run (e0 : WEnv) : list AccessCall → WEnv → Prop :=
  | run_start : run e0 [] e0
  | run_step cs e c e' :
      run e0 cs e → (run_call c : M WEnv E unit) e = Ok (tt, e') → run e0 (cs ++ role_changes c) e'
  | run_time cs e seq time w :
      run e0 cs e → (∀ a r, has_role (self e) a r w = role_in e a r) →
      run e0 cs (set_ledger seq time w e).

Lemma run_roles e0 cs e :
  run e0 cs e → ∀ a r, role_in e a r = role_after a r cs (role_in e0 a r).
Proof.
  induction 1 as [|cs e c e' _ IH Hc|cs e seq time w _ IH Hw]; intros a r; [done| |].
  - apply run_call_roles in Hc as (_ & Hr & _). rewrite Hr, IH. unfold role_after.
    by rewrite foldl_app.
  - rewrite <- IH. apply Hw.
Qed.

(** Changes that leave a role alone. *)
Lemma role_after_untouched a r cs held :
  Forall (λ c, role_effect c a r = None) cs → role_after a r cs held = held.
Proof. intros Hcs. revert held. induction Hcs as [|c cs Hc _ IH]; intros held; [done|]. simpl. by rewrite Hc, IH. Qed.
End roles.

Section theorems.
Context `{ForwarderLaws} {E : Type}.
Abbreviation WEnv := (Env unit unit unit).
Implicit Types e : WEnv.

(** C35: the forwarder is permissioned. On a fresh forwarder the constructor
    gives the manager role to [manager] alone and the executor role to exactly
    [executors]; over any run, whatever is called, [forward] succeeds only for a
    relayer that holds the executor role, and the fee-token list and the collected
    fees are touched only by an operator that holds the manager role, each with
    its own authorisation; and who holds a role is decided by the last grant or
    revocation of it through AccessControl, or by the constructor when there was
    none: while nobody changes the roles, only [executors] forward and only
    [manager] manages. *)
Theorem forwarder_permissioned admin manager executors e0 e1 cs e2 c e3 a r :
  (∀ a r, role_in e0 a r = false) →
  (constructor admin manager executors : M WEnv E unit) e0 = Ok (tt, e1) →
  run (E := E) e1 cs e2 →
  (run_call c : M WEnv E unit) e2 = Ok (tt, e3) → caller c = Some (a, r) →
  auth_ok e2 a
  ∧ role_after a r cs (granted manager executors a r) = true
  ∧ (Forall (λ x, role_effect x a r = None) cs →
       match c with
       | CForward _ _ _ _ _ _ _ _ relayer => relayer ∈ executors
       | CEnable _ operator | CDisable _ operator | CSweep _ _ operator => operator = manager
       | CAccess _ => True
       end).
Proof.
  intros Hfresh Hc Hrun Hcall Hwho.
  apply run_call_roles in Hcall as (_ & _ & Hneeds).
  destruct (Hneeds a r Hwho) as [Hrole Hauth].
  rewrite (run_roles _ _ _ Hrun), (constructor_roles _ _ _ _ _ Hfresh Hc) in Hrole.
  split_and!; [done..|]. intros Hcs. rewrite role_after_untouched in Hrole by done.
  unfold granted in Hrole. apply orb_true_iff in Hrole as [Hr|Hr];
    apply bool_decide_eq_true in Hr as [Ha ->]; destruct c; naive_solver.
Qed.
End theorems.

(** ** The reference host's roles, and a witness *)

#[export] Instance ref_forwarder_lib : ForwarderLib (H := ref_host) :=
  Build_ForwarderLib ref_host unit tt
    (λ (me a : N) r w, bool_decide ((me, a, r) ∈ r_roles w))
    (λ _ _ w, Some (tt, w))
    (λ (me a : N) r _ w, Some (tt, r_set_roles ((me, a, r) :: r_roles w) w))
    (λ (me a : N) r w,
       if decide ((me, a, r) ∈ r_roles w ∧ (a : N) ∈ r_auth w) then Some (tt, w) else None)
    (λ (me t : N) f _ _ _ _ _ (u rc : N) _ w,
       w' ← r_transfer t u rc f w; Some (RVoid, w'))
    (λ _ _ _ w, Some (tt, w))
    (λ (me t rc : N) w, let z := r_lookup_balance w t me in
       w' ← r_transfer t me rc z w; Some (z, w'))
    (bool * (N * Symbol))
    (λ (me : N) c w, Some (tt, r_set_roles
       (if c.1 then (me, c.2.1, c.2.2) :: r_roles w else filter (.≠ (me, c.2.1, c.2.2)) (r_roles w)) w))
    (λ c (a : N) r, if decide ((a, r) = c.2) then Some c.1 else None).

Lemma r_transfer_roles t a b z (w w' : RWorld) : r_transfer t a b z w = Some w' → r_roles w' = r_roles w.
Proof. unfold r_transfer. destruct (_ && _); [|done]. by intros [= <-]. Qed.

#[export] Instance ref_forwarder_laws : ForwarderLaws (H := ref_host).
Proof.
  split; simpl.
  - intros me a r w w'. case_decide as Hd; [|done]. intros _. destruct Hd as [Hr Ha].
    split; [by apply bool_decide_eq_true|]. rewrite decide_True by done. eauto.
  - intros me a r w w' b r'. case_decide; [|done]. by intros [= <-].
  - intros me a r admin w w' b r' [= <-]. rewrite <- bool_decide_or. apply bool_decide_ext.
    simpl. rewrite elem_of_cons. naive_solver.
  - by intros me a w w' b r' [= <-].
  - intros me t f mf ex tc fn cargs u rc ap w v w' b r' (w1 & Ht & [= <- <-])%bind_Some.
    by rewrite (r_transfer_roles _ _ _ _ _ _ Ht).
  - by intros me t on w w' b r' [= <-].
  - intros me t rc w z w' b r' (w1 & Ht & [= <- <-])%bind_Some.
    by rewrite (r_transfer_roles _ _ _ _ _ _ Ht).
  - intros me [on [a r]] w w' b r' [= <-]. simpl. case_decide as Hbr; simpl.
    + injection Hbr as -> ->. destruct on; simpl.
      * apply bool_decide_eq_true. by left.
      * apply bool_decide_eq_false. by intros [[] _]%list_elem_of_filter.
    + apply bool_decide_ext. destruct on; simpl; [rewrite elem_of_cons|rewrite list_elem_of_filter];
        naive_solver.
Qed.

(** Manager 2, executor 3; user 4 pays a fee of 5 in token 7. The executor role
    is granted to 5, which forwards, and revoked from 3. *)
Definition test_env0 : Env (H := ref_host) unit unit unit :=
  ref_env 9%N 10 0 (ref_world [2%N; 3%N; 5%N] {[ (7%N, 4%N) := 20 ]}).
Definition test_env1 := final (constructor (H := ref_host) (E := unit) 1%N 2%N [3%N] test_env0) test_env0.
Definition test_forward (relayer : N) : call (H := ref_host) :=
  CForward (H := ref_host) 7%N 5 6 100 8%N "ping" [] 4%N relayer.
Definition test_grant : AccessCall (H := ref_host) :=
  ((true, (5%N, EXECUTOR_ROLE)) : bool * (N * Symbol)).
Definition test_revoke : AccessCall (H := ref_host) :=
  ((false, (3%N, EXECUTOR_ROLE)) : bool * (N * Symbol)).
Definition test_after (c : call (H := ref_host)) (e : Env (H := ref_host) unit unit unit) :=
  final (run_call (H := ref_host) (E := unit) c e) e.
Definition test_env2 := test_after (CAccess (H := ref_host) test_grant) test_env1.
Definition test_env3 := test_after (CAccess (H := ref_host) test_revoke) test_env2.

Lemma test_run : run (H := ref_host) (E := unit) test_env1 [test_grant; test_revoke] test_env3.
Proof.
  apply (run_step (H := ref_host) _ [test_grant] test_env2 (CAccess (H := ref_host) test_revoke));
    [|by_run].
  apply (run_step (H := ref_host) _ [] test_env1 (CAccess (H := ref_host) test_grant)); [|by_run].
  apply run_start.
Qed.

Lemma forwarder_permissioned_witness :
  run_call (H := ref_host) (E := unit) (test_forward 3%N) test_env3 = Err HostError
  ∧ run_call (H := ref_host) (E := unit) (test_forward 3%N) test_env1
    = Ok (tt, test_after (test_forward 3%N) test_env1)
  ∧ 3%N ∈ [3%N]
  ∧ role_after (H := ref_host) (H0 := ref_forwarder_lib) 5%N EXECUTOR_ROLE [test_grant; test_revoke]
      (granted (H := ref_host) 2%N [3%N] 5%N EXECUTOR_ROLE) = true.
Proof.
  split_and!; [by_run|by_run| |].
  - refine (proj2 (proj2 (forwarder_permissioned (H := ref_host) (E := unit) 1%N 2%N [3%N] test_env0
      test_env1 [] test_env1 (test_forward 3%N) (test_after (test_forward 3%N) test_env1) 3%N
      EXECUTOR_ROLE _ _ (run_start _) _ _)) _).
    + intros a r. apply bool_decide_eq_false. by intros []%not_elem_of_nil.
    + by_run.
    + by_run.
    + done.
    + constructor.
  - refine (proj1 (proj2 (forwarder_permissioned (H := ref_host) (E := unit) 1%N 2%N [3%N] test_env0
      test_env1 _ test_env3 (test_forward 5%N) (test_after (test_forward 5%N) test_env3) 5%N
      EXECUTOR_ROLE _ _ test_run _ _))).
    + intros a r. apply bool_decide_eq_false. by intros []%not_elem_of_nil.
    + by_run.
    + by_run.
    + done.
Defined.
End Forwarder.
