(* ===== verification/System.v ===== *)
(** * The system: from the factory to the policies of the account it creates

    One transaction runs through four components: create_account (Factory.v)
    deploys the account, the host runs its constructor (SmartAccount.v), the
    library installs the default rule and its policies, and the threshold policy
    (WrapperPolicies.v) stores the threshold.  What links them is outside the
    repository: the host's deployment and the library's add_context_rule, which
    are a class here, with the behaviour the repository's documents rely on as
    laws.  With the histories of Authorisation.v this gives the property the
    repository promises its users: M of N signers, end to end.  The second part
    relates the keys the factory accepts to the verifiers (Verifiers.v) they are
    attached to. *)
From S2P Require Import Prelude RustInt Soroban RefHost Policy Order WrapperPolicies Factory.
From S2P Require Import SmartAccount Verifiers Authorisation RefSystem.
Import Factory.
Import (hints) Account.
Import (hints) Threshold.
Local Open Scope Z_scope.

Class System `{FactoryHost} `{!AccountLib} `{!Authorisation} `{!SimpleThreshold}
    `{!PolicyContract (Data := st_data) (Event := st_event) (Failure := st_error)} := {
  (** The uploaded wasm of latch-smart-account. *)
  account_wasm : Bytes;
  (** A new contract instance at an address. *)
  create_instance : Address → Bytes → World → option World;
  threshold_from_val : Val → option Z;
}.

Class SystemLaws `{System} : Prop := {
  threshold_val_roundtrip t : is_u32 t → threshold_from_val (threshold_into_val t) = Some t;
  (** [deploy_v2] creates the instance and runs its constructor with the given
      arguments, in the same transaction. *)
  deploy_runs_constructor deployer salt signers policies w a w' :
    host_deploy_v2 deployer salt account_wasm signers policies w = Some (a, w') →
    ∃ w1 e1, create_instance a account_wasm w = Some w1
      ∧ Account.constructor signers policies (account_env a w1) = Ok (tt, e1) ∧ w' = world e1;
  (** [add_context_rule] stores the rule under an id, with the policies it is
      given, and calls [install] of each with its decoded parameters. *)
  add_rule_installs a ty name until signers policies w w' :
    lib_add_context_rule a ty name until signers policies w = Some (tt, w') →
    ∃ id r, stored_rule a id w' = Some r ∧ stored r = mkContextRule id ty signers
      ∧ (∀ policy, policy ∈ rule_policies r ↔ is_Some (policies !! policy))
      ∧ ∀ policy v t,
          policies !! policy = Some v → policy_at policy → threshold_from_val v = Some t →
          ∃ w1 e1, Threshold.install {| threshold := t |} (mkContextRule id ty signers) a
                     (policy_env policy w1) = Ok (tt, e1)
            ∧ policy_run e1 [] (policy_env policy w');
}.

Section creation.
Context `{SystemLaws} `{!AuthorisationLaws} `{!PolicyContractLaws} `{!FactoryLaws}
  `{!SimpleThresholdLaws threshold_of}.
Abbreviation FEnv := (Env DataKey FactoryConfig FactoryEvent).
Abbreviation tcall := (Policy.call st_data st_event st_error).
Implicit Types e : FEnv.

(** The constructor of an account is the installation of its default rule. *)
Lemma constructor_installs signers policies a w s1 :
  Account.constructor signers policies (account_env a w) = Ok (tt, s1) →
  lib_add_context_rule a DefaultRule "default" None signers policies w = Some (tt, world s1).
Proof.
  unfold Account.constructor. intros. inv_run. by rewrite account_env_self, account_env_world in *.
Qed.

(** A call that does not reconfigure the threshold of key [k]. *)
Definition no_reconfiguration (k : StorageKey) (c : tcall) : Prop :=
  call_key c = k →
  match c with CEnforce _ _ _ _ | COther (Threshold.CGetThreshold _ _) => True | _ => False end.

(** From a state that holds threshold [t] for a key, every enforcement before a
    reconfiguration needs [t] signers. *)
Lemma threshold_enforced (s0 s : Env StorageKey st_data st_event) cs pre context signers rule
    account post t :
  threshold_of <$> persistent s0 !! rule_key rule account = Some t →
  policy_run s0 cs s → cs = pre ++ CEnforce context signers rule account :: post →
  Forall (no_reconfiguration (rule_key rule account)) pre → t ≤ zlen signers.
Proof.
  intros Ht Hrun Hcs Hpre.
  destruct (run_guarded_from threshold_of Threshold.guard Threshold.next s0 cs s pre _ post Hrun Hcs)
    as (t' & Ht' & Hle).
  cbn [call_key] in Ht'. rewrite Ht, history_constant in Ht'; [by simplify_eq|].
  eapply Forall_impl; [exact Hpre|]. intros c Hc Hk. specialize (Hc Hk).
  by destruct c as [| | |[]].
Qed.

(** Time alone changes no threshold. *)
Lemma time_keeps (s0 s : Env StorageKey st_data st_event) k :
  policy_run s0 [] s → threshold_of <$> persistent s !! k = threshold_of <$> persistent s0 !! k.
Proof. apply (run_history_from threshold_of Threshold.guard Threshold.next s0 [] s k). Qed.

(** The rule a creation installs, and the threshold that guards it. *)
Definition guarded_by (cfg : FactoryConfig) (p : AccountInitParams) (n : NormalizedParams)
    (a : Address) (w : World) (id t : Z) (r : StoredRule) : Prop :=
  init_threshold p = Some t ∧ 1 ≤ t ≤ zlen (init_signers p)
  ∧ stored_rule a id w = Some r
  ∧ stored r = mkContextRule id DefaultRule (build_account_signers cfg (signers n))
  ∧ threshold_policy cfg ∈ rule_policies r
  ∧ threshold_of <$> persistent (policy_env (threshold_policy cfg) w) !! AccountContext a id = Some t.

Lemma creation_guards p e a e' cfg :
  inst e !! Config = Some cfg → smart_account_wasm_hash cfg = account_wasm →
  policy_at (threshold_policy cfg) → zlen (init_signers p) ≤ u32_max →
  create_account p e = Ok (a, e') → is_executable a (world e) = false →
  ∃ n w1, normal p n ∧ a = account_of e n
    ∧ lib_add_context_rule a DefaultRule "default" None (build_account_signers cfg (signers n))
        (build_account_policies cfg (effective_threshold n) (zlen (init_signers p))) w1
      = Some (tt, world e')
    ∧ (1 < zlen (init_signers p) → ∃ id t r, guarded_by cfg p n a (world e') id t r).
Proof.
  intros Hcfg Hwasm Hpol Hlen Hc Hx.
  destruct (proj1 (create_account_Ok p e a e') Hc)
    as (n & cfg' & l' & Hn & [Hcfg' _] & -> & [[Hx' _]|(w & _ & Hd & _ & ->)]); [congruence|].
  rewrite Hcfg in Hcfg'. injection Hcfg' as <-. unfold deployment in Hd. rewrite Hwasm in Hd.
  apply deploy_runs_constructor in Hd as (w1 & e1 & _ & Hctor & ->).
  apply constructor_installs in Hctor. exists n, w1.
  pose proof Hn as (_ & _ & Hp & _ & _ & Ht).
  assert (zlen (signers n) = zlen (init_signers p)) as Hz by (unfold zlen; by rewrite Hp).
  rewrite Hz in *. split_and!; [done|done|exact Hctor|]. intros Hmany.
  unfold threshold_ok in Ht. rewrite decide_False in Ht by lia. destruct Ht as [Hreq Hb].
  destruct (add_rule_installs _ _ _ _ _ _ _ _ Hctor) as (id & r & Hst & Hr & Hps & Hins).
  unfold build_account_policies in Hins, Hps. rewrite (proj2 (Z.ltb_lt _ _) Hmany) in Hins, Hps.
  destruct (Hins (threshold_policy cfg) (threshold_into_val (effective_threshold n))
    (effective_threshold n)) as (w2 & s1 & Hi & Hkept);
    [apply lookup_singleton_eq|done|apply threshold_val_roundtrip; split; lia|].
  apply st_install_law in Hi as (_ & Hv & _). exists id, (effective_threshold n), r.
  split_and!; [done|lia|lia|exact Hst|exact Hr| |].
  - apply Hps. rewrite lookup_singleton_eq. eauto.
  - simpl in *. rewrite (time_keeps _ _ _ Hkept). exact Hv.
Qed.

(** C11: a created account is the account that was asked for, guarded by the
    threshold that was asked for. When [create_account] deploys an account, the
    constructor ran and the library installed exactly one default rule with the
    requested signers in canonical order, without policies for a single signer;
    for several signers the rule carries the threshold policy, which holds, for
    that account and rule, the threshold of the request, between one and the
    number of signers, and from then on, whatever calls anyone makes of the
    policy contract, no authorisation under the rule passes it with fewer
    authenticated signers, as long as the policy is not reconfigured or
    uninstalled for that rule. *)
Theorem created_account_guarded p e a e' cfg :
  inst e !! Config = Some cfg → smart_account_wasm_hash cfg = account_wasm →
  policy_at (threshold_policy cfg) → zlen (init_signers p) ≤ u32_max →
  create_account p e = Ok (a, e') → is_executable a (world e) = false →
  ∃ n w1, normal p n ∧ a = account_of e n
    ∧ lib_add_context_rule a DefaultRule "default" None (build_account_signers cfg (signers n))
        (build_account_policies cfg (effective_threshold n) (zlen (init_signers p))) w1
      = Some (tt, world e')
    ∧ (zlen (init_signers p) = 1 →
         build_account_policies cfg (effective_threshold n) (zlen (init_signers p)) = ∅)
    ∧ (1 < zlen (init_signers p) → ∃ id t r,
         guarded_by cfg p n a (world e') id t r
         ∧ ∀ cs s pre context signers rule post,
             policy_run (policy_env (threshold_policy cfg) (world e')) cs s →
             cs = pre ++ CEnforce context signers rule a :: post → rule_id rule = id →
             Forall (no_reconfiguration (AccountContext a id)) pre → t ≤ zlen signers).
Proof.
  intros Hcfg Hwasm Hpol Hlen Hc Hx.
  destruct (creation_guards _ _ _ _ _ Hcfg Hwasm Hpol Hlen Hc Hx) as (n & w1 & Hn & Ha & Hadd & Hmany).
  exists n, w1. split_and!; [done|done|done|by intros ->|].
  intros Hm. destruct (Hmany Hm) as (id & t & r & Hg). exists id, t, r. split; [exact Hg|].
  intros cs s pre context signers rule post Hrun Hcs Hid Hpre. subst id.
  destruct Hg as (_ & _ & _ & _ & _ & Hst).
  exact (threshold_enforced _ s cs pre context signers rule _ post _ Hst Hrun Hcs Hpre).
Qed.
End creation.

(** ** The keys of a created account and its verifiers *)

Section keys.
Context `{FactoryLaws} `{Crypto} `{!WebAuthnLaws} {S E : Type}.

Lemma normal_shape p n x : normal p n → Factory.External x ∈ signers n → shape_error (Factory.External x) = None.
Proof.
  intros (_ & Hw & Hp & _) Hx. rewrite Hp in Hx. by eapply Forall_forall in Hw.
Qed.

(** Distinct well-shaped signers have a normal form for every threshold in range. *)
Lemma normal_exists l t salt :
  l ≠ [] → Forall well_shaped l → NoDup l → threshold_ok (zlen l) (Some t) t →
  ∃ n, normal (mkInitParams l (Some t) salt) n.
Proof.
  intros Hne Hw Hnd Ht. pose proof (canonical_from_complete [] l (SSorted_nil _) Hw Hnd) as Hok.
  destruct (canonical_from [] l) as [c|] eqn:Hc; [|done].
  destruct (canonical_from_sound [] l c (SSorted_nil _) Hc) as (_ & Hp & Hs).
  exists (mkNormalized c t salt). split_and!; try done. simpl in *.
  replace (zlen c) with (zlen l) by (unfold zlen; by rewrite Hp). done.
Qed.

Lemma webauthn_canonical_prefix key (s : S) :
  65 < zlen key →
  WebAuthnWrapper.canonicalize_key key s = (Ok (take 65 key, s) : result E _)
  ∧ extract_from_bytes key 0 65 = Some (take 65 key).
Proof.
  unfold zlen. intros Hl. unfold WebAuthnWrapper.canonicalize_key, host_value.
  rewrite webauthn_canonical, decide_True by lia.
  rewrite extract_range, decide_True by lia. by rewrite drop_0.
Qed.

(** The keys the factory accepts suit the verifiers it attaches them to.
    Every Ed25519 signer of an accepted request has a 32-byte key; every
    WebAuthn signer has a canonical key, the SEC1 point in its first 65 bytes,
    which its verifier hands to the library whatever the credential id behind
    it, without a panic over the key. The converse of uniqueness fails: the
    factory compares whole keys, so it accepts as two signers of a two-of-two
    account two credential ids of the same public key, which the verifier
    canonicalises to one; refusing them is left to the account. *)
Theorem factory_keys_suit_verifiers :
  (∀ p n x, normal p n → Factory.External x ∈ signers n →
     match signer_kind x with
     | Ed25519 => length (key_data x) = 32%nat
     | WebAuthn => 65 < zlen (key_data x) ∧ sec1 (take 65 (key_data x))
         ∧ (∀ s, WebAuthnWrapper.canonicalize_key (key_data x) s
                 = (Ok (take 65 (key_data x), s) : result E (Bytes * S)))
         ∧ (∀ hash sig data (s : S), sig_data_from_xdr sig = Some data →
              WebAuthnWrapper.verify hash (key_data x) sig s
              = (host_value (lib_webauthn_verify hash (take 65 (key_data x)) data) s
                 : result E (bool * S)))
     end)
  ∧ (∀ point id1 id2 salt, length point = 65%nat → sec1 point → id1 ≠ [] → id2 ≠ [] → id1 ≠ id2 →
     let signer id := Factory.External (mkExternal WebAuthn (point ++ id)) in
     (∃ n, normal (mkInitParams [signer id1; signer id2] (Some 2) salt) n)
     ∧ (∀ s : S, WebAuthnWrapper.canonicalize_key (point ++ id1) s
               = (Ok (point, s) : result E _)
             ∧ WebAuthnWrapper.canonicalize_key (point ++ id2) s = (Ok (point, s) : result E _))).
Proof.
  split.
  - intros p n x Hn Hx. pose proof (normal_shape p n x Hn Hx) as Hs. unfold shape_error in Hs.
    destruct (signer_kind x); case_decide as Hd; try done; [unfold zlen in Hd; lia|].
    destruct Hd as [Hl H0']. split_and!; [done| | |].
    + unfold sec1. rewrite lookup_take_lt by lia. done.
    + intros s. by apply webauthn_canonical_prefix.
    + intros hash sig data s Hsig. unfold WebAuthnWrapper.verify.
      step_get by (by apply unwrap_Ok).
      step_get by (apply unwrap_Ok; split; [by apply (webauthn_canonical_prefix _ s)|done]). done.
  - intros point id1 id2 salt Hp Hsec H1' H2' Hne signer.
    assert (∀ id, id ≠ [] → 65 < zlen (point ++ id)) as Hlen.
    { intros [|b id]; [done|]. intros _. unfold zlen. rewrite length_app. simpl. lia. }
    assert (∀ id, id ≠ [] → well_shaped (signer id)) as Hw.
    { intros id Hid. unfold well_shaped, shape_error. simpl. rewrite decide_True; [done|].
      split; [by apply Hlen|]. rewrite lookup_app_l by lia. exact Hsec. }
    assert (∀ (s : S) id, id ≠ [] →
      WebAuthnWrapper.canonicalize_key (point ++ id) s = (Ok (point, s) : result E _)) as Hcan.
    { intros s id Hid. rewrite (proj1 (webauthn_canonical_prefix _ s (Hlen id Hid))).
      by rewrite take_app_length' by done. }
    split; [|by auto]. apply normal_exists; [done|by auto using Forall_cons_2, Forall_nil_2| |].
    + apply NoDup_cons. split; [|apply NoDup_singleton]. rewrite list_elem_of_singleton.
      intros [= Heq%app_inv_head]. done.
    + by_cmp.
Qed.
End keys.


(** ** M of N, end to end *)

Section multisig.
Context `{SystemLaws} `{!AuthorisationLaws} `{!PolicyContractLaws} `{!FactoryLaws}
  `{!SimpleThresholdLaws threshold_of} `{!Crypto} `{!WebAuthnLaws}.
Abbreviation FEnv := (Env DataKey FactoryConfig FactoryEvent).
Implicit Types e : FEnv.

(** The verifiers of the configuration are the repository's. *)
Definition verifiers_deployed (cfg : FactoryConfig) : Prop :=
  (∀ hash key sig, verifier_client (ed25519_verifier cfg) hash key sig
     = verdict (Ed25519Wrapper.Ed25519Verifier (E := Empty_set)) hash key sig)
  ∧ (∀ hash key sig, verifier_client (webauthn_verifier cfg) hash key sig
     = verdict (WebAuthnWrapper.WebAuthnVerifier (E := Empty_set)) hash key sig).

(** A signer of a request approved the payload [hash]: natively, by an Ed25519
    signature, or by a WebAuthn assertion of the public key. *)
Definition approved (me : Address) (hash : Bytes) (w : World) (x : AccountSignerInit) : Prop :=
  match x with
  | Factory.Delegated a => is_Some (host_require_auth me a w)
  | Factory.External x =>
      match signer_kind x with
      | Ed25519 => ∃ sig, lib_ed25519_verify hash (key_data x) sig = Some true
      | WebAuthn => ∃ sig data, sig_data_from_xdr sig = Some data
          ∧ lib_webauthn_verify hash (take 65 (key_data x)) data = Some true
      end
  end.

Definition account_signer (cfg : FactoryConfig) (x : AccountSignerInit) : Signer :=
  match x with
  | Factory.Delegated a => Policy.Delegated a
  | Factory.External x => Policy.External (verifier_of cfg (signer_kind x)) (key_data x)
  end.

Lemma proven_approved cfg me hash w x sig :
  verifiers_deployed cfg → well_shaped x →
  proven me hash w (account_signer cfg x) sig → approved me hash w x.
Proof.
  intros [Hed Hwa] Hw Hp. destruct x as [a|[kind key]]; [done|].
  unfold well_shaped, shape_error in Hw. destruct kind; simpl in *; case_decide as Hk; try done.
  - rewrite Hed in Hp. unfold verdict in Hp. simpl in Hp. unfold Ed25519Wrapper.verify, host_value in Hp.
    destruct (lib_ed25519_verify hash key sig) as [b|] eqn:Hb; [|done]. injection Hp as ->. eauto.
  - rewrite Hwa in Hp. unfold verdict in Hp. simpl in Hp.
    destruct (WebAuthnWrapper.verify hash key sig tt) as [[b []]|] eqn:Hv; [|done].
    injection Hp as ->. unfold WebAuthnWrapper.verify in Hv. inv_run.
    match goal with Hx : extract_from_bytes _ _ _ = Some _ |- _ =>
      rewrite extract_range, drop_0 in Hx by lia; case_decide; [|done]; injection Hx as <- end.
    eauto.
Qed.

(** Distinct signers of a rule come from as many distinct requested signers. *)
Lemma signers_preimage cfg (l : list AccountSignerInit) (gs : list Signer) :
  NoDup l → NoDup gs → (∀ s, s ∈ gs → s ∈ build_account_signers cfg l) →
  ∃ xs, NoDup xs ∧ xs ⊆ l ∧ zlen gs ≤ zlen xs ∧ ∀ x, x ∈ xs → account_signer cfg x ∈ gs.
Proof.
  intros Hl Hgs Hin. exists (filter (λ x, account_signer cfg x ∈ gs) l). split_and!.
  - by apply NoDup_filter.
  - intros x [_ Hx]%list_elem_of_filter. exact Hx.
  - unfold zlen. apply inj_le. rewrite <- (length_fmap (account_signer cfg)).
    apply submseteq_length, NoDup_submseteq; [done|]. intros s Hs.
    pose proof (Hin s Hs) as Hb. apply list_elem_of_fmap in Hb as (x & Hx & Hxl).
    apply list_elem_of_fmap. exists x.
    assert (s = account_signer cfg x) as -> by (by destruct x).
    split; [done|]. apply list_elem_of_filter. by split.
  - intros x [Hx _]%list_elem_of_filter. exact Hx.
Qed.

(** C6: M of N, end to end. The factory creates an account for [N > 1] signers
    with threshold [M]. From then on, over any history of the system, until the
    account changes the rule it was created with or reconfigures the threshold
    policy for it: every context the account authorises under that rule was
    approved, over the payload of its transaction, by at least [M] distinct
    signers of the request, each by its own key or address. *)
Theorem multisig_needs_threshold p e a e' cfg :
  inst e !! Config = Some cfg → smart_account_wasm_hash cfg = account_wasm →
  policy_at (threshold_policy cfg) → verifiers_deployed cfg →
  1 < zlen (init_signers p) ≤ u32_max →
  create_account p e = Ok (a, e') → is_executable a (world e) = false →
  ∃ id t r, init_threshold p = Some t ∧ stored_rule a id (world e') = Some r
    ∧ ∀ evs w hash g, run (world e') evs w →
        Forall (no_reconfiguration (AccountContext a id)) (policy_calls (threshold_policy cfg) evs) →
        authorises evs a hash g → grant_id g = id → granted_under g = r →
        ∃ xs pre w1, NoDup xs ∧ xs ⊆ init_signers p ∧ t ≤ zlen xs
          ∧ pre `prefix_of` evs ∧ run (world e') pre w1
          ∧ Forall (approved a hash w1) xs.
Proof.
  intros Hcfg Hwasm Hpol Hver [Hmany Hlen] Hc Hx.
  destruct (creation_guards _ _ _ _ _ Hcfg Hwasm Hpol Hlen Hc Hx) as (n & w1 & Hn & _ & _ & Hg).
  destruct (Hg Hmany) as (id & t & r & Ht & _ & Hst & Hr & Hps & Hth). exists id, t, r.
  split; [done|]. split; [done|]. intros evs w hash g Hrun Hcs Hau Hid Hrule.
  rewrite <- Hrule in Hps.
  destruct (authorises_enforced _ _ _ _ _ Hau Hps) as (pre & post & Hsplit).
  pose proof (run_policy _ _ _ _ Hpol Hrun) as Hpr.
  assert (t ≤ zlen (granted_signers g)) as Hle.
  { eapply threshold_enforced; [|exact Hpr|exact Hsplit|].
    - unfold rule_key. fold (grant_id g). rewrite Hid. exact Hth.
    - rewrite Hsplit in Hcs. apply Forall_app in Hcs as [Hcs _].
      unfold rule_key. fold (grant_id g). by rewrite Hid. }
  destruct (authorises_valid _ _ _ _ _ _ Hrun Hau)
    as (pre2 & w2 & sigs & Hpre2 & Hrun2 & [_ _ _ Hnd Hpv]).
  pose proof Hn as (_ & Hw & Hp & Hs & _).
  destruct (signers_preimage cfg (signers n) (granted_signers g)) as (xs & Hxs & Hsub & Hlen' & Hin).
  - exact (strictly_sorted_NoDup compare_signers _ Hs).
  - done.
  - intros s Hs'. destruct (Hpv s Hs') as [Hs'' _]. by rewrite Hrule, Hr in Hs''.
  - exists xs, pre2, w2. split_and!; [done| |lia|done|done|].
    + intros x Hx'. rewrite <- Hp. by apply Hsub.
    + apply Forall_forall. intros x Hx'. destruct (Hpv _ (Hin x Hx')) as (_ & sig & _ & Hprv).
      eapply proven_approved; [done| |exact Hprv]. rewrite Forall_forall in Hw. apply Hw.
      rewrite <- Hp. by apply Hsub.
Qed.
End multisig.

(** ** A reference deployment, and witnesses *)

(** The factory 9 with the verifiers 20 and 21 and the threshold policy 22; new
    accounts run the account's own constructor. *)
Section deployment.
#[local] Instance DH : Host := sys_host Z.
#[local] Instance dep_threshold : SimpleThreshold := simple_threshold_module.
#[local] Instance dep_threshold_laws : SimpleThresholdLaws (H := DH) (H0 := dep_threshold) (λ t : Z, t) := simple_threshold_module_laws.

Definition dep_verify (v : N) (hash key sig : Bytes) : option bool :=
  if decide (v = 20%N) then verdict (Ed25519Wrapper.Ed25519Verifier (E := Empty_set)) hash key sig
  else if decide (v = 21%N) then verdict (WebAuthnWrapper.WebAuthnVerifier (E := Empty_set)) hash key sig
  else None.
Definition dep_params (v : RVal) : option SimpleThresholdAccountParams :=
  match v with RU32 t => Some {| threshold := t |} | _ => None end.

#[local] Instance dep_framed : Framed (D := Z) (Policy0 := @Threshold.ThresholdPolicy DH dep_threshold) id id.
Proof.
  split; [done|]. intros [p r a|r a|ctx sg r a|[i a|t r a]]; simpl;
    unfold Threshold.install, Threshold.uninstall, Threshold.enforce, Threshold.get_threshold,
      Threshold.set_threshold; simpl;
    unfold r_install, r_uninstall, r_enforce, r_update, r_get, persistent_get, persistent_has,
      ledger_sequence; solve_frames.
Qed.

#[local] Instance dep_lib : AccountLib :=
  sys_lib (Policy0 := @Threshold.ThresholdPolicy DH dep_threshold) id id dep_verify dep_params.
#[local] Instance dep_auth : Authorisation :=
  sys_auth (Policy0 := @Threshold.ThresholdPolicy DH dep_threshold) id id dep_verify dep_params.
#[local] Instance dep_contract : PolicyContract (Data := st_data) (Event := st_event)
  (Failure := st_error) :=
  sys_policy (Policy0 := @Threshold.ThresholdPolicy DH dep_threshold) id id dep_verify dep_params.
#[local] Instance dep_auth_laws : AuthorisationLaws :=
  sys_auth_laws (Policy0 := @Threshold.ThresholdPolicy DH dep_threshold) id id dep_verify dep_params.
#[local] Instance dep_contract_laws : PolicyContractLaws (Data := st_data) (Event := st_event)
  (Failure := st_error) :=
  sys_policy_laws (Policy0 := @Threshold.ThresholdPolicy DH dep_threshold) id id dep_verify dep_params.

#[local] Instance dep_factory : FactoryHost :=
  Build_FactoryHost DH N.compare (list_cmp (cmp_on Z_of_byte Z.compare))
    (λ a : N, replicate (N.to_nat a) Byte.x00) (λ b, [byte_of_Z (zlen b)])
    (λ (self : N) salt, N.pos (encode (self, salt)))
    (λ (a : N) w, bool_decide (is_Some (r_code w !! a)))
    (λ (self : N) salt wasm sg po w,
       let a := N.pos (encode (self, salt)) in
       w1 ← r_create_instance a wasm w;
       match Account.constructor sg po (account_env (a : Address) w1) with
       | Ok (_, e1) => Some (a, world e1)
       | Err _ => None
       end)
    RU32.
#[local] Instance dep_system : System :=
  Build_System DH dep_factory dep_lib dep_auth dep_threshold dep_contract [Byte.x07]
    r_create_instance (λ v, match v with RU32 t => Some t | _ => None end).

#[local] Instance dep_laws : SystemLaws.
Proof.
  split; simpl.
  - done.
  - intros self salt sg po w a w' Hd. apply bind_Some in Hd as (w1 & Hw1 & Hd).
    destruct (Account.constructor _ _ _) as [[[] e1]|] eqn:Hc; [|done].
    injection Hd as <- <-. by exists w1, e1.
  - intros a ty name until sg po w w' Hadd.
    apply r_add_context_rule_spec in Hadd as ((r & Hr & Hs & Hps) & Hin & _); [|exact dep_framed].
    exists 0, r. split_and!; [exact Hr|exact Hs|exact Hps|].
    intros policy v t Hv -> Ht. destruct v; try done. injection Ht as ->. exact (Hin _ {| threshold := t |} Hv eq_refl).
Qed.

#[local] Instance dep_factory_laws : FactoryLaws.
Proof.
  split; simpl.
  - apply N_compare_laws.
  - apply list_cmp_laws. apply (cmp_on_laws Z_of_byte Z.compare).
  - exact (address_to_xdr_inj (H0 := ref_factory_host)).
  - intros self salt wasm sg po w a w' Hd. apply bind_Some in Hd as (w1 & Hw1 & Hd).
    destruct (Account.constructor _ _ _) as [[[] e1]|] eqn:Hc; [|done].
    injection Hd as <- <-. split; [done|]. unfold Account.constructor in Hc. inv_run. simpl in *.
    match goal with Hr : r_add_context_rule _ _ _ _ _ _ _ _ _ _ = Some _ |- _ =>
      apply r_add_context_rule_spec in Hr as (_ & _ & Hcode); [|exact dep_framed] end.
    unfold r_create_instance in Hw1. destruct (r_code w !! _); [done|]. injection Hw1 as <-.
    apply bool_decide_eq_true. rewrite Hcode. simpl. rewrite lookup_insert_eq. eauto.
Qed.

(** A two-of-two account for address 3 and an Ed25519 key. *)
Definition dep_world : World :=
  mkRWorld [3%N] ∅ ∅ ∅ {[ 20%N := []; 21%N := []; 22%N := [] ]} [] (mkRStore 10 ∅ ∅ ∅).
Definition dep_config : FactoryConfig :=
  mkConfig [Byte.x07] (20%N : Address) (21%N : Address) (22%N : Address).
Definition dep_env0 : Env DataKey FactoryConfig FactoryEvent :=
  mkEnv (9%N : Address) 10 0 ∅ ∅ {[ Config := dep_config ]} 4105 [] dep_world.
Definition dep_key : Bytes := replicate 32 Byte.x01.
Definition dep_request : AccountInitParams :=
  mkInitParams [Factory.External (mkExternal Ed25519 dep_key); Factory.Delegated (3%N : Address)]
    (Some 2) (replicate 32 Byte.x00).
Definition dep_created := create_account dep_request dep_env0.
Definition dep_account : Address := value dep_created (0%N : Address).
Definition dep_env1 := final dep_created dep_env0.

Lemma dep_creates : dep_created = Ok (dep_account, dep_env1).
Proof. by_run. Qed.
Lemma dep_fresh : is_executable dep_account (world dep_env0) = false.
Proof. by_run. Qed.
Lemma dep_configured : inst dep_env0 !! Config = Some dep_config.
Proof. by_run. Qed.
Lemma dep_verifiers : verifiers_deployed dep_config.
Proof. by split. Qed.

(** Both sign one call; one signature alone is refused. *)
Definition dep_hash : Bytes := replicate 32 Byte.x11.
Definition dep_sigs : gmap Signer Bytes :=
  {[ Policy.Delegated (3%N : Address) := [];
     Policy.External (20%N : Address) dep_key := dep_key ++ dep_hash ]}.
Definition dep_context : Context := ContractCtx (mkContractContext (5%N : Address) "swap" []).
Definition dep_check (sigs : gmap Signer Bytes) :=
  Account.check_auth dep_hash (sigs, [0] : list Z) [dep_context] (account_env dep_account (world dep_env1)).
Definition dep_end : World := world (final (dep_check dep_sigs) (account_env dep_account (world dep_env1))).
Lemma dep_checked :
  dep_check dep_sigs = Ok (inl tt, final (dep_check dep_sigs) (account_env dep_account (world dep_env1))).
Proof. apply passed_final. by_run. Qed.
Definition dep_rule : RRule :=
  mkRRule None [inl 3%N; inr (20%N, dep_key)] [r_policy] None.
Lemma dep_rules : rs_rules (r_store (world dep_env1)) = {[ (dep_account : N, 0) := dep_rule ]}.
Proof. by_run. Qed.
Lemma dep_only_rule id r :
  stored_rule dep_account id (world dep_env1) = Some r → id = 0 ∧ r = r_rule 0 dep_rule.
Proof.
  change (stored_rule dep_account id (world dep_env1)) with
    (r_rule (D := Z) id <$> rs_rules (r_store (world dep_env1)) !! (dep_account, id)).
  rewrite dep_rules. intros (x & [[= <-] <-]%lookup_singleton_Some & ->)%fmap_Some. done.
Qed.
Definition dep_grant : Grant :=
  mkGrant dep_context (r_rule 0 dep_rule)
    [Policy.Delegated (3%N : Address); Policy.External (20%N : Address) dep_key].
Definition dep_events : list SystemEvent := [Authorised dep_account dep_hash [dep_grant]].
Lemma dep_grants :
  lib_grants dep_account dep_hash (dep_sigs, [0]) [dep_context] (world dep_env1) = [dep_grant].
Proof. by_run. Qed.
Lemma dep_history : run (world dep_env1) dep_events dep_end.
Proof.
  unfold dep_events. rewrite <- dep_grants.
  exact (run_authorised _ [] (world dep_env1) dep_account dep_hash (dep_sigs, [0]) [dep_context]
    (final (dep_check dep_sigs) (account_env dep_account (world dep_env1))) (run_start _) dep_checked).
Qed.

Lemma created_account_guarded_witness :
  ∃ id, persistent (policy_env (22%N : Address) (world dep_env1)) !! AccountContext dep_account id
        = Some 2.
Proof.
  destruct (created_account_guarded (H4 := dep_system) dep_request dep_env0
    dep_account dep_env1 dep_config dep_configured eq_refl eq_refl ltac:(by_cmp) dep_creates dep_fresh)
    as (n & w1 & _ & _ & _ & _ & Hmany).
  destruct Hmany as (id & t & r & ([= <-] & _ & _ & _ & _ & Hst) & _); [by_cmp|].
  exists id. revert Hst. simpl. destruct (_ !! _); [|done]. by intros [= ->].
Defined.

Lemma multisig_needs_threshold_witness :
  is_Ok (dep_check dep_sigs) ∧ dep_check (delete (Policy.Delegated (3%N : Address)) dep_sigs) = Err HostError
  ∧ ∃ xs w1, 2 ≤ zlen xs ∧ xs ⊆ init_signers dep_request
      ∧ Forall (approved dep_account dep_hash w1) xs.
Proof.
  split; [rewrite dep_checked; exact I|]. split; [by_run|].
  destruct (multisig_needs_threshold (H4 := dep_system) dep_request dep_env0
    dep_account dep_env1 dep_config dep_configured eq_refl eq_refl dep_verifiers ltac:(by_cmp)
    dep_creates dep_fresh) as (id & t & r & [= <-] & Hr & Hall).
  destruct (dep_only_rule id r Hr) as [-> ->].
  destruct (Hall dep_events dep_end dep_hash dep_grant dep_history) as (xs & pre & w1 & _ & Hsub & Hle & _ & _ & Hap).
  - repeat constructor.
  - exists [dep_grant]. split; by left.
  - done.
  - done.
  - exists xs, w1. split_and!; [exact Hle|exact Hsub|exact Hap].
Defined.
End deployment.

Definition sys_point : Bytes := Byte.x04 :: replicate 64 Byte.x02.
Definition sys_passkey (id : Bytes) : AccountSignerInit (H := ref_host) :=
  Factory.External (H := ref_host) (mkExternal WebAuthn (sys_point ++ id)).

Lemma factory_keys_suit_verifiers_witness :
  ∃ n, normal (H := ref_host) (mkInitParams (H := ref_host)
    [sys_passkey [Byte.x01]; sys_passkey [Byte.x02]] (Some 2) []) n.
Proof.
  refine (proj1 (proj2 (factory_keys_suit_verifiers (H := ref_host) (S := unit) (E := unit))
    sys_point [Byte.x01] [Byte.x02] [] _ _ _ _ _)); done.
Defined.
