(* ===== verification/Satellites.v ===== *)
(** * The satellites of an account

    The contracts an account deploys through [deploy_contract]
    (SmartAccount.v): the timelock vault (Timelock.v) and the vesting schedule
    (Vesting.v).  The host's deployment is outside the repository: a class here
    states that it runs the constructor of the deployed wasm, with the decoded
    arguments, at the ledger of the deployment. *)
From S2P Require Import Prelude RustInt Soroban RefHost Vesting Timelock SmartAccount.
Import (hints) Account.
Import (hints) Vault.
Local Open Scope Z_scope.

(** A contract an account deploys: its constructor, on typed arguments, its
    uploaded wasm, how the host decodes the constructor's arguments, and its
    environment in a world. *)
Class Deployment `{AccountLib} `{Countable K} {V Ev Er Args : Type}
    (ctor : Args → M (Env K V Ev) Er unit) := {
  deployed_wasm : Bytes;
  decode_args : list Val → option Args;
  deployed_env : Address → Z → World → Env K V Ev;
}.
Arguments deployed_wasm {_ _ _ _ _ _ _ _ _} ctor {_}.
Arguments decode_args {_ _ _ _ _ _ _ _ _} ctor {_}.
Arguments deployed_env {_ _ _ _ _ _ _ _ _} ctor {_}.

(** [well_typed] says of the arguments what their Rust types say, and
    [world_ledger] is the ledger at which a world executes. *)
Class DeploymentLaws `{Deployment} (world_ledger : World → Z) (well_typed : Args → Prop) : Prop := {
  deployed_env_new a seq w :
    self (deployed_env ctor a seq w) = a ∧ sequence (deployed_env ctor a seq w) = seq
    ∧ world (deployed_env ctor a seq w) = w;
  decoded_well_typed cargs x : decode_args ctor cargs = Some x → well_typed x;
  deploy_runs_constructor me salt cargs w a w' :
    host_deploy me salt (deployed_wasm ctor) cargs w = Some (a, w') →
    ∃ x w1 v, decode_args ctor cargs = Some x
      ∧ ctor x (deployed_env ctor a (world_ledger w) w1) = Ok (tt, v) ∧ world v = w';
}.

Section deployment.
Context `{DeploymentLaws}.
Abbreviation AEnv := (Env Account.LatchSmartAccountStorageKey Account.AccountVal Account.AccountEvent).
Implicit Types e : AEnv.

(** What an account's successful [deploy_contract] does: the registry gains the
    contract, and the contract's constructor ran on the decoded arguments, at
    the account's ledger, ending in the world the account returned in. *)
Lemma deployed salt cargs e a e' l :
  world_ledger (world e) = sequence e → Account.holds_registry e l →
  Account.deploy_contract (deployed_wasm ctor) salt cargs e = Ok (a, e') →
  Account.holds_registry e' (l ++ [Account.mkDeployed a (deployed_wasm ctor)])
  ∧ ∃ x v v0, decode_args ctor cargs = Some x ∧ well_typed x
    ∧ ctor x v = Ok (tt, v0) ∧ self v = a ∧ sequence v = sequence e ∧ world v0 = world e'.
Proof.
  intros Hnow Hr Hd. split; [by eapply Account.deploy_contract_registry|].
  rewrite (Account.deploy_contract_run _ _ _ _ _ Hr) in Hd.
  destruct (host_deploy _ _ _ _ _) as [[a' w']|] eqn:Hh; [|done].
  case_decide; [done|]. inv_run.
  destruct (deploy_runs_constructor _ _ _ _ _ _ Hh) as (args & w1 & v0 & Hx & Hc & Hw).
  rewrite Hnow in Hc. destruct (deployed_env_new a' (sequence e) w1) as (Hself & Hseq & _).
  exists args, (deployed_env ctor a' (sequence e) w1), v0.
  split_and!; try done. by eapply decoded_well_typed.
Qed.
End deployment.

(** ** The two satellites of the repository *)

(** The typed arguments of [__constructor(owner, unlock_ledger: u32)]. *)
Definition vault_ctor `{TokenClient} (x : Address * Z) :
    M (Env Vault.DataKey Vault.VaultVal Vault.VaultEvent) Vault.VaultError unit :=
  Vault.constructor (fst x) (snd x).
Definition vault_args `{Host} (x : Address * Z) : Prop := is_u32 (snd x).

(** The typed arguments of [__constructor(owner, token, total_amount: i128,
    start_ledger: u32, cliff_ledger: Option<u32>, end_ledger: u32)]: a schedule
    of which nothing is claimed. *)
Definition schedule_ctor `{TokenClient} (x : ScheduleData) :
    M (Env DataKey ScheduleData VestingEvent) VestingScheduleError unit :=
  Vesting.constructor (owner x) (token x) (total_amount x) (start_ledger x) (cliff_ledger x)
    (end_ledger x).
Definition schedule_args `{Host} (x : ScheduleData) : Prop :=
  claimed_amount x = 0 ∧ total_amount x ≤ i128_max ∧ is_u32 (start_ledger x)
  ∧ is_u32 (end_ledger x).

Section satellites.
Context `{AccountLib} `{!TokenClient} (balance_of : Address → Address → World → Z)
  `{!TokenLaws balance_of} (world_ledger : World → Z)
  `{!Deployment vault_ctor} `{!DeploymentLaws world_ledger vault_args}
  `{!Deployment schedule_ctor} `{!DeploymentLaws world_ledger schedule_args}.
Abbreviation AEnv := (Env Account.LatchSmartAccountStorageKey Account.AccountVal Account.AccountEvent).
Implicit Types e : AEnv.

(** An account's vault is locked from its deployment on. When an account
    deploys the vault's wasm, the constructor's arguments named an owner and a
    later unlock ledger, the account's registry gains exactly that contract, and
    from the very state the deployment left, whatever anyone calls on the vault
    and however the world changes around it, no withdrawal succeeds and no token
    balance of the vault decreases before the unlock ledger, and every
    withdrawal after it is authorised by that owner. *)
Theorem deployed_vault_locked salt cargs e a e' l :
  world_ledger (world e) = sequence e → Account.holds_registry e l →
  Account.deploy_contract (deployed_wasm vault_ctor) salt cargs e = Ok (a, e') →
  Account.holds_registry e' (l ++ [Account.mkDeployed a (deployed_wasm vault_ctor)])
  ∧ ∃ owner unlock v0, decode_args vault_ctor cargs = Some (owner, unlock)
    ∧ self v0 = a ∧ world v0 = world e' ∧ sequence v0 = sequence e ∧ sequence e < unlock
    ∧ ∀ v, rtc (Vault.step balance_of) v0 v →
        (sequence v < unlock → ∀ token,
           balance_of token a (world v0) ≤ balance_of token a (world v)
           ∧ ∀ amount to v', Vault.withdraw token amount to v ≠ Ok (tt, v'))
        ∧ (∀ token amount to v', Vault.withdraw token amount to v = Ok (tt, v') → auth_ok v owner).
Proof.
  intros Hnow Hr Hd. destruct (deployed _ _ _ _ _ _ Hnow Hr Hd)
    as (Hreg & [o u] & v1 & v0 & Hx & _ & Hc & Hself & Hseq & Hw).
  split; [exact Hreg|]. apply Vault.constructor_config in Hc as (Hlt & Hcfg & Hs & Hq & _).
  rewrite Hself, Hseq in *. exists o, u, v0. split_and!; try done. intros v Hrun.
  destruct (Vault.run_frame _ _ _ Hrun) as (Hs' & _ & Hp).
  assert (Vault.config v = (Some o, Some u)) as Hcfg' by (unfold Vault.config in *; by rewrite Hp).
  split.
  - intros Hearly token. rewrite <- Hs. split; [by eapply Vault.locked_run|].
    intros amount to v' Hwd. apply (Vault.withdraw_runs _ _ _ _ _ _ _ Hcfg') in Hwd as [? _].
    simpl in *. lia.
  - intros token amount to v' Hwd.
    apply (Vault.withdraw_runs _ _ _ _ _ _ _ Hcfg') in Hwd as (_ & w2 & _ & _ & _ & Ha & _).
    unfold auth_ok. eauto.
Qed.

(** C24: an account's vesting schedule releases exactly what its constructor's
    arguments say. When an account deploys the schedule's wasm, the arguments
    were a valid schedule, the account's registry gains exactly that contract,
    and from the very state the deployment left, whatever is called in whatever
    order and however the ledger and the world move on, the claims never pay
    more than has vested, the next one completes them to exactly that, to the
    total (no dust) once the end ledger is reached, and each is authorised by
    the owner the arguments named. *)
Theorem deployed_schedule_pays salt cargs e a e' l :
  world_ledger (world e) = sequence e → Account.holds_registry e l → is_u32 (sequence e) →
  Account.deploy_contract (deployed_wasm schedule_ctor) salt cargs e = Ok (a, e') →
  Account.holds_registry e' (l ++ [Account.mkDeployed a (deployed_wasm schedule_ctor)])
  ∧ ∃ s v0, decode_args schedule_ctor cargs = Some s ∧ wf_schedule s ∧ stored v0 = Some s
    ∧ self v0 = a ∧ world v0 = world e' ∧ sequence v0 = sequence e
    ∧ ∀ ps v, run anything v0 ps v →
        sumZ ps ≤ vested_at s (sequence v) ≤ total_amount s
        ∧ stored v = Some (set_claimed (sumZ ps) s)
        ∧ ∀ to r v', claim to v = Ok (r, v') →
            0 ≤ r ∧ auth_ok v (owner s)
            ∧ sumZ (ps ++ [r]) = vested_at s (sequence v)
            ∧ (end_ledger s ≤ sequence v → sumZ (ps ++ [r]) = total_amount s).
Proof.
  intros Hnow Hr Hu Hd. destruct (deployed _ _ _ _ _ _ Hnow Hr Hd)
    as (Hreg & s & v1 & v0 & Hx & (Hclaimed & Ht & Hs & Hl) & Hc & Hself & Hseq & Hw).
  split; [exact Hreg|]. pose proof (constructor_frame _ _ _ _ _ _ _ _ Hc) as [Hs0 Hq0].
  destruct (constructed_inv _ _ _ _ _ _ _ _ Hc Hs Hl Ht) as [_ Hinv]; [congruence|].
  assert (set_claimed 0 s = s) as Heq by (destruct s; simpl in *; by subst).
  change (run_inv (set_claimed 0 s) [] v0) in Hinv. rewrite Heq in Hinv.
  pose proof Hinv as (Hst & Hwf & _).
  change (sumZ []) with 0 in Hst, Hwf. rewrite Heq in Hst, Hwf.
  exists s, v0. do 3 (split; [done|]). split; [congruence|]. split; [done|]. split; [congruence|].
  intros ps v Hrun. pose proof (run_invariant _ _ [] _ _ _ Hinv Hrun) as Hrun'.
  cbn [app] in Hrun'.
  destruct (run_pays _ _ _ Hrun') as (_ & Hb & Hstv & Hpay). split_and!; try done; try lia.
  intros to r v' Hcl. destruct (Hpay to r v' Hcl) as [? ?].
  pose proof Hrun' as (_ & Hwf' & Huv & _).
  apply (claim_runs _ _ _ _ _ Hstv Hwf' Huv) in Hcl as (live & w & _ & Ha & Hr' & _).
  change (r = vested_at s (sequence v) - sumZ ps) in Hr'.
  split_and!; try done; [lia|]. unfold auth_ok. simpl in Ha. eauto.
Qed.
End satellites.

(** ** A reference deployer, and witnesses *)

(** A deployer of both satellites at ledger 100. *)
Definition sat_now : Z := 100.
Definition sat_vault_args (cargs : list RVal) : option (N * Z) :=
  match cargs with
  | [v1; v2] =>
      owner ← val_to_address (Host := ref_host) v1;
      unlock ← val_to_u32 (Host := ref_host) v2;
      Some (owner : N, unlock)
  | _ => None
  end.
Definition sat_schedule_args (cargs : list RVal) : option (ScheduleData (H := ref_host)) :=
  match cargs with
  | [v1; v2; v3; v4; v5] =>
      owner ← val_to_address (Host := ref_host) v1;
      token ← val_to_address (Host := ref_host) v2;
      total ← val_to_i128 (Host := ref_host) v3;
      start ← val_to_u32 (Host := ref_host) v4;
      last ← val_to_u32 (Host := ref_host) v5;
      Some (mkSchedule (H := ref_host) owner token total start None last 0)
  | _ => None
  end.
Definition sat_vault_env (a : N) (seq : Z) (w : RWorld) : Env (H := ref_host) Vault.DataKey
    (Vault.VaultVal (H := ref_host)) (Vault.VaultEvent (H := ref_host)) := ref_env a seq 0 w.
Definition sat_schedule_env (a : N) (seq : Z) (w : RWorld) : Env (H := ref_host) DataKey
    (ScheduleData (H := ref_host)) (VestingEvent (H := ref_host)) := ref_env a seq 0 w.
Definition sat_vault_wasm : Bytes := [Byte.x09].
Definition sat_schedule_wasm : Bytes := [Byte.x0a].

(** A constructor's final world. *)
Definition sat_run `{Countable K} {V Ev Er : Type} (a : N)
    (r : result Er (unit * Env (H := ref_host) K V Ev)) : option (N * RWorld) :=
  match r with Ok (_, v) => Some (a, world v) | Err _ => None end.

Lemma sat_run_Some `{Countable K} {V Ev Er : Type} a (r : result Er (unit * Env (H := ref_host) K V Ev)) a' w' :
  sat_run a r = Some (a', w') → ∃ v, r = Ok (tt, v) ∧ a' = a ∧ w' = world v.
Proof. destruct r as [[[] v]|]; [|done]. intros [= <- <-]. eauto. Qed.

Definition sat_deploy (self : N) (salt wasm : Bytes) (cargs : list RVal) (w : RWorld) :
    option (N * RWorld) :=
  let a := N.pos (encode (self, salt)) in
  w1 ← r_create_instance a wasm w;
  if decide (wasm = sat_vault_wasm) then
    x ← sat_vault_args cargs;
    sat_run a (vault_ctor (H := ref_host) x (sat_vault_env a sat_now w1))
  else if decide (wasm = sat_schedule_wasm) then
    x ← sat_schedule_args cargs;
    sat_run a (schedule_ctor (H := ref_host) x (sat_schedule_env a sat_now w1))
  else None.

Definition sat_lib : AccountLib (H := ref_host) :=
  Build_AccountLib ref_host nat unit 501120 518400 (λ _ _ _ _ _ _ w, Some (tt, w))
    (λ _ _ _ w, Some (tt, w)) (λ _ _ n _ w, Some (if (0 <? n)%nat then inl tt else inr tt, w))
    (λ _ _ w, Some (tt, w)) unit (λ _ _ w, Some (tt, w)) sat_deploy.

#[local] Instance sat_vault : Deployment (H := ref_host) (H0 := sat_lib) vault_ctor :=
  Build_Deployment ref_host sat_lib _ _ _ _ _ _ _ _ sat_vault_wasm sat_vault_args sat_vault_env.
#[local] Instance sat_schedule : Deployment (H := ref_host) (H0 := sat_lib) schedule_ctor :=
  Build_Deployment ref_host sat_lib _ _ _ _ _ _ _ _ sat_schedule_wasm sat_schedule_args sat_schedule_env.

#[local] Instance sat_vault_laws :
  DeploymentLaws (H := ref_host) (H0 := sat_lib) (ctor := vault_ctor) (λ _, sat_now) vault_args.
Proof.
  split; simpl.
  - done.
  - intros [|v1 [|v2 []]] x Hx; try done. apply bind_Some in Hx as (o & _ & Hx).
    apply bind_Some in Hx as (u & Hu & [= <-]). by eapply (val_to_u32_range (H := ref_host)).
  - intros me salt cargs w a w' Hd. unfold sat_deploy in Hd. apply bind_Some in Hd as (w1 & _ & Hd).
    rewrite decide_True in Hd by done. apply bind_Some in Hd as (x & Hx & Hd).
    apply sat_run_Some in Hd as (v & Hc & -> & ->). exists x, w1, v. split_and!; [exact Hx|exact Hc|done].
Qed.

#[local] Instance sat_schedule_laws :
  DeploymentLaws (H := ref_host) (H0 := sat_lib) (ctor := schedule_ctor) (λ _, sat_now) schedule_args.
Proof.
  split; simpl.
  - done.
  - intros [|v1 [|v2 [|v3 [|v4 [|v5 []]]]]] x Hx; try done.
    apply bind_Some in Hx as (o & _ & Hx). apply bind_Some in Hx as (t & _ & Hx).
    apply bind_Some in Hx as (n & Hn & Hx). apply bind_Some in Hx as (st & Hst & Hx).
    apply bind_Some in Hx as (l & Hl & [= <-]).
    split_and!; simpl; [done| |by eapply (val_to_u32_range (H := ref_host))..].
    by eapply (val_to_i128_range (H := ref_host)).
  - intros me salt cargs w a w' Hd. unfold sat_deploy in Hd. apply bind_Some in Hd as (w1 & _ & Hd).
    rewrite decide_False, decide_True in Hd by done. apply bind_Some in Hd as (x & Hx & Hd).
    apply sat_run_Some in Hd as (v & Hc & -> & ->). exists x, w1, v. split_and!; [exact Hx|exact Hc|done].
Qed.

(** Account 9 deploys a vault for itself, locked until ledger 500, and a schedule
    that pays it 1000 of token 7 over the ledgers 150 to 250. *)
Definition sat_env : Account.TEnv := Account.test_env0.
Definition sat_vault_deployed :=
  Account.deploy_contract (H := ref_host) (H0 := sat_lib) sat_vault_wasm [Byte.x01]
    [RAddress 9%N; RU32 500] sat_env.
Definition sat_schedule_cargs : list RVal :=
  [RAddress 9%N; RAddress 7%N; RI128 1000; RU32 150; RU32 250].
Definition sat_schedule_deployed :=
  Account.deploy_contract (H := ref_host) (H0 := sat_lib) sat_schedule_wasm [Byte.x01]
    sat_schedule_cargs sat_env.

Lemma sat_vault_ran :
  sat_vault_deployed = Ok (value sat_vault_deployed 0%N, final sat_vault_deployed sat_env).
Proof. apply ok_value. by_run. Qed.
Lemma sat_schedule_ran :
  sat_schedule_deployed = Ok (value sat_schedule_deployed 0%N, final sat_schedule_deployed sat_env).
Proof. apply ok_value. by_run. Qed.

Lemma deployed_vault_locked_witness :
  ∃ v0 : Env (H := ref_host) Vault.DataKey (Vault.VaultVal (H := ref_host))
           (Vault.VaultEvent (H := ref_host)),
    self v0 = value sat_vault_deployed 0%N
    ∧ ∀ token amount to v', Vault.withdraw (H := ref_host) token amount to v0 ≠ Ok (tt, v').
Proof.
  destruct (deployed_vault_locked (H := ref_host) (H0 := sat_lib) ref_balance_of (λ _, sat_now)
    [Byte.x01] [RAddress 9%N; RU32 500] sat_env (value sat_vault_deployed 0%N)
    (final sat_vault_deployed sat_env) [] ltac:(by_run)
    (Account.fresh_registry (H := ref_host) _ Account.test_fresh) ltac:(exact sat_vault_ran))
    as (_ & owner & unlock & v0 & Hargs & Hself & _ & Hseq & Hlt & Hrun).
  exists v0. split; [exact Hself|]. intros token amount to v'.
  injection Hargs as <- <-. apply (proj1 (Hrun v0 (rtc_refl _ _))).
  rewrite Hseq. exact Hlt.
Defined.

(** Whatever is claimed on the way, by ledger 300 a claim completes the total. *)
Lemma deployed_schedule_pays_witness :
  ∃ v0 : Env (H := ref_host) DataKey (ScheduleData (H := ref_host)) (VestingEvent (H := ref_host)),
    self v0 = value sat_schedule_deployed 0%N
    ∧ ∀ ps v to r v', run (H := ref_host) anything v0 ps v → sequence v = 300 →
        claim (H := ref_host) to v = Ok (r, v') → sumZ (ps ++ [r]) = 1000.
Proof.
  destruct (deployed_schedule_pays (H := ref_host) (H0 := sat_lib) (λ _, sat_now)
    [Byte.x01] sat_schedule_cargs sat_env (value sat_schedule_deployed 0%N)
    (final sat_schedule_deployed sat_env) [] ltac:(by_run)
    (Account.fresh_registry (H := ref_host) _ Account.test_fresh) ltac:(by_cmp)
    ltac:(exact sat_schedule_ran))
    as (_ & s & v0 & Hargs & _ & _ & Hself & _ & _ & Hrun).
  exists v0. split; [exact Hself|]. intros ps v to r v' Hr Hseq Hc.
  injection Hargs as <-. destruct (Hrun ps v Hr) as (_ & _ & Hpay).
  destruct (Hpay to r v' Hc) as (_ & _ & _ & Hend). apply Hend. rewrite Hseq. by_cmp.
Defined.
